(* ===== verification/_CoqProject ===== *)
-Q . S2P
Prelude.v
Text.v
Logger.v
Protocol.v
WriteBuffer.v
Split.v
Frame.v
Connection.v
Ledger.v
Control.v
Reliable.v
Kernel.v
EventLoop.v
ThreadPool.v
Gate.v
ChainApi.v
Config.v
Chain.v
Copy.v
SplitConfig.v
ChainFlow.v
SplitChain.v
Base64.v
ChainGraph.v
Workers.v
Network.v
ChainLinks.v
Threads.v
Pressure.v
Buffers.v
Memory.v
Compress.v
Crypto.v
Limit.v
Session.v
Delivery.v
SessionFacts.v
FlowControl.v
Client.v
ClientDelivery.v
ClientFacts.v
ClientFlow.v
Tunnel.v
TunnelBack.v
Registry.v
Handshake.v
Server.v
ServerSession.v
Tester.v
CommandLine.v
