(* ===== verification/Prelude.v ===== *)
(** * pipeline-tunnel: a verification library

    pipeline-tunnel carries TCP connections through a chain of packet-processing modules.
    A client accepts local connections and a server opens the matching target
    connections; between the two run one or more data connections. Each endpoint has the
    same parts:

    - the event loop ([core/kernel.cpp]) with a table of callbacks and epoll;
    - the module chain ([core/chain.cpp]): instances of modules linked in a line, with
      sub-chains for additional outputs, tasks run by a thread pool, accounting of buffers
      with back-pressure; direction 0 goes to the wire, direction 1 comes from it;
    - the wire: length-prefixed frames on each data connection (data, acknowledgement,
      control, heartbeat, half-close), write buffers with a priority queue, sequence
      numbers with retransmission per connection, control messages numbered across
      connections;
    - a session state machine ([server/session.cpp], [client/client.cpp]): mutual
      challenge-response, module list, chain creation, opening and closing of targets, flow
      control, reconnection, heartbeat.

    Around them: the configuration text ([core/config.cpp]), the registry of modules
    ([core/module_base.cpp]), the thread pool ([core/thread_pool.cpp]), the server's accept
    loop ([server/server.cpp]), the command lines and a test tool for modules.

    ** Files

    Each component is a [Module] of the name given; its records have the fields of the
    source's structures and its definitions the names of the source's functions.

    - [Prelude] (this file): machine integers, bit lemmas, loops that may not end
      ([iterate]), the state monad [act] with the predicate [keeps] ("every run preserves P")
      and its hint database.
    - [Text]: the C and C++ string functions the sources use ([find], [strstr], [atoi], ...).
    - [Logger]: levels, messages and the hexadecimal dump of [common/logger.cpp].
    - [Protocol]: packets, varints, [serialize] and [try_parse] ([core/protocol.cpp]).
    - [WriteBuffer] ([WB]): the two queues of [common/write_buffer.h]; the answers of
      [::write] are a list the operations consume.
    - [Split]: both directions of [modules/split/split.cpp]; [SplitConfig]: its [init].
    - [Frame]: the frames of a data connection and the reader loop of both endpoints
      ([register_data_connection_reader] in session.cpp and client.cpp).
    - [Connection]: a write buffer, the socket and the reader at its other end, composed.
    - [Ledger]: the bytes handed to one of the connections of an endpoint, on its socket or
      in its buffer; [Delivery] and [ClientDelivery] are built on it.
    - [Control]: [send_control], [deliver_control], [process_wire_buffer].
    - [Reliable]: sequence numbers, acknowledgements, retransmission; a step relation for a
      sender, a receiver and the channels between them.
    - [Kernel]: [add_fd_handler], [mod_fd_events], [del_fd], the dispatch of an event;
      [EventLoop]: the loop around it, stopping, and the eventfd.
    - [ThreadPool]: workers, mutex, condition variable and [stop] as interleaved steps.
    - [Gate]: the classes [Endpoint] and [EndpointLaws], what the argument about the EPOLLIN
      gate needs of an endpoint, and that argument.
    - [ChainApi]: the class [ChainOps], what an endpoint needs of a chain. [Session] and
      [Client] are written against it, [Chain] has the instance.
    - [Config]: [parse_chain], [parse_hostport], [scan_modules].
    - [Chain]: construction, buffers, tasks, heartbeats and teardown of [core/chain.cpp];
      what the modules do ([init], [process]), what [wire_write] returns and whether malloc
      succeeds are section variables.
    - [Copy]: the built-in copy module ([core/modules/copy.cpp]).
    - [ChainFlow], [ChainGraph]: theorems about packets in a chain and about its pointers.
    - [Workers]: the function of a task with its two locks, for any number of workers, with
      heartbeats and operations of the endpoint in between, as interleaved steps;
      [Pressure]: the separate atomic operations of [check_backpressure], with the buffers
      that somebody holds and can free.
    - [Network]: what the threads compute: the network of the modules as an abstract
      machine, with queues up to the order of packets that do not meet, and the simulation;
      [ChainLinks]: where the links of a built chain lead; [Threads]: termination and
      delivery with the threads in between.
    - [Buffers]: the class [Tidy], what a module owes the chain's count of allocated bytes
      (its last parameter says which packets it is promised), and the accounting; [Memory]: the instances for copy, base64 and split.
    - [SplitChain]: split among other modules, with the sub-chains it makes the constructor
      build; a task of such a chain as a step relation ([moves]). The modules may refuse
      packets.
    - [Base64]: [modules/base64/base64.c], its buffers, and tunnels with it; libbase64 is
      the class [Base64Lib], with an instance written after RFC 4648.
    - [Compress]: [modules/compress], its run-length encoding and its buffers; [Crypto]:
      [modules/crypto], with the ciphers as the class [Ciphers]; [Limit]: [modules/limit],
      token buckets in IEEE 754 arithmetic, computed with the definitions of [SpecFloat].
    - [Session]: every operation of [server/session.cpp] in the monad, with the kernel's
      table, the answers of the system and a log of what the outside sees. SHA-256, the
      table of modules, getaddrinfo and the session found for a reconnection are section
      variables.
    - [Delivery]: from a session's chain to the sockets of its targets.
    - [SessionFacts], [FlowControl]: theorems about the session.
    - [Client]: every operation of [client/client.cpp] in the same monad; SHA-256, the
      digits of the challenge and the module registry are section variables, the outcomes
      of opening sockets are part of the world.
    - [ClientDelivery]: from a client's chain to the sockets of external connections.
    - [ClientFacts], [ClientFlow]: theorems about the client.
    - [Tunnel], [TunnelBack]: both endpoints with their chains, in each direction.
    - [Registry]: the table of modules; what [dlopen] gives is a section variable. With it
      the look-ups that [Client] and [Session] take as parameters are discharged.
    - [Handshake]: a client and a session that exchange bytes.
    - [Server]: [server/server.cpp] against the class [SessionOps]; [ServerSession] makes
      [Session] an instance and joins the accept loop to [Handshake].
    - [Tester]: [module_tester/main.cpp] on the chains of [Chain].
    - [CommandLine]: [client/main.cpp] and [server/main.cpp], from [argv] to the settings.

    ** What is proved

    - End to end. [Tunnel.end_to_end]: the first 16384 blocks the client reads from a
      connection, through its chain, whatever happens to the order of the chunks, the server's chain and the
      session, are on the target's socket or in its buffer, byte for byte;
      [TunnelBack.end_to_end_back] is the other direction. Both rest on
      [SplitChain.tunnel_delivers], on endpoints that are [SplitChain.healthy]: memory does not
      run out and [wire_write] takes every packet. The bound is the code's: split numbers
      packets with 15 bits on the wire, and further on it may take a packet for another
      ([Split.merge_window_exceeded]). That chunks arrive at all is what [Reliable], [Frame]
      and [Connection.connection_carries_frames] (writer, socket and reader of one
      connection) are about. [Base64.base64_tunnel] instantiates the modules,
      [Base64.base64_buffers] is about their memory.
    - Data integrity. [Split.split_merge_roundtrip]: packets cut into chunks and merged from
      any arrival order within the window come out unchanged; [SplitConfig.split_init_ok] discharges what it
      asks of the context. [Reliable.exactly_once_in_order]: a connection that repeats
      frames and delays acknowledgements delivers each block once, in order.
      [Frame.reader_segmentation]: the reader's result does not depend on how the stream is
      cut into reads; [Frame.reader_undefined_only]: exactly which frames make it leave its
      buffer. [WB.buffer_streams], [WB.priority_never_splits_data]: a write buffer
      loses, reorders and interleaves nothing it should not. [Control.control_in_order]:
      control messages, numbered by [send_control] and received as frames of which none
      overtakes 256 others, are applied in the order sent. [Protocol.try_parse_serialize]:
      packets round trip.
    - The chain. [ChainFlow.chain_is_composition] refines the chain with its queue of tasks
      to the composition of its modules, with termination; [ChainFlow.peer_chain_inverts]
      composes the two ends; [SplitChain.split_tunnel_delivers] does so for a tunnel over
      several connections, from the configuration text to the packets of the peer, on top
      of [Config], [SplitConfig], [Split] and [Chain];
      [ChainGraph.chain_pointers_valid] is about the graph,
      [Chain.teardown_releases] about the end, [Chain.pause_callbacks_exact] about the
      callbacks of the back-pressure.
    - Threads. [ThreadPool.pool_drains]: however threads are scheduled, no task is left
      behind by a running pool; [ThreadPool.one_worker_fifo]: with one worker tasks run in
      order, which is what the queue of [Chain] stands for.
      [Workers.workers_never_deadlock], [Workers.calls_in_lock_order],
      [Workers.workers_pointers_valid], [Workers.drained_iff_at_rest]: the locks of a chain
      with any number of workers; [Workers.one_worker_is_work] and
      [Pressure.alone_is_atomic] justify the single steps of [Chain] where nothing
      interferes, and [Pressure.late_pause_sticks] shows what interference does;
      [Pressure.count_exact]: the count itself stays exact.
      [Network.workers_refine_network]: with any number of workers, whatever is interleaved,
      the chain computes a run of the network of its modules; for one worker
      [Threads.one_worker_refines_network] has the order as well. [Threads.pool_delivers] and
      [Threads.split_threads_rest]: the threads come to rest, with the right packets out;
      [Threads.threads_deliver]: a tunnel delivers when packets, chunks and heartbeats come
      between any two calls of a module.
      [EventLoop.work_done_by_next_tick]: work handed to the event loop is done in order;
      [EventLoop.wake_stays_watched]: it can always be woken.
    - Memory and modules. [Buffers.buffers_accounted]: with tidy modules the bytes counted as
      allocated are exact and the back-pressure follows them, when [wire_write] takes every
      packet and no two threads check it at once; [Memory.split_tidy],
      [Memory.base64_tidy], [Limit.limit_tidy] discharge it, [Crypto.crypto_not_tidy] refutes
      it for crypto. [Crypto.crypto_roundtrip], [Limit.limit_conserves],
      [Compress.rle_roundtrip_iff] (when run-length encoding gives a packet back) and
      [Compress.rle_unpack_inside] are about the modules themselves.
    - The server. [Server.data_connection_joins]: a further data connection reaches exactly
      the session it names, if its nine bytes come in time; [ServerSession.silent_client_gets_session]: a silent one becomes
      a session in the state from which [Handshake] starts; [Server.server_invariant]: reads
      stay in bounds and session ids are unique.
    - The session. [SessionFacts.authentication_required]: no state beyond the first without
      the password. [FlowControl.flow_control_never_stalls]: no interleaving of pause and
      resume leaves a target unread that nothing pauses. [Kernel.kernel_interest_exact]: the
      event loop watches what it should.
    - The client. [ClientFacts.client_authenticates_server]: no tunnel to a server without
      the password. [ClientFlow.client_never_stalls]: the gate again, for external
      connections. [Handshake.handshake_completes]: with the same password the two ends
      accept each other; [Registry.endpoints_agree_on_modules] and
      [ClientFacts.chain_config_roundtrip]: they agree on the modules and on the chain.
      [Handshake.tunnel_opens] evaluates both models from the first byte to a running
      tunnel. [ClientFacts.client_releases_all]: how a client ends.
    - Configuration. [Config.parse_chain_roundtrip] and [Config.parse_chain_wf]: the text
      expresses exactly the well-formed configurations; [Registry.load_order_irrelevant],
      [Registry.registry_invariant]: the table of modules;
      [CommandLine.client_settings_ok], [CommandLine.listen_spec_roundtrip]: what an
      endpoint starts with; [Tester.tester_exact_on_one_module]: what a verdict means;
      [Logger.hex_dump_readable], [Logger.verbosity_monotone]: what is logged.
    - Defects of the code, as theorems on the same definitions: a reconnection loses blocks
      and targets, a refused write frees a buffer twice, a late handshake is taken for a new
      client, stopping the pool can hang, two workers reorder packets, short frames read
      outside the buffer, a peer can keep split's merge loop running for ever
      ([Split.merge_never_returns]), a chain can stay paused with nothing allocated, the compress module
      shortens packets, the crypto module frees refused packets twice, the limiter reorders
      and swallows packets, and others; each theorem's comment names the cause.

    ** Bounds and fuel

    Integers have the width of the source ([u8], [u16], [u32], [u64], [int32]). Loops that
    are not structural take fuel, and a lemma shows it is enough: the length of the buffer
    for the readers and [packet_loop] (every round uses a byte), the length of the text for
    [split_blocks], the number of arguments for the command lines, ten for a 64-bit varint,
    256 for the reorder table, the length of a packet for run-length encoding, the number of
    unacknowledged frames for a retransmission, the number of configured modules for the rounds of sub-chain construction, modules
    times queued tasks for draining a chain ([SplitChain.total] with split in it, where a
    packet becomes at most as many chunks as it has bytes), the answers of the system left for the
    flush loop of an external connection. [WB.flush_terminates] is about a loop that
    really depends on its environment: its fuel is derived from the buffered bytes.
    [ThreadPool.effort] bounds the steps of a pool, [Nat] digits of 64 bits need 20.

    The merge loop of split, a [while (true)], need not end, and its model says so: it is
    [iterate2] of one round, which gives nothing when 2^(32 + n) rounds, with [n] slots
    waiting, do not end it. [Split.merge_loop_exact]: then no number of rounds does, because
    by then the 32-bit counter has come round with the table unchanged; and
    [Split.merge_loop_bounded]: it ends when no chunk announces a 65537th of its packet
    ([Split.last_fits]), as none of split's own does. The operations of a chain take this as
    a condition on the chunks of the peer ([SplitChain.chunk_fits]).

    ** What is not modelled

    The calls that log, traces and the printed texts are left out where they occur. Threads
    appear as interleavings of atomic operations, each of which the code does under a lock;
    [ThreadPool], [Workers] and [Pressure] go below that, to single steps. The end-to-end
    theorems of [Tunnel] and [TunnelBack] take a task of a chain for one step of one worker,
    the default; [Threads] has the interleavings at the level of the chains. With more
    workers the pool does not keep the order ([Workers.two_workers_swap_packets]), the
    chain's locks do not restore it, and [Threads.pool_delivers] promises the packets in some
    order only. Two split modules in one chain, and modules that keep state such as crypto's
    nonces or the limiter's queue, are covered by [Chain], [ChainGraph], [Workers], [Network]
    and [Buffers] but not by the delivery theorems. Seven of the eight algorithms of the
    compress module are libraries and stay a parameter. The registration of signal handlers
    only calls the system. Structures of function pointers ([chain_ref.h], [kernel_api.h])
    have no code of their own; the functions that are set there and never called are left
    out. The session that a reconnection request names is a parameter of [Session]; no client
    of this repository sends such a request. *)

From Stdlib Require Export ZArith Lia.
From stdpp Require Export base tactics numbers list gmap strings.
From stdpp Require Import options.
Local Open Scope Z_scope.

(** ** Machine integers

    An unsigned w-bit C++ value is a [Z] kept in [0, 2^w); the four functions
    below are the implicit conversions to [uint8_t], [uint16_t], [uint32_t] and
    [uint64_t]/[size_t]. *)

Definition u8 (z : Z) : Z := z mod 2 ^ 8.
Definition u16 (z : Z) : Z := z mod 2 ^ 16.
Definition u32 (z : Z) : Z := z mod 2 ^ 32.
Definition u64 (z : Z) : Z := z mod 2 ^ 64.

Abbreviation bytes := (list Z).

Definition is_byte (b : Z) : Prop := 0 <= b < 256.
Abbreviation bytes_ok := (Forall is_byte).

Create HintDb wire discriminated.

(** [zlia]: linear arithmetic after the machine conversions and the
    division/modulo they hide are spelled out. *)
Ltac zwrap := unfold u8, u16, u32, u64, is_byte in *; change (2 ^ 8) with 256 in *;
  change (2 ^ 16) with 65536 in *; change (2 ^ 32) with 4294967296 in *;
  change (2 ^ 64) with 18446744073709551616 in *.
Ltac zlia := zwrap; Z.div_mod_to_equations; lia.

(** ** Bit operations on non-negative integers *)

Section bits.

Lemma land_mask (x n : Z) : 0 <= n → Z.land x (Z.ones n) = x mod 2 ^ n.
Proof. apply Z.land_ones. Qed.

Lemma land_7f (x : Z) : Z.land x 127 = x mod 128.
Proof. exact (Z.land_ones x 7 ltac:(lia)). Qed.

Lemma land_ff (x : Z) : Z.land x 255 = x mod 256.
Proof. exact (Z.land_ones x 8 ltac:(lia)). Qed.

Lemma land_7fff (x : Z) : Z.land x 32767 = x mod 32768.
Proof. exact (Z.land_ones x 15 ltac:(lia)). Qed.

Lemma land_ffff (x : Z) : Z.land x 65535 = x mod 65536.
Proof. exact (Z.land_ones x 16 ltac:(lia)). Qed.

(** Setting bits above a small value is an addition. *)
Lemma lor_shiftl_add (a b n : Z) :
  0 <= n → 0 <= a < 2 ^ n → Z.lor a (Z.shiftl b n) = a + b * 2 ^ n.
Proof.
  intros Hn Ha. rewrite <- Z.shiftl_mul_pow2 by lia.
  rewrite <- Z.lxor_lor; [symmetry; apply Z.add_nocarry_lxor|];
    apply Z.bits_inj'; intros k Hk; rewrite Z.land_spec, Z.bits_0;
    rewrite Z.shiftl_spec by lia; destruct (Z.lt_ge_cases k n).
  1, 3: rewrite (Z.testbit_neg_r b) by lia; apply andb_false_r.
  all: replace (Z.testbit a k) with false; [done|symmetry];
    destruct (decide (a = 0)) as [->|]; [apply Z.bits_0|];
    apply Z.bits_above_log2; [lia|]; apply Z.log2_lt_pow2; [lia|];
    eapply Z.lt_le_trans; [apply Ha|apply Z.pow_le_mono_r; lia].
Qed.

Lemma lor_range (a b n : Z) :
  0 <= n → 0 <= a < 2 ^ n → 0 <= b < 2 ^ n → 0 <= Z.lor a b < 2 ^ n.
Proof.
  intros Hn Ha Hb.
  assert (Z.lor a b = Z.lor a b mod 2 ^ n) as ->; [|apply Z.mod_pos_bound; lia].
  rewrite <- Z.land_ones, Z.land_lor_distr_l, !Z.land_ones by lia.
  by rewrite !Z.mod_small by lia.
Qed.

Lemma lor_128 (x : Z) : 0 <= x < 128 → Z.lor x 128 = x + 128.
Proof. intros. exact (lor_shiftl_add x 1 7 ltac:(lia) ltac:(lia)). Qed.

(** The continuation bit of a byte. *)
Lemma land_80 (x : Z) : is_byte x → (Z.land x 128 =? 0) = (x <? 128).
Proof.
  unfold is_byte. intros Hx.
  replace (Z.land x 128) with (Z.shiftl (x / 128) 7).
  - rewrite Z.shiftl_mul_pow2 by lia. change (2 ^ 7) with 128.
    assert (x / 128 = 0 ∨ x / 128 = 1) by zlia.
    destruct (Z.ltb_spec x 128), (Z.eqb_spec (x / 128 * 128) 0); zlia.
  - apply Z.bits_inj'; intros k Hk. rewrite Z.shiftl_spec, Z.land_spec by lia.
    change 128 with (2 ^ 7). rewrite Z.pow2_bits_eqb by lia.
    destruct (Z.lt_total k 7) as [|[->|]].
    + rewrite Z.testbit_neg_r by lia. rewrite (proj2 (Z.eqb_neq 7 k)) by lia.
      by rewrite andb_false_r.
    + rewrite <- Z.shiftr_div_pow2, Z.shiftr_spec, Z.eqb_refl, andb_true_r by lia. done.
    + rewrite (proj2 (Z.eqb_neq 7 k)), andb_false_r by lia.
      assert (x / 2 ^ 7 = 0 ∨ x / 2 ^ 7 = 1) as [-> | ->] by (change (2 ^ 7) with 128; zlia).
      * apply Z.bits_0.
      * apply (Z.bits_above_log2 1); simpl; lia.
Qed.

End bits.

(** ** Lists filtered by a partial function *)

Lemma sum_insert {A} (f : A → nat) (ws : list A) i p q : ws !! i = Some p →
  (sum_list_with f (<[i := q]> ws) + f p = sum_list_with f ws + f q)%nat.
Proof.
  intros Hi. rewrite <- (take_drop_middle ws i p Hi) at 2.
  assert (i < length ws)%nat by (by eapply lookup_lt_Some).
  rewrite insert_take_drop by done. rewrite !sum_list_with_app. cbn. lia.
Qed.

Lemma omap_cons_opt {A B} (g : A → option B) a (l : list A) : omap g (a :: l) = option_list (g a) ++ omap g l.
Proof. cbn. by destruct (g a). Qed.
Lemma omap_snoc_opt {A B} (g : A → option B) a (l : list A) : omap g (l ++ [a]) = omap g l ++ option_list (g a).
Proof. rewrite omap_app, omap_cons_opt. cbn. by rewrite app_nil_r. Qed.

Lemma omap_omap {A B C} (f : A → option B) (g : B → option C) (l : list A) :
  omap g (omap f l) = omap (λ a, f a ≫= g) l.
Proof.
  induction l as [|a l IH]; [done|]. rewrite !omap_cons_opt, <- IH, omap_app.
  destruct (f a); [|done]. cbn. by destruct (g b).
Qed.

Lemma omap_id {A} (f : A → option A) (l : list A) : Forall (λ a, f a = Some a) l → omap f l = l.
Proof. induction 1 as [|a l Ha _ IH]; [done|]. by rewrite omap_cons_opt, Ha, IH. Qed.

Lemma filter_ext_in {A} (P Q : A → Prop) `{∀ x, Decision (P x), ∀ x, Decision (Q x)} (l : list A) :
  Forall (λ x, P x ↔ Q x) l → filter P l = filter Q l.
Proof.
  induction 1 as [|x l Hx _ IH]; [done|]. rewrite !filter_cons, IH.
  destruct (decide (P x)), (decide (Q x)); done || tauto.
Qed.

(** All elements but the one at [i] are refused. *)
Lemma omap_single {A B} (g : A → option B) (l : list A) i a :
  l !! i = Some a → (∀ j b, j ≠ i → l !! j = Some b → g b = None) → omap g l = option_list (g a).
Proof.
  intros Hi Hg. rewrite <- (take_drop_middle l i a Hi), omap_app, omap_cons_opt.
  assert (∀ k, Forall (λ b, g b = None) k → omap g k = []) as Hnil.
  { induction 1 as [|b k Hb _ IH]; [done|]. by rewrite omap_cons_opt, Hb, IH. }
  rewrite !Hnil, app_nil_r; [done| |]; apply Forall_lookup; intros j b Hj.
  - rewrite lookup_drop in Hj. apply (Hg (S i + j)%nat); [lia|done].
  - apply lookup_take_Some in Hj as [Hj Hlt]. apply (Hg j); [lia|done].
Qed.

Lemma length_omap {A B} (f : A → option B) (l : list A) : (length (omap f l) <= length l)%nat.
Proof. induction l as [|a l IH]; [done|]. rewrite omap_cons_opt. destruct (f a); cbn; lia. Qed.

(** ** Loops that may not end

    [step] is one round of a loop: [None] is [break], otherwise the new state and what the
    round has done. After some rounds the loop is still running ([inl]) or has ended
    ([inr]). [iterate] counts the rounds one by one; [iterate2 d] makes [2 ^ d] of them and
    returns as soon as the loop ends, so that it can be computed. *)

Section loops.
Context {A E : Type} (step : A → option (A * list E)).

Definition after (es : list E) (r : (A * list E) + (A * list E)) : (A * list E) + (A * list E) :=
  match r with inl (s, es') => inl (s, es ++ es') | inr (s, es') => inr (s, es ++ es') end.

Fixpoint iterate (n : nat) (s : A) : (A * list E) + (A * list E) :=
  match n with
  | O => inl (s, [])
  | S k => match step s with None => inr (s, []) | Some (s', es) => after es (iterate k s') end
  end.

Fixpoint iterate2 (d : nat) (s : A) : (A * list E) + (A * list E) :=
  match d with
  | O => match step s with None => inr (s, []) | Some (s', es) => inl (s', es) end
  | S k => match iterate2 k s with inl (s', es) => after es (iterate2 k s') | r => r end
  end.

Lemma after_nil r : after [] r = r.
Proof. by destruct r as [[]|[]]. Qed.
Lemma after_after es1 es2 r : after es1 (after es2 r) = after (es1 ++ es2) r.
Proof. destruct r as [[]|[]]; cbn; by rewrite <- app_assoc. Qed.

Lemma iterate_add n m s :
  iterate (n + m) s = match iterate n s with inl (s', es) => after es (iterate m s') | r => r end.
Proof.
  revert s. induction n as [|n IH]; intros s; [cbn; by rewrite after_nil|]. cbn [Nat.add iterate].
  destruct (step s) as [[s' es]|]; [|done]. rewrite IH. destruct (iterate n s') as [[s2 es2]|[]]; [|done].
  cbn [after]. by rewrite <- after_after.
Qed.

Lemma iterate2_iterate d s : iterate2 d s = iterate (2 ^ d) s.
Proof.
  revert s. induction d as [|d IH]; intros s.
  { cbn. destruct (step s) as [[s' es]|]; [|done]. cbn. by rewrite app_nil_r. }
  cbn [iterate2]. replace (2 ^ S d)%nat with (2 ^ d + 2 ^ d)%nat by (cbn; lia). rewrite iterate_add, IH.
  destruct (iterate (2 ^ d) s) as [[s' es]|r]; [|done]. by rewrite IH.
Qed.

(** A loop that has ended has ended. *)
Lemma iterate_mono n m s r : iterate n s = inr r → (n <= m)%nat → iterate m s = inr r.
Proof. intros Hn Hm. replace m with (n + (m - n))%nat by lia. by rewrite iterate_add, Hn. Qed.

(** A loop that is back where it was after some rounds does not end. *)
Lemma iterate_cycle n s es : (0 < n)%nat → iterate n s = inl (s, es) → ∀ m, ∃ r, iterate m s = inl r.
Proof.
  intros Hn Hs m. destruct (iterate m s) as [r|r] eqn:Er; [by eexists|exfalso].
  assert (∀ k, ∃ es', iterate (k * n) s = inl (s, es')) as Hk.
  { induction k as [|k [es' IH]]; [by eexists|]. cbn [Nat.mul]. rewrite iterate_add, Hs, IH. cbn. by eexists. }
  destruct (Hk m) as [es' Hm]. rewrite (iterate_mono m (m * n) s r Er) in Hm; [done|nia].
Qed.

(** What every round keeps, holds whenever the loop stands. *)
Lemma iterate_ind (P : A → Prop) (Q : list E → Prop) :
  Q [] → (∀ l k, Q l → Q k → Q (l ++ k)) →
  (∀ s s' es, P s → step s = Some (s', es) → P s' ∧ Q es) →
  ∀ n s, P s → match iterate n s with inl (s', es) | inr (s', es) => P s' ∧ Q es end.
Proof.
  intros Q0 Qapp Hstep. induction n as [|n IH]; intros s Hs; [done|]. cbn [iterate].
  destruct (step s) as [[s' es]|] eqn:Es; [|done]. destruct (Hstep _ _ _ Hs Es) as [Hs' He].
  specialize (IH s' Hs'). destruct (iterate n s') as [[s2 es2]|[s2 es2]]; cbn; destruct IH; auto.
Qed.

(** A measure that every round makes smaller ends the loop. *)
Lemma iterate_ends (P : A → Prop) (measure : A → nat) :
  (∀ s s' es, P s → step s = Some (s', es) → P s' ∧ (measure s' < measure s)%nat) →
  ∀ n s, P s → (measure s < n)%nat → ∃ r, iterate n s = inr r.
Proof.
  intros Hstep. induction n as [|n IH]; intros s Hs Hn; [lia|]. cbn [iterate].
  destruct (step s) as [[s' es]|] eqn:Es; [|by eexists]. destruct (Hstep _ _ _ Hs Es) as [Hs' Hm].
  destruct (IH s' Hs' ltac:(lia)) as [[s2 es2] ->]. by eexists.
Qed.

End loops.

(** ** Stateful code

    [act S A]: a computation on a state [S] with a result [A]. It has no result when the
    program would wait for ever inside a loop or leave defined behaviour. *)

Definition act (S A : Type) : Type := S → option (A * S).

#[global] Instance act_ret {S} : MRet (act S) := λ _ a s, Some (a, s).
#[global] Instance act_bind {S} : MBind (act S) :=
  λ _ _ f m s, match m s with Some (a, s') => f a s' | None => None end.

Section act.
Context {S : Type}.

Definition get : act S S := λ s, Some (s, s).
Definition gets {A} (f : S → A) : act S A := λ s, Some (f s, s).
Definition modify (f : S → S) : act S unit := λ s, Some (tt, f s).
Definition fail {A} : act S A := λ _, None.
Definition of_option {A} (o : option A) : act S A := λ s, (.,s) <$> o.

Definition when (b : bool) (m : act S unit) : act S unit := if b then m else mret tt.

(** [for (auto &x : l) f(x)]. *)
Fixpoint each {A} (l : list A) (f : A → act S unit) : act S unit :=
  match l with
  | [] => mret tt
  | x :: rest => f x ;; each rest f
  end.

Lemma bind_some {A B} (m : act S A) (f : A → act S B) s b s' :
  (m ≫= f) s = Some (b, s') → ∃ a s1, m s = Some (a, s1) ∧ f a s1 = Some (b, s').
Proof. unfold mbind, act_bind. destruct (m s) as [[a s1]|]; [eauto|done]. Qed.

(** [keeps P m]: every run of [m] preserves [P]. *)
Definition keeps {A} (P : S → Prop) (m : act S A) : Prop :=
  ∀ s a s', m s = Some (a, s') → P s → P s'.

Lemma keeps_ret {A} P (a : A) : keeps P (mret a).
Proof. by intros s ? ? [= -> ->]. Qed.

Lemma keeps_gets {A} P (f : S → A) : keeps P (gets f).
Proof. by intros s ? ? [= <- <-]. Qed.

Lemma keeps_get P : keeps P get.
Proof. by intros s ? ? [= <- <-]. Qed.

Lemma keeps_fail {A} P : keeps P (fail : act S A).
Proof. by intros s ? ?. Qed.

Lemma keeps_of_option {A} P (o : option A) : keeps P (of_option o).
Proof. intros s a s'. unfold of_option. destruct o; [|done]. by intros [= <- <-]. Qed.

Lemma keeps_modify (P : S → Prop) f : (∀ s, P s → P (f s)) → keeps P (modify f).
Proof. intros H s ? ? [= <- <-]. apply H. Qed.

Lemma keeps_bind {A B} P (m : act S A) (f : A → act S B) :
  keeps P m → (∀ a, keeps P (f a)) → keeps P (m ≫= f).
Proof. intros Hm Hf s b s' (a & s1 & E1 & E2)%bind_some HP. by eapply Hf, Hm. Qed.

Lemma keeps_when P b m : (b = true → keeps P m) → keeps P (when b m).
Proof. destruct b; cbn [when]; [auto|intros; apply keeps_ret]. Qed.

Lemma keeps_each {A} P (l : list A) f : (∀ x, x ∈ l → keeps P (f x)) → keeps P (each l f).
Proof.
  induction l as [|x l IH]; cbn [each]; intros H; [apply keeps_ret|].
  apply keeps_bind; [apply H; by left|]. intros _. apply IH. intros y Hy. apply H. by right.
Qed.

End act.

Create HintDb keeps discriminated.
#[export] Hint Resolve keeps_ret keeps_gets keeps_get keeps_fail keeps_of_option
  keeps_bind keeps_when keeps_each : keeps.
