(* ===== verification/Text.v ===== *)
(** * C and C++ string functions

    What the sources use of [<cstring>], [<cstdlib>] and [std::string] on configuration
    text: [find], [rfind], [substr], [strchr], [strstr], [atoi], [atol]; and the decimal
    digits of a number, for the round trips. A string is a list of bytes. *)

From S2P Require Import Prelude.
From stdpp Require Import options.
From Stdlib Require Import Ascii.
Local Open Scope Z_scope.

(** A literal of the source. *)
Definition lit (s : string) : bytes :=
  map (λ c, Z.of_nat (nat_of_ascii c)) (String.list_ascii_of_string s).

(** The C string in a [std::string] ends at its first zero byte. *)
Fixpoint c_str (s : bytes) : bytes :=
  match s with
  | [] => []
  | b :: rest => if b =? 0 then [] else b :: c_str rest
  end.

(** [strstr]: what follows the first occurrence of [needle], included. *)
Fixpoint strstr (needle hay : bytes) : option bytes :=
  if bool_decide (take (length needle) hay = needle) then Some hay
  else match hay with [] => None | _ :: rest => strstr needle rest end.

(** The index of the first [c]; [std::string::find] from a start position, [rfind],
    [substr]. *)
Fixpoint index_of (c : Z) (s : bytes) : option nat :=
  match s with
  | [] => None
  | b :: rest => if b =? c then Some 0%nat else S <$> index_of c rest
  end.

Definition find (c : Z) (s : bytes) (start : nat) : option nat :=
  Nat.add start <$> index_of c (drop start s).

Fixpoint rfind (c : Z) (s : bytes) : option nat :=
  match s with
  | [] => None
  | b :: rest => match rfind c rest with
                 | Some i => Some (S i)
                 | None => if b =? c then Some 0%nat else None
                 end
  end.

Definition substr (s : bytes) (pos len : nat) : bytes := take len (drop pos s).

(** ["%02x"] of every byte. *)
Definition hex_digit (n : Z) : Z := if n <? 10 then 48 + n else 87 + n.
Definition to_hex (l : bytes) : bytes := concat (map (λ b, [hex_digit (b / 16); hex_digit (b mod 16)]) l).

Lemma length_to_hex l : length (to_hex l) = (2 * length l)%nat.
Proof. unfold to_hex. induction l as [|b l IH]; cbn; [done|]. cbn in IH. lia. Qed.

Lemma hex_digit_inj a b : 0 <= a < 16 → 0 <= b < 16 → hex_digit a = hex_digit b → a = b.
Proof. unfold hex_digit. destruct (Z.ltb_spec a 10), (Z.ltb_spec b 10); lia. Qed.

Lemma to_hex_inj l : bytes_ok l → ∀ l', bytes_ok l' → to_hex l = to_hex l' → l = l'.
Proof.
  induction 1 as [|a l Ha _ IH]; intros l' Hl' E; destruct Hl' as [|b l' Hb Hl']; try done.
  unfold to_hex in E. cbn in E. injection E as E1 E2 E. apply hex_digit_inj in E1, E2; try zlia.
  f_equal; [zlia|]. by apply IH.
Qed.

(** ** Numbers *)

Definition isspace (b : Z) : bool := ((9 <=? b) && (b <=? 13)) || (b =? 32).
Definition isdigit (b : Z) : bool := (48 <=? b) && (b <=? 57).

(** The conversion to [int], which keeps the low 32 bits. *)
Definition int32 (z : Z) : Z :=
  let r := z mod 2 ^ 32 in if r <? 2 ^ 31 then r else r - 2 ^ 32.

Fixpoint skip_spaces (s : bytes) : bytes :=
  match s with
  | [] => []
  | b :: rest => if isspace b then skip_spaces rest else s
  end.

Fixpoint digits_value (acc : Z) (s : bytes) : Z :=
  match s with
  | [] => acc
  | b :: rest => if isdigit b then digits_value (acc * 10 + (b - 48)) rest else acc
  end.

(** [strtol(s, nullptr, 10)]: spaces, a sign, digits; the value is kept within [long].
    [atol] and [atoi] are this value (glibc defines them so, the C standard leaves a value
    out of range open). *)
Definition strtol (s : bytes) : Z :=
  let '(neg, ds) := match skip_spaces s with
                    | b :: rest => if b =? 45 then (true, rest)
                                   else if b =? 43 then (false, rest)
                                   else (false, b :: rest)
                    | [] => (false, [])
                    end in
  let v := digits_value 0 ds in
  if (neg : bool) then Z.max (- 2 ^ 63) (- v) else Z.min (2 ^ 63 - 1) v.

Definition atol (s : bytes) : Z := strtol s.
Definition atoi (s : bytes) : Z := int32 (strtol s).

(** The decimal digits of [n], without leading zeros, as [printf("%d")] writes them. *)
Fixpoint dec_digits (fuel : nat) (n : Z) : bytes :=
  match fuel with
  | O => []
  | S f => if n <? 10 then [48 + n] else dec_digits f (n / 10) ++ [48 + n mod 10]
  end.

Definition dec (n : Z) : bytes := dec_digits 20 n.
Arguments dec : simpl never.

(** The pieces of a text between the separators [c]: one more than there are separators. *)
Fixpoint split_on (c : Z) (s : bytes) : list bytes :=
  match s with
  | [] => [[]]
  | x :: s' =>
      if x =? c then [] :: split_on c s'
      else match split_on c s' with t :: ts => (x :: t) :: ts | [] => [[x]] end
  end.

(** ** Command lines *)

(** The value of an option: the rest of the argument, or else the next argument. *)
Definition option_value (rest : bytes) (more : list bytes) : bytes * list bytes :=
  match rest, more with
  | [], v :: more' => (v, more')
  | _, _ => (rest, more)
  end.

(** ** Lemmas *)

Section find.
Context (c : Z).

Lemma index_of_app_r (s t : bytes) :
  c ∉ s → index_of c (s ++ c :: t) = Some (length s).
Proof.
  induction s as [|b s IH]; intros Hn; cbn; [by rewrite Z.eqb_refl|].
  apply not_elem_of_cons in Hn as [Hb Hs].
  rewrite (proj2 (Z.eqb_neq b c)) by done. by rewrite IH.
Qed.

Lemma index_of_none (s : bytes) : index_of c s = None ↔ c ∉ s.
Proof.
  induction s as [|b s IH]; cbn.
  - split; [intros _; apply not_elem_of_nil|done].
  - rewrite not_elem_of_cons, <- IH. destruct (Z.eqb_spec b c).
    + split; [done|]. by intros [? _].
    + destruct (index_of c s); cbn; naive_solver.
Qed.

Lemma index_of_some (s : bytes) i :
  index_of c s = Some i → s = take i s ++ c :: drop (S i) s ∧ c ∉ take i s.
Proof.
  revert i. induction s as [|b s IH]; intros i; cbn [index_of]; [done|].
  destruct (Z.eqb_spec b c) as [->|Hb].
  - intros [= <-]. split; [done|apply not_elem_of_nil].
  - destruct (index_of c s) as [j|]; [|done]. intros [= <-].
    destruct (IH j eq_refl) as [E N]. split; [|cbn; apply not_elem_of_cons; auto].
    cbn. by f_equal.
Qed.

Lemma rfind_none (s : bytes) : rfind c s = None ↔ c ∉ s.
Proof.
  induction s as [|b s IH]; cbn.
  - split; [intros _; apply not_elem_of_nil|done].
  - rewrite not_elem_of_cons, <- IH. destruct (rfind c s); [naive_solver|].
    destruct (Z.eqb_spec b c); naive_solver.
Qed.

Lemma rfind_app (s t : bytes) :
  c ∉ t → rfind c (s ++ c :: t) = Some (length s).
Proof.
  intros Ht. induction s as [|b s IH]; cbn; [|by rewrite IH].
  by rewrite (proj2 (rfind_none t) Ht), Z.eqb_refl.
Qed.

Lemma rfind_lt (s : bytes) i : rfind c s = Some i → (i < length s)%nat.
Proof.
  revert i. induction s as [|b s IH]; intros i; cbn; [done|].
  destruct (rfind c s) as [j|]; [intros [= <-]; specialize (IH j eq_refl); lia|].
  destruct (b =? c); [intros [= <-]; lia|done].
Qed.

End find.

Lemma not_elem_of_take (c : Z) (s : bytes) n : c ∉ s → c ∉ take n s.
Proof. intros H Hin. apply H. rewrite <- (take_drop n s). set_solver. Qed.

Lemma not_elem_of_drop (c : Z) (s : bytes) n : c ∉ s → c ∉ drop n s.
Proof. intros H Hin. apply H. rewrite <- (take_drop n s). set_solver. Qed.

(** What follows a separator. *)
Lemma drop_separator (c : Z) (s t : bytes) : drop (S (length s)) (s ++ c :: t) = t.
Proof. induction s; cbn; [done|done]. Qed.

Lemma digits_value_app acc (ds rest : bytes) :
  forallb isdigit ds = true →
  digits_value acc (ds ++ rest) = digits_value (digits_value acc ds) rest.
Proof.
  revert acc. induction ds as [|d ds IH]; intros acc; cbn; [done|].
  intros [Hd Hr]%andb_prop. rewrite Hd. auto.
Qed.

(** A list of digits that reads as [n]. *)
Definition reads_as (n : Z) (ds : bytes) : Prop :=
  forallb isdigit ds = true ∧ digits_value 0 ds = n ∧ ds ≠ [].

Lemma dec_digits_reads fuel n : 0 <= n < 10 ^ Z.of_nat (S fuel) →
  reads_as n (dec_digits (S fuel) n).
Proof.
  revert n. induction fuel as [|fuel IH]; intros n Hn.
  - assert (E : (n <? 10) = true) by (apply Z.ltb_lt; change (10 ^ Z.of_nat 1) with 10 in Hn; lia).
    cbn [dec_digits]. rewrite E. apply Z.ltb_lt in E.
    repeat split; [cbn; unfold isdigit; rewrite !(proj2 (Z.leb_le _ _)) by lia; done| |done].
    cbn [digits_value]. unfold isdigit. rewrite !(proj2 (Z.leb_le _ _)) by lia. cbn. lia.
  - change (dec_digits (S (S fuel)) n) with
      (if n <? 10 then [48 + n] else dec_digits (S fuel) (n / 10) ++ [48 + n mod 10]).
    destruct (Z.ltb_spec n 10).
    + repeat split; [cbn; unfold isdigit; rewrite !(proj2 (Z.leb_le _ _)) by lia; done| |done].
      cbn [digits_value]. unfold isdigit. rewrite !(proj2 (Z.leb_le _ _)) by lia. cbn. lia.
    + assert (Hq : 0 <= n / 10 < 10 ^ Z.of_nat (S fuel)).
      { rewrite Nat2Z.inj_succ, Z.pow_succ_r in Hn by lia. split; [zlia|].
        apply Z.div_lt_upper_bound; lia. }
      destruct (IH _ Hq) as (Hd & Hv & Hne).
      assert (Hl : isdigit (48 + n mod 10) = true)
        by (unfold isdigit; rewrite !(proj2 (Z.leb_le _ _)) by zlia; done).
      repeat split.
      * rewrite forallb_app, Hd. cbn. by rewrite Hl.
      * rewrite digits_value_app, Hv by done. cbn. rewrite Hl. zlia.
      * by destruct (dec_digits (S fuel) (n / 10)).
Qed.

Lemma dec_reads n : 0 <= n < 2 ^ 63 → reads_as n (dec n).
Proof. intros. apply dec_digits_reads. cbn. lia. Qed.

Lemma digit_not_space b : isdigit b = true → isspace b = false ∧ b ≠ 45 ∧ b ≠ 43.
Proof.
  unfold isdigit, isspace. intros [?%Z.leb_le ?%Z.leb_le]%andb_prop.
  rewrite (proj2 (Z.leb_gt b 13)) by lia. rewrite (proj2 (Z.eqb_neq b 32)) by lia.
  rewrite andb_false_r. repeat split; lia.
Qed.

Lemma strtol_digits n (ds rest : bytes) :
  reads_as n ds → 0 <= n < 2 ^ 63 → match rest with b :: _ => isdigit b = false | [] => True end →
  strtol (ds ++ rest) = n.
Proof.
  intros (Hd & Hv & Hne) Hn Hr. unfold strtol.
  assert (E : digits_value 0 (ds ++ rest) = n).
  { rewrite digits_value_app, Hv by done. destruct rest as [|b r]; [done|]. cbn. by rewrite Hr. }
  destruct ds as [|d ds]; [done|]. cbn [app skip_spaces] in *.
  assert (Hdd : isdigit d = true) by (cbn in Hd; by apply andb_prop in Hd as [? _]).
  destruct (digit_not_space d Hdd) as (-> & H45 & H43).
  rewrite (proj2 (Z.eqb_neq d 45)), (proj2 (Z.eqb_neq d 43)) by done. rewrite E. lia.
Qed.

Lemma int32_small z : 0 <= z < 2 ^ 31 → int32 z = z.
Proof.
  intros Hz. unfold int32. rewrite Z.mod_small by lia.
  by rewrite (proj2 (Z.ltb_lt _ _)) by lia.
Qed.

(** [atoi] reads back what [dec] prints. *)
Lemma atoi_dec n (rest : bytes) :
  0 <= n < 2 ^ 31 → match rest with b :: _ => isdigit b = false | [] => True end →
  atoi (dec n ++ rest) = n.
Proof.
  intros Hn Hr. unfold atoi.
  rewrite (strtol_digits n _ rest (dec_reads n ltac:(lia)) ltac:(lia) Hr).
  by apply int32_small.
Qed.

Lemma dec_no (c n : Z) : 0 <= n < 2 ^ 63 → isdigit c = false → c ∉ dec n.
Proof.
  intros Hn Hc Hin. destruct (dec_reads n Hn) as (Hd & _ & _).
  rewrite forallb_forall in Hd. specialize (Hd c). rewrite Hc in Hd.
  by apply diff_false_true, Hd, list_elem_of_In.
Qed.

Lemma atol_range s : - 2 ^ 63 <= atol s < 2 ^ 63.
Proof.
  assert (Hp : ∀ ds acc, 0 <= acc → 0 <= digits_value acc ds).
  { induction ds as [|d ds IH]; intros acc H; cbn; [done|].
    destruct (isdigit d) eqn:Ed; [|done]. apply IH.
    unfold isdigit in Ed. apply andb_prop in Ed as [?%Z.leb_le _]. lia. }
  unfold atol, strtol.
  destruct (match skip_spaces s with b :: rest => _ | [] => _ end) as [neg ds].
  pose proof (Hp ds 0 ltac:(lia)). destruct neg; lia.
Qed.

Lemma int32_range z : - 2 ^ 31 <= int32 z < 2 ^ 31.
Proof.
  unfold int32. pose proof (Z.mod_pos_bound z (2 ^ 32) ltac:(lia)).
  destruct (Z.ltb_spec (z mod 2 ^ 32) (2 ^ 31)); lia.
Qed.
