(* ===== verification/Logger.v ===== *)
(** * Logging (common/logger.h, common/logger.cpp)

    Levels, the line of a message, and the hexadecimal dump; what is written to stderr is the
    result. The formatted text of a message and the local time are arguments. *)

From S2P Require Import Prelude Text.
Local Open Scope Z_scope.

Module Logger.

Inductive LogLevel := LOG_ERROR | LOG_INFO | LOG_DEBUG | LOG_TRACE.

Definition rank (l : LogLevel) : Z :=
  match l with LOG_ERROR => 0 | LOG_INFO => 1 | LOG_DEBUG => 2 | LOG_TRACE => 3 end.

(** The level of a new [Logger], and the one the programs set for [-v], [-vv], ... *)
Definition initial : LogLevel := LOG_ERROR.
Definition level_for (verbosity : Z) : LogLevel :=
  if 3 <=? verbosity then LOG_TRACE
  else if 2 <=? verbosity then LOG_DEBUG
  else if 1 <=? verbosity then LOG_INFO
  else initial.

Definition level_str (l : LogLevel) : bytes :=
  match l with
  | LOG_ERROR => lit "ERROR" | LOG_INFO => lit "INFO" | LOG_DEBUG => lit "DEBUG" | LOG_TRACE => lit "TRACE"
  end.

(** [%02d], for numbers that are not negative. *)
Definition dec2 (n : Z) : bytes := if n <? 10 then 48 :: dec n else dec n.

Record message := mkMsg { m_level : LogLevel; hour : Z; minute : Z; second : Z; text : bytes }.

Definition vlog (level : LogLevel) (m : message) : bytes :=
  if rank level <? rank (m_level m) then []
  else lit "[" ++ dec2 (hour m) ++ lit ":" ++ dec2 (minute m) ++ lit ":" ++ dec2 (second m) ++ lit "] ["
       ++ level_str (m_level m) ++ lit "] " ++ text m ++ [10].

(** The macros [log_error], [log_info], [log_debug] and [log_trace]: the last two are empty
    unless the program is built with [TRACE_ON]. *)
Definition log (trace_on : bool) (level : LogLevel) (m : message) : bytes :=
  match m_level m with
  | LOG_ERROR | LOG_INFO => vlog level m
  | LOG_DEBUG | LOG_TRACE => if trace_on then vlog level m else []
  end.

(** [%04zx]. *)
Fixpoint hex_digits (fuel : nat) (n : Z) : bytes :=
  match fuel with
  | O => []
  | S f => if n <? 16 then [hex_digit n] else hex_digits f (n / 16) ++ [hex_digit (n mod 16)]
  end.
Definition hex4 (n : Z) : bytes :=
  let d := hex_digits 16 n in replicate (4 - length d) 48 ++ d.

(** The bytes of a line: [%02x] and a space each. *)
Definition hex_row (chunk : bytes) : bytes := concat (map (λ b, to_hex [b] ++ [32]) chunk).

(** The lines from offset [i] on; as many as there are bytes are enough. *)
Fixpoint hex_rows (fuel : nat) (i : Z) (data : bytes) : bytes :=
  match fuel with
  | O => []
  | S f =>
      match data with
      | [] => []
      | _ => replicate 7 32 ++ hex4 i ++ lit ": " ++ hex_row (take 16 data) ++ [10]
             ++ hex_rows f (i + 16) (drop 16 data)
      end
  end.

Definition hex_dump (level : LogLevel) (prefix data : bytes) : bytes :=
  if rank level <? rank LOG_TRACE then []
  else lit "[" ++ level_str LOG_TRACE ++ lit "] " ++ prefix ++ lit " size=" ++ dec (Z.of_nat (length data)) ++ [10]
       ++ hex_rows (length data) 0 data.

(** ** What is printed *)

(** The lines of a run, at a level. *)
Definition printed (trace_on : bool) (level : LogLevel) (ms : list message) : list bytes :=
  filter (λ o, o ≠ []) (map (log trace_on level) ms).

Lemma vlog_nonempty level m : rank (m_level m) <= rank level → vlog level m ≠ [].
Proof. intros Hr. unfold vlog. by rewrite (proj2 (Z.ltb_ge _ _) Hr). Qed.

Lemma level_for_mono v v' : v <= v' → rank (level_for v) <= rank (level_for v').
Proof.
  intros Hv. unfold level_for. destruct (Z.leb_spec 3 v), (Z.leb_spec 3 v'), (Z.leb_spec 2 v), (Z.leb_spec 2 v'),
    (Z.leb_spec 1 v), (Z.leb_spec 1 v'); cbn; lia.
Qed.

(** A message is printed the same at every level that prints it. *)
Lemma log_mono trace_on level level' m :
  rank level <= rank level' → log trace_on level m ≠ [] → log trace_on level' m = log trace_on level m.
Proof.
  intros Hr. unfold log, vlog. destruct (m_level m); try (destruct trace_on; [|done]); cbn [rank];
    repeat case_match; try done; lia.
Qed.

(** More [-v]s print more: every line that is printed at a verbosity is printed, in its
    place, at a higher one, and errors are printed at every one. *)
Theorem verbosity_monotone (trace_on : bool) (v v' : Z) (ms : list message) : v <= v' →
  sublist (printed trace_on (level_for v) ms) (printed trace_on (level_for v') ms)
  ∧ Forall (λ m, m_level m = LOG_ERROR → log trace_on (level_for v) m ≠ []) ms.
Proof.
  intros Hv%level_for_mono. split.
  - induction ms as [|m ms IH]; [done|]. unfold printed in *. cbn [map]. rewrite !filter_cons.
    case_decide as H1; [rewrite (log_mono _ _ _ _ Hv H1), decide_True by done; by apply sublist_skip|].
    case_decide; [by apply sublist_cons|done].
  - apply Forall_forall. intros m _ Hm. unfold log. rewrite Hm. apply vlog_nonempty. rewrite Hm.
    by destruct (level_for v).
Qed.

(** ** Reading a dump back *)

Definition digit_value (c : Z) : Z := if c <? 58 then c - 48 else c - 87.

Lemma digit_value_hex n : 0 <= n < 16 → digit_value (hex_digit n) = n.
Proof. intros Hn. unfold digit_value, hex_digit. destruct (Z.ltb_spec n 10); case_match; lia. Qed.

Lemma hex_digit_range n : 0 <= n < 16 → 48 <= hex_digit n <= 57 ∨ 97 <= hex_digit n <= 102.
Proof. intros Hn. unfold hex_digit. destruct (Z.ltb_spec n 10); lia. Qed.

(** What follows the first [c]. *)
Fixpoint after (c : Z) (l : bytes) : bytes :=
  match l with [] => [] | x :: r => if x =? c then r else after c r end.

Lemma after_skip c l r : c ∉ l → after c (l ++ c :: r) = r.
Proof.
  induction l as [|x l IH]; cbn; intros Hc; [by rewrite Z.eqb_refl|].
  apply not_elem_of_cons in Hc as [Hx Hc]. rewrite (proj2 (Z.eqb_neq x c)) by done. by apply IH.
Qed.

(** The bytes of a line, and what follows the line. *)
Fixpoint read_row (l : bytes) : bytes * bytes :=
  match l with
  | [] => ([], [])
  | a :: l' =>
      if a =? 10 then ([], l')
      else match l' with
           | b :: _ :: rest => let '(ds, r) := read_row rest in (16 * digit_value a + digit_value b :: ds, r)
           | _ => ([], [])
           end
  end.

Fixpoint read_rows (fuel : nat) (l : bytes) : bytes :=
  match fuel with
  | O => []
  | S f => match l with
           | [] => []
           | _ => let '(ds, r) := read_row (drop 1 (after 58 l)) in ds ++ read_rows f r
           end
  end.

Lemma read_hex_row chunk r : bytes_ok chunk → read_row (hex_row chunk ++ 10 :: r) = (chunk, r).
Proof.
  induction 1 as [|b chunk Hb _ IH]; [done|]. unfold is_byte in Hb.
  assert (0 <= b / 16 < 16 ∧ 0 <= b mod 16 < 16) as [H1 H2] by zlia.
  change (hex_row (b :: chunk) ++ 10 :: r)
    with (hex_digit (b / 16) :: hex_digit (b mod 16) :: 32 :: (hex_row chunk ++ 10 :: r)).
  cbn [read_row]. destruct (Z.eqb_spec (hex_digit (b / 16)) 10); [pose proof (hex_digit_range _ H1); lia|].
  rewrite IH, !digit_value_hex by done. do 2 f_equal. zlia.
Qed.

Lemma hex_digits_range fuel : ∀ n, 0 <= n → Forall (λ c, 48 <= c <= 57 ∨ 97 <= c <= 102) (hex_digits fuel n).
Proof.
  induction fuel as [|k IH]; intros n Hn; cbn; [done|]. destruct (Z.ltb_spec n 16).
  - constructor; [|done]. by apply hex_digit_range.
  - apply Forall_app. split; [apply IH; zlia|]. constructor; [|done]. apply hex_digit_range. zlia.
Qed.

Lemma dec_digits_range fuel : ∀ n, 0 <= n → Forall (λ c, 48 <= c <= 57) (dec_digits fuel n).
Proof.
  induction fuel as [|k IH]; intros n Hn; cbn; [done|]. destruct (Z.ltb_spec n 10).
  - constructor; [lia|done].
  - apply Forall_app. split; [apply IH; zlia|]. constructor; [zlia|done].
Qed.

Lemma offset_no_colon i : 0 <= i → 58 ∉ replicate 7 32 ++ hex4 i.
Proof.
  intros Hi Hin. apply elem_of_app in Hin as [Hin|Hin]; [apply elem_of_replicate in Hin as [? _]; lia|].
  unfold hex4 in Hin. apply elem_of_app in Hin as [Hin|Hin]; [apply elem_of_replicate in Hin as [? _]; lia|].
  pose proof (hex_digits_range 16 i Hi) as Hr. rewrite Forall_forall in Hr. specialize (Hr _ Hin). lia.
Qed.

Lemma read_hex_rows fuel : ∀ i data, 0 <= i → bytes_ok data → (length data <= fuel)%nat →
  read_rows fuel (hex_rows fuel i data) = data.
Proof.
  induction fuel as [|k IH]; intros i data Hi Hb Hl; [by destruct data; [|cbn in Hl; lia]|].
  destruct data as [|b data]; [done|]. cbn [hex_rows read_rows]. set (d := b :: data) in *.
  set (row := replicate 7 32 ++ _). assert (row ≠ []) as Hne by done. destruct row as [|x row'] eqn:Er; [done|].
  rewrite <- Er. unfold row. clear x row' Er Hne row.
  change (lit ": ") with [58; 32]. rewrite app_assoc. cbn [app]. rewrite after_skip by by apply offset_no_colon.
  change (drop 1 (32 :: ?l)) with l. cbn [drop]. rewrite read_hex_row by by apply Forall_take.
  rewrite IH; [apply take_drop|lia|by apply Forall_drop|]. rewrite length_drop. unfold d. cbn in *. lia.
Qed.

(** The hexadecimal dump shows the data: reading the lines after the first one back, without
    their offsets, gives exactly the bytes, whatever their number; below the level TRACE
    nothing is printed. *)
Theorem hex_dump_readable (level : LogLevel) (prefix data : bytes) :
  bytes_ok data → 10 ∉ prefix →
  if rank level <? 3 then hex_dump level prefix data = []
  else read_rows (length data) (after 10 (hex_dump level prefix data)) = data.
Proof.
  intros Hd Hp. unfold hex_dump. cbn [rank]. destruct (rank level <? 3); [done|].
  rewrite !app_assoc. rewrite <- (app_assoc _ [10]). cbn [app].
  rewrite after_skip; [by apply read_hex_rows|].
  rewrite !not_elem_of_app. split_and!; try exact Hp.
  1-4: by apply (bool_decide_unpack (_ ∉ _)); vm_compute.
  intros Hin. pose proof (dec_digits_range 20 (Z.of_nat (length data)) ltac:(lia)) as Hr.
  rewrite Forall_forall in Hr. specialize (Hr _ Hin). lia.
Qed.

Example dump_example :
  hex_dump LOG_TRACE (lit "in") (replicate 17 171)
  = lit "[TRACE] in size=17" ++ [10] ++ lit "       0000: ab ab ab ab ab ab ab ab ab ab ab ab ab ab ab ab " ++ [10]
    ++ lit "       0010: ab " ++ [10].
Proof. vm_compute. reflexivity. Qed.

End Logger.
