(* ===== verification/Protocol.v ===== *)
(** * The message protocol (core/protocol.h, core/protocol.cpp)

    [Packet]s, the base-128 varint that frames them, [serialize] and [try_parse]. *)

From S2P Require Import Prelude.
Local Open Scope Z_scope.

(** ** Message types *)

Definition MSG_AUTH_CHALLENGE : Z := 0x01.
Definition MSG_AUTH_RESPONSE : Z := 0x02.
Definition MSG_AUTH_OK : Z := 0x03.
Definition MSG_RECONNECT : Z := 0x05.
Definition MSG_MODULE_LIST_REQ : Z := 0x10.
Definition MSG_MODULE_LIST_RES : Z := 0x11.
Definition MSG_CHAIN_CREATE : Z := 0x20.
Definition MSG_CHAIN_READY : Z := 0x21.
Definition MSG_TRANSMIT_READY : Z := 0x22.
Definition MSG_CONNECT_REQ : Z := 0x30.
Definition MSG_CONNECT_OK : Z := 0x31.
Definition MSG_CONNECT_FAIL : Z := 0x32.
Definition MSG_CONNECT_CANCEL : Z := 0x33.
Definition MSG_MODULE_MSG : Z := 0x40.
Definition MSG_DISCONNECT : Z := 0x51.
Definition MSG_WRITER_PAUSE : Z := 0x52.
Definition MSG_WRITER_RESUME : Z := 0x53.
Definition MSG_CHAIN_PAUSE : Z := 0x54.
Definition MSG_CHAIN_RESUME : Z := 0x55.

(** ** Wire types (the byte after a frame's length) *)

Definition WIRE_DATA : Z := 0.
Definition WIRE_HEARTBEAT_PING : Z := 1.
Definition WIRE_HEARTBEAT_PONG : Z := 2.
Definition WIRE_SHUTDOWN_WR : Z := 3.
Definition WIRE_SHUTDOWN_WR_ACK : Z := 4.
Definition WIRE_CONTROL : Z := 5.
Definition WIRE_DATA_ACK : Z := 6.
Definition WIRE_MAX_UNACKED : nat := 200.
Definition WIRE_RETRANSMIT_MS : Z := 200.
Definition CHAIN_CTRL_DISCONNECT : Z := 0x51.
Definition CHAIN_CTRL_SHUTDOWN_WR : Z := 0x52.

(** [MessageType] has underlying type [uint8_t] and [try_parse] casts any byte to
    it, so the type of a packet is any byte. *)
Record Packet := mkPacket { type : Z; payload : bytes }.

#[export] Instance Packet_eq_dec : EqDecision Packet.
Proof. solve_decision. Defined.

Definition make_msg (ty : Z) (data : bytes) : Packet := mkPacket ty data.

(** ** Varints *)

(** The [while (val > 0x7F)] loop. A 64-bit value has at most ten 7-bit groups, so
    ten rounds are enough ([write_varint_fuel] below). *)
Fixpoint write_varint_loop (fuel : nat) (val : Z) : bytes :=
  match fuel with
  | O => []
  | S f =>
      if 0x7F <? val
      then u8 (Z.lor (Z.land val 0x7F) 0x80) :: write_varint_loop f (Z.shiftr val 7)
      else [u8 (Z.land val 0x7F)]
  end.

Definition write_varint (buf : bytes) (val : Z) : bytes :=
  buf ++ write_varint_loop 10 val.

(** [read_varint] returns the value and the count it stores in [consumed]; [k] is the
    number of iterations left of [i < 10]. *)
Fixpoint read_varint_loop (k : nat) (buf : bytes) (val shift : Z) (consumed : nat) : Z * nat :=
  match k, buf with
  | S k', b :: rest =>
      let val' := Z.lor val (u64 (Z.shiftl (Z.land b 0x7F) shift)) in
      if Z.land b 0x80 =? 0 then (val', S consumed)
      else read_varint_loop k' rest val' (shift + 7) (S consumed)
  | _, _ => (0, consumed)
  end.

Definition read_varint (buf : bytes) : Z * nat := read_varint_loop 10 buf 0 0 0.

(** ** Packets *)

Definition serialize (pkt : Packet) : bytes :=
  let out := write_varint [] (type pkt) in
  let out := write_varint out (Z.of_nat (length (payload pkt))) in
  out ++ payload pkt.

(** [try_parse] returns 0, or fills [out] and returns the number of bytes used; the
    third outcome is the behaviour C++ leaves undefined: [total] has wrapped around,
    so the copied range is not inside the buffer. *)
Inductive parse_result :=
| ParseNone
| ParseOk (out : Packet) (total : Z)
| ParseUndefined.

Definition try_parse (buf : bytes) : parse_result :=
  let len := Z.of_nat (length buf) in
  let '(type_val, consumed) := read_varint buf in
  if (consumed =? 0)%nat || (0xFF <? type_val) then ParseNone else
  let offset := consumed in
  let '(pay_len, consumed) := read_varint (drop offset buf) in
  if (consumed =? 0)%nat then ParseNone else
  let offset := (offset + consumed)%nat in
  let total := u64 (Z.of_nat offset + pay_len) in
  if len <? total then ParseNone else
  if len <? Z.of_nat offset + pay_len then ParseUndefined else
  ParseOk (mkPacket (u8 type_val) (take (Z.to_nat pay_len) (drop offset buf))) total.

(** [make_varint_packet] (common/utils.cpp) frames a block by its length. *)
Definition make_varint_packet (data : bytes) : bytes :=
  write_varint_loop 10 (Z.of_nat (length data)) ++ data.

(** ** Varint lemmas *)

Section varint.

Lemma write_varint_loop_step (f : nat) (val : Z) :
  0 <= val →
  write_varint_loop (S f) val =
    (if val <? 128 then [val] else (val mod 128 + 128) :: write_varint_loop f (val / 128)).
Proof.
  intros Hv. cbn [write_varint_loop]. rewrite land_7f, Z.shiftr_div_pow2 by lia.
  change (2 ^ 7) with 128.
  destruct (Z.ltb_spec 127 val), (Z.ltb_spec val 128); try lia.
  - rewrite lor_128 by zlia. f_equal. zlia.
  - f_equal. zlia.
Qed.

Lemma write_varint_loop_length (f : nat) (val : Z) :
  0 <= val → (length (write_varint_loop f val) <= f)%nat.
Proof.
  revert val; induction f as [|f IH]; intros val Hv; [simpl; lia|].
  rewrite write_varint_loop_step by done. case_match; simpl; [lia|].
  specialize (IH (val / 128)). zlia.
Qed.

Lemma write_varint_loop_nonempty (f : nat) (val : Z) :
  0 <= val → (1 <= length (write_varint_loop (S f) val))%nat.
Proof. intros. rewrite write_varint_loop_step by done. case_match; simpl; lia. Qed.

Lemma write_varint_loop_bytes (f : nat) (val : Z) :
  0 <= val → bytes_ok (write_varint_loop f val).
Proof.
  revert val; induction f as [|f IH]; intros val Hv; [constructor|].
  rewrite write_varint_loop_step by done.
  destruct (Z.ltb_spec val 128); repeat constructor; try zlia.
  apply IH. zlia.
Qed.

(** Enough fuel for the value gives a fuel-independent result. *)
Lemma write_varint_fuel (f g : nat) (val : Z) :
  0 <= val < 2 ^ (7 * Z.of_nat f) → (1 <= f <= g)%nat →
  write_varint_loop f val = write_varint_loop g val.
Proof.
  revert g val; induction f as [|f IH]; intros [|g] val Hv Hf; try lia.
  rewrite !write_varint_loop_step by lia.
  destruct (Z.ltb_spec val 128) as [|Hge]; [done|]. f_equal.
  rewrite Nat2Z.inj_succ, Z.mul_succ_r, Z.pow_add_r in Hv by lia.
  change (2 ^ 7) with 128 in Hv.
  destruct f as [|f]; [simpl in Hv; lia|].
  apply IH; [|lia]. split; [zlia|]. apply Z.div_lt_upper_bound; lia.
Qed.

Lemma read_varint_loop_step (k : nat) (b : Z) (rest : bytes) (val shift : Z) (c : nat) :
  is_byte b → 0 <= shift → 0 <= val < 2 ^ shift →
  (b mod 128) * 2 ^ shift < 2 ^ 64 →
  read_varint_loop (S k) (b :: rest) val shift c =
    (if b <? 128 then (val + (b mod 128) * 2 ^ shift, S c)
     else read_varint_loop k rest (val + (b mod 128) * 2 ^ shift) (shift + 7) (S c)).
Proof.
  intros Hb Hs Hv Hlt. cbn [read_varint_loop].
  rewrite land_80, land_7f by done.
  assert (u64 (Z.shiftl (b mod 128) shift) = Z.shiftl (b mod 128) shift) as ->.
  { unfold u64. rewrite Z.shiftl_mul_pow2 by lia. apply Z.mod_small.
    pose proof (Z.mod_pos_bound b 128). nia. }
  by rewrite lor_shiftl_add by lia.
Qed.

(** Reading back a varint that was written, in front of anything. *)
Lemma read_write_varint_loop (f k : nat) (v : Z) (rest : bytes) (acc s : Z) (c : nat) :
  0 <= v < 2 ^ (7 * Z.of_nat f) → (1 <= f <= k)%nat →
  0 <= s → 0 <= acc < 2 ^ s → v * 2 ^ s < 2 ^ 64 →
  read_varint_loop k (write_varint_loop f v ++ rest) acc s c
    = (acc + v * 2 ^ s, (c + length (write_varint_loop f v))%nat).
Proof.
  revert k v acc s c; induction f as [|f IH]; intros [|k] v acc s c Hv Hf Hs Hacc Hlt; try lia.
  assert (0 < 2 ^ s) by (apply Z.pow_pos_nonneg; lia).
  rewrite write_varint_loop_step by lia.
  destruct (Z.ltb_spec v 128) as [Hsmall|Hge].
  - cbn [app]. rewrite read_varint_loop_step; try done; [|zlia|rewrite Z.mod_small; lia].
    rewrite Z.mod_small by lia. rewrite (proj2 (Z.ltb_lt v 128)) by lia.
    simpl. f_equal. lia.
  - assert (Hdm : v = v mod 128 + 128 * (v / 128)) by zlia.
    assert (Hb : (v mod 128 + 128) mod 128 = v mod 128) by zlia.
    assert (0 <= v mod 128 < 128) by zlia. assert (0 <= v / 128) by zlia.
    cbn [app]. rewrite read_varint_loop_step; rewrite ?Hb; try done; [|zlia|nia].
    rewrite (proj2 (Z.ltb_ge _ 128)) by lia.
    rewrite Nat2Z.inj_succ, Z.mul_succ_r, Z.pow_add_r in Hv by lia.
    change (2 ^ 7) with 128 in Hv.
    destruct f as [|f]; [simpl in Hv; lia|].
    assert (Hpow : 2 ^ (s + 7) = 2 ^ s * 128) by (rewrite Z.pow_add_r; lia).
    assert (0 <= v / 128 < 2 ^ (7 * Z.of_nat (S f))).
    { split; [lia|]. apply Z.div_lt_upper_bound; lia. }
    assert (acc + v mod 128 * 2 ^ s < 2 ^ (s + 7)) by nia.
    assert (v / 128 * 2 ^ (s + 7) <= v * 2 ^ s) by nia.
    rewrite IH by nia. rewrite Hpow. cbn [length]. f_equal; [nia|lia].
Qed.

Lemma write_varint_app (buf : bytes) (v : Z) :
  write_varint buf v = buf ++ write_varint [] v.
Proof. done. Qed.

Lemma read_write_varint (v : Z) (rest : bytes) :
  0 <= v < 2 ^ 64 →
  read_varint (write_varint [] v ++ rest) = (v, length (write_varint [] v)).
Proof.
  intros Hv. unfold read_varint, write_varint. cbn [app].
  rewrite read_write_varint_loop by (change (2 ^ (7 * Z.of_nat 10)) with (2 ^ 70); lia).
  f_equal; lia.
Qed.

Lemma write_varint_length (v : Z) :
  0 <= v → (1 <= length (write_varint [] v) <= 10)%nat.
Proof.
  intros. unfold write_varint; cbn [app]. split;
    [by apply write_varint_loop_nonempty|by apply write_varint_loop_length].
Qed.

Lemma write_varint_small (v : Z) : 0 <= v < 128 → write_varint [] v = [v].
Proof.
  intros. unfold write_varint; cbn [app]. rewrite write_varint_loop_step by lia.
  by rewrite (proj2 (Z.ltb_lt v 128)) by lia.
Qed.

Lemma read_varint_consumed_loop (k : nat) (buf : bytes) (v s : Z) (c : nat) :
  let '(_, c') := read_varint_loop k buf v s c in
  (c <= c' <= c + length buf)%nat ∧ (c' <= c + k)%nat ∧ (k ≠ 0%nat → buf ≠ [] → c' ≠ c).
Proof.
  revert buf v s c; induction k as [|k IH]; intros [|b buf] v s c; cbn [read_varint_loop length];
    try (split_and!; naive_solver lia).
  destruct (Z.land b 128 =? 0); [split_and!; naive_solver lia|].
  specialize (IH buf (Z.lor v (u64 (Z.shiftl (Z.land b 127) s))) (s + 7) (S c)).
  destruct (read_varint_loop _ _ _ _ _) as [? c']. destruct IH as (?&?&?).
  split_and!; intros; lia.
Qed.

Lemma read_varint_consumed (buf : bytes) (v : Z) (c : nat) :
  read_varint buf = (v, c) → (c <= length buf)%nat ∧ (c <= 10)%nat ∧ (buf ≠ [] → c ≠ 0%nat).
Proof.
  intros E. pose proof (read_varint_consumed_loop 10 buf 0 0 0) as H.
  unfold read_varint in E. rewrite E in H. destruct H as ((?&?)&?&?). naive_solver lia.
Qed.

Lemma read_varint_range_loop (k : nat) (buf : bytes) (v s : Z) (c : nat) :
  0 <= v < 2 ^ 64 → 0 <= (read_varint_loop k buf v s c).1 < 2 ^ 64.
Proof.
  revert buf v s c; induction k as [|k IH]; intros [|b buf] v s c Hv; cbn [read_varint_loop fst];
    try lia.
  assert (0 <= Z.lor v (u64 (Z.shiftl (Z.land b 127) s)) < 2 ^ 64).
  { apply lor_range; try lia. apply Z.mod_pos_bound. lia. }
  case_match; [done|]. by apply IH.
Qed.

Lemma read_varint_range (buf : bytes) (v : Z) (c : nat) :
  read_varint buf = (v, c) → 0 <= v < 2 ^ 64.
Proof.
  intros E. pose proof (read_varint_range_loop 10 buf 0 0 0 ltac:(lia)) as H.
  unfold read_varint in E. by rewrite E in H.
Qed.

Lemma read_varint_nil : read_varint [] = (0, 0%nat).
Proof. done. Qed.

End varint.

#[export] Hint Resolve write_varint_loop_bytes write_varint_loop_length : wire.

(** ** Packets: round trip, soundness, partial input *)

(** A packet C++ can hold: its type is a byte, its vector shorter than 2^63. *)
Definition packet_ok (p : Packet) : Prop :=
  is_byte (type p) ∧ Z.of_nat (length (payload p)) < 2 ^ 63.

Definition header (p : Packet) : bytes :=
  write_varint [] (type p) ++ write_varint [] (Z.of_nat (length (payload p))).

Section packets.
Implicit Types (p : Packet) (buf rest : bytes).

Lemma serialize_header p : serialize p = header p ++ payload p.
Proof. done. Qed.

Lemma header_length p : packet_ok p → (2 <= length (header p) <= 20)%nat.
Proof.
  intros [Hb Hl]. unfold header. rewrite length_app. zwrap.
  pose proof (write_varint_length (type p)).
  pose proof (write_varint_length (Z.of_nat (length (payload p)))). lia.
Qed.

Lemma serialize_length p :
  length (serialize p) = (length (header p) + length (payload p))%nat.
Proof. rewrite serialize_header, length_app. done. Qed.

(** The payload of a parsed packet is a run of bytes of the buffer. *)
Lemma try_parse_payload buf p n :
  try_parse buf = ParseOk p n → ∃ pre post, buf = pre ++ payload p ++ post.
Proof.
  unfold try_parse. destruct (read_varint buf) as [ty c1].
  destruct (_ || _); [done|]. destruct (read_varint (drop c1 buf)) as [pl c2].
  destruct (_ =? _)%nat; [done|]. case_match; [done|]. case_match; [done|].
  intros [= <- _]. cbn [payload]. eexists (take (c1 + c2) buf), _.
  by rewrite (take_drop (Z.to_nat pl)), take_drop.
Qed.

(** What [try_parse] computes once both varints are complete. *)
Lemma try_parse_header p rest :
  packet_ok p →
  try_parse (header p ++ rest) =
    (if (length rest <? length (payload p))%nat then ParseNone
     else ParseOk (mkPacket (type p) (take (length (payload p)) rest))
                  (Z.of_nat (length (serialize p)))).
Proof.
  intros Hok. pose proof (header_length p Hok) as Hh. destruct Hok as [Hty Hlen].
  rewrite serialize_length. unfold try_parse.
  assert (read_varint (header p ++ rest) = (type p, length (write_varint [] (type p)))) as ->.
  { unfold header. rewrite <- app_assoc. apply read_write_varint. zwrap; lia. }
  pose proof (write_varint_length (type p)) as Hwt. zwrap.
  rewrite (proj2 (Nat.eqb_neq _ 0)) by lia. rewrite (proj2 (Z.ltb_ge 255 _)) by lia. cbn [orb].
  unfold header in *. rewrite <- (app_assoc (write_varint [] (type p))), drop_app_length.
  rewrite read_write_varint by lia.
  pose proof (write_varint_length (Z.of_nat (length (payload p)))) as Hwl.
  rewrite (proj2 (Nat.eqb_neq _ 0)) by lia.
  rewrite app_assoc, <- length_app, drop_app_length, Nat2Z.id.
  set (h := write_varint [] (type p) ++ _) in *.
  rewrite !length_app, (Z.mod_small (Z.of_nat (length h) + _)) by lia.
  rewrite (Z.mod_small (type p)) by lia.
  destruct (Nat.ltb_spec (length rest) (length (payload p))).
  - by rewrite (proj2 (Z.ltb_lt _ _)) by lia.
  - rewrite (proj2 (Z.ltb_ge _ _)) by lia. f_equal. lia.
Qed.

(** [C31] A serialized packet, followed by anything, is parsed back exactly, and
    exactly its own bytes are consumed. *)
Theorem try_parse_serialize p rest :
  packet_ok p →
  try_parse (serialize p ++ rest) = ParseOk p (Z.of_nat (length (serialize p))).
Proof.
  intros Hok. rewrite serialize_header at 1. rewrite <- app_assoc, try_parse_header by done.
  rewrite length_app, (proj2 (Nat.ltb_ge _ _)) by lia. rewrite take_app_length.
  by destruct p.
Qed.

(** A result of [try_parse] is a packet that lies inside the buffer: the bytes it
    consumes are available, at least two, and end with the payload it returns. *)
Theorem try_parse_sound buf p n :
  Z.of_nat (length buf) < 2 ^ 63 → try_parse buf = ParseOk p n →
  2 <= n <= Z.of_nat (length buf) ∧ is_byte (type p) ∧
  ∃ hdr, take (Z.to_nat n) buf = hdr ++ payload p ∧ (2 <= length hdr <= 20)%nat.
Proof.
  intros Hbuf. unfold try_parse. destruct (read_varint buf) as [ty c1] eqn:E1.
  apply read_varint_consumed in E1 as (H1 & H1' & _).
  destruct (Nat.eqb_spec c1 0), (Z.ltb_spec 255 ty); cbn [orb]; try done.
  destruct (read_varint (drop c1 buf)) as [pl c2] eqn:E2.
  pose proof (read_varint_range _ _ _ E2) as Hpl.
  apply read_varint_consumed in E2 as (H2 & H2' & _). rewrite length_drop in H2.
  destruct (Nat.eqb_spec c2 0); [done|].
  destruct (Z.ltb_spec (Z.of_nat (length buf)) (u64 (Z.of_nat (c1 + c2) + pl))); [done|].
  destruct (Z.ltb_spec (Z.of_nat (length buf)) (Z.of_nat (c1 + c2) + pl)) as [|Hle]; [done|].
  intros [= <- <-]. cbn [type payload].
  unfold u64. rewrite Z.mod_small by lia. split_and!; [lia|lia|zlia..|].
  exists (take (c1 + c2) buf).
  rewrite Z2Nat.inj_add, Nat2Z.id, <- take_take_drop, length_take by lia. split; [done|lia].
Qed.

(** Between the end of its header and its last byte, the prefix of a packet is
    reported as incomplete, so the receive loop waits for the rest. *)
Theorem try_parse_incomplete p k :
  packet_ok p → (length (header p) <= k < length (serialize p))%nat →
  try_parse (take k (serialize p)) = ParseNone.
Proof.
  intros Hok Hk. rewrite serialize_length in Hk.
  rewrite serialize_header, take_app_ge, try_parse_header by (done || lia).
  by rewrite length_take, (proj2 (Nat.ltb_lt _ _)) by lia.
Qed.

(** A packet of 128 bytes or more whose first segment ends right after the first
    byte of its length is not reported as incomplete: it is delivered with an empty
    payload, and its two header bytes are dropped from the stream. *)
Theorem try_parse_split_length p :
  packet_ok p → type p < 128 → (128 <= length (payload p))%nat →
  try_parse (take 2 (serialize p)) = ParseOk (mkPacket (type p) []) 2.
Proof.
  intros [Hty Hlen] Hlt Hpl. zwrap. rewrite serialize_header. unfold header.
  rewrite (write_varint_small (type p)) by lia. unfold write_varint. cbn [app].
  rewrite write_varint_loop_step, (proj2 (Z.ltb_ge _ 128)) by lia. cbn [app take].
  set (b := Z.of_nat (length (payload p)) mod 128 + 128).
  assert (is_byte b) by (unfold b; zlia). assert (128 <= b) by (unfold b; zlia).
  unfold try_parse, read_varint. cbn [drop length].
  rewrite read_varint_loop_step by (rewrite ?Z.mod_small; zwrap; lia).
  rewrite (proj2 (Z.ltb_lt (type p) 128)) by lia.
  replace (0 + type p mod 128 * 2 ^ 0) with (type p) by (rewrite Z.mod_small; lia).
  rewrite (proj2 (Z.ltb_ge 255 _)) by lia. cbn [Nat.eqb orb drop take length read_varint_loop].
  rewrite land_80, (proj2 (Z.ltb_ge b 128)) by done.
  unfold u8. rewrite (Z.mod_small (type p)) by lia. done.
Qed.

(** A hostile 12-byte message whose length field makes [total] wrap around gets
    past the bounds check: the parser copies a range outside its buffer. *)
Theorem try_parse_wraparound :
  ∃ buf, length buf = 12%nat ∧ bytes_ok buf ∧ try_parse buf = ParseUndefined.
Proof.
  exists (1 :: repeat 255 9 ++ [1; 0]). split_and!; [done| |reflexivity].
  repeat constructor; unfold is_byte; lia.
Qed.

End packets.

Definition sample_packet : Packet := mkPacket MSG_CONNECT_REQ (repeat 7 200).

Lemma sample_packet_ok : packet_ok sample_packet.
Proof. repeat split; vm_compute; done. Qed.

Lemma try_parse_serialize_witness :
  try_parse (serialize sample_packet ++ [9; 9]) = ParseOk sample_packet 203.
Proof. exact (try_parse_serialize sample_packet [9; 9] sample_packet_ok). Defined.

Lemma try_parse_sound_witness :
  ∃ hdr, take 203 (serialize sample_packet ++ [9; 9]) = hdr ++ payload sample_packet
         ∧ (2 <= length hdr <= 20)%nat.
Proof.
  refine (proj2 (proj2 (try_parse_sound (serialize sample_packet ++ [9; 9])
            sample_packet 203 _ _))); vm_compute; done.
Defined.

Lemma try_parse_incomplete_witness :
  try_parse (take 100 (serialize sample_packet)) = ParseNone.
Proof.
  apply (try_parse_incomplete sample_packet 100 sample_packet_ok). vm_compute. lia.
Defined.

Lemma try_parse_split_length_witness :
  try_parse (take 2 (serialize sample_packet)) = ParseOk (mkPacket MSG_CONNECT_REQ []) 2.
Proof.
  apply (try_parse_split_length sample_packet sample_packet_ok); vm_compute; [done|lia].
Defined.
