(* ===== verification/WriteBuffer.v ===== *)
(** * The per-connection output buffer (common/write_buffer.h)

    Two queues of frames, data and priority, drained by a non-blocking [::write].
    The answers of the operating system are a parameter: a schedule [ks] with one
    answer per call of [::write]. *)

From S2P Require Import Prelude.
Local Open Scope Z_scope.

Module WB.

Record WriteBuffer := mkWB {
  priority_chunks : list bytes;
  priority_read_offset : nat;
  chunks : list bytes;
  read_offset : nat;
  total_size : Z;
  registered : bool;
  high_water : Z;
  low_water : Z
}.

Definition new_buffer : WriteBuffer := mkWB [] 0 [] 0 0 false 262144 131072.

(** ** The operating system's side

    One answer of [::write]: a byte count, "would block" (EAGAIN/EWOULDBLOCK) or a
    hard error. POSIX never reports more bytes than were asked for: [sys_write]. *)
Inductive wres := WWrote (n : nat) | WAgain | WErr.

#[export] Instance wres_eq_dec : EqDecision wres.
Proof. solve_decision. Defined.

Definition sys_write (k : wres) (len : nat) : wres :=
  match k with WWrote n => WWrote (n `min` len) | _ => k end.

(** What reaches the socket: runs of bytes, each tagged with its queue and with
    whether it completes the frame it belongs to. *)
Record seg := mkSeg { s_prio : bool; s_data : bytes; s_done : bool }.

(** A flush either returns, or is still in its loop when the schedule ends. *)
Inductive flow := Ret (drained : bool) | Running.

#[export] Instance flow_eq_dec : EqDecision flow.
Proof. solve_decision. Defined.

Definition set_prio (cs : list bytes) (off : nat) (ts : Z) (wb : WriteBuffer) : WriteBuffer :=
  mkWB cs off (chunks wb) (read_offset wb) ts (registered wb) (high_water wb) (low_water wb).

Definition set_data (cs : list bytes) (off : nat) (ts : Z) (wb : WriteBuffer) : WriteBuffer :=
  mkWB (priority_chunks wb) (priority_read_offset wb) cs off ts (registered wb)
       (high_water wb) (low_water wb).

Definition set_registered (b : bool) (wb : WriteBuffer) : WriteBuffer :=
  mkWB (priority_chunks wb) (priority_read_offset wb) (chunks wb) (read_offset wb)
       (total_size wb) b (high_water wb) (low_water wb).

(** [offset += n], and pop the front frame when all of it is written. *)
Definition advance (front : bytes) (rest : list bytes) (off : nat) : list bytes * nat :=
  if (length front <=? off)%nat then (rest, 0%nat) else (front :: rest, off).

Fixpoint flush_priority_unlocked (ks : list wres) (wb : WriteBuffer)
    : flow * WriteBuffer * list seg * list wres :=
  match priority_chunks wb with
  | [] => (Ret true, wb, [], ks)
  | msg :: rest =>
      match ks with
      | [] => (Running, wb, [], [])
      | k :: ks' =>
          let off := priority_read_offset wb in
          match sys_write k (length msg - off) with
          | WWrote n =>
              if (0 <? n)%nat then
                let '(cs, off') := advance msg rest (off + n) in
                let wb' := set_prio cs off' (u64 (total_size wb - Z.of_nat n)) wb in
                let s := mkSeg true (take n (drop off msg)) (length msg <=? off + n)%nat in
                let '(r, wb'', ss, ks'') := flush_priority_unlocked ks' wb' in
                (r, wb'', s :: ss, ks'')
              else flush_priority_unlocked ks' wb
          | WAgain => (Ret false, wb, [], ks')
          | WErr => (Ret true, wb, [], ks')
          end
      end
  end.

(** The outer loop; every round but the last uses up an answer of the schedule, so
    [S (length ks)] rounds are enough. *)
Fixpoint flush_loop (fuel : nat) (ks : list wres) (wb : WriteBuffer)
    : flow * WriteBuffer * list seg * list wres :=
  match fuel with
  | O => (Running, wb, [], ks)
  | S f =>
  match chunks wb with
  | [] => flush_priority_unlocked ks wb
  | front :: rest =>
      match ks with
      | [] => (Running, wb, [], [])
      | k :: ks' =>
          let off := read_offset wb in
          match sys_write k (length front - off) with
          | WWrote n =>
              if (0 <? n)%nat then
                let '(cs, off') := advance front rest (off + n) in
                let wb' := set_data cs off' (u64 (total_size wb - Z.of_nat n)) wb in
                let fin := (length front <=? off + n)%nat in
                let s := mkSeg false (take n (drop off front)) fin in
                if fin then
                  let '(r, wb2, ss, ks2) := flush_priority_unlocked ks' wb' in
                  match r with
                  | Ret true =>
                      let '(r3, wb3, ss3, ks3) := flush_loop f ks2 wb2 in
                      (r3, wb3, s :: ss ++ ss3, ks3)
                  | _ => (r, wb2, s :: ss, ks2)
                  end
                else
                  let '(r, wb2, ss, ks2) := flush_loop f ks' wb' in (r, wb2, s :: ss, ks2)
              else flush_loop f ks' wb
          | WAgain => (Ret false, wb, [], ks')
          | WErr => (Ret true, wb, [], ks')
          end
      end
  end
  end.

Definition flush_unlocked (ks : list wres) (wb : WriteBuffer)
    : flow * WriteBuffer * list seg * list wres := flush_loop (S (length ks)) ks wb.

Definition flush := flush_unlocked.

(** [write] returns 1 (queued), 0 (all written) or -1 (hard error); [None] when the
    schedule ends inside the call. *)
Definition push_chunk (data : bytes) (wb : WriteBuffer) : WriteBuffer :=
  set_data (chunks wb ++ [data]) (read_offset wb)
           (u64 (total_size wb + Z.of_nat (length data))) wb.

Definition write_direct (ks : list wres) (data : bytes) (wb : WriteBuffer)
    : option Z * WriteBuffer * list seg * list wres :=
  match ks with
  | [] => (None, wb, [], [])
  | k :: ks' =>
      match sys_write k (length data) with
      | WAgain => (Some 1, push_chunk data wb, [], ks')
      | WErr => (Some (-1), wb, [], ks')
      | WWrote n =>
          let sgs := if (0 <? n)%nat
                     then [mkSeg false (take n data) (length data <=? n)%nat] else [] in
          if (n <? length data)%nat then (Some 1, push_chunk (drop n data) wb, sgs, ks')
          else (Some 0, wb, sgs, ks')
      end
  end.

Definition write (ks : list wres) (data : bytes) (wb : WriteBuffer)
    : option Z * WriteBuffer * list seg * list wres :=
  match chunks wb with
  | [] => write_direct ks data wb
  | _ :: _ =>
      match flush_unlocked ks wb with
      | (Running, wb1, ss, ks1) => (None, wb1, ss, ks1)
      | (Ret _, wb1, ss, ks1) =>
          match chunks wb1 with
          | _ :: _ => (Some 1, push_chunk data wb1, ss, ks1)
          | [] => let '(r, wb2, ss2, ks2) := write_direct ks1 data wb1 in
                  (r, wb2, ss ++ ss2, ks2)
          end
      end
  end.

Definition write_priority (data : bytes) (wb : WriteBuffer) : WriteBuffer :=
  set_prio (priority_chunks wb ++ [data]) (priority_read_offset wb)
           (u64 (total_size wb + Z.of_nat (length data))) wb.

Definition clear (wb : WriteBuffer) : WriteBuffer :=
  mkWB [] 0 [] 0 0 (registered wb) (high_water wb) (low_water wb).

Definition empty (wb : WriteBuffer) : bool :=
  match chunks wb, priority_chunks wb with [], [] => true | _, _ => false end.

Definition size (wb : WriteBuffer) : Z := total_size wb.

(** The move constructor: the new buffer takes the queues, the old one keeps its marks. *)
Definition move_from (other : WriteBuffer) : WriteBuffer * WriteBuffer :=
  (other, mkWB [] 0 [] 0 0 false (high_water other) (low_water other)).

(** The move assignment; [same] when a buffer is assigned to itself. What the buffer held
    before is dropped. *)
Definition move_assign (same : bool) (this other : WriteBuffer) : WriteBuffer * WriteBuffer :=
  if same then (this, this) else move_from other.

(** ** What is still to be sent *)

Definition pending (cs : list bytes) (off : nat) : bytes :=
  match cs with [] => [] | f :: r => drop off f ++ concat r end.

Definition data_pending (wb : WriteBuffer) : bytes := pending (chunks wb) (read_offset wb).
Definition prio_pending (wb : WriteBuffer) : bytes :=
  pending (priority_chunks wb) (priority_read_offset wb).

(** A move hands every byte over once: nothing stays behind in the old buffer. *)
Lemma move_assign_once this other :
  let '(this', other') := move_assign false this other in
  data_pending this' = data_pending other ∧ prio_pending this' = prio_pending other
  ∧ data_pending other' = [] ∧ prio_pending other' = [] ∧ total_size other' = 0.
Proof. done. Qed.

Definition out_of (prio : bool) (ss : list seg) : bytes :=
  concat (map s_data (filter (λ s, s_prio s = prio) ss)).

(** Queue invariant: no frame is empty, and the offset is inside the front frame. *)
Definition queue_wf (cs : list bytes) (off : nat) : Prop :=
  Forall (λ c, c ≠ []) cs ∧ match cs with [] => off = 0%nat | f :: _ => (off < length f)%nat end.

Definition wf (wb : WriteBuffer) : Prop :=
  queue_wf (chunks wb) (read_offset wb) ∧
  queue_wf (priority_chunks wb) (priority_read_offset wb) ∧
  total_size wb = u64 (Z.of_nat (length (data_pending wb) + length (prio_pending wb))).

(** Invariant-preserving output: each queue loses exactly what was sent from it. *)
Record sent (wb wb' : WriteBuffer) (ss : list seg) : Prop := {
  sent_wf : wf wb';
  sent_data : out_of false ss ++ data_pending wb' = data_pending wb;
  sent_prio : out_of true ss ++ prio_pending wb' = prio_pending wb
}.

Section queues.

Lemma out_of_app b ss1 ss2 : out_of b (ss1 ++ ss2) = out_of b ss1 ++ out_of b ss2.
Proof. unfold out_of. by rewrite filter_app, map_app, concat_app. Qed.

Lemma out_of_cons b s ss :
  out_of b (s :: ss) = (if bool_decide (s_prio s = b) then s_data s else []) ++ out_of b ss.
Proof. unfold out_of. rewrite filter_cons. by case_decide; case_bool_decide. Qed.

Lemma queue_wf_push cs off c :
  c ≠ [] → queue_wf cs off → queue_wf (cs ++ [c]) off.
Proof.
  intros Hc [Hall Hoff]. split; [by apply Forall_app_2, Forall_singleton|].
  destruct cs; simpl in *; [|done]. subst. destruct c; simpl; [done|lia].
Qed.

Lemma pending_push cs off c :
  queue_wf cs off → pending (cs ++ [c]) off = pending cs off ++ c.
Proof.
  intros [_ Hoff]. destruct cs as [|f r]; simpl in *; [by subst; rewrite app_nil_r|].
  by rewrite concat_app, app_assoc; simpl; rewrite app_nil_r.
Qed.

(** One partial write of the front frame. *)
Lemma advance_spec front rest off n cs' off' :
  queue_wf (front :: rest) off → (0 < n <= length front - off)%nat →
  advance front rest (off + n) = (cs', off') →
  queue_wf cs' off' ∧
  take n (drop off front) ++ pending cs' off' = pending (front :: rest) off.
Proof.
  intros [Hall Hoff] Hn. apply Forall_cons in Hall as [Hf Hr]. unfold advance.
  destruct (Nat.leb_spec (length front) (off + n)) as [Hle|Hgt]; intros [= <- <-].
  - split.
    + split; [done|]. destruct rest as [|r0 r]; [done|].
      apply Forall_cons in Hr as [Hr0 _]. destruct r0; simpl; [done|lia].
    + rewrite take_ge by (rewrite length_drop; lia).
      destruct rest; simpl; [done|]. by rewrite drop_0.
  - split; [split; [by constructor|done]|].
    simpl. rewrite app_assoc. f_equal.
    by rewrite <- drop_drop, take_drop.
Qed.

Lemma length_sent_step front rest off n cs' off' :
  queue_wf (front :: rest) off → (0 < n <= length front - off)%nat →
  advance front rest (off + n) = (cs', off') →
  (length (pending cs' off') + n)%nat = length (pending (front :: rest) off).
Proof.
  intros Hwf Hn Ha. destruct (advance_spec _ _ _ _ _ _ Hwf Hn Ha) as [_ <-].
  rewrite length_app, length_take, length_drop. lia.
Qed.

Lemma u64_sub_size (ts a b : Z) : ts = u64 (a + b) → u64 (ts - b) = u64 a.
Proof.
  intros ->. unfold u64. rewrite Zminus_mod_idemp_l. f_equal. lia.
Qed.

Lemma sent_refl wb : wf wb → sent wb wb [].
Proof. by split. Qed.

Lemma sent_trans wb1 wb2 wb3 ss ss' :
  sent wb1 wb2 ss → sent wb2 wb3 ss' → sent wb1 wb3 (ss ++ ss').
Proof.
  intros [_ Hd Hp] [Hw' Hd' Hp']. split; [done|..]; rewrite out_of_app, <- app_assoc; congruence.
Qed.

Lemma sent_prio_step wb msg rest n cs off' :
  wf wb → priority_chunks wb = msg :: rest →
  (0 < n <= length msg - priority_read_offset wb)%nat →
  advance msg rest (priority_read_offset wb + n) = (cs, off') →
  sent wb (set_prio cs off' (u64 (total_size wb - Z.of_nat n)) wb)
       [mkSeg true (take n (drop (priority_read_offset wb) msg))
              (length msg <=? priority_read_offset wb + n)%nat].
Proof.
  intros (Hd & Hp & Hsz) E Hn Ha. rewrite E in Hp.
  pose proof (advance_spec _ _ _ _ _ _ Hp Hn Ha) as [Hq Hpend].
  pose proof (length_sent_step _ _ _ _ _ _ Hp Hn Ha) as Hlen.
  split; [split_and!; try done|done|].
  - simpl. unfold prio_pending in Hsz |- *. rewrite E in Hsz. simpl priority_chunks.
    simpl priority_read_offset. rewrite <- Hlen in Hsz. apply u64_sub_size.
    rewrite Hsz. f_equal. unfold data_pending; simpl. lia.
  - rewrite out_of_cons. simpl. rewrite app_nil_r. unfold prio_pending. by rewrite E.
Qed.

Lemma sent_data_step wb front rest n cs off' :
  wf wb → chunks wb = front :: rest →
  (0 < n <= length front - read_offset wb)%nat →
  advance front rest (read_offset wb + n) = (cs, off') →
  sent wb (set_data cs off' (u64 (total_size wb - Z.of_nat n)) wb)
       [mkSeg false (take n (drop (read_offset wb) front))
              (length front <=? read_offset wb + n)%nat].
Proof.
  intros (Hd & Hp & Hsz) E Hn Ha. rewrite E in Hd.
  pose proof (advance_spec _ _ _ _ _ _ Hd Hn Ha) as [Hq Hpend].
  pose proof (length_sent_step _ _ _ _ _ _ Hd Hn Ha) as Hlen.
  split; [split_and!; try done| |done].
  - simpl. unfold data_pending in Hsz |- *. rewrite E in Hsz. simpl chunks.
    simpl read_offset. rewrite <- Hlen in Hsz. apply u64_sub_size.
    rewrite Hsz. f_equal. unfold prio_pending; simpl. lia.
  - rewrite out_of_cons. simpl. rewrite app_nil_r. unfold data_pending. by rewrite E.
Qed.

Lemma wf_push_chunk wb data :
  wf wb → data ≠ [] →
  wf (push_chunk data wb) ∧ data_pending (push_chunk data wb) = data_pending wb ++ data
  ∧ prio_pending (push_chunk data wb) = prio_pending wb.
Proof.
  intros (Hd & Hp & Hsz) Hne.
  assert (data_pending (push_chunk data wb) = data_pending wb ++ data) as Hpd
    by (by apply pending_push).
  split; [|done]. split; [|split].
  - by apply queue_wf_push.
  - done.
  - rewrite Hpd, length_app. simpl total_size. rewrite Hsz. unfold u64.
    rewrite Zplus_mod_idemp_l. f_equal. unfold prio_pending; simpl. lia.
Qed.

Lemma wf_write_priority wb data :
  wf wb → data ≠ [] →
  wf (write_priority data wb) ∧ prio_pending (write_priority data wb) = prio_pending wb ++ data
  ∧ data_pending (write_priority data wb) = data_pending wb.
Proof.
  intros (Hd & Hp & Hsz) Hne.
  assert (prio_pending (write_priority data wb) = prio_pending wb ++ data) as Hpd
    by (by apply pending_push).
  split; [|done]. split; [|split].
  - done.
  - by apply queue_wf_push.
  - rewrite Hpd, length_app. simpl total_size. rewrite Hsz. unfold u64.
    rewrite Zplus_mod_idemp_l. f_equal. unfold data_pending; simpl. lia.
Qed.

End queues.

(** ** Flushing *)

(** Priority runs only between data frames: [no_split o ss] holds when no priority
    bytes are sent while a data frame is partly written, [o] telling whether one is at
    the start; [open_after] tells whether one is at the end. *)
Fixpoint no_split (open : bool) (ss : list seg) : Prop :=
  match ss with
  | [] => True
  | s :: ss' => if s_prio s then open = false ∧ no_split open ss'
                else no_split (negb (s_done s)) ss'
  end.

Fixpoint open_after (open : bool) (ss : list seg) : bool :=
  match ss with
  | [] => open
  | s :: ss' => open_after (if s_prio s then open else negb (s_done s)) ss'
  end.

(** A partly written data frame is always at the front of the queue. *)
Definition open_ok (open : bool) (wb : WriteBuffer) : Prop := open = true → chunks wb ≠ [].

(** An answer that makes progress: anything but a zero count. *)
Definition progress (k : wres) : Prop := k ≠ WWrote 0.

Section flushing.

Lemma no_split_app o ss1 ss2 :
  no_split o (ss1 ++ ss2) ↔ no_split o ss1 ∧ no_split (open_after o ss1) ss2.
Proof.
  revert o; induction ss1 as [|s ss1 IH]; intros o; simpl; [tauto|].
  destruct (s_prio s); rewrite IH; tauto.
Qed.

Lemma open_after_app o ss1 ss2 :
  open_after o (ss1 ++ ss2) = open_after (open_after o ss1) ss2.
Proof. revert o; induction ss1; intros; simpl; auto. Qed.

Lemma prio_run_split ss :
  Forall (λ s, s_prio s = true) ss → no_split false ss ∧ open_after false ss = false.
Proof. induction 1 as [|s ss E Hss IH]; simpl; [done|]. rewrite E. tauto. Qed.

(** The facts about one run of the priority loop used by the outer loop. *)
Lemma flush_priority_spec ks wb r wb' ss ks' :
  wf wb → flush_priority_unlocked ks wb = (r, wb', ss, ks') →
  sent wb wb' ss ∧ chunks wb' = chunks wb ∧ Forall (λ s, s_prio s = true) ss ∧
  (∃ used, ks = used ++ ks') ∧
  (r = Ret true → WErr ∉ ks → priority_chunks wb' = []) ∧
  (Forall progress ks →
     (r = Running → (length ks < length (prio_pending wb))%nat) ∧
     (length ks <= length ks' + length (out_of true ss) + 1)%nat).
Proof.
  revert wb r wb' ss ks'; induction ks as [|k ks IH]; intros wb r wb' ss ks' Hwf;
    simpl; destruct (priority_chunks wb) as [|msg rest] eqn:E.
  1, 3: intros [= <- <- <- <-]; split; [by apply sent_refl|];
    split_and!; [done|done|by exists []|done|intros; split; [done|simpl; lia]].
  { intros [= <- <- <- <-]; split; [by apply sent_refl|].
    split_and!; [done|done|by exists []|done|]. intros _; split; [|simpl; lia]. intros _.
    destruct Hwf as (_ & [_ Hq] & _).
    rewrite E in Hq. unfold prio_pending. rewrite E. simpl.
    rewrite length_app, length_drop. simpl. lia. }
  assert (Hq : (priority_read_offset wb < length msg)%nat).
  { destruct Hwf as (_ & [_ Hq] & _). by rewrite E in Hq. }
  destruct k as [n| |]; cbn [sys_write].
  2, 3: intros [= <- <- <- <-]; split; [by apply sent_refl|]; split_and!;
    [done|done|by eexists [_]|by intros ? []%not_elem_of_cons|simpl; intros; split; [done|lia]].
  destruct (Nat.ltb_spec 0 (n `min` (length msg - priority_read_offset wb))) as [Hn|Hn].
  - destruct (advance msg rest _) as [cs off'] eqn:Ha.
    destruct (flush_priority_unlocked ks _) as [[[r0 wb0] ss0] ks0] eqn:Er.
    intros [= <- <- <- <-].
    assert (Hstep := sent_prio_step wb msg rest (n `min` (length msg - priority_read_offset wb))
      cs off' Hwf E ltac:(lia) Ha).
    apply IH in Er as (Hs & Hc & Hpr & [used ->] & Hend & Hprog); [|apply Hstep].
    split_and!; try done.
    + exact (sent_trans _ _ _ _ _ Hstep Hs).
    + by constructor.
    + by exists (WWrote n :: used).
    + intros ? [_ ?]%not_elem_of_cons. by apply Hend.
    + intros [_ Hall]%Forall_cons. destruct (Hprog Hall) as [Hrun Hcount].
      destruct Hstep as [_ _ Hpp]. apply (f_equal length) in Hpp.
      rewrite length_app, out_of_cons in Hpp. rewrite out_of_cons.
      simpl in Hpp |- *. rewrite ?app_nil_r, ?length_app, length_take, length_drop in *.
      split; [intros Hr; specialize (Hrun Hr)|]; lia.
  - assert (n = 0%nat) as -> by lia. intros Er.
    apply IH in Er as (Hs & Hc & Hpr & [used ->] & Hend & Hprog); [|done].
    split_and!; try done; [by exists (WWrote 0 :: used)| |].
    + intros ? [_ ?]%not_elem_of_cons. by apply Hend.
    + by intros [[] _]%Forall_cons.
Qed.

Definition work (wb : WriteBuffer) : nat :=
  (2 * length (data_pending wb) + length (prio_pending wb))%nat.

Lemma sent_length_data wb wb' ss :
  sent wb wb' ss →
  length (data_pending wb) = (length (out_of false ss) + length (data_pending wb'))%nat ∧
  length (prio_pending wb) = (length (out_of true ss) + length (prio_pending wb'))%nat.
Proof. intros [_ <- <-]. by rewrite !length_app. Qed.

(** What holds of a flush that started with schedule [ks] and buffer [wb]. *)
Definition flush_post (o : bool) (ks : list wres) (wb : WriteBuffer)
    (res : flow * WriteBuffer * list seg * list wres) : Prop :=
  let '(r, wb', ss, ks') := res in
  sent wb wb' ss ∧ no_split o ss ∧ open_ok (open_after o ss) wb' ∧ (∃ used, ks = used ++ ks') ∧
  (r = Ret true → WErr ∉ ks → empty wb' = true) ∧
  (Forall progress ks → r = Running → (length ks < work wb)%nat).

Lemma flush_post_priority o ks wb :
  wf wb → open_ok o wb → chunks wb = [] → flush_post o ks wb (flush_priority_unlocked ks wb).
Proof.
  intros Hwf Ho E. destruct (flush_priority_unlocked ks wb) as [[[r wb'] ss] ks'] eqn:Hp.
  apply flush_priority_spec in Hp as (Hs & Hc & Hpr & Hu & Hend & Hprog); [|done].
  assert (o = false) as -> by (destruct o; [by destruct (Ho eq_refl)|done]).
  destruct (prio_run_split ss Hpr) as [Hns Hoa]. split; [done|]. rewrite Hoa. split_and!; try done.
  - intros Hr He. unfold empty. by rewrite Hc, E, (Hend Hr He).
  - intros Hall Hr. destruct (Hprog Hall) as [Hrun _]. specialize (Hrun Hr). unfold work. lia.
Qed.

Lemma flush_post_stop o ks wb k ks' r :
  wf wb → open_ok o wb → ks = k :: ks' → r ≠ Running → (r = Ret true → k = WErr) →
  flush_post o ks wb (r, wb, [], ks').
Proof.
  intros Hwf Ho -> Hr Hk. split; [by apply sent_refl|]. simpl. split_and!; try done.
  - by exists [k].
  - intros -> []%not_elem_of_cons. by rewrite Hk in *.
Qed.

Lemma flush_post_zero o ks wb r wb' ss ks' :
  flush_post o ks wb (r, wb', ss, ks') → flush_post o (WWrote 0 :: ks) wb (r, wb', ss, ks').
Proof.
  intros (Hs & Hns & Hoa & [used ->] & Hend & Hprog).
  split_and!; try done; [by exists (WWrote 0 :: used)| |by intros [[] _]%Forall_cons].
  intros ? [_ ?]%not_elem_of_cons. by apply Hend.
Qed.

(** A data run of [n > 0] bytes, then the rest of the flush from [wb1]. *)
Lemma flush_post_data o ks n wb wb1 bs fin r wb' ss ks' :
  sent wb wb1 [mkSeg false bs fin] → bs ≠ [] →
  flush_post (negb fin) ks wb1 (r, wb', ss, ks') →
  flush_post o (WWrote n :: ks) wb (r, wb', mkSeg false bs fin :: ss, ks').
Proof.
  intros Hstep Hne (Hs & Hns & Hoa & [used ->] & Hend & Hprog).
  split; [exact (sent_trans _ _ _ _ _ Hstep Hs)|]. simpl. split_and!; try done.
  - by exists (WWrote n :: used).
  - intros ? [_ ?]%not_elem_of_cons. by apply Hend.
  - intros [_ Hall]%Forall_cons Hr. specialize (Hprog Hall Hr).
    pose proof (sent_length_data _ _ _ Hstep) as [HL HP]. unfold work in *.
    rewrite out_of_cons in HL. cbn in HL. rewrite app_nil_r in HL.
    destruct bs; [done|]. simpl in *. lia.
Qed.

(** The priority loop between two frames: it stops the flush, or lets it go on. *)
Lemma flush_post_between_stop ks wb r wb1 ss1 ks1 :
  wf wb → flush_priority_unlocked ks wb = (r, wb1, ss1, ks1) → r ≠ Ret true →
  flush_post false ks wb (r, wb1, ss1, ks1).
Proof.
  intros Hwf Hp Hr. apply flush_priority_spec in Hp as (Hs & Hc & Hpr & Hu & _ & Hprog); [|done].
  destruct (prio_run_split ss1 Hpr) as [Hns Hoa]. split; [done|]. rewrite Hoa.
  split_and!; try done. intros Hall Hrun. destruct (Hprog Hall) as [Hlt _].
  specialize (Hlt Hrun). unfold work. lia.
Qed.

Lemma flush_post_between_go ks n wb0 wb bs wb1 ss1 ks1 r wb' ss ks' :
  sent wb0 wb [mkSeg false bs true] → bs ≠ [] →
  flush_priority_unlocked ks wb = (Ret true, wb1, ss1, ks1) →
  flush_post false ks1 wb1 (r, wb', ss, ks') → ∀ o,
  flush_post o (WWrote n :: ks) wb0 (r, wb', mkSeg false bs true :: ss1 ++ ss, ks').
Proof.
  intros Hstep Hne Hp (Hs & Hns & Hoa & [used ->] & Hend & Hprog) o.
  apply flush_priority_spec in Hp as (Hs1 & _ & Hpr & [u1 ->] & _ & Hprog1); [|apply Hstep].
  destruct (prio_run_split ss1 Hpr) as [Hns1 Hoa1].
  pose proof (sent_trans _ _ _ _ _ Hs1 Hs) as Hs2.
  split; [exact (sent_trans _ _ _ _ _ Hstep Hs2)|].
  simpl. rewrite no_split_app, open_after_app, Hoa1. split_and!; try done.
  - exists (WWrote n :: u1 ++ used). simpl. by rewrite <- app_assoc.
  - intros Hr [_ [_ He]%not_elem_of_app]%not_elem_of_cons. by apply Hend.
  - intros [_ Hall]%Forall_cons Hr. destruct (Hprog1 Hall) as [_ Hcnt].
    apply Forall_app in Hall as [_ Hall]. specialize (Hprog Hall Hr).
    pose proof (sent_length_data _ _ _ Hstep) as [HL HP].
    pose proof (sent_length_data _ _ _ Hs1) as [HL1 HP1]. unfold work in *.
    rewrite out_of_cons in HL, HP. cbn in HL, HP. rewrite app_nil_r in HL.
    destruct bs; [done|]. simpl in *. rewrite ?length_app in *. lia.
Qed.

Lemma flush_loop_spec f ks wb o :
  (length ks < f)%nat → wf wb → open_ok o wb → flush_post o ks wb (flush_loop f ks wb).
Proof.
  revert ks wb o; induction f as [|f IH]; intros ks wb o Hf Hwf Ho; [lia|]. cbn [flush_loop].
  destruct (chunks wb) as [|front rest] eqn:E; [by apply flush_post_priority|].
  assert (Hq : (read_offset wb < length front)%nat).
  { destruct Hwf as ([_ Hq] & _). by rewrite E in Hq. }
  destruct ks as [|k ks].
  { split; [by apply sent_refl|]. simpl. split_and!; try done; [by exists []|].
    intros. unfold work, data_pending. rewrite E. simpl. rewrite length_app, length_drop. lia. }
  simpl in Hf. destruct k as [n| |]; cbn [sys_write]; [|by eapply flush_post_stop..].
  destruct (Nat.ltb_spec 0 (n `min` (length front - read_offset wb))) as [Hn|Hn].
  2: { assert (n = 0%nat) as -> by lia.
       specialize (IH ks wb o ltac:(lia) Hwf Ho). destruct (flush_loop f ks wb) as [[[]]].
       by apply flush_post_zero. }
  set (m := (n `min` (length front - read_offset wb))%nat) in *.
  destruct (advance front rest (read_offset wb + m)) as [cs off'] eqn:Ha.
  assert (Hstep := sent_data_step wb front rest m cs off' Hwf E ltac:(lia) Ha).
  assert (Hbs : take m (drop (read_offset wb) front) ≠ []).
  { intros Hnil%(f_equal length). rewrite length_take, length_drop in Hnil. simpl in Hnil. lia. }
  unfold advance in Ha. destruct (Nat.leb_spec (length front) (read_offset wb + m)).
  - destruct (flush_priority_unlocked ks _) as [[[r1 wb1] ss1] ks1] eqn:Ep.
    pose proof (flush_priority_spec _ _ _ _ _ _ (sent_wf _ _ _ Hstep) Ep) as (Hs1 & _ & _ & [u1 Hu] & _).
    destruct (decide (r1 = Ret true)) as [->|Hr1].
    + destruct (flush_loop f ks1 wb1) as [[[r2 wb2] ss2] ks2] eqn:El.
      eapply flush_post_between_go; try done. rewrite <- El. apply IH; [|apply Hs1|done].
      subst ks. rewrite length_app in Hf. lia.
    + destruct r1 as [[]|]; [done|..]; eapply flush_post_data; try done;
        by eapply flush_post_between_stop; try apply Hstep.
  - injection Ha as <- <-.
    specialize (IH ks _ true ltac:(lia) (sent_wf _ _ _ Hstep) ltac:(done)).
    destruct (flush_loop f ks _) as [[[r2 wb2] ss2] ks2].
    by eapply flush_post_data.
Qed.

Lemma flush_spec ks wb o : wf wb → open_ok o wb → flush_post o ks wb (flush_unlocked ks wb).
Proof. intros. apply flush_loop_spec; [lia|done..]. Qed.

End flushing.

(** ** Writing *)

(** The bytes [write] takes responsibility for: all of [data] unless it reports -1. *)
Definition taken (res : Z) (data : bytes) : bytes := if res =? -1 then [] else data.

Definition write_post (o : bool) (data : bytes) (wb : WriteBuffer) (res : Z)
    (wb' : WriteBuffer) (ss : list seg) : Prop :=
  wf wb' ∧ no_split o ss ∧ open_ok (open_after o ss) wb' ∧
  out_of false ss ++ data_pending wb' = data_pending wb ++ taken res data ∧
  out_of true ss ++ prio_pending wb' = prio_pending wb.

Section writing.

Lemma write_direct_spec ks data wb res wb' ss ks' :
  wf wb → chunks wb = [] → data ≠ [] →
  write_direct ks data wb = (Some res, wb', ss, ks') → write_post false data wb res wb' ss.
Proof.
  intros Hwf E Hne. destruct ks as [|k ks]; [done|]. cbn [write_direct].
  assert (Hdp : data_pending wb = []) by (unfold data_pending; by rewrite E).
  destruct k as [n| |]; cbn [sys_write].
  2: { intros [= <- <- <- <-]. destruct (wf_push_chunk wb data Hwf Hne) as (? & Hd & Hp).
       split_and!; try done; by rewrite ?Hd, ?Hp. }
  2: { intros [= <- <- <- <-]. split_and!; try done. by rewrite app_nil_r. }
  set (m := (n `min` length data)%nat).
  assert (Htake : concat (map s_data (if (0 <? m)%nat
            then [mkSeg false (take m data) (length data <=? m)%nat] else [])) = take m data).
  { destruct (Nat.ltb_spec 0 m); simpl; [by rewrite app_nil_r|].
    by replace m with 0%nat by lia. }
  destruct (Nat.ltb_spec m (length data)) as [Hlt|Hge]; intros [= <- <- <- <-].
  - assert (Hdr : drop m data ≠ []).
    { intros Hn%(f_equal length). rewrite length_drop in Hn. simpl in Hn. lia. }
    destruct (wf_push_chunk wb _ Hwf Hdr) as (? & Hd & Hp).
    unfold write_post. rewrite Hd, Hp, Hdp. cbn [app]. rewrite (proj2 (Nat.leb_gt _ _)) by lia.
    destruct (Nat.ltb_spec 0 m); simpl; split_and!; try done.
    + intros _. simpl. by rewrite E.
    + unfold out_of. simpl. by rewrite app_nil_r, take_drop.
    + by replace m with 0%nat by lia.
  - rewrite (proj2 (Nat.leb_le _ _)) by lia. unfold write_post. rewrite Hdp.
    destruct (Nat.ltb_spec 0 m) as [|Hm]; simpl; split_and!; try done.
    + unfold out_of. simpl. rewrite !app_nil_r. by apply take_ge.
    + destruct data; [done|]. simpl in *. lia.
Qed.

Lemma write_spec ks data wb o res wb' ss ks' :
  wf wb → open_ok o wb → data ≠ [] →
  write ks data wb = (Some res, wb', ss, ks') → write_post o data wb res wb' ss.
Proof.
  intros Hwf Ho Hne. unfold write. destruct (chunks wb) as [|c cs] eqn:E.
  { assert (o = false) as -> by (destruct o; [by destruct (Ho eq_refl)|done]).
    by apply write_direct_spec. }
  pose proof (flush_spec ks wb o Hwf Ho) as Hf.
  destruct (flush_unlocked ks wb) as [[[[d|] wb1] ss1] ks1]; [|done].
  destruct Hf as ([Hw1 Hd1 Hp1] & Hns1 & Hoa1 & _).
  destruct (chunks wb1) as [|c1 cs1] eqn:E1.
  - destruct (write_direct ks1 data wb1) as [[[r2 wb2] ss2] ks2] eqn:Ew.
    intros [= -> <- <- <-].
    apply write_direct_spec in Ew as (Hw2 & Hns2 & Hoa2 & Hd2 & Hp2); try done.
    assert (Hcl : open_after o ss1 = false).
    { destruct (open_after o ss1); [by destruct (Hoa1 eq_refl)|done]. }
    split; [done|]. rewrite no_split_app, open_after_app, !out_of_app, Hcl, <- !app_assoc.
    split_and!; try done; [by rewrite Hd2, app_assoc, Hd1|by rewrite Hp2].
  - intros [= <- <- <- <-]. destruct (wf_push_chunk wb1 data Hw1 Hne) as (? & Hd & Hp).
    split; [done|]. split; [done|]. split; [by intros _; simpl; rewrite E1|].
    by rewrite Hd, Hp, app_assoc, Hd1, Hp1.
Qed.

End writing.

(** ** The buffer as two byte streams

    [run] performs a sequence of operations against one schedule and collects what
    reached the socket and what each stream accepted. *)
Inductive op := OpWrite (data : bytes) | OpPriority (data : bytes) | OpFlush.

Definition op_ok (p : op) : Prop :=
  match p with OpWrite d | OpPriority d => d ≠ [] | OpFlush => True end.

Record trace := mkTrace { t_buf : WriteBuffer; t_segs : list seg; t_data : bytes; t_prio : bytes }.

Fixpoint run (ops : list op) (ks : list wres) (t : trace) : option (trace * list wres) :=
  match ops with
  | [] => Some (t, ks)
  | OpWrite d :: ops' =>
      match write ks d (t_buf t) with
      | (Some res, wb, ss, ks') =>
          run ops' ks' (mkTrace wb (t_segs t ++ ss) (t_data t ++ taken res d) (t_prio t))
      | (None, _, _, _) => None
      end
  | OpPriority d :: ops' =>
      run ops' ks (mkTrace (write_priority d (t_buf t)) (t_segs t) (t_data t) (t_prio t ++ d))
  | OpFlush :: ops' =>
      match flush ks (t_buf t) with
      | (Ret _, wb, ss, ks') => run ops' ks' (mkTrace wb (t_segs t ++ ss) (t_data t) (t_prio t))
      | (Running, _, _, _) => None
      end
  end.

Definition trace_inv (t : trace) : Prop :=
  wf (t_buf t) ∧ no_split false (t_segs t) ∧ open_ok (open_after false (t_segs t)) (t_buf t) ∧
  out_of false (t_segs t) ++ data_pending (t_buf t) = t_data t ∧
  out_of true (t_segs t) ++ prio_pending (t_buf t) = t_prio t.

Definition start : trace := mkTrace new_buffer [] [] [].

Section streams.

Lemma start_inv : trace_inv start.
Proof. split_and!; try done; by split. Qed.

Lemma run_inv ops ks t t' ks' :
  Forall op_ok ops → trace_inv t → run ops ks t = Some (t', ks') → trace_inv t'.
Proof.
  revert ks t; induction ops as [|p ops IH]; intros ks t; [by intros _ ? [= -> _]|].
  intros [Hp Hops]%Forall_cons (Hw & Hns & Ho & Hd & Hpr). destruct p as [d|d|]; simpl.
  - destruct (write ks d (t_buf t)) as [[[[res|] wb] ss] ks1] eqn:Ew; [|done].
    apply (write_spec _ _ _ (open_after false (t_segs t))) in Ew
      as (Hw' & Hns' & Ho' & Hd' & Hp'); try done.
    apply IH; [done|]. split; [done|]. simpl.
    rewrite no_split_app, open_after_app, !out_of_app, <- !app_assoc.
    split_and!; try done; [by rewrite Hd', app_assoc, Hd|by rewrite Hp'].
  - apply IH; [done|]. destruct (wf_write_priority (t_buf t) d Hw Hp) as (? & Hp' & Hd').
    split; [done|]. simpl. split_and!; try done. by rewrite Hp', app_assoc, Hpr.
  - pose proof (flush_spec ks (t_buf t) (open_after false (t_segs t)) Hw Ho) as Hf.
    unfold flush. destruct (flush_unlocked ks (t_buf t)) as [[[[b|] wb] ss] ks1]; [|done].
    destruct Hf as ([Hw' Hd' Hp'] & Hns' & Ho' & _).
    apply IH; [done|]. split; [done|]. simpl.
    rewrite no_split_app, open_after_app, !out_of_app, <- !app_assoc.
    split_and!; try done; congruence.
Qed.

(** [C10] Refinement to two FIFO byte streams: after any sequence of writes, priority
    writes and flushes of a fresh buffer, against any behaviour of the socket, each
    stream is sent in order, without loss or duplication: what reached the socket
    followed by what is still queued is exactly what was accepted; and [total_size]
    counts the queued bytes. *)
Theorem buffer_streams ops ks t ks' :
  Forall op_ok ops → run ops ks start = Some (t, ks') →
  out_of false (t_segs t) ++ data_pending (t_buf t) = t_data t ∧
  out_of true (t_segs t) ++ prio_pending (t_buf t) = t_prio t ∧
  size (t_buf t) = u64 (Z.of_nat (length (data_pending (t_buf t))
                                  + length (prio_pending (t_buf t)))).
Proof.
  intros Hops Hrun. destruct (run_inv _ _ _ _ _ Hops start_inv Hrun) as ((_ & _ & ?) & _ & _ & ? & ?).
  done.
Qed.

(** Priority frames never land inside a partly written data frame, whatever the
    socket does: the guarantee the comment in [flush_unlocked] states. *)
Theorem priority_never_splits_data ops ks t ks' :
  Forall op_ok ops → run ops ks start = Some (t, ks') → no_split false (t_segs t).
Proof. intros Hops Hrun. by destruct (run_inv _ _ _ _ _ Hops start_inv Hrun) as (_ & ? & _). Qed.

(** A flush finishes: when every answer of the socket is an error, "would block" or
    a non-zero count, a schedule of twice the queued data plus the queued priority
    bytes is enough for [flush] to return. *)
Theorem flush_terminates ks wb :
  wf wb → Forall progress ks → (work wb <= length ks)%nat → (flush ks wb).1.1.1 ≠ Running.
Proof.
  intros Hwf Hp Hlen. pose proof (flush_spec ks wb false Hwf ltac:(done)) as Hf. unfold flush.
  destruct (flush_unlocked ks wb) as [[[r wb'] ss] ks'].
  destruct Hf as (_ & _ & _ & _ & _ & Hrun). simpl. intros Hr. specialize (Hrun Hp Hr). lia.
Qed.

(** When no hard error occurs, [flush] reports "drained" only if the whole buffer,
    both queues, has been written. *)
Theorem flush_drained ks wb wb' ss ks' :
  wf wb → WErr ∉ ks → flush ks wb = (Ret true, wb', ss, ks') →
  empty wb' = true ∧ out_of false ss = data_pending wb ∧ out_of true ss = prio_pending wb.
Proof.
  intros Hwf Hk Hfl. pose proof (flush_spec ks wb false Hwf ltac:(done)) as Hf.
  unfold flush in Hfl. rewrite Hfl in Hf. destruct Hf as ([_ Hd Hp] & _ & _ & _ & He & _).
  specialize (He eq_refl Hk). split; [done|]. rewrite <- Hd, <- Hp.
  unfold empty in He. unfold data_pending, prio_pending.
  destruct (chunks wb'), (priority_chunks wb'); try done. by rewrite !app_nil_r.
Qed.

(** The converse protection is missing: a priority frame that was only partly
    written is followed by the bytes of the next data frame, so the peer reads a
    corrupted stream (frames 1-1, 2-2 and 9-9-9; the socket accepts three bytes and
    then blocks once). *)
Theorem data_splits_priority :
  ∃ wb ks1 ks2 wb1 wb2 ss1 ss2,
    wf wb ∧ chunks wb = [[1; 1]; [2; 2]] ∧ priority_chunks wb = [[9; 9; 9]] ∧
    flush ks1 wb = (Ret false, wb1, ss1, []) ∧ flush ks2 wb1 = (Ret true, wb2, ss2, []) ∧
    concat (map s_data (ss1 ++ ss2)) = [1; 1; 9; 2; 2; 9; 9].
Proof.
  exists (mkWB [[9; 9; 9]] 0 [[1; 1]; [2; 2]] 0 7 false 262144 131072).
  exists [WWrote 2; WWrote 1; WAgain], [WWrote 2; WWrote 2].
  do 4 eexists. split; [|split; [done|split; [done|split; [reflexivity|split; reflexivity]]]].
  split_and!; repeat constructor; done || (simpl; lia).
Qed.

(** A frame of zero bytes in the data queue makes [flush] spin: no matter how many
    bytes the socket is willing to take, the loop never leaves that frame. *)
Theorem empty_frame_spins rest (counts : list nat) :
  (flush (map WWrote counts) (mkWB [] 0 ([] :: rest) 0 0 false 262144 131072)).1.1.1 = Running.
Proof.
  unfold flush, flush_unlocked. set (f := S (length (map WWrote counts))).
  clearbody f. revert f. induction counts as [|n counts IH]; intros [|f]; try done.
  cbn [map flush_loop chunks read_offset sys_write length Nat.sub].
  rewrite Nat.min_0_r. apply IH.
Qed.

End streams.

(** *** Concrete runs *)

Definition sample_ops : list op :=
  [OpWrite [1; 2; 3]; OpPriority [9]; OpWrite [4; 5]; OpFlush].
Definition sample_ks : list wres := [WWrote 2; WAgain; WAgain].

Lemma sample_ops_ok : Forall op_ok sample_ops.
Proof. repeat constructor; done. Qed.

Lemma buffer_streams_witness :
  match run sample_ops sample_ks start with
  | Some (t, _) => out_of false (t_segs t) ++ data_pending (t_buf t) = t_data t
                   ∧ t_data t = [1; 2; 3; 4; 5]
  | None => False
  end.
Proof.
  destruct (run sample_ops sample_ks start) as [[t ks]|] eqn:E; [|vm_compute in E; done].
  split; [exact (proj1 (buffer_streams sample_ops sample_ks t ks sample_ops_ok E))|].
  vm_compute in E. injection E as <- _. done.
Defined.

Lemma priority_never_splits_data_witness :
  match run sample_ops [WWrote 2; WWrote 1; WWrote 1; WWrote 2] start with
  | Some (t, _) => no_split false (t_segs t)
  | None => False
  end.
Proof.
  destruct (run sample_ops [WWrote 2; WWrote 1; WWrote 1; WWrote 2] start) as [[t ks]|] eqn:E;
    [|vm_compute in E; done].
  exact (priority_never_splits_data sample_ops _ t ks sample_ops_ok E).
Defined.

Definition sample_buffer : WriteBuffer :=
  mkWB [[9; 9; 9]] 0 [[1; 1]; [2; 2]] 0 7 false 262144 131072.

Lemma sample_buffer_wf : wf sample_buffer.
Proof. split_and!; repeat constructor; done || (simpl; lia). Qed.

Lemma flush_terminates_witness : (flush (repeat (WWrote 1) 11) sample_buffer).1.1.1 ≠ Running.
Proof.
  apply (flush_terminates (repeat (WWrote 1) 11) sample_buffer sample_buffer_wf);
    [repeat constructor; done|vm_compute; lia].
Defined.

Lemma flush_drained_witness :
  let '(r, wb', ss, _) := flush [WWrote 2; WWrote 3; WWrote 2] sample_buffer in
  r = Ret true ∧ empty wb' = true ∧ out_of true ss = [9; 9; 9].
Proof.
  destruct (flush [WWrote 2; WWrote 3; WWrote 2] sample_buffer) as [[[r wb'] ss] ks'] eqn:E.
  assert (r = Ret true) as -> by (vm_compute in E; congruence).
  destruct (flush_drained [WWrote 2; WWrote 3; WWrote 2] sample_buffer wb' ss ks'
              sample_buffer_wf ltac:(by apply (bool_decide_eq_true_1 (WErr ∉ _))) E)
    as (? & _ & ?). done.
Defined.

End WB.
