(* ===== verification/Split.v ===== *)
(** * The split/merge module (modules/split/split.cpp)

    [process_split] cuts a packet into chunks with a four-byte header and deals them
    round-robin to the outputs; [process_merge] puts the chunks of each packet back
    together, whatever the order in which they arrive. *)

From S2P Require Import Prelude.
From stdpp Require Import fin_maps.
Local Open Scope Z_scope.

Module Split.

Definition DEF_CHUNK_SIZE : Z := 16384.
Definition MIN_CHUNK : Z := 64.
Definition MAX_CHUNK : Z := 65536.
Definition HEADER_SIZE : nat := 4.
Definition MAX_CHUNKS_PER_PASS : Z := 65536.

Definition CLAMP (x lo hi : Z) : Z := if x <? lo then lo else if hi <? x then hi else x.

Record SlotEntry := mkSlot { sdata : bytes; ssize : Z; smore : Z }.

(** The last two fields count the calls made so far to [rand] and to the chain's
    [malloc], whose answers are parameters below. *)
Record SplitContext := mkCtx {
  num_outputs : Z;
  rr_idx : Z;
  pkt_seq : Z;
  chunk_idx : Z;
  pending : gmap Z SlotEntry;
  exp_pkt : Z;
  exp_chunk : Z;
  chunk_size_min : Z;
  chunk_size_max : Z;
  chunks_created : Z;
  chunks_received : Z;
  packets_created : Z;
  packets_flushed : Z;
  chunks_lost : Z;
  n_rand : nat;
  n_malloc : nat
}.

Definition new_ctx (outputs lo hi : Z) : SplitContext :=
  mkCtx outputs 0 0 0 ∅ 0 0 lo hi 0 0 0 0 0 0 0.

(** Calls the module makes on the chain's API. [EvMalloc] is a [malloc] that worked;
    [EvFree] names the released buffer by its contents; the buffer given to [process] is
    [EvFreeInput]. *)
Inductive event :=
| EvMalloc (size : Z)
| EvWrite (dst : Z) (data : bytes)
| EvFree (data : bytes)
| EvFreeInput.

(** The environment: the k-th value of [rand()], and whether the k-th [malloc] works. *)
Record Env := mkEnv { rand : nat → Z; malloc_ok : nat → bool }.

Definition next_chunk_size (env : Env) (ctx : SplitContext) : Z :=
  let lo := chunk_size_min ctx in
  let hi := chunk_size_max ctx in
  if hi <=? lo then lo
  else lo + u32 (rand env (n_rand ctx)) mod u32 (hi - lo + 1).

(** [next_chunk_size] calls [rand] only when the range is not a single size. *)
Definition rand_used (ctx : SplitContext) : nat :=
  if chunk_size_max ctx <=? chunk_size_min ctx then 0%nat else 1%nat.

Definition encode_hdr (pkt_id more chunk_id : Z) : Z :=
  let more := u16 more in
  let chunk_id := u16 chunk_id in
  Z.lor (Z.lor (Z.land pkt_id 0x7FFF) (Z.shiftl (if more =? 0 then 0 else 1) 15))
        (Z.shiftl chunk_id 16).

Definition hdr_bytes (h : Z) : bytes :=
  [Z.land h 0xFF; Z.land (Z.shiftr h 8) 0xFF; Z.land (Z.shiftr h 16) 0xFF;
   Z.land (Z.shiftr h 24) 0xFF].

(** (int) of a size, on 32 bits. *)
Definition int32 (z : Z) : Z := (z + 2 ^ 31) mod 2 ^ 32 - 2 ^ 31.

(** *** dir 0: split *)

(** The loop over a packet of [sz] bytes, of which [rest] (from [offset] on) is left.
    It returns [inl] when [malloc] fails. Each round takes at least one byte, so the
    length of the packet is enough fuel. *)
Definition set_split (ctx : SplitContext) (rr ci : Z) (nr nm : nat) : SplitContext :=
  mkCtx (num_outputs ctx) rr (pkt_seq ctx) ci (pending ctx) (exp_pkt ctx) (exp_chunk ctx)
        (chunk_size_min ctx) (chunk_size_max ctx) (chunks_created ctx) (chunks_received ctx)
        (packets_created ctx) (packets_flushed ctx) (chunks_lost ctx) nr nm.

Fixpoint split_loop (fuel : nat) (env : Env) (ctx : SplitContext) (sz offset nchunks : Z)
    (rest : bytes) : bool * SplitContext * list event * Z :=
  match fuel with
  | O => (true, ctx, [], nchunks)
  | S f =>
      if offset <? sz then
        let remain := sz - offset in
        let capped := MAX_CHUNKS_PER_PASS - 1 <=? nchunks in
        let chunk_len := if capped then remain
                         else if remain <? next_chunk_size env ctx then remain
                              else next_chunk_size env ctx in
        let nr := if capped then n_rand ctx else (n_rand ctx + rand_used ctx)%nat in
        let more := if offset + chunk_len <? sz then 1 else 0 in
        let hdr_val := encode_hdr (pkt_seq ctx) more (chunk_idx ctx) in
        let out_idx := 1 + rr_idx ctx mod u32 (num_outputs ctx) in
        if malloc_ok env (n_malloc ctx) then
          let piece := take (Z.to_nat chunk_len) rest in
          let ctx' := set_split ctx (u32 (rr_idx ctx + 1)) (u32 (chunk_idx ctx + 1))
                                nr (S (n_malloc ctx)) in
          let '(ok, ctx'', evs, n) :=
            split_loop f env ctx' sz (offset + chunk_len) (nchunks + 1)
                       (drop (Z.to_nat chunk_len) rest) in
          (ok, ctx'', EvMalloc (chunk_len + Z.of_nat HEADER_SIZE)
                      :: EvWrite out_idx (hdr_bytes hdr_val ++ piece) :: evs, n)
        else
          (false, set_split ctx (rr_idx ctx) (chunk_idx ctx) nr (S (n_malloc ctx)),
           [], nchunks)
      else (true, ctx, [], nchunks)
  end.

Definition end_packet (ctx : SplitContext) (nchunks : Z) : SplitContext :=
  mkCtx (num_outputs ctx) (rr_idx ctx) (u32 (pkt_seq ctx + 1)) 0 (pending ctx) (exp_pkt ctx)
        (exp_chunk ctx) (chunk_size_min ctx) (chunk_size_max ctx)
        (u64 (chunks_created ctx + nchunks)) (chunks_received ctx)
        (u64 (packets_created ctx + 1)) (packets_flushed ctx) (chunks_lost ctx)
        (n_rand ctx) (n_malloc ctx).

(** A null buffer is [None]. *)
Definition process_split (env : Env) (ctx : SplitContext) (data : option bytes)
    : Z * SplitContext * list event :=
  match data with
  | None | Some [] => (0, ctx, [])
  | Some d =>
      let '(ok, ctx', evs, n) :=
        split_loop (length d) env ctx (int32 (Z.of_nat (length d))) 0 0 d in
      if (ok : bool) then (0, end_packet ctx' n, evs ++ [EvFreeInput])
      else (0, ctx', evs ++ [EvFreeInput])
  end.

(** *** dir 1: merge *)

Definition read_hdr (d : bytes) : Z :=
  Z.lor (Z.lor (Z.lor (d !!! 0%nat) (Z.shiftl (d !!! 1%nat) 8)) (Z.shiftl (d !!! 2%nat) 16))
        (Z.shiftl (d !!! 3%nat) 24).

Definition wire_id (hdr : Z) : Z := Z.land hdr 0x7FFF.
Definition wire_more (hdr : Z) : Z := Z.land (Z.shiftr hdr 15) 1.
Definition wire_chunk (hdr : Z) : Z := Z.land (Z.shiftr hdr 16) 0xFFFF.

(** The 15-bit id extended to the 32-bit sequence around [exp_pkt]; [0xFFFF8000] is
    [~0x7FFF] on 32 bits. *)
Definition extend_seq (exp wid : Z) : Z :=
  let pkt_full := Z.lor (Z.land exp 0xFFFF8000) wid in
  if u32 (pkt_full + 16384) <? exp then u32 (pkt_full + 32768)
  else if u32 (exp + 16384) <=? pkt_full then u32 (pkt_full - 32768)
  else pkt_full.

Definition slot_key (pkt chunk : Z) : Z := Z.lor (Z.shiftl pkt 16) chunk.

Definition set_merge (ctx : SplitContext) (m : gmap Z SlotEntry) (ep ec recv fl lost : Z)
    (nm : nat) : SplitContext :=
  mkCtx (num_outputs ctx) (rr_idx ctx) (pkt_seq ctx) (chunk_idx ctx) m ep ec
        (chunk_size_min ctx) (chunk_size_max ctx) (chunks_created ctx) recv
        (packets_created ctx) fl lost (n_rand ctx) nm.

(** [lower_bound(start_key)] up to and including [end_key], in key order. *)
Definition key_range (start stop : Z) : list Z := seqZ start (stop - start + 1).
Definition range_slots (m : gmap Z SlotEntry) (start stop : Z) : list SlotEntry :=
  omap (λ k, m !! k) (key_range start stop).
Definition erase_range (m : gmap Z SlotEntry) (start stop : Z) : gmap Z SlotEntry :=
  foldl (λ m k, delete k m) m (key_range start stop).

(** One round of the [while (true)] loop; [None] is its [break]. *)
Definition merge_round (env : Env) (ctx : SplitContext) : option (SplitContext * list event) :=
  let exp_key := slot_key (exp_pkt ctx) (exp_chunk ctx) in
  match pending ctx !! exp_key with
  | None => None
  | Some e =>
      if smore e =? 0 then
        let start_key := Z.shiftl (exp_pkt ctx) 16 in
        let run := range_slots (pending ctx) start_key exp_key in
        let ok := malloc_ok env (n_malloc ctx) in
        let total := foldl (λ t s, t + ssize s) 0 run in
        let evs := if ok then EvMalloc total :: map (λ s, EvFree (sdata s)) run
                              ++ [EvWrite 0 (concat (map sdata run))] else [] in
        let m := if ok then erase_range (pending ctx) start_key exp_key else pending ctx in
        let fl := if ok then u64 (packets_flushed ctx + 1) else packets_flushed ctx in
        Some (set_merge ctx m (u32 (exp_pkt ctx + 1)) 0 (chunks_received ctx) fl
                        (chunks_lost ctx) (S (n_malloc ctx)), evs)
      else
        Some (set_merge ctx (pending ctx) (exp_pkt ctx) (u32 (exp_chunk ctx + 1))
                        (chunks_received ctx) (packets_flushed ctx)
                        (chunks_lost ctx) (n_malloc ctx), [])
  end.

(** The loop: [None] when it has not ended after [2 ^ (32 + size)] rounds, and then it never
    does ([merge_loop_exact] below; it happens, [merge_never_returns]). *)
Definition merge_loop (env : Env) (ctx : SplitContext) : option (SplitContext * list event) :=
  match iterate2 (merge_round env) (32 + size (pending ctx)) ctx with
  | inr r => Some r
  | inl _ => None
  end.

(** [None] when the call does not return: [malloc] of a slot fails and the code copies to a
    null pointer, or the loop does not end. *)
Definition process_merge (env : Env) (ctx : SplitContext) (data : option bytes)
    : option (Z * SplitContext * list event) :=
  match data with
  | None | Some [] => Some (0, ctx, [])
  | Some d =>
      if (length d <? HEADER_SIZE)%nat then Some (0, ctx, [EvFreeInput]) else
      let hdr := read_hdr d in
      let pkt_full := extend_seq (exp_pkt ctx) (wire_id hdr) in
      let payload := drop HEADER_SIZE d in
      if pkt_full <? exp_pkt ctx then
        Some (0, set_merge ctx (pending ctx) (exp_pkt ctx) (exp_chunk ctx) (chunks_received ctx)
                           (packets_flushed ctx) (u64 (chunks_lost ctx + 1)) (n_malloc ctx),
              [EvFreeInput])
      else
        let key := slot_key pkt_full (wire_chunk hdr) in
        let freed := match pending ctx !! key with Some e => [EvFree (sdata e)] | None => [] end in
        if malloc_ok env (n_malloc ctx) then
          let slot := mkSlot payload (u32 (Z.of_nat (length payload))) (wire_more hdr) in
          let ctx1 := set_merge ctx (<[key := slot]> (pending ctx)) (exp_pkt ctx) (exp_chunk ctx)
                                (u64 (chunks_received ctx + 1)) (packets_flushed ctx)
                                (chunks_lost ctx) (S (n_malloc ctx)) in
          '(ctx2, evs) ← merge_loop env ctx1;
          Some (0, ctx2, freed ++ EvMalloc (u64 (int32 (Z.of_nat (length payload)))) :: evs ++ [EvFreeInput])
        else None
  end.

Definition process (env : Env) (ctx : SplitContext) (dir : Z) (data : option bytes)
    : option (Z * SplitContext * list event) :=
  if dir =? 0 then Some (process_split env ctx data) else process_merge env ctx data.


(** *** Runs *)

(** The sender over a list of packets, and the receiver over a list of chunks. *)
Fixpoint split_all (env : Env) (ctx : SplitContext) (ps : list bytes)
    : SplitContext * list event :=
  match ps with
  | [] => (ctx, [])
  | p :: rest =>
      let '(_, ctx1, es) := process_split env ctx (Some p) in
      let '(ctx2, es') := split_all env ctx1 rest in (ctx2, es ++ es')
  end.

Fixpoint merge_all (env : Env) (ctx : SplitContext) (l : list bytes)
    : option (SplitContext * list event) :=
  match l with
  | [] => Some (ctx, [])
  | d :: rest =>
      '(_, ctx1, es) ← process_merge env ctx (Some d);
      '(ctx2, es') ← merge_all env ctx1 rest;
      Some (ctx2, es ++ es')
  end.

Definition writes (es : list event) : list bytes :=
  omap (λ e, match e with EvWrite _ d => Some d | _ => None end) es.

Lemma writes_app es1 es2 : writes (es1 ++ es2) = writes es1 ++ writes es2.
Proof. apply omap_app. Qed.

Lemma writes_frees (l : list SlotEntry) : writes (map (λ s, EvFree (sdata s)) l) = [].
Proof. by induction l. Qed.

(** ** The wire header *)

Section header.

Lemma encode_hdr_val p m c :
  0 <= p → m = 0 ∨ m = 1 → 0 <= c < 65536 →
  encode_hdr p m c = p mod 32768 + m * 32768 + c * 65536.
Proof.
  intros Hp Hm Hc. unfold encode_hdr. rewrite land_7fff.
  replace (u16 m) with m by zlia. replace (u16 c) with c by zlia.
  replace (if m =? 0 then 0 else 1) with m by (by destruct Hm as [-> | ->]).
  rewrite (lor_shiftl_add _ _ 15) by zlia. rewrite (lor_shiftl_add _ _ 16); [lia|lia|].
  change (2 ^ 15) with 32768. change (2 ^ 16) with 65536. zlia.
Qed.

Lemma read_hdr_bytes h rest : 0 <= h < 2 ^ 32 → read_hdr (hdr_bytes h ++ rest) = h.
Proof.
  intros Hh. unfold read_hdr, hdr_bytes. simpl. rewrite !land_ff.
  rewrite !Z.shiftr_div_pow2 by lia.
  change (2 ^ 8) with 256. change (2 ^ 16) with 65536. change (2 ^ 24) with 16777216.
  rewrite (lor_shiftl_add _ _ 8) by zlia. change (2 ^ 8) with 256.
  rewrite (lor_shiftl_add _ _ 16); [|lia|change (2 ^ 16) with 65536; zlia].
  change (2 ^ 16) with 65536.
  rewrite (lor_shiftl_add _ _ 24); [|lia|change (2 ^ 24) with 16777216; zlia].
  change (2 ^ 24) with 16777216. zlia.
Qed.

(** The three fields a receiver reads are the three a sender wrote. *)
Lemma hdr_fields p m c rest :
  0 <= p → m = 0 ∨ m = 1 → 0 <= c < 65536 →
  let h := read_hdr (hdr_bytes (encode_hdr p m c) ++ rest) in
  wire_id h = p mod 32768 ∧ wire_more h = m ∧ wire_chunk h = c.
Proof.
  intros Hp Hm Hc h. subst h. rewrite encode_hdr_val by done.
  rewrite read_hdr_bytes by zlia. unfold wire_id, wire_more, wire_chunk.
  rewrite land_7fff, land_ffff, !Z.shiftr_div_pow2 by lia.
  change (Z.land ?x 1) with (Z.land x (Z.ones 1)). rewrite Z.land_ones by lia.
  change (2 ^ 1) with 2. change (2 ^ 15) with 32768. change (2 ^ 16) with 65536.
  split_and!; zlia.
Qed.

Lemma land_high_15 e : 0 <= e < 2 ^ 32 → Z.land e 0xFFFF8000 = e / 32768 * 32768.
Proof.
  intros He. change 0xFFFF8000 with (Z.shiftl (Z.ones 17) 15).
  replace e with (e mod 32768 + (e / 32768) * 2 ^ 15) at 1
    by (change (2 ^ 15) with 32768; zlia).
  rewrite <- (lor_shiftl_add _ _ 15) by zlia.
  rewrite Z.land_lor_distr_l, <- Z.shiftl_land, Z.land_ones by lia.
  rewrite (Z.mod_small (e / 32768)) by (change (2 ^ 17) with 131072; zlia).
  replace (Z.land (e mod 32768) (Z.shiftl (Z.ones 17) 15)) with 0.
  - rewrite Z.lor_0_l, Z.shiftl_mul_pow2 by lia. done.
  - symmetry. apply Z.bits_inj'. intros k Hk. rewrite Z.land_spec, Z.bits_0.
    rewrite Z.shiftl_spec by lia. destruct (Z.lt_ge_cases k 15).
    + by rewrite (Z.testbit_neg_r _ (k - 15)), andb_false_r by lia.
    + change 32768 with (2 ^ 15). rewrite Z.mod_pow2_bits_high by lia. done.
Qed.

Lemma slot_key_val s c : 0 <= c < 65536 → slot_key s c = s * 65536 + c.
Proof.
  intros Hc. unfold slot_key. rewrite Z.lor_comm, lor_shiftl_add by (try done; lia).
  change (2 ^ 16) with 65536. lia.
Qed.

(** The 15 bits on the wire determine the packet number within half a period. *)
Lemma extend_seq_exact e s :
  0 <= e → e + 32768 < 2 ^ 32 → 0 <= s → e - 16384 <= s < e + 16384 →
  extend_seq e (s mod 32768) = s.
Proof.
  intros He He' Hs Hw. unfold extend_seq. rewrite land_high_15 by lia.
  assert (Z.lor (e / 32768 * 32768) (s mod 32768) = e / 32768 * 32768 + s mod 32768) as ->.
  { pose proof (lor_shiftl_add (s mod 32768) (e / 32768) 15) as H.
    rewrite Z.shiftl_mul_pow2 in H by lia. change (2 ^ 15) with 32768 in H.
    rewrite Z.lor_comm, H by zlia. lia. }
  pose proof (Z.div_mod e 32768 ltac:(lia)). pose proof (Z.mod_pos_bound e 32768 ltac:(lia)).
  pose proof (Z.div_mod s 32768 ltac:(lia)). pose proof (Z.mod_pos_bound s 32768 ltac:(lia)).
  generalize dependent (e / 32768). generalize dependent (s mod 32768).
  generalize dependent (s / 32768). generalize dependent (e mod 32768).
  intros r' Hr' q' r Hsr Hr q Her. assert (q' = q ∨ q' = q + 1 ∨ q' = q - 1) by lia.
  unfold u32. rewrite (Z.mod_small (q * 32768 + r + 16384)), (Z.mod_small (e + 16384)) by lia.
  destruct (Z.ltb_spec (q * 32768 + r + 16384) e); [rewrite Z.mod_small; lia|].
  destruct (Z.leb_spec (e + 16384) (q * 32768 + r)); [rewrite Z.mod_small|]; lia.
Qed.

End header.


(** ** The sender *)

Section sender.
Context (env : Env) (Hmalloc : ∀ k, malloc_ok env k = true).

Definition sizes_ok (ctx : SplitContext) : Prop :=
  MIN_CHUNK <= chunk_size_min ctx <= chunk_size_max ctx ∧ chunk_size_max ctx <= MAX_CHUNK
  ∧ 1 <= num_outputs ctx < 2 ^ 31.

(** A write to one of the split outputs, or the buffer for it. *)
Definition outgoing (ctx : SplitContext) (e : event) : Prop :=
  match e with EvWrite dst _ => 1 <= dst <= num_outputs ctx | EvMalloc _ => True | _ => False end.

Lemma next_chunk_size_range ctx :
  sizes_ok ctx → chunk_size_min ctx <= next_chunk_size env ctx <= chunk_size_max ctx.
Proof.
  unfold sizes_ok, next_chunk_size, MIN_CHUNK, MAX_CHUNK. intros (Hs & Hm & _).
  destruct (Z.leb_spec (chunk_size_max ctx) (chunk_size_min ctx)); [lia|].
  generalize (u32 (rand env (n_rand ctx))). intros x.
  set (w := chunk_size_max ctx - chunk_size_min ctx + 1).
  replace (u32 w) with w by zlia.
  pose proof (Z.mod_pos_bound x w ltac:(lia)). lia.
Qed.

(** The chunks of one packet, from chunk [i] on: header and piece, the [more] bit set on
    all but the last. *)
Fixpoint chunks_of (seq i : Z) (pieces : list bytes) : list bytes :=
  match pieces with
  | [] => []
  | p :: rest =>
      (hdr_bytes (encode_hdr seq (if rest is [] then 0 else 1) i) ++ p)
      :: chunks_of seq (i + 1) rest
  end.

Definition same_cfg (c c' : SplitContext) : Prop :=
  num_outputs c' = num_outputs c ∧ chunk_size_min c' = chunk_size_min c
  ∧ chunk_size_max c' = chunk_size_max c ∧ pending c' = pending c
  ∧ exp_pkt c' = exp_pkt c ∧ exp_chunk c' = exp_chunk c.

(** What the loop does to what is left of a packet. *)
Lemma split_loop_spec fuel : ∀ ctx sz off n rest,
  sizes_ok ctx → 0 <= off → sz = off + Z.of_nat (length rest) →
  (length rest <= fuel)%nat → chunk_idx ctx = n → 0 <= n → (n <= 65535 ∨ rest = []) →
  ∃ ctx' evs n' pieces,
    split_loop fuel env ctx sz off n rest = (true, ctx', evs, n')
    ∧ concat pieces = rest ∧ Forall (λ p, p ≠ []) pieces
    ∧ n' = n + Z.of_nat (length pieces) ∧ (n' <= 65536 ∨ n' = n)
    ∧ writes evs = chunks_of (pkt_seq ctx) n pieces ∧ Forall (outgoing ctx) evs
    ∧ pkt_seq ctx' = pkt_seq ctx ∧ same_cfg ctx ctx'.
Proof.
  induction fuel as [|f IH]; intros ctx sz off n rest Hs Ho Hsz Hf Hi Hn Hc.
  { destruct rest; [|simpl in Hf; lia].
    exists ctx, [], n, []. simpl. split_and!; try done; lia. }
  cbn [split_loop]. destruct (Z.ltb_spec off sz) as [Hlt|Hge].
  2: { assert (rest = []) as -> by (destruct rest; [done|simpl in Hsz; lia]).
       exists ctx, [], n, []. simpl. split_and!; try done; lia. }
  destruct Hc as [Hc|Hc]; [|subst rest; simpl in Hsz; lia].
  rewrite Hmalloc. set (cap := MAX_CHUNKS_PER_PASS - 1 <=? n).
  set (len := if cap then sz - off
              else if sz - off <? next_chunk_size env ctx then sz - off
                   else next_chunk_size env ctx).
  assert (1 <= len <= sz - off ∧ (n = 65535 → len = sz - off)) as [Hlen Hcap].
  { pose proof (next_chunk_size_range ctx Hs) as Hnext. destruct Hs.
    unfold len, cap, MAX_CHUNKS_PER_PASS, MIN_CHUNK in *. destruct (Z.leb_spec (65536 - 1) n); [lia|].
    destruct (Z.ltb_spec (sz - off) (next_chunk_size env ctx)); lia. }
  clearbody len. set (nr := if cap then _ else _). clearbody nr. clear cap.
  set (ctx1 := set_split _ _ _ _ _).
  destruct (IH ctx1 sz (off + len) (n + 1) (drop (Z.to_nat len) rest))
    as (ctx' & evs & n' & ps & Hrun & Hcat & Hne & Hn' & Hb & Hw & Hfree & Hseq & Hcfg).
  { done. } { lia. } { rewrite length_drop. lia. } { rewrite length_drop. lia. }
  { simpl. rewrite Hi. zlia. } { lia. }
  { destruct (decide (n = 65535)); [right|left; lia].
    apply drop_ge. lia. }
  rewrite Hrun. eexists ctx', _, n', (take (Z.to_nat len) rest :: ps).
  split; [done|]. split_and!.
  - simpl. rewrite Hcat. apply take_drop.
  - constructor; [|done]. intros E. apply (f_equal length) in E.
    rewrite length_take in E. simpl in E. lia.
  - simpl. lia.
  - destruct Hb; lia.
  - cbn [writes omap list_omap chunks_of]. rewrite Hi. f_equal; [|exact Hw].
    replace (if off + len <? sz then 1 else 0) with (if ps is [] then 0 else 1); [done|].
    apply (f_equal length) in Hcat. rewrite length_drop in Hcat.
    destruct (Z.ltb_spec (off + len) sz); destruct ps as [|q ps]; simpl in Hcat; try done.
    + lia.
    + rewrite length_app in Hcat. apply Forall_inv in Hne.
      destruct q; [done|]. simpl in Hcat. lia.
  - constructor; [done|]. constructor; [|done]. simpl. destruct Hs as (_ & _ & Hout).
    replace (u32 (num_outputs ctx)) with (num_outputs ctx) by zlia.
    pose proof (Z.mod_pos_bound (rr_idx ctx) (num_outputs ctx)). lia.
  - done.
  - done.
Qed.

(** One packet: its pieces in order, in at most 65536 chunks, and the input released. *)
Lemma process_split_spec ctx d :
  sizes_ok ctx → chunk_idx ctx = 0 → d ≠ [] → Z.of_nat (length d) < 2 ^ 31 →
  ∃ ctx' evs pieces,
    process_split env ctx (Some d) = (0, ctx', evs ++ [EvFreeInput])
    ∧ concat pieces = d ∧ Forall (λ p, p ≠ []) pieces ∧ Z.of_nat (length pieces) <= 65536
    ∧ writes evs = chunks_of (pkt_seq ctx) 0 pieces ∧ Forall (outgoing ctx) evs
    ∧ pkt_seq ctx' = u32 (pkt_seq ctx + 1) ∧ chunk_idx ctx' = 0 ∧ same_cfg ctx ctx'.
Proof.
  intros Hs Hi Hd Hlen. unfold process_split. destruct d as [|b d]; [done|].
  set (l := b :: d) in *.
  assert (int32 (Z.of_nat (length l)) = Z.of_nat (length l)) as ->.
  { unfold int32. rewrite Z.mod_small; lia. }
  destruct (split_loop_spec (length l) ctx (Z.of_nat (length l)) 0 0 l)
    as (ctx' & evs & n' & ps & Hrun & Hcat & Hne & Hn' & Hb & Hw & Hf & Hseq & Hcfg);
    try done; try lia.
  rewrite Hrun. eexists _, evs, ps. split; [done|].
  split_and!; try done; [lia|]. simpl. by rewrite Hseq.
Qed.

End sender.


(** ** The receiver *)

Lemma erase_range_lookup (m : gmap Z SlotEntry) a b k :
  erase_range m a b !! k = if decide (a <= k <= b) then None else m !! k.
Proof.
  unfold erase_range, key_range.
  assert (∀ l (m : gmap Z SlotEntry), foldl (λ m k, delete k m) m l !! k
                                      = if decide (k ∈ l) then None else m !! k) as ->.
  { clear. intros l. induction l as [|x l IH]; intros m; simpl; [done|]. rewrite IH.
    destruct (decide (k ∈ l)), (decide (k ∈ x :: l)) as [Hin|Hin]; try done.
    - exfalso. apply Hin. by right.
    - apply elem_of_cons in Hin as [->|]; [apply lookup_delete_eq|done].
    - apply not_elem_of_cons in Hin as [? ?]. by apply lookup_delete_ne. }
  destruct (decide (k ∈ _)) as [H|H], (decide (a <= k <= b)) as [H'|H']; try done;
    rewrite elem_of_seqZ in H; lia.
Qed.

(** A complete run of slots yields the pieces of the packet. *)
Lemma range_slots_pieces (m : gmap Z SlotEntry) (ps : list bytes) a :
  (∀ i p, ps !! i = Some p → ∃ v, m !! (a + Z.of_nat i) = Some v ∧ sdata v = p) →
  map sdata (range_slots m a (a + Z.of_nat (length ps) - 1)) = ps.
Proof.
  unfold range_slots, key_range.
  replace (a + _ - 1 - a + 1) with (Z.of_nat (length ps)) by lia.
  revert a. induction ps as [|p ps IH]; intros a H; [done|].
  rewrite seqZ_cons by (simpl; lia). simpl.
  destruct (H 0%nat p eq_refl) as (v & Hv & Hd). rewrite Z.add_0_r in Hv. rewrite Hv. simpl.
  rewrite Hd. f_equal. replace (Z.pred _) with (Z.of_nat (length ps)) by lia.
  apply IH. intros i q Hi. destruct (H (S i) q Hi) as (w & Hw & Hq). exists w.
  split; [|done]. rewrite <- Hw. f_equal. lia.
Qed.

(** How many rounds [merge_loop] allows. *)
Lemma rounds_enough n e : (e <= 32)%nat → (S n * 2 ^ e <= 2 ^ (32 + n))%nat.
Proof.
  intros He. rewrite Nat.pow_add_r, Nat.mul_comm.
  apply Nat.mul_le_mono; [by apply Nat.pow_le_mono_r|]. exact (Nat.pow_gt_lin_r 2 n ltac:(lia)).
Qed.

Lemma merge_loop_iterate env ctx :
  merge_loop env ctx = match iterate (merge_round env) (2 ^ (32 + size (pending ctx))) ctx with
                       | inr r => Some r | inl _ => None end.
Proof. unfold merge_loop. by rewrite iterate2_iterate. Qed.

Lemma merge_loop_ended env ctx n r :
  iterate (merge_round env) n ctx = inr r → (n <= 2 ^ (32 + size (pending ctx)))%nat →
  merge_loop env ctx = Some r.
Proof. intros Hr Hn. rewrite merge_loop_iterate. by rewrite (iterate_mono _ n _ _ r Hr Hn). Qed.

Section receiver.
Context (env : Env) (Hmalloc : ∀ k, malloc_ok env k = true).
Context (N : Z) (pss : list (list bytes)).

(** What the sender of the packets [pss], numbered from [N], put in each slot. *)
Definition slot_at (k : Z) : option SlotEntry :=
  if k <? N * 65536 then None else
  ps ← pss !! Z.to_nat (k / 65536 - N);
  p ← ps !! Z.to_nat (k mod 65536);
  Some (mkSlot p (u32 (Z.of_nat (length p)))
               (if decide (S (Z.to_nat (k mod 65536)) = length ps) then 0 else 1)).

Definition chunk_at (k : Z) : bytes :=
  match slot_at k with
  | Some v => hdr_bytes (encode_hdr (k / 65536) (smore v) (k mod 65536)) ++ sdata v
  | None => []
  end.

Definition batch_ok : Prop :=
  0 <= N ∧ Z.of_nat (length pss) <= 16384 ∧ N + Z.of_nat (length pss) + 32768 < 2 ^ 32
  ∧ Forall (λ ps : list bytes, (0 < length ps)%nat ∧ Z.of_nat (length ps) <= 65536) pss.
Context (Hok : batch_ok).

Lemma slot_at_key e i : 0 <= i < 65536 → N <= e →
  slot_at (e * 65536 + i) =
  (ps ← pss !! Z.to_nat (e - N); p ← ps !! Z.to_nat i;
   Some (mkSlot p (u32 (Z.of_nat (length p)))
                (if decide (S (Z.to_nat i) = length ps) then 0 else 1))).
Proof.
  intros Hi He. unfold slot_at. rewrite (proj2 (Z.ltb_ge _ _)) by lia.
  replace ((e * 65536 + i) / 65536) with e by zlia.
  by replace ((e * 65536 + i) mod 65536) with i by zlia.
Qed.

Lemma slot_at_range k v : slot_at k = Some v →
  N <= k / 65536 < N + Z.of_nat (length pss) ∧ (smore v = 0 ∨ smore v = 1)
  ∧ v = mkSlot (sdata v) (u32 (Z.of_nat (length (sdata v)))) (smore v).
Proof.
  unfold slot_at. destruct (Z.ltb_spec k (N * 65536)); [done|]. intros Hs.
  apply bind_Some in Hs as (ps & Hps & Hs). apply bind_Some in Hs as (p & Hp & [= <-]).
  apply lookup_lt_Some in Hps. simpl. split_and!; [zlia|zlia| |done].
  case_match; [by left|by right].
Qed.

(** The receiver after the chunks [R]: it has written the packets before [exp_pkt], and
    holds exactly the received chunks of the others. *)
Record inv (R : list Z) (ctx : SplitContext) (out : list bytes) : Prop := {
  inv_pkt : N <= exp_pkt ctx <= N + Z.of_nat (length pss);
  inv_chunk : (exp_pkt ctx = N + Z.of_nat (length pss) ∧ exp_chunk ctx = 0)
    ∨ ∃ ps, pss !! Z.to_nat (exp_pkt ctx - N) = Some ps
            ∧ 0 <= exp_chunk ctx < Z.of_nat (length ps);
  inv_seen : ∀ i, 0 <= i < exp_chunk ctx → exp_pkt ctx * 65536 + i ∈ R;
  inv_pending : ∀ k v, pending ctx !! k = Some v
    ↔ k ∈ R ∧ exp_pkt ctx * 65536 <= k ∧ slot_at k = Some v;
  inv_out : out = map (@concat Z) (take (Z.to_nat (exp_pkt ctx - N)) pss)
}.

Definition exp_key (ctx : SplitContext) : Z := slot_key (exp_pkt ctx) (exp_chunk ctx).

Lemma inv_chunk_bound R ctx out : inv R ctx out → 0 <= exp_chunk ctx < 65536.
Proof.
  intros [_ [[_ ->]|(ps & Hps & Hc)] _ _ _]; [lia|].
  destruct Hok as (_ & _ & _ & Hf). eapply Forall_lookup_1 in Hf as [_ ?]; [|done]. lia.
Qed.

Lemma exp_key_val R ctx out :
  inv R ctx out → exp_key ctx = exp_pkt ctx * 65536 + exp_chunk ctx.
Proof. intros Hi. unfold exp_key. by rewrite slot_key_val by (by eapply inv_chunk_bound). Qed.

(** Slots of the current packet still to come, or of later packets. *)
Definition ahead (ctx : SplitContext) : gmap Z SlotEntry :=
  filter (λ kv, exp_key ctx <= kv.1) (pending ctx).

Lemma ahead_shrinks c1 c2 :
  (∀ k v, pending c2 !! k = Some v → pending c1 !! k = Some v) →
  exp_key c1 < exp_key c2 → is_Some (pending c1 !! exp_key c1) →
  (size (ahead c2) < size (ahead c1))%nat.
Proof.
  intros Hsub Hlt [v Hv]. apply map_subset_size. unfold ahead. split.
  - apply map_subseteq_spec. intros k w. rewrite !map_lookup_filter_Some. simpl.
    intros [? ?]. split; [by apply Hsub|lia].
  - intros Hsup. rewrite map_subseteq_spec in Hsup.
    specialize (Hsup (exp_key c1) v). rewrite !map_lookup_filter_Some in Hsup. simpl in Hsup.
    destruct Hsup; [split; [done|lia]|lia].
Qed.

(** A chunk that is found is counted: [exp_chunk] moves on, or the packet is complete and
    leaves. Either way the invariant holds again. *)
Lemma inv_next_chunk R ctx out v :
  inv R ctx out → pending ctx !! exp_key ctx = Some v → smore v <> 0 →
  inv R (set_merge ctx (pending ctx) (exp_pkt ctx) (u32 (exp_chunk ctx + 1))
           (chunks_received ctx) (packets_flushed ctx) (chunks_lost ctx) (n_malloc ctx)) out
  ∧ u32 (exp_chunk ctx + 1) = exp_chunk ctx + 1.
Proof.
  intros Hi Hv Hm. pose proof (inv_chunk_bound _ _ _ Hi) as Hb.
  rewrite (exp_key_val _ _ _ Hi) in Hv. destruct Hi as [H1 H2 H3 H4 H5].
  assert (u32 (exp_chunk ctx + 1) = exp_chunk ctx + 1) as E by zlia.
  apply H4 in Hv as (HR & _ & Hs). rewrite slot_at_key in Hs by lia.
  apply bind_Some in Hs as (ps & Hps & Hs). apply bind_Some in Hs as (p & Hp & [= <-]).
  apply lookup_lt_Some in Hp. cbn [smore] in Hm. case_decide as E2; [done|].
  split; [|done]. rewrite E. constructor; try done; simpl.
  - right. exists ps. split; [done|lia].
  - intros i Hi. destruct (decide (i = exp_chunk ctx)) as [->|]; [done|]. apply H3. lia.
Qed.

Lemma inv_flush R ctx out v fl lost nm :
  inv R ctx out → pending ctx !! exp_key ctx = Some v → smore v = 0 →
  let m := erase_range (pending ctx) (Z.shiftl (exp_pkt ctx) 16) (exp_key ctx) in
  let run := range_slots (pending ctx) (Z.shiftl (exp_pkt ctx) 16) (exp_key ctx) in
  inv R (set_merge ctx m (u32 (exp_pkt ctx + 1)) 0 (chunks_received ctx) fl lost nm)
      (out ++ [concat (map sdata run)])
  ∧ u32 (exp_pkt ctx + 1) = exp_pkt ctx + 1.
Proof.
  intros Hi Hv Hm m run. pose proof (inv_chunk_bound _ _ _ Hi) as Hb. revert m run.
  rewrite (exp_key_val _ _ _ Hi) in *. rewrite Z.shiftl_mul_pow2 by lia.
  change (2 ^ 16) with 65536. intros m run.
  destruct Hi as [H1 H2 H3 H4 H5]. destruct Hok as (HN & Hl & Hlim & Hf).
  assert (u32 (exp_pkt ctx + 1) = exp_pkt ctx + 1) as E by zlia.
  apply H4 in Hv as Hv'. destruct Hv' as (HR & _ & Hs). rewrite slot_at_key in Hs by lia.
  apply bind_Some in Hs as (ps & Hps & Hs). apply bind_Some in Hs as (p & Hp & [= <-]).
  cbn [smore] in Hm. case_decide as E2; [|done].
  apply lookup_lt_Some in Hps as Hlt.
  assert (map sdata run = ps) as Hrun.
  { subst run. replace (exp_pkt ctx * 65536 + exp_chunk ctx)
      with (exp_pkt ctx * 65536 + Z.of_nat (length ps) - 1) by lia.
    apply range_slots_pieces. intros i q Hq. apply lookup_lt_Some in Hq as Hqi.
    eexists. rewrite H4. rewrite slot_at_key by lia. rewrite Hps. simpl.
    rewrite Nat2Z.id, Hq. simpl. split_and!; [|lia|done|done].
    destruct (decide (Z.of_nat i = exp_chunk ctx)) as [->|]; [done|]. apply H3. lia. }
  split; [|done]. rewrite E, Hrun. constructor; simpl.
  - lia.
  - destruct (decide (exp_pkt ctx + 1 = N + Z.of_nat (length pss))); [by left|right].
    destruct (lookup_lt_is_Some_2 pss (Z.to_nat (exp_pkt ctx + 1 - N))) as [qs Hqs]; [lia|].
    exists qs. split; [done|]. eapply Forall_lookup_1 in Hf as [? _]; [|done]. lia.
  - lia.
  - intros k w. subst m. rewrite erase_range_lookup. case_decide as Hk.
    + split; [done|]. intros (_ & ? & _). lia.
    + rewrite H4. split; intros (? & Hge & Hsl); split_and!; try done; [|lia].
      destruct (decide (k < (exp_pkt ctx + 1) * 65536)); [|lia]. exfalso.
      replace k with (exp_pkt ctx * 65536 + (k - exp_pkt ctx * 65536)) in Hsl by lia.
      rewrite slot_at_key in Hsl by lia. rewrite Hps in Hsl. simpl in Hsl.
      apply bind_Some in Hsl as (q & Hq & _). apply lookup_lt_Some in Hq. lia.
  - rewrite H5. replace (Z.to_nat (exp_pkt ctx + 1 - N)) with (S (Z.to_nat (exp_pkt ctx - N)))
      by lia. by rewrite (take_S_r _ _ _ Hps), map_app.
Qed.

(** The loop runs until the next expected chunk is missing. *)
Lemma iterate_merge_spec fuel : ∀ R ctx out,
  inv R ctx out → (size (ahead ctx) < fuel)%nat →
  ∃ ctx' evs, iterate (merge_round env) fuel ctx = inr (ctx', evs) ∧ inv R ctx' (out ++ writes evs)
    ∧ pending ctx' !! exp_key ctx' = None.
Proof.
  induction fuel as [|f IH]; intros R ctx out Hi Hf; [lia|].
  cbn [iterate]. unfold merge_round at 1. fold (exp_key ctx).
  destruct (pending ctx !! exp_key ctx) as [v|] eqn:Hv.
  2: { exists ctx, []. simpl. rewrite app_nil_r. done. }
  pose proof (inv_chunk_bound _ _ _ Hi) as Hb. pose proof (exp_key_val _ _ _ Hi) as Hk.
  destruct (Z.eqb_spec (smore v) 0) as [Hm|Hm].
  - rewrite Hmalloc.
    destruct (inv_flush R ctx out v (u64 (packets_flushed ctx + 1)) (chunks_lost ctx)
                (S (n_malloc ctx)) Hi Hv Hm) as [Hi' Hu].
    set (ctx1 := set_merge _ _ _ _ _ _ _ _) in Hi' |- *.
    destruct (IH R ctx1 _ Hi') as (ctx' & evs & Hrun & Hi2 & Hq).
    { assert (size (ahead ctx1) < size (ahead ctx))%nat; [|lia]. apply ahead_shrinks; [| |by eauto].
      - intros k w. simpl. rewrite erase_range_lookup. by case_decide.
      - rewrite (exp_key_val _ _ _ Hi'), Hk. subst ctx1. simpl. rewrite Hu. lia. }
    rewrite Hrun. eexists _, _. split; [done|]. split; [|done].
    rewrite writes_app. change (writes (EvMalloc ?n :: ?l)) with (writes l).
    rewrite writes_app, writes_frees. simpl. by rewrite <- app_assoc in Hi2.
  - destruct (inv_next_chunk R ctx out v Hi Hv Hm) as [Hi' Hu].
    set (ctx1 := set_merge _ _ _ _ _ _ _ _) in Hi' |- *.
    destruct (IH R ctx1 _ Hi') as (ctx' & evs & Hrun & Hi2 & Hq).
    { assert (size (ahead ctx1) < size (ahead ctx))%nat; [|lia]. apply ahead_shrinks; [done| |by eauto].
      rewrite (exp_key_val _ _ _ Hi'), Hk. subst ctx1. simpl. rewrite Hu. lia. }
    rewrite Hrun. by eexists _, _.
Qed.

Lemma merge_loop_spec R ctx out : inv R ctx out →
  ∃ ctx' evs, merge_loop env ctx = Some (ctx', evs) ∧ inv R ctx' (out ++ writes evs)
    ∧ pending ctx' !! exp_key ctx' = None.
Proof.
  intros Hi. destruct (iterate_merge_spec (S (size (pending ctx))) R ctx out Hi) as (ctx' & evs & Hrun & H).
  { apply Nat.lt_succ_r, map_subseteq_size, map_filter_subseteq. }
  exists ctx', evs. split; [|done]. eapply merge_loop_ended; [exact Hrun|].
  rewrite <- (Nat.mul_1_r (S _)). exact (rounds_enough (size (pending ctx)) 0 ltac:(lia)).
Qed.

(** What a receiver reads in a chunk. *)
Lemma chunk_at_fields k v :
  slot_at k = Some v →
  let h := read_hdr (chunk_at k) in
  wire_id h = (k / 65536) mod 32768 ∧ wire_more h = smore v ∧ wire_chunk h = k mod 65536
  ∧ drop HEADER_SIZE (chunk_at k) = sdata v ∧ (HEADER_SIZE <= length (chunk_at k))%nat.
Proof.
  intros Hs h. destruct (slot_at_range _ _ Hs) as (Hr & Hm & _).
  destruct Hok as (HN & _). subst h. unfold chunk_at. rewrite Hs.
  destruct (hdr_fields (k / 65536) (smore v) (k mod 65536) (sdata v)) as (-> & -> & ->);
    [lia|done|zlia|]. split_and!; try done. unfold HEADER_SIZE. simpl. lia.
Qed.

(** One chunk, new, repeated or late. *)
Lemma process_merge_spec R ctx out k v :
  inv R ctx out → pending ctx !! exp_key ctx = None → slot_at k = Some v →
  ∃ ctx' evs, process_merge env ctx (Some (chunk_at k)) = Some (0, ctx', evs)
    ∧ inv (k :: R) ctx' (out ++ writes evs) ∧ pending ctx' !! exp_key ctx' = None.
Proof.
  intros Hi Hq Hs. destruct (chunk_at_fields k v Hs) as (Hid & Hmore & Hc & Hd & Hl).
  destruct (slot_at_range _ _ Hs) as (Hr & Hm & Hv).
  unfold process_merge. destruct (chunk_at k) as [|b l] eqn:Hch; [unfold HEADER_SIZE in Hl; simpl in Hl; lia|].
  destruct (Nat.ltb_spec (length (b :: l)) HEADER_SIZE); [lia|].
  rewrite Hid, Hmore, Hc, Hd, <- Hv. pose proof (inv_pkt _ _ _ Hi) as Hp.
  destruct Hok as (HN & Hlen & Hlim & _). rewrite extend_seq_exact by lia.
  destruct (Z.ltb_spec (k / 65536) (exp_pkt ctx)) as [Ho|Hge].
  - eexists _, _. split; [done|]. simpl. rewrite app_nil_r. split; [|done].
    destruct Hi as [H1 H2 H3 H4 H5]. constructor; simpl; try done.
    + intros i Hi. right. by apply H3.
    + intros k' w. rewrite H4, elem_of_cons. split; intros (HR & ? & ?); split_and!; try done;
        [by right|]. destruct HR as [->|]; [zlia|done].
  - rewrite Hmalloc, slot_key_val by zlia.
    replace (k / 65536 * 65536 + k mod 65536) with k by zlia.
    set (ctx1 := set_merge _ _ _ _ _ _ _ _).
    assert (inv (k :: R) ctx1 out) as Hi1.
    { destruct Hi as [H1 H2 H3 H4 H5]. constructor; simpl; try done.
      - intros i Hi. right. by apply H3.
      - intros k' w. destruct (decide (k' = k)) as [->|Hne].
        + rewrite lookup_insert_eq. split.
          * intros [= <-]. split_and!; [by left|zlia|done].
          * intros (_ & _ & ?). congruence.
        + rewrite lookup_insert_ne by done. rewrite H4, elem_of_cons. clear -Hne; tauto. }
    destruct (merge_loop_spec _ _ _ Hi1) as (ctx' & evs & -> & Hi2 & Hq2). cbn [mbind option_bind].
    eexists _, _. split; [done|]. split; [|done].
    rewrite writes_app. change (writes (EvMalloc ?n :: ?l)) with (writes l).
    rewrite writes_app. simpl. rewrite app_nil_r. by destruct (pending ctx !! k).
Qed.

Lemma merge_all_spec ks : ∀ R ctx out,
  inv R ctx out → pending ctx !! exp_key ctx = None → Forall (λ k, is_Some (slot_at k)) ks →
  ∃ ctx' evs, merge_all env ctx (map chunk_at ks) = Some (ctx', evs)
    ∧ inv (reverse ks ++ R) ctx' (out ++ writes evs) ∧ pending ctx' !! exp_key ctx' = None.
Proof.
  induction ks as [|k ks IH]; intros R ctx out Hi Hq Hf.
  { exists ctx, []. simpl. rewrite app_nil_r. done. }
  apply Forall_cons in Hf as [[v Hv] Hf].
  destruct (process_merge_spec R ctx out k v Hi Hq Hv) as (ctx1 & e1 & Hp & Hi1 & Hq1).
  destruct (IH _ _ _ Hi1 Hq1 Hf) as (ctx2 & e2 & Hrun & Hi2 & Hq2).
  exists ctx2, (e1 ++ e2). cbn [merge_all map]. rewrite Hp. cbn [mbind option_bind]. rewrite Hrun. split; [done|].
  rewrite writes_app, (assoc_L (++)), reverse_cons. by rewrite <- (assoc_L (++) (reverse ks)).
Qed.

(** Once every chunk has arrived, everything has been written and nothing is held. *)
Lemma inv_complete R ctx out :
  inv R ctx out → pending ctx !! exp_key ctx = None →
  (∀ k v, slot_at k = Some v → k ∈ R) →
  out = map (@concat Z) pss ∧ pending ctx = ∅ ∧ exp_pkt ctx = N + Z.of_nat (length pss)
  ∧ exp_chunk ctx = 0.
Proof.
  intros Hi Hq Hall. pose proof (inv_chunk_bound _ _ _ Hi) as Hb.
  rewrite (exp_key_val _ _ _ Hi) in Hq. destruct Hi as [H1 H2 H3 H4 H5].
  destruct H2 as [[He Hc]|(ps & Hps & Hc)].
  - split_and!; [|apply map_eq; intros k|done|done].
    + rewrite H5, take_ge; [done|lia].
    + rewrite lookup_empty. destruct (pending ctx !! k) as [w|] eqn:Hk; [exfalso|done].
      apply H4 in Hk as (_ & ? & Hs). apply slot_at_range in Hs as [? _]. zlia.
  - exfalso. destruct (lookup_lt_is_Some_2 ps (Z.to_nat (exp_chunk ctx))) as [p Hp]; [lia|].
    assert (is_Some (slot_at (exp_pkt ctx * 65536 + exp_chunk ctx))) as [w Hw].
    { rewrite slot_at_key by lia. rewrite Hps. simpl. rewrite Hp. simpl. eauto. }
    assert (pending ctx !! (exp_pkt ctx * 65536 + exp_chunk ctx) = Some w); [|congruence].
    apply H4. split_and!; [by eapply Hall|lia|done].
Qed.

(** Different chunks differ on the wire. *)
Lemma chunk_at_inj k1 k2 v1 v2 :
  slot_at k1 = Some v1 → slot_at k2 = Some v2 → chunk_at k1 = chunk_at k2 → k1 = k2.
Proof.
  intros H1 H2 E. destruct (chunk_at_fields _ _ H1) as (Ha & _ & Hc & _).
  destruct (chunk_at_fields _ _ H2) as (Ha' & _ & Hc' & _). rewrite E in Ha, Hc.
  apply slot_at_range in H1 as [H1 _], H2 as [H2 _]. destruct Hok as (HN & Hl & _).
  rewrite Ha in Ha'. rewrite Hc in Hc'.
  enough (k1 / 65536 = k2 / 65536) by zlia.
  generalize dependent (k1 / 65536). generalize dependent (k2 / 65536). intros. zlia.
Qed.

End receiver.

(** ** Sender and receiver together *)

Fixpoint wire_of (N : Z) (pss : list (list bytes)) : list bytes :=
  match pss with
  | [] => []
  | ps :: rest => chunks_of N 0 ps ++ wire_of (N + 1) rest
  end.

Lemma length_chunks_of s ps : ∀ i, length (chunks_of s i ps) = length ps.
Proof. induction ps as [|p ps IH]; intros i; simpl; [done|]. by rewrite IH. Qed.

Lemma chunks_of_payload s ps : ∀ i, map (drop HEADER_SIZE) (chunks_of s i ps) = ps.
Proof. induction ps as [|p ps IH]; intros i; simpl; [done|]. by rewrite IH. Qed.

Lemma chunks_of_lookup s ps : ∀ i j x,
  chunks_of s i ps !! j = Some x ↔ ∃ p, ps !! j = Some p
    ∧ x = hdr_bytes (encode_hdr s (if decide (S j = length ps) then 0 else 1)
                                (i + Z.of_nat j)) ++ p.
Proof.
  induction ps as [|p ps IH]; intros i j x; cbn [chunks_of]; [by split; [|intros (? & ? & _)]|].
  assert ((if ps is [] then 0 else 1) = if decide (1%nat = length (p :: ps)) then 0 else 1) as ->
    by (by destruct ps).
  destruct j as [|j]; cbn [lookup list_lookup].
  - rewrite Z.add_0_r. split; [intros [= <-]; eauto|]. by intros (q & [= ->] & ->).
  - change (list_lookup j ?l) with (l !! j). rewrite IH.
    replace (i + 1 + Z.of_nat j) with (i + Z.of_nat (S j)) by lia.
    replace (if decide (S (S j) = length (p :: ps)) then 0 else 1)
      with (if decide (S j = length ps) then 0 else 1); [done|].
    simpl. repeat case_decide; congruence || lia.
Qed.

Lemma elem_of_chunks_of s ps i x :
  x ∈ chunks_of s i ps ↔ ∃ j p, ps !! j = Some p
    ∧ x = hdr_bytes (encode_hdr s (if decide (S j = length ps) then 0 else 1)
                                (i + Z.of_nat j)) ++ p.
Proof. rewrite list_elem_of_lookup. by setoid_rewrite chunks_of_lookup. Qed.

Lemma elem_of_wire_of pss : ∀ N x,
  x ∈ wire_of N pss ↔ ∃ j ps, pss !! j = Some ps ∧ x ∈ chunks_of (N + Z.of_nat j) 0 ps.
Proof.
  induction pss as [|ps pss IH]; intros N x; cbn [wire_of].
  { split; [by intros ?%elem_of_nil|]. by intros (j & p & ? & _). }
  rewrite elem_of_app, IH. split.
  - intros [Hx|(j & q & Hj & Hx)].
    + exists 0%nat, ps. by rewrite Z.add_0_r.
    + exists (S j), q. split; [done|]. by replace (N + Z.of_nat (S j)) with (N + 1 + Z.of_nat j) by lia.
  - intros (j & q & Hj & Hx). destruct j as [|j]; simpl in Hj.
    + left. simplify_eq. by rewrite Z.add_0_r in Hx.
    + right. exists j, q. split; [done|].
      by replace (N + 1 + Z.of_nat j) with (N + Z.of_nat (S j)) by lia.
Qed.

(** The chunks on the wire are those of the slots. *)
Lemma elem_of_wire N pss x :
  batch_ok N pss →
  x ∈ wire_of N pss ↔ ∃ k, is_Some (slot_at N pss k) ∧ x = chunk_at N pss k.
Proof.
  intros Hok. pose proof Hok as (HN & _ & _ & Hf). rewrite elem_of_wire_of. split.
  - intros (j & ps & Hj & Hx). apply elem_of_chunks_of in Hx as (i & p & Hi & ->).
    eapply Forall_lookup_1 in Hf as [_ Hl]; [|done]. apply lookup_lt_Some in Hi as Hlt.
    exists ((N + Z.of_nat j) * 65536 + Z.of_nat i). unfold chunk_at.
    rewrite slot_at_key by lia. replace (Z.to_nat (N + Z.of_nat j - N)) with j by lia.
    rewrite Hj, Nat2Z.id. simpl. rewrite Hi. simpl. split; [by eauto|].
    replace (((N + Z.of_nat j) * 65536 + Z.of_nat i) / 65536) with (N + Z.of_nat j) by zlia.
    by replace (((N + Z.of_nat j) * 65536 + Z.of_nat i) mod 65536) with (Z.of_nat i) by zlia.
  - intros (k & [v Hv] & ->). unfold chunk_at. rewrite Hv. pose proof Hv as Hv'.
    apply slot_at_range in Hv' as [Hr _]. unfold slot_at in Hv.
    destruct (k <? N * 65536); [done|].
    apply bind_Some in Hv as (ps & Hps & Hs). apply bind_Some in Hs as (p & Hp & [= <-]).
    exists (Z.to_nat (k / 65536 - N)), ps. split; [done|]. apply elem_of_chunks_of.
    exists (Z.to_nat (k mod 65536)), p. split; [done|]. cbn [smore sdata].
    f_equal. f_equal. f_equal; zlia.
Qed.

Lemma split_all_spec env ps : (∀ k, malloc_ok env k = true) → ∀ ctx,
  sizes_ok ctx → chunk_idx ctx = 0 → 0 <= pkt_seq ctx →
  pkt_seq ctx + Z.of_nat (length ps) < 2 ^ 32 →
  Forall (λ d : bytes, d ≠ [] ∧ Z.of_nat (length d) < 2 ^ 31) ps →
  ∃ pss, map (@concat Z) pss = ps
    ∧ Forall (λ q : list bytes, (0 < length q)%nat ∧ Z.of_nat (length q) <= 65536) pss
    ∧ writes (snd (split_all env ctx ps)) = wire_of (pkt_seq ctx) pss
    ∧ pkt_seq (fst (split_all env ctx ps)) = pkt_seq ctx + Z.of_nat (length ps)
    ∧ chunk_idx (fst (split_all env ctx ps)) = 0.
Proof.
  intros Hm. induction ps as [|d ps IH]; intros ctx Hs Hi H0 Hlim Hf.
  { exists []. simpl. split_and!; try done; lia. }
  apply Forall_cons in Hf as [[Hd Hl] Hf]. simpl in Hlim.
  destruct (process_split_spec env Hm ctx d Hs Hi Hd Hl)
    as (c1 & e1 & q & Hrun & Hcat & Hne & Hq & Hw & _ & Hseq & Hi1 & Hcfg).
  assert (u32 (pkt_seq ctx + 1) = pkt_seq ctx + 1) as Hu by zlia. rewrite Hu in Hseq.
  destruct Hcfg as (Hnum & Hmin & Hmax & _).
  destruct (IH c1) as (pss & Hmap & Hf2 & Hw2 & Hs2 & Hi2); try done.
  { unfold sizes_ok in *. by rewrite Hmin, Hmax, Hnum. } { lia. } { lia. }
  exists (q :: pss). cbn [split_all]. rewrite Hrun.
  destruct (split_all env c1 ps) as [c2 e2]. simpl in *. split_and!.
  - by rewrite Hcat, Hmap.
  - constructor; [|done]. split; [|lia]. destruct q; [by destruct Hd|simpl; lia].
  - rewrite !writes_app, Hw, Hw2, Hseq. simpl. by rewrite app_nil_r.
  - lia.
  - done.
Qed.

(** A sender and a receiver at the same packet, with nothing half done. *)
Definition in_step (sctx mctx : SplitContext) : Prop :=
  chunk_idx sctx = 0 ∧ pending mctx = ∅ ∧ exp_chunk mctx = 0 ∧ exp_pkt mctx = pkt_seq sctx.

(** The chunks on the wire, by slot. *)
Lemma wire_keys N pss l :
  batch_ok N pss → (∀ c, c ∈ l → c ∈ wire_of N pss) →
  ∃ ks, l = map (chunk_at N pss) ks ∧ Forall (λ k, is_Some (slot_at N pss k)) ks.
Proof.
  intros Hok Hl. induction l as [|c l IH]; [by exists []|].
  destruct IH as (ks & -> & Hks); [intros; apply Hl; by right|].
  destruct (proj1 (elem_of_wire N pss c Hok) (Hl c ltac:(by left))) as (k & Hk & ->).
  exists (k :: ks). by split; [|constructor].
Qed.

(** A receiver that got every chunk of the wire got every slot. *)
Lemma wire_seen N pss ks k v :
  batch_ok N pss → Forall (λ k, is_Some (slot_at N pss k)) ks →
  (∀ c, c ∈ wire_of N pss → c ∈ map (chunk_at N pss) ks) → slot_at N pss k = Some v → k ∈ ks.
Proof.
  intros Hok Hks Hall Hk. assert (chunk_at N pss k ∈ map (chunk_at N pss) ks) as Hin.
  { apply Hall, elem_of_wire; [done|]. eauto. }
  apply list_elem_of_fmap in Hin as (k' & E & Hk'). rewrite Forall_forall in Hks.
  destruct (Hks k' Hk') as [v' Hv']. by rewrite (chunk_at_inj N pss Hok k k' v v').
Qed.

(** What of the context each side leaves to the other. *)
Definition same_sender (c c' : SplitContext) : Prop :=
  num_outputs c' = num_outputs c ∧ chunk_size_min c' = chunk_size_min c
  ∧ chunk_size_max c' = chunk_size_max c ∧ pkt_seq c' = pkt_seq c ∧ chunk_idx c' = chunk_idx c.

Lemma inv_same N pss R ctx ctx' out : same_cfg ctx ctx' → inv N pss R ctx out → inv N pss R ctx' out.
Proof. intros (_ & _ & _ & Hp & He & Hc) [H1 H2 H3 H4 H5]. constructor; by rewrite ?Hp, ?He, ?Hc. Qed.

(** Whatever it is given, the receiver writes to output 0 only. *)
Definition incoming (e : event) : Prop :=
  match e with EvWrite dst _ => dst = 0 | _ => True end.

Lemma merge_round_any env ctx ctx' evs :
  merge_round env ctx = Some (ctx', evs) → same_sender ctx ctx' ∧ Forall incoming evs.
Proof.
  unfold merge_round. destruct (pending ctx !! _) as [e|]; [|done]. destruct (smore e =? 0); intros [= <- <-]; [|done].
  split; [done|]. case_match; [|done]. constructor; [done|].
  apply Forall_app. split; [|by repeat constructor]. by apply Forall_fmap, Forall_true.
Qed.

Lemma lor_ge a b : 0 <= b → a <= Z.lor a b.
Proof.
  intros Hb. assert (Z.land a (Z.ldiff b a) = 0) as H0.
  { apply Z.bits_inj'. intros k Hk. rewrite Z.land_spec, Z.ldiff_spec, Z.bits_0. by destruct (Z.testbit a k), (Z.testbit b k). }
  replace (Z.lor a b) with (a + Z.ldiff b a).
  - pose proof (proj2 (Z.ldiff_nonneg b a) (or_introl Hb)). lia.
  - rewrite Z.add_nocarry_lxor, Z.lxor_lor by done. apply Z.bits_inj'. intros k Hk.
    rewrite !Z.lor_spec, Z.ldiff_spec. by destruct (Z.testbit a k), (Z.testbit b k).
Qed.

Lemma erase_range_size (m : gmap Z SlotEntry) a k e :
  a <= k → m !! k = Some e → (size (erase_range m a k) < size m)%nat.
Proof.
  intros Ha He. apply map_subset_size. split.
  - apply map_subseteq_spec. intros j v. rewrite erase_range_lookup. by case_decide.
  - intros Hsup. rewrite map_subseteq_spec in Hsup. specialize (Hsup k e He).
    rewrite erase_range_lookup, decide_True in Hsup by lia. done.
Qed.

Lemma flush_nonempty (m : gmap Z SlotEntry) a k e :
  a <= k → m !! k = Some e → sdata e ≠ [] → concat (map sdata (range_slots m a k)) ≠ [].
Proof.
  intros Ha He Hne Hnil. apply Hne. apply (concat_nil_Forall (map sdata (range_slots m a k))) in Hnil.
  rewrite List.Forall_forall in Hnil. apply Hnil, in_map, list_elem_of_In.
  apply list_elem_of_omap. exists k. split; [|done]. apply elem_of_seqZ. lia.
Qed.

(** A chunk that can be the last of the 65536 a packet may have: its number, when it is the
    highest, does not announce another one. [process_split] keeps to this, by its cap. *)
Definition last_fits (d : bytes) : Prop :=
  wire_chunk (read_hdr d) = 65535 → wire_more (read_hdr d) = 0.

#[export] Instance last_fits_dec d : Decision (last_fits d).
Proof. unfold last_fits. apply _. Defined.

(** A receiver that has been given only such chunks. *)
Definition bounded (ctx : SplitContext) : Prop :=
  0 <= exp_pkt ctx ∧ 0 <= exp_chunk ctx < 65536
  ∧ map_Forall (λ k v, k mod 65536 = 65535 → smore v = 0) (pending ctx).

(** The chunks a receiver holds are not empty. *)
Definition nonempty (ctx : SplitContext) : Prop := map_Forall (λ _ v, sdata v ≠ []) (pending ctx).
Definition expects (ctx : SplitContext) : Prop := bounded ctx ∧ nonempty ctx.

(** Rounds left: every slot may complete a packet, and a packet has 65536 chunks. *)
Definition rounds_left (ctx : SplitContext) : nat :=
  size (pending ctx) * 2 ^ 16 + Z.to_nat (65535 - exp_chunk ctx).

Section merging.
Context (env : Env) (Hmalloc : ∀ k, malloc_ok env k = true).

Lemma slot_key_mod p c : 0 <= c < 65536 → slot_key p c mod 65536 = c.
Proof. intros Hc. rewrite slot_key_val by done. zlia. Qed.

(** A round: it writes at most one packet, which uses up slots and is not empty when no
    chunk is. *)
Lemma merge_round_bounded ctx ctx' evs :
  merge_round env ctx = Some (ctx', evs) → bounded ctx →
  bounded ctx' ∧ (rounds_left ctx' < rounds_left ctx)%nat
  ∧ (length (writes evs) + size (pending ctx') <= size (pending ctx))%nat
  ∧ (nonempty ctx → nonempty ctx' ∧ Forall (λ d : bytes, d ≠ []) (writes evs)).
Proof.
  unfold merge_round. destruct (pending ctx !! slot_key _ _) as [e|] eqn:Hk; [|done]. intros Hr (Hp & Hc & Hl).
  pose proof (Hl _ _ Hk) as Hlast. cbn in Hlast. rewrite slot_key_mod in Hlast by done. rewrite Hmalloc in Hr.
  destruct (Z.eqb_spec (smore e) 0) as [Hm|Hm]; injection Hr as <- <-.
  - assert (Z.shiftl (exp_pkt ctx) 16 <= slot_key (exp_pkt ctx) (exp_chunk ctx)) as Hle by (apply lor_ge; lia).
    pose proof (erase_range_size (pending ctx) _ _ e Hle Hk) as Hsz. set (m := erase_range _ _ _) in *.
    assert (∀ k v, m !! k = Some v → pending ctx !! k = Some v) as Hsub.
    { intros k v. subst m. rewrite erase_range_lookup. by case_decide. }
    change (writes (EvMalloc ?n :: ?l)) with (writes l). rewrite writes_app, writes_frees.
    unfold bounded, nonempty, rounds_left. cbn -[Nat.pow Nat.mul]. split_and!.
    + unfold u32. apply Z.mod_pos_bound. lia.
    + lia.
    + lia.
    + intros k v Hv. exact (Hl _ _ (Hsub _ _ Hv)).
    + assert (Z.to_nat (65535 - 0) < 2 ^ 16)%nat as H16.
      { apply Nat2Z.inj_lt. rewrite Nat2Z.inj_pow. lia. }
      assert (S (size m) * 2 ^ 16 <= size (pending ctx) * 2 ^ 16)%nat by (apply Nat.mul_le_mono_r; lia).
      rewrite Nat.mul_succ_l in *. lia.
    + lia.
    + intros Hne. split; [intros k v Hv; exact (Hne _ _ (Hsub _ _ Hv))|]. apply Forall_singleton.
      apply (flush_nonempty _ _ _ e); [done|done|by apply (Hne _ _ Hk)].
  - assert (u32 (exp_chunk ctx + 1) = exp_chunk ctx + 1) as -> by zlia.
    assert (exp_chunk ctx ≠ 65535) by (by intros ?%Hlast).
    unfold bounded, nonempty, rounds_left. cbn -[Nat.pow Nat.mul]. split_and!; try done; try lia.
Qed.

Lemma merge_loop_bounded ctx : bounded ctx →
  ∃ ctx' evs, merge_loop env ctx = Some (ctx', evs) ∧ bounded ctx' ∧ same_sender ctx ctx' ∧ Forall incoming evs
    ∧ (length (writes evs) + size (pending ctx') <= size (pending ctx))%nat
    ∧ (nonempty ctx → nonempty ctx' ∧ Forall (λ d : bytes, d ≠ []) (writes evs)).
Proof.
  intros Hb. set (n := (2 ^ (32 + size (pending ctx)))%nat).
  assert (rounds_left ctx < n)%nat as Hn.
  { eapply Nat.lt_le_trans; [|exact (rounds_enough _ 16 ltac:(lia))]. unfold rounds_left. rewrite Nat.mul_succ_l.
    apply Nat.add_lt_mono_l, Nat2Z.inj_lt. rewrite Nat2Z.inj_pow. destruct Hb as (_ & ? & _). lia. }
  destruct (iterate_ends (merge_round env) bounded rounds_left) with n ctx as [[ctx' evs] Hr]; [|done|done|].
  { intros s s' es Hs Hs'. destruct (merge_round_bounded _ _ _ Hs' Hs) as (? & ? & _). done. }
  exists ctx', evs. split; [by eapply merge_loop_ended|]. clear Hn. revert Hr. generalize n. clear n. intros n.
  revert ctx evs Hb. induction n as [|n IH]; intros ctx evs Hb; [done|]. cbn [iterate].
  destruct (merge_round env ctx) as [[c1 e1]|] eqn:E; [|intros [= <- <-]; by split_and!].
  destruct (merge_round_any _ _ _ _ E) as ((A1 & A2 & A3 & A4 & A5) & Hf).
  destruct (merge_round_bounded _ _ _ E Hb) as (Hb1 & _ & Hs1 & Hne1).
  destruct (iterate _ n c1) as [[]|[c2 e2]] eqn:E2; [done|]. intros [= <- <-].
  destruct (IH c1 e2 Hb1 E2) as (Hb2 & (B1 & B2 & B3 & B4 & B5) & Hf2 & Hs2 & Hne2).
  rewrite writes_app, length_app. split; [done|]. split; [by unfold same_sender; split_and!; congruence|].
  split; [by apply Forall_app|]. split; [lia|].
  intros Hne. destruct (Hne1 Hne) as [Hc1 Hw1]. destruct (Hne2 Hc1) as [Hc2 Hw2]. split; [done|]. by apply Forall_app.
Qed.

(** The receiver returns, and is left in such a state, when it is given such chunks. *)
Lemma process_merge_any ctx d : bounded ctx → last_fits d →
  ∃ ctx' evs, process_merge env ctx (Some d) = Some (0, ctx', evs)
    ∧ bounded ctx' ∧ same_sender ctx ctx' ∧ Forall incoming evs
    ∧ ((HEADER_SIZE < length d)%nat → nonempty ctx →
       (length (writes evs) + size (pending ctx') <= S (size (pending ctx)))%nat ∧ nonempty ctx'
       ∧ Forall (λ d : bytes, d ≠ []) (writes evs)).
Proof.
  intros Hb Hd. unfold process_merge. destruct d as [|b d]; [exists ctx, []; by split_and!; [..|intros; split_and!; [cbn; lia|..]]|].
  set (l := b :: d) in *. clearbody l.
  destruct (_ <? _)%nat; [eexists _, _; split; [done|]; split; [done|]; split; [done|]; split; [by repeat constructor|];
    intros _ Hne; split_and!; [cbn; lia|done..]|].
  destruct (_ <? _); [eexists _, _; split; [done|]; split; [done|]; split; [done|]; split; [by repeat constructor|];
    intros _ Hne; split_and!; [cbn; lia|done..]|].
  rewrite Hmalloc. set (ctx1 := set_merge _ _ _ _ _ _ _ _).
  set (key := slot_key _ _) in ctx1. set (slot := mkSlot _ _ _) in ctx1.
  assert (0 <= wire_chunk (read_hdr l) < 65536) as Hc.
  { unfold wire_chunk. rewrite land_ffff. zlia. }
  assert (bounded ctx1) as Hb1.
  { destruct Hb as (Hp & Hch & Hl). split; [exact Hp|]. split; [exact Hch|]. apply map_Forall_insert_2; [|exact Hl].
    subst key slot. rewrite slot_key_mod by done. exact Hd. }
  destruct (merge_loop_bounded ctx1 Hb1) as (ctx' & evs & -> & Hb' & Hs & Hf & Hsz & Hne). cbn [mbind option_bind].
  eexists ctx', _. split; [done|]. split; [done|]. split; [exact Hs|]. split.
  { apply Forall_app. split; [case_match; by repeat constructor|].
    constructor; [done|]. apply Forall_app. split; [exact Hf|by repeat constructor]. }
  intros Hlen Hne0. rewrite writes_app. change (writes (EvMalloc ?n :: ?l)) with (writes l). rewrite writes_app.
  match goal with |- context [writes (match ?m with _ => _ end)] => replace (writes (match m with _ => _ end)) with (@nil bytes) by (by destruct m) end.
  cbn [app writes omap list_omap]. rewrite app_nil_r.
  destruct Hne as [Hn1 Hn2].
  { apply (map_Forall_insert_2 (λ _ v, sdata v ≠ [])); [|done]. intros Hnil. change (drop HEADER_SIZE l = []) in Hnil.
    apply (f_equal length) in Hnil. rewrite length_drop in Hnil. cbn [length] in Hnil. lia. }
  split_and!; [|done|done]. change (pending ctx1) with (<[key := slot]> (pending ctx)) in Hsz.
  rewrite map_size_insert in Hsz. eapply Nat.le_trans; [exact Hsz|]. case_match; [apply Nat.le_succ_diag_r|done].
Qed.

(** [merge_loop] gives up only on a loop that does not end: as long as no packet is
    complete nothing but [exp_chunk] changes, and it has 32 bits. *)
Definition shifted (n : nat) (ctx : SplitContext) : SplitContext :=
  set_merge ctx (pending ctx) (exp_pkt ctx) (u32 (exp_chunk ctx + Z.of_nat n)) (chunks_received ctx)
    (packets_flushed ctx) (chunks_lost ctx) (n_malloc ctx).

Lemma merge_stretch ctx n : 0 <= exp_chunk ctx < 2 ^ 32 →
  iterate (merge_round env) n ctx = inl (shifted n ctx, [])
  ∨ (∃ k r, (k <= n)%nat ∧ iterate (merge_round env) k ctx = inr r)
  ∨ ∃ k ctx' evs, (k <= n)%nat ∧ iterate (merge_round env) k ctx = inl (ctx', evs)
      ∧ (size (pending ctx') < size (pending ctx))%nat ∧ exp_chunk ctx' = 0.
Proof.
  intros Hc. induction n as [|n IH].
  { left. cbn. unfold shifted. replace (u32 (exp_chunk ctx + Z.of_nat 0)) with (exp_chunk ctx) by zlia. by destruct ctx. }
  destruct IH as [IH|[(k & r & Hk & IH)|(k & c' & es & Hk & IH)]];
    [|right; left; exists k, r; split; [lia|done]|right; right; exists k, c', es; split; [lia|done]].
  assert (iterate (merge_round env) (S n) ctx
    = match merge_round env (shifted n ctx) with Some (c, es) => inl (c, es ++ []) | None => inr (shifted n ctx, []) end) as E.
  { replace (S n) with (n + 1)%nat by lia. rewrite iterate_add, IH, after_nil. done. }
  destruct (merge_round env (shifted n ctx)) as [[c es]|] eqn:Er.
  2: { right. left. exists (S n). eexists. split; [done|]. exact E. }
  unfold merge_round in Er. cbn [pending exp_pkt exp_chunk shifted set_merge] in Er. rewrite Hmalloc in Er.
  destruct (pending ctx !! slot_key _ _) as [e|] eqn:Hk; [|done]. destruct (smore e =? 0).
  - right. right. exists (S n). do 2 eexists. split; [done|]. split; [exact E|]. injection Er as <- _. split; [|done].
    apply (erase_range_size _ _ _ e); [|exact Hk]. apply lor_ge. zlia.
  - left. rewrite E. injection Er as <- <-. cbn. do 2 f_equal. unfold shifted, set_merge. cbn. f_equal. zlia.
Qed.

Lemma merge_unending (N : nat) : Z.of_nat N = 2 ^ 32 → ∀ k c, 0 <= exp_chunk c < 2 ^ 32 → (size (pending c) <= k)%nat →
  (∃ r, iterate (merge_round env) (S k * N) c = inl r) → ∀ n, ∃ r, iterate (merge_round env) n c = inl r.
Proof.
  intros HN. induction k as [k IH] using lt_wf_ind. intros c Hc Hk (r & Hr) n.
  destruct (merge_stretch c N Hc) as [Hs|[(j & r' & Hj & He)|(j & c' & es & Hj & He & Hsz & Hc')]].
  - assert (shifted N c = c) as E.
    { unfold shifted. rewrite HN. replace (u32 (exp_chunk c + 2 ^ 32)) with (exp_chunk c) by zlia. by destruct c. }
    rewrite E in Hs. eapply iterate_cycle; [|exact Hs]. lia.
  - exfalso. rewrite (iterate_mono _ j (S k * N) _ _ He) in Hr; [done|]. rewrite Nat.mul_succ_l. lia.
  - destruct k as [|k]; [lia|].
    assert (∀ m, ∃ r, iterate (merge_round env) m c' = inl r) as Hall.
    { apply (IH k); [lia|lia|lia|]. destruct (iterate (merge_round env) (S k * N) c') as [r2|[c2 e2]] eqn:E2; [by eexists|].
      exfalso. assert (iterate (merge_round env) (j + S k * N) c = inr (c2, es ++ e2)) as E3
        by (by rewrite iterate_add, He, E2).
      apply (iterate_mono _ _ (S (S k) * N)) in E3; [congruence|]. rewrite (Nat.mul_succ_l (S k)). lia. }
    destruct (decide (n <= j)%nat).
    + destruct (iterate (merge_round env) n c) as [r2|r2] eqn:E2; [by eexists|].
      rewrite (iterate_mono _ n j _ _ E2) in He; done.
    + replace n with (j + (n - j))%nat by lia. rewrite iterate_add, He.
      destruct (Hall (n - j)%nat) as [[c2 e2] ->]. by eexists.
Qed.

Lemma pow32 : Z.of_nat (2 ^ 32) = 2 ^ 32.
Proof. exact (Nat2Z.inj_pow 2 32). Qed.

Lemma merge_unending_after (M N : nat) ctx r : Z.of_nat N = 2 ^ 32 → (S (size (pending ctx)) * N <= M)%nat →
  0 <= exp_chunk ctx < 2 ^ 32 → iterate (merge_round env) M ctx = inl r →
  ∀ n, ∃ r, iterate (merge_round env) n ctx = inl r.
Proof.
  intros HN Hle Hc HM. apply (merge_unending N HN (size (pending ctx)) ctx Hc); [done|].
  destruct (iterate (merge_round env) (S (size (pending ctx)) * N) ctx) as [r'|r'] eqn:E; [by eexists|].
  by rewrite (iterate_mono _ _ _ _ _ E Hle) in HM.
Qed.

Theorem merge_loop_exact ctx : 0 <= exp_chunk ctx < 2 ^ 32 → merge_loop env ctx = None →
  ∀ n, ∃ r, iterate (merge_round env) n ctx = inl r.
Proof.
  intros Hc Hnone. rewrite merge_loop_iterate in Hnone.
  destruct (iterate (merge_round env) (2 ^ (32 + size (pending ctx))) ctx) as [r|r] eqn:E; [|done].
  exact (merge_unending_after _ _ ctx r pow32 (rounds_enough _ 32 (le_n _)) Hc E).
Qed.

End merging.

(** A receiver that waits for packet [N] and holds nothing. *)
Lemma inv_start N pss ctx :
  batch_ok N pss → pending ctx = ∅ → exp_chunk ctx = 0 → exp_pkt ctx = N → inv N pss [] ctx [].
Proof.
  intros (_ & _ & _ & Hf) Hp Hc He. constructor; rewrite ?He, ?Hc, ?Hp; try lia.
  - destruct (decide (length pss = 0%nat)); [left; lia|right].
    destruct (lookup_lt_is_Some_2 pss 0) as [q Hq]; [lia|]. exists q.
    rewrite Z.sub_diag. split; [done|]. eapply Forall_lookup_1 in Hf as [? _]; [|done]. lia.
  - intros k v. rewrite lookup_empty. split; [done|]. by intros (?%elem_of_nil & _).
  - by rewrite Z.sub_diag.
Qed.

(** [C1] Split and merge are inverse whatever the network does to the order of the
    chunks: the packets of a batch of at most 16384 are cut by [process_split] (any chunk
    sizes the configuration allows, any [rand]); if the receiver is given every chunk at
    least once, in any order and with any repetitions, [process_merge] writes exactly the
    packets, in order, holds nothing afterwards, and is again in step with the sender, so
    batches compose. *)
Theorem split_merge_roundtrip (senv renv : Env) (sctx mctx : SplitContext)
    (packets l : list bytes) :
  (∀ k, malloc_ok senv k = true) → (∀ k, malloc_ok renv k = true) →
  sizes_ok sctx → in_step sctx mctx → 0 <= pkt_seq sctx →
  Z.of_nat (length packets) <= 16384 →
  pkt_seq sctx + Z.of_nat (length packets) + 32768 < 2 ^ 32 →
  Forall (λ d : bytes, d ≠ [] ∧ Z.of_nat (length d) < 2 ^ 31) packets →
  let '(sctx', evs) := split_all senv sctx packets in
  (∀ c, c ∈ l ↔ c ∈ writes evs) →
  ∃ mctx' evs', merge_all renv mctx l = Some (mctx', evs')
    ∧ writes evs' = packets ∧ in_step sctx' mctx'.
Proof.
  intros Hms Hmr Hsz (Hi & Hp & Hc & He) H0 Hlen Hlim Hf.
  destruct (split_all_spec senv packets Hms sctx) as (pss & Hmap & Hfp & Hw & Hs' & Hi');
    try done; [lia|].
  destruct (split_all senv sctx packets) as [sctx' evs]. simpl in *. rewrite Hw. intros Hl.
  assert (length pss = length packets) as Hlp by (by rewrite <- Hmap, length_map).
  set (N := pkt_seq sctx) in *.
  assert (batch_ok N pss) as Hok by (unfold batch_ok; rewrite Hlp; done).
  destruct (wire_keys N pss l Hok) as (ks & -> & Hks); [intros; by apply Hl|].
  destruct (merge_all_spec renv Hmr N pss Hok ks [] mctx []) as (mctx' & evs' & Hrun & Hinv & Hq).
  { by apply inv_start. } { by rewrite Hp, lookup_empty. } { done. }
  destruct (inv_complete N pss Hok _ _ _ Hinv Hq) as (Hout & Hpe & Hex & Hec).
  { intros k v Hk. rewrite app_nil_r. apply elem_of_reverse.
    apply (wire_seen N pss ks k v Hok Hks); [|done]. intros c Hc'. by apply Hl. }
  exists mctx', evs'. split; [done|]. split; [by rewrite <- Hmap|].
  split_and!; try done. rewrite Hex, Hs'. lia.
Qed.

Definition ok_env : Env := mkEnv (λ k, Z.of_nat k * 37) (λ _, true).
Definition sample_packets : list bytes := [repeat 1 200; [2]; repeat 3 130].
Definition sample_ctx : SplitContext := new_ctx 3 64 70.

Lemma sample_packets_ok :
  Forall (λ d : bytes, d ≠ [] ∧ Z.of_nat (length d) < 2 ^ 31) sample_packets.
Proof. repeat constructor; done. Qed.

(** Three packets, with the chunks delivered in reverse. *)
Lemma split_merge_roundtrip_witness :
  let sent := split_all ok_env sample_ctx sample_packets in
  length (writes sent.2) = 7%nat
  ∧ ∃ mctx' evs', merge_all ok_env sample_ctx (reverse (writes sent.2)) = Some (mctx', evs')
                  ∧ writes evs' = sample_packets ∧ in_step sent.1 mctx'.
Proof.
  intros sent. split; [reflexivity|]. subst sent.
  pose proof (split_merge_roundtrip ok_env ok_env sample_ctx sample_ctx sample_packets
    (reverse (writes (split_all ok_env sample_ctx sample_packets).2))
    (λ _, eq_refl) (λ _, eq_refl) ltac:(done) ltac:(done) ltac:(done) ltac:(done) ltac:(done)
    sample_packets_ok) as H.
  destruct (split_all ok_env sample_ctx sample_packets) as [sctx' evs].
  apply H. intros c. apply elem_of_reverse.
Defined.

(** One call of [process_split] on a packet: the packet is released once, after the
    chunks were written; there are at most 65536 of them, each goes to one of the outputs
    1..num_outputs, none is empty; their payloads joined are the packet; chunk [j] carries
    the 15 low bits of the packet number, its own index, and the [more] bit unless it is
    the last; the next packet gets the next number and starts at chunk 0. *)
Theorem process_split_chunks (env : Env) (ctx : SplitContext) (d : bytes) :
  (∀ k, malloc_ok env k = true) → sizes_ok ctx → chunk_idx ctx = 0 → 0 <= pkt_seq ctx →
  d ≠ [] → Z.of_nat (length d) < 2 ^ 31 →
  ∃ ctx' evs, process_split env ctx (Some d) = (0, ctx', evs ++ [EvFreeInput])
    ∧ Forall (outgoing ctx) evs
    ∧ concat (map (drop HEADER_SIZE) (writes evs)) = d
    ∧ Z.of_nat (length (writes evs)) <= 65536
    ∧ (∀ j c, writes evs !! j = Some c →
         (HEADER_SIZE < length c)%nat ∧ wire_id (read_hdr c) = pkt_seq ctx mod 32768
         ∧ wire_chunk (read_hdr c) = Z.of_nat j
         ∧ wire_more (read_hdr c) = if decide (S j = length (writes evs)) then 0 else 1)
    ∧ pkt_seq ctx' = u32 (pkt_seq ctx + 1) ∧ chunk_idx ctx' = 0.
Proof.
  intros Hm Hs Hi H0 Hd Hl.
  destruct (process_split_spec env Hm ctx d Hs Hi Hd Hl)
    as (ctx' & evs & ps & Hrun & Hcat & Hne & Hlen & Hw & Hout & Hseq & Hi' & _).
  exists ctx', evs. rewrite Hw, length_chunks_of. split_and!; try done.
  - by rewrite chunks_of_payload.
  - intros j c Hj. apply chunks_of_lookup in Hj as (p & Hp & ->).
    apply lookup_lt_Some in Hp as Hlt. rewrite Forall_lookup in Hne. specialize (Hne _ _ Hp).
    edestruct (hdr_fields (pkt_seq ctx) (if decide (S j = length ps) then 0 else 1)
                 (0 + Z.of_nat j) p) as (Ha & Hb & Hc); [done|case_decide; auto|lia|].
    split; [|done]. rewrite length_app. destruct p; [done|]. unfold HEADER_SIZE. simpl. lia.
Qed.

Lemma process_split_chunks_witness :
  ∃ ctx' evs, process_split ok_env sample_ctx (Some (repeat 1 200))
              = (0, ctx', evs ++ [EvFreeInput])
              ∧ concat (map (drop HEADER_SIZE) (writes evs)) = repeat 1 200.
Proof.
  destruct (process_split_chunks ok_env sample_ctx (repeat 1 200) (λ _, eq_refl) ltac:(done)
              eq_refl ltac:(done) ltac:(done) ltac:(done)) as (ctx' & evs & H1 & _ & H2 & _).
  by exists ctx', evs.
Defined.

(** ** Where the code falls short *)

(** The 32-bit sequence does not wrap: from packet 2^32 - 16384 on, a receiver that
    is in step takes the chunk it is waiting for as an orphan, drops it, and still waits
    for it. *)
Theorem merge_stuck_before_wrap (env : Env) (ctx : SplitContext) (more chunk : Z) (p : bytes) :
  2 ^ 32 - 16384 <= exp_pkt ctx < 2 ^ 32 → more = 0 ∨ more = 1 → 0 <= chunk < 65536 →
  ∃ ctx', process_merge env ctx
            (Some (hdr_bytes (encode_hdr (exp_pkt ctx) more chunk) ++ p))
          = Some (0, ctx', [EvFreeInput])
    ∧ exp_pkt ctx' = exp_pkt ctx ∧ exp_chunk ctx' = exp_chunk ctx
    ∧ pending ctx' = pending ctx ∧ chunks_lost ctx' = u64 (chunks_lost ctx + 1).
Proof.
  intros He Hm Hc. set (c := hdr_bytes _ ++ p).
  destruct (hdr_fields (exp_pkt ctx) more chunk p ltac:(lia) Hm Hc) as (Hid & _ & _).
  fold c in Hid.
  assert (extend_seq (exp_pkt ctx) (exp_pkt ctx mod 32768) < exp_pkt ctx) as Hlt.
  { unfold extend_seq. rewrite land_high_15 by lia.
    pose proof (lor_shiftl_add (exp_pkt ctx mod 32768) (exp_pkt ctx / 32768) 15) as H.
    rewrite Z.shiftl_mul_pow2 in H by lia. change (2 ^ 15) with 32768 in H.
    rewrite Z.lor_comm, H by zlia. clear H Hid c.
    replace (exp_pkt ctx mod 32768 + exp_pkt ctx / 32768 * 32768) with (exp_pkt ctx) by zlia.
    replace (u32 (exp_pkt ctx + 16384)) with (exp_pkt ctx + 16384 - 2 ^ 32) by zlia.
    rewrite (proj2 (Z.ltb_lt _ _)) by lia. zlia. }
  unfold process_merge. subst c. cbn [app hdr_bytes]. cbv zeta.
  cbn [app hdr_bytes] in Hid. rewrite Hid, (proj2 (Z.ltb_lt _ _) Hlt).
  by eexists.
Qed.

(** The window: a chunk that is 16384 packets ahead of the one the receiver waits for (one
    connection is that far behind another) is taken for an old one and dropped. *)
Theorem merge_window_exceeded (env : Env) (ctx : SplitContext) (s more chunk : Z) (p : bytes) :
  0 <= exp_pkt ctx < 2 ^ 32 - 65536 → exp_pkt ctx + 16384 <= s < exp_pkt ctx + 32768 → 32768 <= s →
  more = 0 ∨ more = 1 → 0 <= chunk < 65536 →
  ∃ ctx', process_merge env ctx (Some (hdr_bytes (encode_hdr s more chunk) ++ p)) = Some (0, ctx', [EvFreeInput])
    ∧ exp_pkt ctx' = exp_pkt ctx ∧ pending ctx' = pending ctx ∧ chunks_lost ctx' = u64 (chunks_lost ctx + 1).
Proof.
  intros He Hs Hs0 Hm Hc. destruct (hdr_fields s more chunk p ltac:(lia) Hm Hc) as (Hid & _ & _).
  assert (extend_seq (exp_pkt ctx) (s mod 32768) < exp_pkt ctx) as Hlt.
  { replace (s mod 32768) with ((s - 32768) mod 32768) by zlia. rewrite extend_seq_exact by lia. lia. }
  unfold process_merge. cbn [app hdr_bytes] in Hid |- *. cbv zeta. rewrite Hid, (proj2 (Z.ltb_lt _ _) Hlt). by eexists.
Qed.

(** When the low 16 bits of the number of the packet are all ones, the bits of a chunk
    counter that has left 16 bits do not show in the key. *)
Lemma slot_key_wraps pkt c : 0 <= pkt → pkt mod 65536 = 65535 → 0 <= c < 2 ^ 32 →
  slot_key pkt c = pkt * 65536 + c mod 65536.
Proof.
  intros Hp Hm Hc. rewrite <- (slot_key_val pkt (c mod 65536)) by zlia. unfold slot_key.
  replace c with (c mod 65536 + c / 65536 * 2 ^ 16) at 1 by (change (2 ^ 16) with 65536; zlia).
  rewrite <- (lor_shiftl_add _ _ 16) by (change (2 ^ 16) with 65536; zlia).
  rewrite (Z.lor_comm (c mod 65536)), Z.lor_assoc, <- Z.shiftl_lor. do 2 f_equal.
  assert (pkt = Z.lor (Z.ones 16) (Z.shiftl (pkt / 65536) 16)) as E.
  { change (Z.ones 16) with 65535. rewrite lor_shiftl_add by (change (2 ^ 16) with 65536; lia). change (2 ^ 16) with 65536. zlia. }
  rewrite E, <- Z.lor_assoc, (Z.lor_comm _ (c / 65536)), Z.lor_assoc. f_equal.
  rewrite Z.lor_comm. apply Z.bits_inj'. intros k Hk. rewrite Z.lor_spec.
  destruct (Z.lt_ge_cases k 16).
  - rewrite Z.ones_spec_low by lia. by rewrite orb_true_r.
  - replace (Z.testbit (c / 65536) k) with false; [done|]. symmetry.
    assert (0 <= c / 65536 < 2 ^ 16) as Hr by (change (2 ^ 16) with 65536; zlia).
    rewrite <- (Z.mod_small _ _ Hr). apply Z.mod_pow2_bits_high. lia.
Qed.

(** A receiver in whose table all 65536 chunks of the packet it waits for announce another
    one, and whose number of that packet is such, never ends its loop: the call of
    [process] does not return, and the worker is lost with the lock of the direction. The
    chunks can come from any peer that does not cap its chunks as [process_split] does. *)
Theorem merge_never_returns (env : Env) (ctx : SplitContext) (c : Z) (p : bytes) :
  malloc_ok env (n_malloc ctx) = true →
  0 <= exp_pkt ctx < 2 ^ 32 - 32768 → exp_pkt ctx mod 65536 = 65535 → 0 <= exp_chunk ctx < 2 ^ 32 → 0 <= c < 65536 →
  (∀ i, 0 <= i < 65536 → i ≠ c → ∃ v, pending ctx !! (exp_pkt ctx * 65536 + i) = Some v ∧ smore v ≠ 0) →
  process_merge env ctx (Some (hdr_bytes (encode_hdr (exp_pkt ctx) 1 c) ++ p)) = None.
Proof.
  intros Hok Hp Hlow Hec Hc Hfull.
  destruct (hdr_fields (exp_pkt ctx) 1 c p ltac:(lia) ltac:(by right) Hc) as (Hid & Hmore & Hchunk).
  unfold process_merge. cbn [app hdr_bytes] in Hid, Hmore, Hchunk |- *. cbv zeta. rewrite Hid, Hmore, Hchunk, extend_seq_exact by lia.
  rewrite (proj2 (Z.ltb_ge _ _)) by lia. rewrite Hok, slot_key_val by done.
  change ((length _ <? HEADER_SIZE)%nat) with false. cbv iota.
  set (ctx1 := set_merge _ _ _ _ _ _ _ _).
  assert (∀ i, 0 <= i < 65536 → ∃ v, pending ctx1 !! (exp_pkt ctx * 65536 + i) = Some v ∧ smore v ≠ 0) as H1.
  { intros i Hi. cbn [ctx1 set_merge pending]. destruct (decide (i = c)) as [->|Hne].
    - rewrite lookup_insert_eq. eexists. split; [done|]. done.
    - rewrite lookup_insert_ne by lia. by apply Hfull. }
  assert (∀ n x, pending x = pending ctx1 → exp_pkt x = exp_pkt ctx → 0 <= exp_chunk x < 2 ^ 32 →
    ∃ r, iterate (merge_round env) n x = inl r) as Hall.
  { induction n as [|n IH]; intros x Hx Hex Hcx; [by eexists|]. cbn [iterate]. unfold merge_round at 1.
    rewrite Hx, Hex, slot_key_wraps by lia. destruct (H1 (exp_chunk x mod 65536)) as (v & -> & Hv); [zlia|].
    rewrite (proj2 (Z.eqb_neq _ _) Hv). edestruct IH as [[c2 e2] ->]; [done|done| |by eexists]. cbn. zlia. }
  rewrite merge_loop_iterate. destruct (Hall (2 ^ (32 + size (pending ctx1)))%nat ctx1) as [r ->]; done.
Qed.

(** Such a receiver: packet 65535, the first 65535 chunks there. *)
Definition full_slots : gmap Z SlotEntry :=
  list_to_map ((λ i, (65535 * 65536 + i, mkSlot [1] 1 1)) <$> seqZ 0 65535).
Definition full_ctx : SplitContext := set_merge (new_ctx 1 64 64) full_slots 65535 0 65535 0 0 0.

Lemma full_ctx_never_returns :
  process_merge (mkEnv (λ _, 0) (λ _, true)) full_ctx (Some (hdr_bytes (encode_hdr 65535 1 65535) ++ [1])) = None.
Proof.
  apply (merge_never_returns _ full_ctx 65535 [1]); try done. intros i Hi Hne. exists (mkSlot [1] 1 1). split; [|done].
  change (pending full_ctx) with full_slots. change (exp_pkt full_ctx) with 65535. unfold full_slots.
  apply elem_of_list_to_map_1'.
  - by intros v (j & [= _ ->] & _)%list_elem_of_fmap.
  - apply list_elem_of_fmap. exists i. split; [done|]. apply elem_of_seqZ. lia.
Qed.

Definition wrap_ctx : SplitContext :=
  set_merge (new_ctx 1 64 64) ∅ (2 ^ 32 - 16384) 0 0 0 0 0.

Lemma merge_stuck_before_wrap_witness :
  ∃ ctx', process_merge ok_env wrap_ctx
            (Some (hdr_bytes (encode_hdr (exp_pkt wrap_ctx) 0 0) ++ [7]))
          = Some (0, ctx', [EvFreeInput]) ∧ exp_pkt ctx' = exp_pkt wrap_ctx.
Proof.
  destruct (merge_stuck_before_wrap ok_env wrap_ctx 0 0 [7]) as (c & H1 & H2 & _);
    [done|by left|done|]. by exists c.
Defined.

(** When [malloc] fails in the middle of a packet, [process_split] drops the rest of
    it but neither advances the packet number nor resets the chunk index; the receiver
    then joins what was sent of the packet with the whole of the next one and delivers
    the two as one packet. *)
Theorem split_malloc_failure_joins_packets :
  let env := mkEnv (λ _, 0) (λ k, negb (k =? 1)%nat) in
  let sent := split_all env (new_ctx 1 64 64) [repeat 1 100; [2; 3]] in
  ∃ mctx' evs, merge_all ok_env (new_ctx 1 64 64) (writes sent.2) = Some (mctx', evs)
    ∧ writes evs = [repeat 1 64 ++ [2; 3]].
Proof.
  intros env sent. subst sent env.
  destruct (merge_all ok_env _ _) as [[m e]|] eqn:E; [|by vm_compute in E].
  exists m, e. split; [done|]. vm_compute in E. by injection E as <- <-.
Qed.

End Split.
