(* ===== verification/Frame.v ===== *)
(** * Wire frames (server/session.cpp, client/client.cpp)

    After the authentication both sides talk in frames [varint length][type][body].
    Here are the frames the two sides write, the frame reader of
    [register_data_connection_reader] (server and client have the same loop, and differ
    in which half-close message they expect), and [process_wire_buffer]'s framing of the
    bytes that arrived together with the last authentication message. *)

From S2P Require Import Prelude Protocol.
Local Open Scope Z_scope.

Module Frame.

(** ** Writing *)

(** The [while (total > 0x7F)] loop of [wire_write] and [send_control] is the one of
    [write_varint]. *)
Definition with_len (body : bytes) : bytes :=
  write_varint_loop 10 (Z.of_nat (length body)) ++ body.

Definition seq_bytes (seq : Z) : bytes := [Z.land seq 0xFF; Z.land (Z.shiftr seq 8) 0xFF].

(** [wire_write], dst >= 1. *)
Definition data_frame (seq : Z) (data : bytes) : bytes :=
  write_varint_loop 10 (3 + Z.of_nat (length data)) ++ WIRE_DATA :: seq_bytes seq ++ data.

(** The acknowledgement of a data frame; its length 3 is a one-byte varint. *)
Definition ack_frame (seq : Z) : bytes :=
  write_varint_loop 10 3 ++ WIRE_DATA_ACK :: seq_bytes seq.

(** [send_control]. *)
Definition control_frame (seq : Z) (pkt : Packet) : bytes :=
  let serialized := serialize pkt in
  write_varint_loop 10 (2 + Z.of_nat (length serialized)) ++ WIRE_CONTROL :: seq :: serialized.

Definition ping_frame : bytes := [1; WIRE_HEARTBEAT_PING].
Definition pong_frame : bytes := [1; WIRE_HEARTBEAT_PONG].
Definition shutdown_wr_frame (cid : Z) : bytes := [2; WIRE_SHUTDOWN_WR; cid].
Definition shutdown_wr_ack_frame (cid : Z) : bytes := [2; WIRE_SHUTDOWN_WR_ACK; cid].

(** ** Reading *)

Inductive side := Server | Client.

(** What one round of the reader's loop hands to the rest of the program. [FIgnored] is a
    frame that is skipped: the half-close message of the other direction, or a data frame
    too short for its sequence number. *)
Inductive frame :=
| FPing
| FPong
| FShutdownWr (cid : Z)
| FShutdownWrAck (cid : Z)
| FControl (recv_seq : Z) (proto : bytes)
| FAck (ack_seq : Z)
| FData (seq : Z) (payload : bytes)
| FIgnored.

#[export] Instance frame_eq_dec : EqDecision frame.
Proof. solve_decision. Defined.

(** [RWait]: leave the loop and keep the bytes. [RClear]: drop everything buffered.
    [RViolation]: an unknown type; dropped, and the client stops. [RUndefined]: the code
    reads outside the buffer. *)
Inductive step :=
| RWait
| RClear
| RViolation
| RFrame (f : frame) (consumed : nat)
| RUndefined.

(** The loop [while (pos < avail && shift < 56)]: [shift] reaches 56 after eight rounds. *)
Fixpoint read_len_loop (k : nat) (ptr : bytes) (val shift : Z) (pos : nat) : Z * Z * nat :=
  match k, ptr with
  | S k', byte :: rest =>
      let val := Z.lor val (Z.shiftl (Z.land byte 0x7F) shift) in
      if Z.land byte 0x80 =? 0 then (val, shift, S pos)
      else read_len_loop k' rest val (shift + 7) (S pos)
  | _, _ => (val, shift, pos)
  end.

Definition read_len (ptr : bytes) : Z * Z * nat := read_len_loop 8 ptr 0 0 0.

Definition seq_of (lo hi : Z) : Z := Z.lor lo (Z.shiftl hi 8).

(** Whether [read_varint], which has looked at [c] bytes, looks at no more: ten, or the last
    of them ends the number. *)
Definition ended (buf : bytes) (c : nat) : bool :=
  (c =? 10)%nat || match buf !! (c - 1)%nat with Some b => Z.land b 0x80 =? 0 | None => false end.

(** [try_parse] when it is told of 2^64 - 1 bytes and there are those of [buf]: how many of
    them make up the packet, 0 if it finds none; nothing when it leaves them. *)
Definition parse_past (buf : bytes) : option nat :=
  let '(type_val, c1) := read_varint buf in
  if negb (ended buf c1) then None else
  if 0xFF <? type_val then Some 0%nat else
  let rest := drop c1 buf in
  let '(pay_len, c2) := read_varint rest in
  if negb (ended rest c2) then None else
  if Z.of_nat (length buf) <? Z.of_nat (c1 + c2) + pay_len then None
  else Some (c1 + c2 + Z.to_nat pay_len)%nat.

(** A frame of type [ty] at [pos], [val] bytes long. The bytes after the type are looked
    up in the whole buffer, as the code does. For a control frame of one byte [val - 2]
    wraps around, and [try_parse] takes what follows in the buffer for the packet. For a
    data frame shorter than 3 bytes the server's hex dump wraps [val - 3] around and reads
    64 bytes from [pos + 3] on. The body of a control frame is handed on as bytes; the
    [try_parse] that the code calls on it is in [reader_round] below and in the handlers of
    [FControl] ([Control], [Session], [Client]). *)
Definition decode (sd : side) (ptr : bytes) (pos : nat) (val ty : Z) : step :=
  let n := (pos + Z.to_nat val)%nat in
  if ty =? WIRE_HEARTBEAT_PING then RFrame FPing n
  else if ty =? WIRE_HEARTBEAT_PONG then RFrame FPong n
  else if ty =? WIRE_SHUTDOWN_WR then
    match sd with
    | Server => if val <? 2 then RClear else
                match ptr !! (pos + 1)%nat with
                | Some cid => RFrame (FShutdownWr cid) n | None => RUndefined end
    | Client => RFrame FIgnored n
    end
  else if ty =? WIRE_SHUTDOWN_WR_ACK then
    match sd with
    | Server => RFrame FIgnored n
    | Client => if val <? 2 then RClear else
                match ptr !! (pos + 1)%nat with
                | Some cid => RFrame (FShutdownWrAck cid) n | None => RUndefined end
    end
  else if ty =? WIRE_CONTROL then
    match ptr !! (pos + 1)%nat with
    | Some s => if val <? 2 then
                  match parse_past (drop (pos + 2) ptr) with
                  | Some k => RFrame (FControl s (take k (drop (pos + 2) ptr))) n
                  | None => RUndefined
                  end
                else RFrame (FControl s (take (Z.to_nat (val - 2)) (drop (pos + 2) ptr))) n
    | None => RUndefined
    end
  else if ty =? WIRE_DATA_ACK then
    match ptr !! (pos + 1)%nat, ptr !! (pos + 2)%nat with
    | Some lo, Some hi => RFrame (FAck (seq_of lo hi)) n
    | _, _ => RUndefined
    end
  else if WIRE_DATA_ACK <? ty then RViolation
  else if val <? 3 then
    match sd with
    | Server => if (pos + 67 <=? length ptr)%nat then RFrame FIgnored n else RUndefined
    | Client => RFrame FIgnored n
    end
  else match ptr !! (pos + 1)%nat, ptr !! (pos + 2)%nat with
       | Some lo, Some hi =>
           RFrame (FData (seq_of lo hi) (take (Z.to_nat (val - 3)) (drop (pos + 3) ptr))) n
       | _, _ => RUndefined
       end.

Definition reader_step (sd : side) (ptr : bytes) : step :=
  let avail := Z.of_nat (length ptr) in
  if avail <? 1 then RWait else
  let '(val, shift, pos) := read_len ptr in
  if (10 <=? pos)%nat || (56 <=? shift) then RClear else
  if (avail <? Z.of_nat pos) || (avail <? Z.of_nat pos + val) || (val <? 1) then RWait else
  match ptr !! pos with
  | Some ty => decode sd ptr pos val ty
  | None => RUndefined
  end.

(** The same round with the [try_parse] of a control frame's body, which leaves the buffer
    when the length inside the body wraps around. *)
Definition parse_control (r : step) : step :=
  match r with
  | RFrame (FControl s proto) n =>
      match try_parse proto with
      | ParseUndefined => RUndefined
      | _ => RFrame (FControl s proto) n
      end
  | r => r
  end.
Definition reader_round (sd : side) (ptr : bytes) : step := parse_control (reader_step sd ptr).

(** How the loop ends: with bytes to keep, with an emptied buffer, with an emptied buffer
    and (client) [Kernel::request_stop], or outside of defined behaviour. *)
Inductive reader_end :=
| EndWait (rest : bytes)
| EndClear
| EndViolation
| EndUndefined.

(** Every frame uses at least one byte, so the length of the input is enough fuel. *)
Fixpoint reader_loop (fuel : nat) (sd : side) (ptr : bytes) : list frame * reader_end :=
  match fuel with
  | O => ([], EndWait ptr)
  | S k =>
      match reader_step sd ptr with
      | RWait => ([], EndWait ptr)
      | RClear => ([], EndClear)
      | RViolation => ([], EndViolation)
      | RUndefined => ([], EndUndefined)
      | RFrame f n => let '(fs, e) := reader_loop k sd (drop n ptr) in (f :: fs, e)
      end
  end.

Definition read_frames (sd : side) (ptr : bytes) : list frame * reader_end :=
  reader_loop (length ptr) sd ptr.


(** *** The buffer of a connection *)

Definition MAX_PACKET_SIZE : Z := 131072.

Record RBuf := mkRBuf { read_buf : bytes; read_offset : nat }.

(** What the EPOLLIN handler does with [data] read from the socket: append, run the loop
    from [read_offset], and drop the used prefix when it is long. The flag is the
    client's [Kernel::request_stop]. [None]: undefined behaviour; [buf.size() - off]
    wraps around when the offset is past the end. *)
Definition on_readable (sd : side) (rb : RBuf) (data : bytes)
    : option (list frame * RBuf * bool) :=
  let buf := read_buf rb ++ data in
  if (length buf <? read_offset rb)%nat then None else
  let '(fs, e) := read_frames sd (drop (read_offset rb) buf) in
  match e with
  | EndWait rest =>
      let off := (length buf - length rest)%nat in
      Some (fs, (if MAX_PACKET_SIZE <? Z.of_nat off then mkRBuf (drop off buf) 0
                 else mkRBuf buf off), false)
  | EndClear => Some (fs, mkRBuf [] 0, false)
  | EndViolation => Some (fs, mkRBuf [] 0, true)
  | EndUndefined => None
  end.

(** A connection fed with one block after the other. *)
Fixpoint feed (sd : side) (rb : RBuf) (blocks : list bytes) : option (list frame * RBuf) :=
  match blocks with
  | [] => Some ([], rb)
  | b :: rest =>
      '(fs, rb', _) ← on_readable sd rb b;
      '(fs', rb'') ← feed sd rb' rest;
      Some (fs ++ fs', rb'')
  end.

(** The bytes still to be parsed. *)
Definition unread (rb : RBuf) : bytes := drop (read_offset rb) (read_buf rb).

(** ** The length prefix *)

Section length_prefix.

Lemma read_len_write (f k : nat) (v : Z) (rest : bytes) (acc s : Z) (c : nat) :
  0 <= v < 2 ^ (7 * Z.of_nat f) → (1 <= f <= k)%nat → 0 <= s → 0 <= acc < 2 ^ s →
  ∃ s', read_len_loop k (write_varint_loop f v ++ rest) acc s c
        = (acc + v * 2 ^ s, s', (c + length (write_varint_loop f v))%nat)
    ∧ s <= s' < s + 7 * Z.of_nat f.
Proof.
  revert k v acc s c; induction f as [|f IH]; intros [|k] v acc s c Hv Hf Hs Hacc; try lia.
  rewrite write_varint_loop_step by lia.
  destruct (Z.ltb_spec v 128) as [Hsmall|Hge].
  - cbn [app read_len_loop]. rewrite land_80, land_7f by zlia.
    rewrite (proj2 (Z.ltb_lt v 128)), Z.mod_small, lor_shiftl_add by lia.
    exists s. split; [|lia]. f_equal. simpl. lia.
  - assert (Hb : (v mod 128 + 128) mod 128 = v mod 128) by zlia.
    assert (0 <= v mod 128 < 128) by zlia. assert (0 <= v / 128) by zlia.
    cbn [app read_len_loop]. rewrite land_80, land_7f, Hb by zlia.
    rewrite (proj2 (Z.ltb_ge _ 128)), lor_shiftl_add by lia.
    rewrite Nat2Z.inj_succ, Z.mul_succ_r, Z.pow_add_r in Hv by lia.
    change (2 ^ 7) with 128 in Hv.
    destruct f as [|f]; [simpl in Hv; lia|].
    assert (Hpow : 2 ^ (s + 7) = 2 ^ s * 128) by (rewrite Z.pow_add_r; lia).
    assert (0 < 2 ^ s) by (apply Z.pow_pos_nonneg; lia).
    edestruct (IH k (v / 128) (acc + v mod 128 * 2 ^ s) (s + 7) (S c)) as (s' & -> & Hs').
    { split; [lia|]. apply Z.div_lt_upper_bound; lia. } { lia. } { lia. } { nia. }
    exists s'. split; [|lia]. rewrite Hpow. cbn [length]. f_equal; [f_equal|lia].
    assert (v = v mod 128 + 128 * (v / 128)) by zlia. nia.
Qed.

Lemma read_len_varint (v : Z) (rest : bytes) :
  0 <= v < 2 ^ 56 →
  ∃ s, read_len (write_varint_loop 10 v ++ rest) = (v, s, length (write_varint_loop 10 v))
    ∧ s < 56 ∧ (length (write_varint_loop 10 v) <= 8)%nat.
Proof.
  intros Hv. rewrite <- (write_varint_fuel 8 10) by (change (7 * Z.of_nat 8) with 56; lia).
  destruct (read_len_write 8 8 v rest 0 0 0) as (s & E & Hs);
    [change (7 * Z.of_nat 8) with 56; lia|lia|lia|simpl; lia|].
  exists s. unfold read_len. rewrite E. split_and!; [f_equal; f_equal; lia|lia|].
  apply write_varint_loop_length. lia.
Qed.

(** A complete prefix reads the same whatever follows. *)
Lemma read_len_loop_app k ptr x val shift pos v s p :
  read_len_loop k ptr val shift pos = (v, s, p) →
  (pos <= p <= pos + length ptr)%nat ∧ (p <= pos + k)%nat ∧ shift <= s <= shift + 7 * Z.of_nat k
  ∧ ((p < pos + length ptr)%nat ∨ s = shift + 7 * Z.of_nat k →
     read_len_loop k (ptr ++ x) val shift pos = (v, s, p)).
Proof.
  revert ptr val shift pos; induction k as [|k IH]; intros [|b ptr] val shift pos;
    cbn [read_len_loop app length].
  1, 2: intros [= <- <- <-]; split_and!; try lia; done.
  { intros [= <- <- <-]. split_and!; try lia. }
  destruct (Z.land b 128 =? 0).
  - intros [= <- <- <-]. split_and!; try lia. done.
  - intros E. apply IH in E as (H1 & H2 & H3 & H4). split_and!; try lia.
    intros Hc. apply H4. lia.
Qed.

Lemma read_len_loop_val k ptr val shift pos : 0 <= val → 0 <= shift →
  0 <= (read_len_loop k ptr val shift pos).1.1.
Proof.
  revert ptr val shift pos; induction k as [|k IH]; intros [|b ptr] val shift pos Hv Hs;
    cbn [read_len_loop fst]; try done.
  assert (0 <= Z.lor val (Z.shiftl (Z.land b 127) shift)).
  { apply Z.lor_nonneg. split; [done|]. apply Z.shiftl_nonneg, Z.land_nonneg. right. lia. }
  case_match; [done|]. apply IH; lia.
Qed.

Lemma read_len_app ptr x v s p :
  read_len ptr = (v, s, p) →
  (p <= length ptr)%nat ∧ (p <= 8)%nat ∧ 0 <= v
  ∧ ((p < length ptr)%nat ∨ 56 <= s → read_len (ptr ++ x) = (v, s, p)).
Proof.
  intros E. pose proof (read_len_loop_val 8 ptr 0 0 0 ltac:(lia) ltac:(lia)) as Hv.
  unfold read_len in *. rewrite E in Hv.
  apply (read_len_loop_app _ _ x) in E as (H1 & H2 & H3 & H4).
  split_and!; try done; [lia|]. intros Hc. apply H4. lia.
Qed.

End length_prefix.

(** ** Parsing past the end *)

Section past.

Lemma ended_same k : ∀ buf buf' val shift c v c',
  read_varint_loop k buf val shift c = (v, c') →
  c' = (c + k)%nat ∨ (∃ b, buf !! (c' - c - 1)%nat = Some b ∧ Z.land b 0x80 = 0) →
  take (c' - c) buf' = take (c' - c) buf →
  read_varint_loop k buf' val shift c = (v, c').
Proof.
  induction k as [|k IH]; intros buf buf' val shift c v c' E He Ht; [done|].
  pose proof (read_varint_consumed_loop (S k) buf val shift c) as Hc. rewrite E in Hc. destruct Hc as (Hc & _ & Hn).
  destruct buf as [|b buf]; cbn [length] in Hc.
  { exfalso. destruct He as [->|(b & Hb & _)]; [lia|done]. }
  specialize (Hn ltac:(done) ltac:(done)). destruct (c' - c)%nat as [|m] eqn:Em; [lia|].
  destruct buf' as [|b' buf']; [done|]. cbn [take] in Ht. injection Ht as -> Ht. cbn [read_varint_loop] in E |- *.
  destruct (Z.eqb_spec (Z.land b 128) 0) as [|Hnz]; [done|]. apply (IH buf); [done| |by replace (c' - S c)%nat with m by lia].
  destruct He as [->|(x & Hx & Hz)]; [left; lia|]. destruct m as [|m].
  - cbn in Hx. congruence.
  - right. exists x. split; [|done]. replace (c' - S c - 1)%nat with m by lia. by replace (S (S m) - 1)%nat with (S m) in Hx by lia.
Qed.

(** Once it has ended, a number reads the same whatever follows, or is cut off, behind it. *)
Lemma read_varint_ended buf buf' v c : read_varint buf = (v, c) → ended buf c = true →
  take c buf' = take c buf → read_varint buf' = (v, c) ∧ ended buf' c = true.
Proof.
  intros E He Ht. pose proof (read_varint_consumed _ _ _ E) as (Hc & _). unfold ended in *. split.
  - apply (ended_same 10 buf); [done| |by rewrite Nat.sub_0_r]. apply orb_true_iff in He as [He|He]; [left; by apply Nat.eqb_eq|].
    right. rewrite Nat.sub_0_r. destruct (buf !! (c - 1)%nat) as [b|]; [|done]. exists b. split; [done|]. by apply Z.eqb_eq.
  - destruct (c =? 10)%nat; [done|]. cbn [orb] in *. destruct c as [|c].
    { destruct buf as [|b buf]; [done|]. exfalso. destruct (read_varint_consumed _ _ _ E) as (_ & _ & H0). by apply H0. }
    rewrite <- (lookup_take_lt _ (S c)) by lia. rewrite Ht, lookup_take_lt by lia. done.
Qed.

(** A packet found is found again when bytes are added, and is parsed when it is cut out. *)
Lemma parse_past_app buf x n : parse_past buf = Some n → parse_past (buf ++ x) = Some n ∧ (n <= length buf)%nat.
Proof.
  unfold parse_past. destruct (read_varint buf) as [ty c1] eqn:E1. destruct (ended buf c1) eqn:D1; [|done]. cbn [negb].
  pose proof (read_varint_consumed _ _ _ E1) as (H1 & _).
  destruct (read_varint_ended buf (buf ++ x) ty c1 E1 D1) as [-> ->]; [by rewrite take_app_le|]. cbn [negb].
  destruct (255 <? ty); [intros [= <-]; split; [done|lia]|]. rewrite drop_app_le by done.
  destruct (read_varint (drop c1 buf)) as [pl c2] eqn:E2. destruct (ended (drop c1 buf) c2) eqn:D2; [|done]. cbn [negb].
  pose proof (read_varint_consumed _ _ _ E2) as (H2 & _). pose proof (read_varint_range _ _ _ E2).
  destruct (read_varint_ended (drop c1 buf) (drop c1 buf ++ x) pl c2 E2 D2) as [-> ->]; [by rewrite take_app_le|]. cbn [negb].
  rewrite length_app. destruct (Z.ltb_spec (Z.of_nat (length buf)) (Z.of_nat (c1 + c2) + pl)); [done|]. intros [= <-].
  rewrite (proj2 (Z.ltb_ge _ _)) by lia. split; [done|lia].
Qed.

Lemma parse_past_parses buf n : parse_past buf = Some n → try_parse (take n buf) ≠ ParseUndefined.
Proof.
  unfold parse_past. destruct (read_varint buf) as [ty c1] eqn:E1. destruct (ended buf c1) eqn:D1; [|done]. cbn [negb].
  pose proof (read_varint_consumed _ _ _ E1) as (H1 & _).
  destruct (255 <? ty) eqn:Et; [by intros [= <-]|].
  destruct (read_varint (drop c1 buf)) as [pl c2] eqn:E2. destruct (ended (drop c1 buf) c2) eqn:D2; [|done]. cbn [negb].
  pose proof (read_varint_consumed _ _ _ E2) as (H2 & _). pose proof (read_varint_range _ _ _ E2). rewrite length_drop in H2.
  destruct (Z.ltb_spec (Z.of_nat (length buf)) (Z.of_nat (c1 + c2) + pl)); [done|]. intros [= <-].
  set (n := (c1 + c2 + Z.to_nat pl)%nat). unfold try_parse.
  destruct (read_varint_ended buf (take n buf) ty c1 E1 D1) as [-> _]; [rewrite take_take; f_equal; lia|].
  rewrite Et. destruct (c1 =? 0)%nat; [done|]. cbn [orb]. rewrite skipn_firstn_comm.
  destruct (read_varint_ended (drop c1 buf) (take (n - c1) (drop c1 buf)) pl c2 E2 D2) as [-> _]; [rewrite take_take; f_equal; lia|].
  destruct (c2 =? 0)%nat; [done|]. rewrite length_take_le by lia. subst n.
  destruct (_ <? u64 _); [done|]. by rewrite (proj2 (Z.ltb_ge _ _)) by lia.
Qed.

End past.

(** ** One step *)

Section steps.
Context (sd : side).

Lemma decode_app a b pos val ty :
  (pos + Z.to_nat val <= length a)%nat → 1 <= val →
  decode sd a pos val ty ≠ RUndefined →
  decode sd (a ++ b) pos val ty = decode sd a pos val ty.
Proof.
  intros Hn Hv. unfold decode.
  assert (∀ i x, a !! i = Some x → (a ++ b) !! i = Some x) as Hl
    by (intros; by apply lookup_app_l_Some).
  assert (∀ i j, (i + j <= length a)%nat → take j (drop i (a ++ b)) = take j (drop i a)) as Ht.
  { intros i j Hij. rewrite drop_app_le by lia. rewrite take_app_le; [done|].
    rewrite length_drop. lia. }
  destruct (ty =? _); [done|]. destruct (ty =? _); [done|].
  destruct (ty =? _).
  { destruct sd; [|done]. case_match; [done|].
    destruct (a !! (pos + 1)%nat) as [c|] eqn:E; [by rewrite (Hl _ _ E)|done]. }
  destruct (ty =? _).
  { destruct sd; [done|]. case_match; [done|].
    destruct (a !! (pos + 1)%nat) as [c|] eqn:E; [by rewrite (Hl _ _ E)|done]. }
  destruct (ty =? _).
  { destruct (a !! (pos + 1)%nat) as [c|] eqn:E; [|done]. rewrite (Hl _ _ E).
    destruct (Z.ltb_spec val 2); [|intros _; by rewrite Ht by lia].
    assert (pos + 2 <= length a)%nat by (apply lookup_lt_Some in E; lia). rewrite drop_app_le by done.
    destruct (parse_past (drop (pos + 2) a)) as [k|] eqn:Ek; [|done].
    destruct (parse_past_app _ b _ Ek) as [-> Hk]. intros _. by rewrite take_app_le. }
  destruct (ty =? _).
  { destruct (a !! (pos + 1)%nat) as [c|] eqn:E; [|done]. rewrite (Hl _ _ E).
    destruct (a !! (pos + 2)%nat) as [c'|] eqn:E'; [|done]. by rewrite (Hl _ _ E'). }
  destruct (_ <? ty); [done|]. destruct (Z.ltb_spec val 3).
  { destruct sd; [|done]. destruct (Nat.leb_spec (pos + 67) (length a)); [|done].
    by rewrite (proj2 (Nat.leb_le _ _)) by (rewrite length_app; lia). }
  destruct (a !! (pos + 1)%nat) as [c|] eqn:E; [|done]. rewrite (Hl _ _ E).
  destruct (a !! (pos + 2)%nat) as [c'|] eqn:E'; [|done]. rewrite (Hl _ _ E').
  intros _. by rewrite Ht by lia.
Qed.

Lemma decode_consumed a pos val ty f n :
  decode sd a pos val ty = RFrame f n → n = (pos + Z.to_nat val)%nat.
Proof. unfold decode. intros H. by repeat case_match; simplify_eq. Qed.

(** What a step decided on a prefix it decides on the whole. *)
Lemma reader_step_app a b r :
  reader_step sd a = r → r ≠ RWait → r ≠ RUndefined → reader_step sd (a ++ b) = r.
Proof.
  unfold reader_step. intros <-. rewrite length_app.
  destruct (Z.ltb_spec (Z.of_nat (length a)) 1); [done|].
  rewrite (proj2 (Z.ltb_ge (Z.of_nat (length a + length b)) 1)) by lia.
  destruct (read_len a) as [[val shift] pos] eqn:E.
  destruct (read_len_app a b _ _ _ E) as (Hp & H8 & Hval & Happ).
  rewrite (proj2 (Nat.leb_gt 10 pos)) by lia. destruct (Z.leb_spec 56 shift) as [H56|H56]; cbn [orb].
  { rewrite Happ by lia. intros. by rewrite (proj2 (Z.leb_le 56 shift)), orb_true_r by lia. }
  destruct (Z.ltb_spec (Z.of_nat (length a)) (Z.of_nat pos)); [done|].
  destruct (Z.ltb_spec (Z.of_nat (length a)) (Z.of_nat pos + val)); [done|].
  destruct (Z.ltb_spec val 1); [done|]. cbn [orb]. rewrite Happ by lia.
  rewrite (proj2 (Nat.leb_gt 10 pos)), (proj2 (Z.leb_gt 56 shift)) by lia. cbn [orb].
  rewrite !(proj2 (Z.ltb_ge _ _)) by lia. cbn [orb].
  destruct (a !! pos) as [ty|] eqn:Ety; [|done].
  rewrite (lookup_app_l_Some _ _ _ _ Ety). intros _ Hu. apply decode_app; [lia|lia|done].
Qed.

Lemma reader_step_consumed a f n :
  reader_step sd a = RFrame f n → (1 <= n <= length a)%nat.
Proof.
  unfold reader_step. destruct (_ <? 1); [done|].
  destruct (read_len a) as [[val shift] pos]. destruct (_ || _); [done|].
  destruct (Z.ltb_spec (Z.of_nat (length a)) (Z.of_nat pos)); [done|].
  destruct (Z.ltb_spec (Z.of_nat (length a)) (Z.of_nat pos + val)); [done|].
  destruct (Z.ltb_spec val 1); [done|]. cbn [orb].
  destruct (a !! pos); [|done]. intros ->%decode_consumed. lia.
Qed.

End steps.

(** ** The loop *)

Section loop.
Context (sd : side).

Lemma reader_loop_fuel k1 : ∀ k2 a, (length a <= k1)%nat → (length a <= k2)%nat →
  reader_loop k1 sd a = reader_loop k2 sd a.
Proof.
  induction k1 as [|k1 IH]; intros k2 a H1 H2.
  { destruct a; [|simpl in *; lia]. destruct k2; done. }
  destruct k2 as [|k2]; [destruct a; [done|simpl in *; lia]|].
  cbn [reader_loop]. destruct (reader_step sd a) as [| | |f n|] eqn:E; try done.
  apply reader_step_consumed in E. rewrite (IH k2); [done| |]; rewrite length_drop; lia.
Qed.

Lemma read_frames_step a f n :
  reader_step sd a = RFrame f n →
  read_frames sd a = (f :: (read_frames sd (drop n a)).1, (read_frames sd (drop n a)).2).
Proof.
  intros E. pose proof (reader_step_consumed _ _ _ _ E) as Hn. unfold read_frames.
  destruct a as [|b a]; [simpl in Hn; lia|]. cbn [length reader_loop]. rewrite E.
  rewrite (reader_loop_fuel (length a) (length (drop n (b :: a))));
    [|rewrite length_drop; simpl; lia|done].
  by destruct (reader_loop _ _ _).
Qed.

Lemma read_frames_stop a :
  (∀ f n, reader_step sd a ≠ RFrame f n) →
  read_frames sd a = ([], match reader_step sd a with
                          | RClear => EndClear | RViolation => EndViolation
                          | RUndefined => EndUndefined | _ => EndWait a end).
Proof.
  intros H. unfold read_frames. destruct a as [|b a]; [done|].
  cbn [length reader_loop]. destruct (reader_step sd (b :: a)) eqn:E; try done.
  by destruct (H f consumed).
Qed.

(** More input resumes the loop where it waited. *)
Lemma read_frames_app_aux k : ∀ a b fs r, (length a <= k)%nat →
  read_frames sd a = (fs, EndWait r) →
  read_frames sd (a ++ b) = (fs ++ (read_frames sd (r ++ b)).1, (read_frames sd (r ++ b)).2).
Proof.
  induction k as [|k IH]; intros a b fs r Hk E.
  { destruct a; [|simpl in *; lia]. cbn in E. simplify_eq. simpl. by destruct (read_frames _ _). }
  destruct (reader_step sd a) as [| | |f n|] eqn:Es.
  4: { pose proof (reader_step_consumed _ _ _ _ Es) as Hn.
       rewrite (read_frames_step _ _ _ Es) in E. injection E as <- E2.
       rewrite (read_frames_step (a ++ b) f n) by (by apply reader_step_app).
       rewrite drop_app_le by lia.
       rewrite (IH (drop n a) b (read_frames sd (drop n a)).1 r); [done| |].
       - rewrite length_drop. lia.
       - by rewrite <- E2; destruct (read_frames sd (drop n a)). }
  all: rewrite read_frames_stop in E by (intros; congruence); rewrite Es in E; simplify_eq.
  simpl. by destruct (read_frames _ _).
Qed.

Lemma read_frames_app a b fs r :
  read_frames sd a = (fs, EndWait r) →
  read_frames sd (a ++ b) = (fs ++ (read_frames sd (r ++ b)).1, (read_frames sd (r ++ b)).2).
Proof. by apply read_frames_app_aux with (k := length a). Qed.

End loop.

(** ** Frames round trip *)

(** The frame as bytes; the frames above are instances ([encode_data] and so on). *)
Definition encode (f : frame) : bytes :=
  match f with
  | FPing => ping_frame
  | FPong => pong_frame
  | FShutdownWr cid => shutdown_wr_frame cid
  | FShutdownWrAck cid => shutdown_wr_ack_frame cid
  | FControl s p => with_len (WIRE_CONTROL :: s :: p)
  | FAck s => ack_frame s
  | FData s d => data_frame s d
  | FIgnored => []
  end.

Lemma encode_control s pkt : control_frame s pkt = encode (FControl s (serialize pkt)).
Proof.
  unfold control_frame, encode, with_len. cbn [length]. do 2 f_equal. lia.
Qed.

(** The frames a side may receive. *)
Definition frame_ok (sd : side) (f : frame) : Prop :=
  match f with
  | FPing | FPong => True
  | FShutdownWr _ => sd = Server
  | FShutdownWrAck _ => sd = Client
  | FControl s p => Z.of_nat (length p) < 2 ^ 55
  | FAck s => 0 <= s < 65536
  | FData s d => 0 <= s < 65536 ∧ Z.of_nat (length d) < 2 ^ 55
  | FIgnored => False
  end.

Lemma seq_of_bytes s : 0 <= s < 65536 →
  seq_of (Z.land s 0xFF) (Z.land (Z.shiftr s 8) 0xFF) = s.
Proof.
  intros Hs. unfold seq_of. rewrite !land_ff, Z.shiftr_div_pow2 by lia.
  change (2 ^ 8) with 256. rewrite (lor_shiftl_add _ _ 8) by zlia.
  change (2 ^ 8) with 256. zlia.
Qed.

Lemma reader_step_framed sd ty body rest :
  let v := Z.of_nat (length (ty :: body)) in
  v < 2 ^ 56 →
  reader_step sd (write_varint_loop 10 v ++ (ty :: body) ++ rest)
  = decode sd (write_varint_loop 10 v ++ (ty :: body) ++ rest)
           (length (write_varint_loop 10 v)) v ty.
Proof.
  intros v Hv. unfold reader_step.
  destruct (read_len_varint v ((ty :: body) ++ rest)) as (s & E & Hs & Hl); [lia|].
  rewrite E. rewrite length_app, length_app.
  pose proof (write_varint_loop_nonempty 9 v) as Hne.
  rewrite (proj2 (Z.ltb_ge _ 1)) by (cbn [length]; lia).
  rewrite (proj2 (Nat.leb_gt 10 _)), (proj2 (Z.leb_gt 56 s)) by lia. cbn [orb].
  rewrite !(proj2 (Z.ltb_ge _ _)) by (subst v; cbn [length] in *; lia). cbn [orb].
  by rewrite lookup_app_r, Nat.sub_diag by lia.
Qed.

Lemma framed_lookup (w body rest : bytes) i :
  (i < length body)%nat → (w ++ body ++ rest) !! (length w + i)%nat = body !! i.
Proof.
  intros Hi. rewrite lookup_app_r by lia.
  replace (length _ + i - _)%nat with i by lia. by apply lookup_app_l.
Qed.

Lemma framed_drop (w body rest : bytes) i :
  (i <= length body)%nat → drop (length w + i) (w ++ body ++ rest) = drop i body ++ rest.
Proof.
  intros Hi. rewrite drop_app_ge by lia.
  replace (length _ + i - _)%nat with i by lia. by apply drop_app_le.
Qed.

(** All frames have the shape [varint length][type][body]. *)
Definition frame_type (f : frame) : Z :=
  match f with
  | FPing => WIRE_HEARTBEAT_PING | FPong => WIRE_HEARTBEAT_PONG
  | FShutdownWr _ => WIRE_SHUTDOWN_WR | FShutdownWrAck _ => WIRE_SHUTDOWN_WR_ACK
  | FControl _ _ => WIRE_CONTROL | FAck _ => WIRE_DATA_ACK | _ => WIRE_DATA
  end.
Definition frame_body (f : frame) : bytes :=
  match f with
  | FShutdownWr cid | FShutdownWrAck cid => [cid]
  | FControl s p => s :: p
  | FAck s => seq_bytes s
  | FData s d => seq_bytes s ++ d
  | _ => []
  end.

Lemma encode_shape sd f : frame_ok sd f → encode f = with_len (frame_type f :: frame_body f).
Proof.
  destruct f; try done. intros _. cbn [encode]. unfold data_frame, with_len. cbn [frame_type frame_body].
  do 2 f_equal. unfold seq_bytes. simpl. lia.
Qed.

Lemma frame_body_length sd f :
  frame_ok sd f → Z.of_nat (length (frame_type f :: frame_body f)) < 2 ^ 56.
Proof. destruct f; cbn [frame_ok frame_body]; unfold seq_bytes; simpl; lia. Qed.

(** A frame is read back as it was written, and exactly its bytes are used. *)
Lemma reader_step_encode sd f rest :
  frame_ok sd f → reader_step sd (encode f ++ rest) = RFrame f (length (encode f)).
Proof.
  intros Hok. rewrite (encode_shape sd) by done. unfold with_len. rewrite <- app_assoc.
  pose proof (frame_body_length sd f Hok) as Hlen. rewrite reader_step_framed by done.
  rewrite length_app. set (v := Z.of_nat (length (frame_type f :: frame_body f))) in *.
  assert (length (write_varint_loop 10 v) + Z.to_nat v
          = length (write_varint_loop 10 v) + length (frame_type f :: frame_body f))%nat
    as Hn by lia.
  unfold decode. rewrite Hn. clear Hn. generalize (write_varint_loop 10 v). intros w.
  destruct f as [| |cid|cid|s p|s|s d|]; cbn [frame_ok] in Hok; try done.
  all: cbn [frame_type frame_body] in *; try done.
  all: rewrite ?(framed_lookup w _ _ 1), ?(framed_lookup w _ _ 2), ?(framed_drop w _ _ 2),
    ?(framed_drop w _ _ 3) by (simpl; lia).
  - by subst sd.
  - by subst sd.
  - change (WIRE_CONTROL =? ?x) with (5 =? x). cbn -[v Z.ltb length drop take].
    rewrite (proj2 (Z.ltb_ge v 2)) by (subst v; cbn [length]; lia).
    cbn [drop]. replace (Z.to_nat (v - 2)) with (length p) by (subst v; cbn [length]; lia).
    by rewrite take_app_length.
  - cbn -[seq_of Z.land Z.shiftr length]. by rewrite seq_of_bytes.
  - destruct Hok as [Hs Hl]. cbn -[seq_of Z.land Z.shiftr v Z.ltb length drop take].
    rewrite (proj2 (Z.ltb_ge v 3)) by (subst v; unfold seq_bytes; cbn [length app]; lia).
    rewrite seq_of_bytes by done.
    cbn [drop]. replace (Z.to_nat (v - 3)) with (length d)
      by (subst v; unfold seq_bytes; cbn [length app]; lia).
    by rewrite take_app_length.
Qed.

Lemma read_frames_encoded sd fs :
  Forall (frame_ok sd) fs → read_frames sd (concat (map encode fs)) = (fs, EndWait []).
Proof.
  induction fs as [|f fs IH]; intros Hf; [done|]. apply Forall_cons in Hf as [Hf Hfs].
  cbn [map concat]. rewrite (read_frames_step sd _ f (length (encode f)))
    by (by apply reader_step_encode).
  by rewrite drop_app_length, IH.
Qed.

(** ** A stream cut anywhere *)

Section segmentation.
Context (sd : side).

(** On a prefix of a frame stream the reader waits, or has the whole first frame. *)
Lemma reader_step_prefix f a b rest :
  frame_ok sd f → a ++ b = encode f ++ rest →
  reader_step sd a = RWait
  ∨ reader_step sd a = RFrame f (length (encode f)) ∧ drop (length (encode f)) a ++ b = rest.
Proof.
  intros Hok E. pose proof (reader_step_encode sd f rest Hok) as Hs. rewrite <- E in Hs.
  assert (∀ n, (n <= length a)%nat → n = length (encode f) →
            a = encode f ++ drop n a ∧ drop n a ++ b = rest) as Hcut.
  { intros n Hn ->. assert (take (length (encode f)) (a ++ b) = encode f) as Ht
      by (rewrite E; apply take_app_length).
    rewrite take_app_le in Ht by done. split; [by rewrite <- Ht at 1; rewrite take_drop|].
    rewrite <- drop_app_le by done. by rewrite E, drop_app_length. }
  destruct (reader_step sd a) as [| | |f' n|] eqn:Ea; [by left| | | |]; right.
  1, 2: by rewrite (reader_step_app sd a b _ Ea) in Hs.
  - pose proof (reader_step_consumed _ _ _ _ Ea) as Hn.
    rewrite (reader_step_app sd a b _ Ea) in Hs by done. simplify_eq.
    split; [done|]. destruct (Hcut (length (encode f))); [lia|done|done].
  - exfalso. pose proof Ea as Eu. unfold reader_step in Eu. revert Eu.
    destruct (Z.ltb_spec (Z.of_nat (length a)) 1); [done|].
    destruct (read_len a) as [[val shift] pos] eqn:El.
    destruct (read_len_app a b _ _ _ El) as (Hp & H8 & Hv & Happ).
    destruct (_ || _); [done|].
    destruct (Z.ltb_spec (Z.of_nat (length a)) (Z.of_nat pos)); [done|].
    destruct (Z.ltb_spec (Z.of_nat (length a)) (Z.of_nat pos + val)); [done|].
    destruct (Z.ltb_spec val 1); [done|]. intros _.
    assert (length (encode f) = (pos + Z.to_nat val)%nat) as Hn.
    { revert Hs. unfold reader_step. rewrite Happ by lia. case_match; [done|].
      case_match; [done|]. case_match; [done|]. case_match; [|done]. apply decode_consumed. }
    destruct (Hcut (length (encode f))) as [Ha _]; [lia|done|].
    by rewrite Ha, reader_step_encode in Ea.
Qed.

Lemma read_frames_prefix fs : ∀ a b,
  Forall (frame_ok sd) fs → a ++ b = concat (map encode fs) →
  ∃ fs1 fs2 r, fs = fs1 ++ fs2 ∧ read_frames sd a = (fs1, EndWait r)
    ∧ r ++ b = concat (map encode fs2) ∧ read_frames sd r = ([], EndWait r)
    ∧ (∃ p, a = p ++ r).
Proof.
  induction fs as [|f fs IH]; intros a b Hf E.
  { apply app_nil in E as [-> ->]. exists [], [], []. split_and!; try done. by exists []. }
  apply Forall_cons in Hf as [Hf Hfs]. cbn [map concat] in E.
  destruct (reader_step_prefix f a b _ Hf E) as [Hw|[Hs Hrest]].
  - assert (read_frames sd a = ([], EndWait a)) as Ha.
    { rewrite read_frames_stop; rewrite Hw; [done|]. intros; done. }
    exists [], (f :: fs), a. split_and!; try done. by exists [].
  - destruct (IH _ _ Hfs Hrest) as (fs1 & fs2 & r & -> & Hr & Hb & Hst & (p & Hp)).
    exists (f :: fs1), fs2, r. split_and!; try done.
    + by rewrite (read_frames_step _ _ _ _ Hs), Hr.
    + exists (take (length (encode f)) a ++ p). by rewrite <- app_assoc, <- Hp, take_drop.
Qed.

(** One block of a frame stream. *)
Lemma on_readable_prefix rb data b fs :
  Forall (frame_ok sd) fs → (read_offset rb <= length (read_buf rb))%nat →
  (unread rb ++ data) ++ b = concat (map encode fs) →
  ∃ fs1 fs2 rb', on_readable sd rb data = Some (fs1, rb', false) ∧ fs = fs1 ++ fs2
    ∧ unread rb' ++ b = concat (map encode fs2)
    ∧ read_frames sd (unread rb') = ([], EndWait (unread rb'))
    ∧ (read_offset rb' <= length (read_buf rb'))%nat.
Proof.
  intros Hf Ho E. destruct (read_frames_prefix fs _ _ Hf E)
    as (fs1 & fs2 & r & Hfs & Hr & Hb & Hst & (p & Hp)).
  unfold on_readable. rewrite length_app. destruct (Nat.ltb_spec (length (read_buf rb) + length data) (read_offset rb)); [lia|].
  assert (drop (read_offset rb) (read_buf rb ++ data) = unread rb ++ data) as ->
    by (by rewrite drop_app_le).
  rewrite Hr. set (buf := read_buf rb ++ data).
  assert (drop (length buf - length r) buf = r) as Hd.
  { assert (buf = take (read_offset rb) (read_buf rb) ++ p ++ r) as Hb'.
    { subst buf. rewrite <- Hp. unfold unread. by rewrite app_assoc, take_drop. }
    rewrite Hb', (assoc_L (++)). rewrite length_app.
    replace (_ - length r)%nat with (length (take (read_offset rb) (read_buf rb) ++ p)) by lia.
    apply drop_app_length. }
  replace (length (read_buf rb) + length data)%nat with (length buf) by apply length_app.
  eexists fs1, fs2, _. split; [done|].
  destruct (Z.ltb_spec MAX_PACKET_SIZE (Z.of_nat (length buf - length r)));
    unfold unread; cbn [read_buf read_offset]; rewrite ?drop_0, ?Hd; split_and!; try done; lia.
Qed.

Lemma feed_stream blocks : ∀ rb fs,
  Forall (frame_ok sd) fs → (read_offset rb <= length (read_buf rb))%nat →
  read_frames sd (unread rb) = ([], EndWait (unread rb)) →
  unread rb ++ concat blocks = concat (map encode fs) →
  ∃ rb', feed sd rb blocks = Some (fs, rb') ∧ unread rb' = [].
Proof.
  induction blocks as [|b blocks IH]; intros rb fs Hf Ho Hst E.
  - cbn [concat] in E. rewrite app_nil_r in E. rewrite E, read_frames_encoded in Hst by done.
    injection Hst as -> Hnil. exists rb. split; [done|]. by rewrite E.
  - cbn [concat] in E. rewrite (assoc_L (++)) in E.
    destruct (on_readable_prefix rb b (concat blocks) fs Hf Ho E)
      as (fs1 & fs2 & rb' & Hon & -> & Hu & Hst' & Ho').
    apply Forall_app in Hf as [_ Hf2].
    destruct (IH rb' fs2 Hf2 Ho' Hst' Hu) as (rb'' & Hfeed & Hnil).
    exists rb''. cbn [feed]. rewrite Hon. cbn [mbind option_bind]. rewrite Hfeed. done.
Qed.

End segmentation.

Lemma feed_segmentation (sd : side) (rb : RBuf) (fs : list frame) (blocks : list bytes) :
  Forall (frame_ok sd) fs → read_offset rb = length (read_buf rb) →
  concat blocks = concat (map encode fs) →
  ∃ rb', feed sd rb blocks = Some (fs, rb') ∧ unread rb' = [].
Proof.
  intros Hf Ho E. assert (unread rb = []) as Hu by (unfold unread; rewrite drop_ge; [done|lia]).
  apply feed_stream; rewrite ?Hu; try done. lia.
Qed.

(** [C8] Framing survives TCP: if the bytes of a sequence of well-formed frames arrive in
    any blocks whatever (split inside a length, between type and body, several frames in
    one block), the reader of either side delivers exactly those frames, in order, and
    ends with an empty unread buffer; the compaction of [read_buf] is included. *)
Theorem reader_segmentation (sd : side) (rb : RBuf) (fs : list frame) (blocks : list bytes) :
  Forall (frame_ok sd) fs → read_offset rb = length (read_buf rb) →
  concat blocks = concat (map encode fs) →
  ∃ rb', feed sd rb blocks = Some (fs, rb') ∧ unread rb' = [].
Proof. apply feed_segmentation. Qed.

Definition sample_frames : list frame :=
  [FData 0 (repeat 9 200); FControl 3 (serialize (mkPacket MSG_DISCONNECT [4])); FAck 258;
   FShutdownWr 7; FPing].

Lemma sample_frames_ok : Forall (frame_ok Server) sample_frames.
Proof. repeat constructor; done. Qed.

Definition byte_blocks (l : bytes) : list bytes := map (λ b, [b]) l.

Lemma concat_byte_blocks l : concat (byte_blocks l) = l.
Proof. induction l as [|b l IH]; simpl; [done|]. by rewrite IH. Qed.

(** The stream one byte at a time. *)
Lemma reader_segmentation_witness :
  ∃ rb', feed Server (mkRBuf [] 0) (byte_blocks (concat (map encode sample_frames)))
         = Some (sample_frames, rb') ∧ unread rb' = [].
Proof.
  apply (reader_segmentation Server (mkRBuf [] 0) sample_frames).
  - exact sample_frames_ok.
  - reflexivity.
  - apply concat_byte_blocks.
Defined.

(** The complete frame at the front of [ptr]. *)
Definition frame_at (ptr : bytes) (val : Z) (pos : nat) (ty : Z) : Prop :=
  (∃ shift, read_len ptr = (val, shift, pos) ∧ shift < 56)
  ∧ 1 <= val ∧ Z.of_nat pos + val <= Z.of_nat (length ptr) ∧ ptr !! pos = Some ty.

Lemma frame_at_unique ptr v p t v' p' t' :
  frame_at ptr v p t → frame_at ptr v' p' t' → v = v' ∧ p = p' ∧ t = t'.
Proof. intros [(s & E & _) (_ & _ & Ht)] [(s' & E' & _) (_ & _ & Ht')].
  rewrite E in E'. injection E' as <- _ <-. rewrite Ht in Ht'. by injection Ht' as <-.
Qed.

(** A step is a frame's, or nothing has been looked at but its length. *)
Lemma reader_step_cases sd ptr :
  (∃ val pos ty, frame_at ptr val pos ty ∧ reader_step sd ptr = decode sd ptr pos val ty)
  ∨ (reader_step sd ptr = RWait ∨ reader_step sd ptr = RClear) ∧ ∀ val pos ty, frame_at ptr val pos ty → False.
Proof.
  unfold reader_step. destruct (Z.ltb_spec (Z.of_nat (length ptr)) 1).
  { right. split; [by left|]. intros val pos ty (_ & H1 & H2 & _). lia. }
  destruct (read_len ptr) as [[val shift] pos] eqn:El. pose proof (read_len_app ptr [] _ _ _ El) as (_ & H8 & _).
  rewrite (proj2 (Nat.leb_gt 10 pos)) by lia. cbn [orb]. destruct (Z.leb_spec 56 shift).
  { right. split; [by right|]. intros v p t ((s & E & Hs) & _). rewrite El in E. injection E as <- <- <-. lia. }
  destruct (Z.ltb_spec (Z.of_nat (length ptr)) (Z.of_nat pos)); cbn [orb].
  { right. split; [by left|]. intros v p t ((s & E & Hs) & Hv & Hl & _). rewrite El in E. injection E as <- <- <-. lia. }
  destruct (Z.ltb_spec (Z.of_nat (length ptr)) (Z.of_nat pos + val)); cbn [orb].
  { right. split; [by left|]. intros v p t ((s & E & Hs) & Hv & Hl & _). rewrite El in E. injection E as <- <- <-. lia. }
  destruct (Z.ltb_spec val 1).
  { right. split; [by left|]. intros v p t ((s & E & Hs) & Hv & Hl & _). rewrite El in E. injection E as <- <- <-. lia. }
  left. destruct (lookup_lt_is_Some_2 ptr pos) as [ty Hty]; [lia|]. rewrite Hty.
  exists val, pos, ty. split; [|done]. split; [by exists shift|]. done.
Qed.

(** The frames on which the code leaves its buffer. *)
Definition leaves (sd : side) (ptr : bytes) (val : Z) (pos : nat) (ty : Z) : Prop :=
  ty = WIRE_CONTROL ∧ val = 1 ∧ (length ptr = pos + 1 ∨ parse_past (drop (pos + 2) ptr) = None)%nat
  ∨ ty = WIRE_CONTROL ∧ 2 <= val ∧ try_parse (take (Z.to_nat (val - 2)) (drop (pos + 2) ptr)) = ParseUndefined
  ∨ ty = WIRE_DATA_ACK ∧ val < 3 ∧ (length ptr < pos + 3)%nat
  ∨ sd = Server ∧ ty = WIRE_DATA ∧ val < 3 ∧ (length ptr < pos + 67)%nat.

Ltac stays :=
  cbn [parse_control]; split; [done|];
  intros [(? & ? & ?)|[(? & ? & ?)|[(? & ? & ?)|(? & ? & ? & ?)]]]; done || lia.

Lemma decode_leaves sd ptr val pos ty : 1 <= val → Z.of_nat pos + val <= Z.of_nat (length ptr) → 0 <= ty →
  parse_control (decode sd ptr pos val ty) = RUndefined ↔ leaves sd ptr val pos ty.
Proof.
  intros Hv Hl Hty.
  assert (∀ i, (pos + i < length ptr)%nat → ∃ x, ptr !! (pos + i)%nat = Some x) as Hlk
    by (intros i Hi; by apply lookup_lt_is_Some).
  assert (∀ i, (length ptr <= pos + i)%nat → ptr !! (pos + i)%nat = None) as Hnone
    by (intros i Hi; by apply lookup_ge_None).
  unfold decode, leaves.
  destruct (Z.eqb_spec ty WIRE_HEARTBEAT_PING) as [->|]; [stays|].
  destruct (Z.eqb_spec ty WIRE_HEARTBEAT_PONG) as [->|]; [stays|].
  destruct (Z.eqb_spec ty WIRE_SHUTDOWN_WR) as [->|].
  { destruct sd; [|cbn; naive_solver]. destruct (Z.ltb_spec val 2); [stays|].
    destruct (Hlk 1%nat) as [x ->]; [lia|stays]. }
  destruct (Z.eqb_spec ty WIRE_SHUTDOWN_WR_ACK) as [->|].
  { destruct sd; [stays|]. destruct (Z.ltb_spec val 2); [stays|].
    destruct (Hlk 1%nat) as [x ->]; [lia|stays]. }
  destruct (Z.eqb_spec ty WIRE_CONTROL) as [->|].
  { destruct (Z.ltb_spec val 2).
    - destruct (decide (length ptr <= pos + 1)%nat) as [Hs|Hs].
      { rewrite Hnone by done. cbn. split; [intros _; left; split_and!; [done|lia|left; lia]|done]. }
      destruct (Hlk 1%nat) as [x ->]; [lia|]. destruct (parse_past _) as [k|] eqn:Ek.
      + apply parse_past_parses in Ek. cbn [parse_control]. split; [by destruct (try_parse _)|].
        intros [(_ & _ & [?|?])|[(_ & ? & _)|[(? & _)|(_ & ? & _)]]]; done || lia.
      + split; [intros _; left; split_and!; [done|lia|by right]|done].
    - destruct (Hlk 1%nat) as [x ->]; [lia|]. cbn [parse_control]. split.
      + destruct (try_parse _) eqn:Ep; try done. intros _. right. left. done.
      + intros [(_ & ? & _)|[(_ & _ & ->)|[(? & _)|(_ & ? & _)]]]; done || lia. }
  destruct (Z.eqb_spec ty WIRE_DATA_ACK) as [->|].
  { destruct (decide (length ptr < pos + 3)%nat) as [Hs|Hs].
    - rewrite (Hnone 2%nat) by lia. split; [intros _; right; right; left; split_and!; [done|lia|done]|].
      intros _. by destruct (ptr !! (pos + 1)%nat).
    - destruct (Hlk 1%nat) as [x ->]; [lia|]. destruct (Hlk 2%nat) as [y ->]; [lia|]. stays. }
  destruct (Z.ltb_spec WIRE_DATA_ACK ty) as [Hbig|Hsmall].
  { unfold WIRE_DATA_ACK in Hbig. split; [done|]. intros [(-> & _)|[(-> & _)|[(-> & _)|(_ & -> & _)]]]; done. }
  assert (ty = WIRE_DATA) as -> by (unfold WIRE_DATA_ACK, WIRE_DATA, WIRE_CONTROL, WIRE_HEARTBEAT_PING,
    WIRE_HEARTBEAT_PONG, WIRE_SHUTDOWN_WR, WIRE_SHUTDOWN_WR_ACK in *; lia).
  destruct (Z.ltb_spec val 3).
  { destruct sd; [|stays]. destruct (Nat.leb_spec (pos + 67) (length ptr)); cbn [parse_control]; split; try done.
    - intros [(? & _)|[(? & _)|[(? & _)|(_ & _ & _ & ?)]]]; done || lia.
    - intros _. right. right. right. done. }
  destruct (Hlk 1%nat) as [x ->]; [lia|]. destruct (Hlk 2%nat) as [y ->]; [lia|]. stays.
Qed.

(** [C33] Exactly where a round of the reader leaves its buffer. For any bytes, it does so if
    and only if they begin with a complete frame ([val] bytes from [pos] on, of type [ty])
    that is
    - a control frame of one byte, when the number of the message is missing, or when the
      bytes behind the frame, which [try_parse] then takes for the packet because [val - 2]
      wraps around, end before that packet does;
    - a longer control frame whose packet has a length that makes [total] wrap around in
      [try_parse];
    - an acknowledgement of one or two bytes, when fewer than three follow the length;
    - in the server, a data frame of one or two bytes, when fewer than 67 bytes follow the
      length (the hex dump).
    On everything else, heartbeats, half-closes, unknown types and incomplete frames
    included, the round stays inside. *)
Theorem reader_undefined_only (sd : side) (ptr : bytes) (Hb : bytes_ok ptr) :
  reader_round sd ptr = RUndefined
  ↔ ∃ val pos ty, frame_at ptr val pos ty
      ∧ (ty = WIRE_CONTROL ∧ val = 1 ∧ (length ptr = pos + 1 ∨ parse_past (drop (pos + 2) ptr) = None)%nat
         ∨ ty = WIRE_CONTROL ∧ 2 <= val ∧ try_parse (take (Z.to_nat (val - 2)) (drop (pos + 2) ptr)) = ParseUndefined
         ∨ ty = WIRE_DATA_ACK ∧ val < 3 ∧ (length ptr < pos + 3)%nat
         ∨ sd = Server ∧ ty = WIRE_DATA ∧ val < 3 ∧ (length ptr < pos + 67)%nat).
Proof.
  unfold reader_round.
  destruct (reader_step_cases sd ptr) as [(val & pos & ty & Hf & ->)|[Hs Hno]].
  - assert (0 <= ty) as Hty.
    { destruct Hf as (_ & _ & _ & Hl). pose proof (proj1 (Forall_forall _ _) Hb ty (list_elem_of_lookup_2 _ _ _ Hl)) as [? ?]. done. }
    rewrite decode_leaves by (done || apply Hf). split.
    + intros H. by exists val, pos, ty.
    + intros (v & p & t & Hf' & H). by destruct (frame_at_unique _ _ _ _ _ _ _ Hf Hf') as (-> & -> & ->).
  - split; [destruct Hs as [-> | ->]; done|]. intros (v & p & t & Hf & _). by destruct (Hno v p t).
Qed.

(** Two bytes from the peer are enough; with two zeros behind them the round is defined; a
    control frame whose packet claims 2^64 - 4 bytes is not. *)
Definition wrapping_body : bytes := [MSG_DISCONNECT; 0xFC; 0xFF; 0xFF; 0xFF; 0xFF; 0xFF; 0xFF; 0xFF; 0xFF; 1].

Example reader_round_ex :
  reader_round Server [1; WIRE_CONTROL] = RUndefined
  ∧ reader_round Server [1; WIRE_CONTROL; 9; 81; 0] = RFrame (FControl 9 [81; 0]) 2
  ∧ reader_round Client (with_len (WIRE_CONTROL :: 0 :: wrapping_body)) = RUndefined
  ∧ reader_round Server (with_len [WIRE_SHUTDOWN_WR]) = RClear
  ∧ reader_round Server [1; WIRE_DATA] = RUndefined ∧ reader_round Client [1; WIRE_DATA] = RFrame FIgnored 2.
Proof. by vm_compute. Qed.

Lemma reader_undefined_only_witness :
  (∃ val pos ty, frame_at [1; WIRE_CONTROL] val pos ty ∧ leaves Server [1; WIRE_CONTROL] val pos ty)
  ∧ ¬ ∃ val pos ty, frame_at [1; WIRE_SHUTDOWN_WR] val pos ty ∧ leaves Server [1; WIRE_SHUTDOWN_WR] val pos ty.
Proof.
  split.
  - apply (reader_undefined_only Server [1; WIRE_CONTROL]); [by repeat constructor|reflexivity].
  - intros H. apply (reader_undefined_only Server [1; WIRE_SHUTDOWN_WR]) in H; [discriminate H|by repeat constructor].
Defined.

(** One read of a connection whose next byte is a zero length. *)
Lemma stalled_read (sd : side) (rb : RBuf) (rest b : bytes) :
  (read_offset rb <= length (read_buf rb))%nat → unread rb = 0 :: rest →
  ∃ rb', on_readable sd rb b = Some ([], rb', false) ∧ unread rb' = 0 :: rest ++ b
         ∧ (read_offset rb' <= length (read_buf rb'))%nat.
Proof.
  intros Ho Hu. unfold on_readable. rewrite length_app.
  destruct (Nat.ltb_spec (length (read_buf rb) + length b) (read_offset rb)); [lia|].
  rewrite drop_app_le by lia. fold (unread rb). rewrite Hu.
  assert (reader_step sd ((0 :: rest) ++ b) = RWait) as Hw.
  { unfold reader_step. rewrite (proj2 (Z.ltb_ge _ 1)) by (cbn [app length]; lia).
    replace (read_len ((0 :: rest) ++ b)) with (0, 0, 1%nat) by done.
    cbn [orb Nat.leb Z.leb Z.compare]. by rewrite orb_true_r. }
  rewrite read_frames_stop by (rewrite Hw; done). rewrite Hw. cbn [mbind option_bind].
  assert (length (read_buf rb) - read_offset rb = length (0%Z :: rest))%nat as Hl
    by (by rewrite <- Hu; unfold unread; rewrite length_drop).
  rewrite length_app.
  replace (length (read_buf rb) + length b - (length (0%Z :: rest) + length b))%nat
    with (read_offset rb) by lia.
  eexists. split; [reflexivity|].
  assert (drop (read_offset rb) (read_buf rb ++ b) = 0 :: rest ++ b) as Hd
    by (rewrite drop_app_le by lia; fold (unread rb); by rewrite Hu).
  destruct (_ <? _); unfold unread; cbn [read_buf read_offset]; [|rewrite length_app]; split; done || lia.
Qed.

(** A zero length byte stalls a connection for good: the reader neither skips it
    nor drops it, so nothing that follows is ever delivered, and the buffer grows. *)
Theorem zero_length_stalls (sd : side) (rb : RBuf) (rest : bytes) (blocks : list bytes) :
  (read_offset rb <= length (read_buf rb))%nat → unread rb = 0 :: rest →
  ∃ rb', feed sd rb blocks = Some ([], rb') ∧ unread rb' = 0 :: rest ++ concat blocks.
Proof.
  revert rb rest. induction blocks as [|b blocks IH]; intros rb rest Ho Hu.
  { exists rb. by rewrite Hu, app_nil_r. }
  cbn [feed concat]. destruct (stalled_read sd rb rest b Ho Hu) as (rb1 & -> & Hu1 & Ho1).
  destruct (IH rb1 (rest ++ b) Ho1 Hu1) as (rb' & Hf & Hr). cbn [mbind option_bind].
  rewrite Hf. exists rb'. split; [done|]. by rewrite Hr, (assoc_L (++)).
Qed.

Lemma zero_length_stalls_witness :
  ∃ rb', feed Client (mkRBuf [0] 0) [encode FPing; encode (FAck 1)] = Some ([], rb')
         ∧ unread rb' = 0 :: [] ++ concat [encode FPing; encode (FAck 1)].
Proof. apply (zero_length_stalls Client (mkRBuf [0] 0) []); [simpl; lia|reflexivity]. Defined.

End Frame.
