(* ===== verification/Connection.v ===== *)
(** * Frames through a connection (common/write_buffer.h and the readers of both endpoints)

    The writer of one endpoint, the socket and the reader of the other, put together: the
    frames handed to a [WriteBuffer] come out of the peer's reader. *)

From S2P Require Import Prelude Protocol WriteBuffer Frame.
Local Open Scope Z_scope.

Module Connection.
Import WB.

(** ** Two queues on one stream *)

(** [fs] has the elements of [ds] and of [ps], each list in its order. *)
Inductive interleave {A} : list A → list A → list A → Prop :=
| il_nil : interleave [] [] []
| il_data ds ps fs d : interleave ds ps fs → interleave (ds ++ [d]) ps (fs ++ [d])
| il_prio ds ps fs p : interleave ds ps fs → interleave ds (ps ++ [p]) (fs ++ [p]).

Definition stream (ss : list seg) : bytes := concat (map s_data ss).

(** A priority frame that is written at all is written in one piece. *)
Definition whole (ss : list seg) : Prop := Forall (λ s, s_prio s = true → s_done s = true) ss.

Lemma stream_app ss ss' : stream (ss ++ ss') = stream ss ++ stream ss'.
Proof. unfold stream. by rewrite map_app, concat_app. Qed.
Lemma stream_cons s ss : stream (s :: ss) = s_data s ++ stream ss.
Proof. done. Qed.

(** The frames [D] and [P] have been handed to the two queues of [wb], and [out] has reached
    the socket: whole frames, and a part of the next data frame. *)
Definition carries (part out : bytes) (D P : list bytes) (wb : WriteBuffer) : Prop :=
  ∃ fs ds ps,
    interleave ds ps fs ∧ out = concat fs ++ part
    ∧ P = ps ++ priority_chunks wb ∧ priority_read_offset wb = 0%nat
    ∧ match chunks wb with
      | [] => D = ds ∧ part = []
      | c :: rest => D = ds ++ (part ++ drop (read_offset wb) c) :: rest
      end.

Section queues.

Lemma flush_priority_carries ks : ∀ wb r wb' ss ks' out D P,
  wf wb → carries [] out D P wb →
  flush_priority_unlocked ks wb = (r, wb', ss, ks') → whole ss →
  carries [] (out ++ stream ss) D P wb'.
Proof.
  induction ks as [|k ks IH]; intros wb r wb' ss ks' out D P Hwf Hc Hrun Hw; cbn [flush_priority_unlocked] in Hrun;
    destruct (priority_chunks wb) as [|msg rest] eqn:E;
    try (injection Hrun as <- <- <- <-; by rewrite app_nil_r).
  destruct k as [n| |]; cbn [sys_write] in Hrun; try (injection Hrun as <- <- <- <-; by rewrite app_nil_r).
  pose proof Hc as (fs & ds & ps & Hil & -> & -> & Hoff & Hd). rewrite Hoff in Hrun.
  rewrite Nat.sub_0_r in Hrun. destruct (Nat.ltb_spec 0 (n `min` length msg)); [|exact (IH _ _ _ _ _ _ _ _ Hwf Hc Hrun Hw)].
  destruct (advance _ _ _) as [cs off'] eqn:Ha.
  destruct (flush_priority_unlocked ks _) as [[[r0 wb0] ss0] ks0] eqn:Er.
  injection Hrun as <- <- <- <-. apply Forall_cons in Hw as [Hdone Hw].
  specialize (Hdone eq_refl). cbn in Hdone. apply Nat.leb_le in Hdone.
  pose proof (sent_prio_step wb msg rest (n `min` length msg) cs off' Hwf E ltac:(lia)) as Hstep.
  rewrite Hoff in Hstep. specialize (Hstep Ha). unfold advance in Ha.
  rewrite (proj2 (Nat.leb_le _ _)) in Ha by lia. injection Ha as <- <-.
  rewrite stream_cons, app_assoc. cbn [s_data].
  eapply IH; [apply Hstep| |exact Er|exact Hw].
  exists (fs ++ [msg]), ds, (ps ++ [msg]). cbn. split_and!; try done.
  - by constructor.
  - rewrite concat_app, drop_0, take_ge by lia. cbn. by rewrite !app_nil_r.
  - rewrite E. by rewrite <- app_assoc.
Qed.

(** A run of a data frame. *)
Lemma data_step_carries part out D P wb front rest m :
  carries part out D P wb → chunks wb = front :: rest → (read_offset wb < length front)%nat →
  (0 < m <= length front - read_offset wb)%nat →
  let '(cs, off') := advance front rest (read_offset wb + m) in
  let wb' := set_data cs off' (u64 (total_size wb - Z.of_nat m)) wb in
  let s := take m (drop (read_offset wb) front) in
  carries (if (length front <=? read_offset wb + m)%nat then [] else part ++ s) (out ++ s) D P wb'.
Proof.
  intros (fs & ds & ps & Hil & -> & -> & Hoff & Hd) E Hlt Hm. rewrite E in Hd. subst D. unfold advance.
  destruct (Nat.leb_spec (length front) (read_offset wb + m)).
  - exists (fs ++ [part ++ drop (read_offset wb) front]), (ds ++ [part ++ drop (read_offset wb) front]), ps.
    cbn. split_and!; try done; [by constructor| |].
    + rewrite concat_app, take_ge by (rewrite length_drop; lia). cbn. by rewrite !app_nil_r, <- app_assoc.
    + destruct rest; [done|]. by rewrite drop_0, <- app_assoc.
  - exists fs, ds, ps. cbn. split_and!; try done; [by rewrite <- app_assoc|]. do 2 f_equal.
    rewrite <- app_assoc. f_equal. by rewrite <- drop_drop, take_drop.
Qed.

Lemma flush_loop_carries f : ∀ ks wb r wb' ss ks' part out D P,
  (length ks < f)%nat → wf wb → carries part out D P wb →
  flush_loop f ks wb = (r, wb', ss, ks') → whole ss →
  ∃ part', carries part' (out ++ stream ss) D P wb'.
Proof.
  induction f as [|f IH]; intros ks wb r wb' ss ks' part out D P Hf Hwf Hc Hrun Hw; [lia|]. cbn [flush_loop] in Hrun.
  destruct (chunks wb) as [|front rest] eqn:E.
  { assert (part = []) as -> by (destruct Hc as (? & ? & ? & _ & _ & _ & _ & Hd); rewrite E in Hd; tauto).
    exists []. by eapply flush_priority_carries. }
  assert (Hq : (read_offset wb < length front)%nat).
  { destruct Hwf as ([_ Hq] & _). by rewrite E in Hq. }
  destruct ks as [|[n| |] ks]; cbn [sys_write] in Hrun;
    try (injection Hrun as <- <- <- <-; exists part; by rewrite app_nil_r).
  cbn in Hf. destruct (Nat.ltb_spec 0 (n `min` (length front - read_offset wb))) as [Hn|Hn].
  2: { eapply IH; [|done..]. lia. }
  set (m := (n `min` (length front - read_offset wb))%nat) in *.
  pose proof (data_step_carries part out D P wb front rest m Hc E Hq ltac:(lia)) as Hstep.
  destruct (advance front rest (read_offset wb + m)) as [cs off'] eqn:Ha.
  pose proof (sent_wf _ _ _ (sent_data_step wb front rest m cs off' Hwf E ltac:(lia) Ha)) as Hwf'.
  set (wb1 := set_data _ _ _ _) in *. destruct (length front <=? read_offset wb + m)%nat.
  - destruct (flush_priority_unlocked ks wb1) as [[[r1 wb2] ss1] ks1] eqn:Ep.
    pose proof (flush_priority_spec _ _ _ _ _ _ Hwf' Ep) as (Hs1 & _ & _ & [u Hu] & _).
    destruct (decide (r1 = Ret true)) as [->|Hr1].
    + destruct (flush_loop f ks1 wb2) as [[[r3 wb3] ss3] ks3] eqn:El. injection Hrun as <- <- <- <-.
      apply Forall_cons in Hw as [_ Hw]. apply Forall_app in Hw as [Hw1 Hw3].
      rewrite stream_cons, stream_app, !app_assoc. cbn [s_data].
      eapply IH; [|apply Hs1| |exact El|done].
      * subst ks. rewrite length_app in Hf. lia.
      * eapply flush_priority_carries; [exact Hwf'|exact Hstep|exact Ep|done].
    + assert (Hres : (r1, wb2, mkSeg false (take m (drop (read_offset wb) front)) true :: ss1, ks1) = (r, wb', ss, ks')).
      { by destruct r1 as [[]|]. }
      injection Hres as <- <- <- <-. apply Forall_cons in Hw as [_ Hw]. exists [].
      rewrite stream_cons, app_assoc. eapply flush_priority_carries; [exact Hwf'|exact Hstep|exact Ep|done].
  - destruct (flush_loop f ks wb1) as [[[r2 wb2] ss2] ks2] eqn:El. injection Hrun as <- <- <- <-.
    apply Forall_cons in Hw as [_ Hw]. rewrite stream_cons, app_assoc. eapply IH; [|exact Hwf'|exact Hstep|exact El|done]. lia.
Qed.

Lemma flush_carries ks wb r wb' ss ks' part out D P :
  wf wb → carries part out D P wb → flush_unlocked ks wb = (r, wb', ss, ks') → whole ss →
  ∃ part', carries part' (out ++ stream ss) D P wb'.
Proof. apply flush_loop_carries. lia. Qed.

Lemma push_chunk_carries part out D P wb d :
  carries part out D P wb → chunks wb ≠ [] → carries part out (D ++ [d]) P (push_chunk d wb).
Proof.
  intros (fs & ds & ps & Hil & Ho & Hp & Hoff & Hd) Hne. exists fs, ds, ps. cbn.
  destruct (chunks wb) as [|c rest]; [done|]. subst D. split_and!; try done. cbn. by rewrite <- app_assoc.
Qed.

Lemma write_direct_carries ks d wb res wb' ss ks' part out D P :
  carries part out D P wb → chunks wb = [] → read_offset wb = 0%nat → res ≠ -1 →
  write_direct ks d wb = (Some res, wb', ss, ks') →
  ∃ part', carries part' (out ++ stream ss) (D ++ [d]) P wb'.
Proof.
  intros (fs & ds & ps & Hil & -> & -> & Hoff & Hd) E Hro Hres Hrun. rewrite E in Hd. destruct Hd as [-> ->].
  unfold write_direct in Hrun. destruct ks as [|[n| |] ks]; cbn [sys_write] in Hrun; try done.
  - set (m := (n `min` length d)%nat) in *.
    assert (Hs : stream (if (0 <? m)%nat then [mkSeg false (take m d) (length d <=? m)%nat] else []) = take m d).
    { destruct (Nat.ltb_spec 0 m); [by apply app_nil_r|]. by replace m with 0%nat by lia. }
    destruct (Nat.ltb_spec m (length d)); injection Hrun as <- <- <- <-; rewrite Hs.
    + exists (take m d), fs, ds, ps. unfold push_chunk. cbn [set_data chunks read_offset priority_chunks priority_read_offset].
      rewrite E, Hro, app_nil_r. cbn [app]. split_and!; try done. by rewrite drop_0, take_drop.
    + exists [], (fs ++ [d]), (ds ++ [d]), ps. rewrite E. split_and!; try done; [by constructor|].
      rewrite concat_app, !app_nil_r, take_ge by lia. cbn. by rewrite app_nil_r.
  - injection Hrun as <- <- <- <-. exists [], fs, ds, ps. cbn. rewrite E, Hro. cbn. split_and!; try done.
    unfold stream. cbn. by rewrite !app_nil_r.
  - by injection Hrun as <- <- <- <-.
Qed.

Lemma write_direct_error ks d wb wb' ss ks' :
  write_direct ks d wb = (Some (-1), wb', ss, ks') → WErr ∈ ks.
Proof.
  destruct ks as [|[n| |] ks]; cbn; try done; [|by left]. case_match; done.
Qed.

Lemma write_error ks d wb wb' ss ks' :
  wf wb → write ks d wb = (Some (-1), wb', ss, ks') → WErr ∈ ks.
Proof.
  intros Hwf. unfold write. destruct (chunks wb); [apply write_direct_error|].
  pose proof (flush_spec ks wb false Hwf ltac:(done)) as Hf.
  destruct (flush_unlocked ks wb) as [[[[b|] wb1] ss1] ks1]; [|done].
  destruct Hf as (_ & _ & _ & [used ->] & _). destruct (chunks wb1); [|done].
  destruct (write_direct ks1 d wb1) as [[[r2 wb2] ss2] ks2] eqn:E. intros [= -> <- <- <-].
  apply elem_of_app. right. by eapply write_direct_error.
Qed.

Lemma write_carries ks d wb res wb' ss ks' part out D P :
  wf wb → carries part out D P wb → WErr ∉ ks → write ks d wb = (Some res, wb', ss, ks') → whole ss →
  ∃ part', carries part' (out ++ stream ss) (D ++ [d]) P wb'.
Proof.
  intros Hwf Hc Herr Hrun Hw.
  assert (Hres : res ≠ -1) by (intros ->; apply Herr; by eapply write_error).
  assert (Hoff : ∀ wb, wf wb → chunks wb = [] → read_offset wb = 0%nat).
  { intros wb0 ([_ H] & _) E. by rewrite E in H. }
  unfold write in Hrun. destruct (chunks wb) as [|c cs] eqn:E; [by eapply write_direct_carries; eauto|].
  pose proof (flush_spec ks wb false Hwf ltac:(done)) as Hf.
  destruct (flush_unlocked ks wb) as [[[[b|] wb1] ss1] ks1] eqn:Ef; [|done].
  destruct Hf as ([Hwf1 _ _] & _). destruct (chunks wb1) as [|c1 cs1] eqn:E1.
  - destruct (write_direct ks1 d wb1) as [[[r2 wb2] ss2] ks2] eqn:Ew. injection Hrun as -> <- <- <-.
    apply Forall_app in Hw as [Hw1 Hw2]. rewrite stream_app, app_assoc.
    destruct (flush_carries _ _ _ _ _ _ _ _ _ _ Hwf Hc Ef Hw1) as (part1 & Hc1).
    by eapply write_direct_carries; eauto.
  - injection Hrun as <- <- <- <-. destruct (flush_carries _ _ _ _ _ _ _ _ _ _ Hwf Hc Ef Hw) as (part1 & Hc1).
    exists part1. apply push_chunk_carries; [done|]. by rewrite E1.
Qed.

Lemma priority_carries part out D P wb d :
  carries part out D P wb → carries part out D (P ++ [d]) (write_priority d wb).
Proof.
  intros (fs & ds & ps & Hil & Ho & -> & Hoff & Hd). exists fs, ds, ps. cbn. split_and!; try done.
  by rewrite app_assoc.
Qed.

(** What each queue was handed. *)
Definition data_ops (ops : list op) : list bytes :=
  omap (λ o, match o with OpWrite d => Some d | _ => None end) ops.
Definition prio_ops (ops : list op) : list bytes :=
  omap (λ o, match o with OpPriority d => Some d | _ => None end) ops.

Lemma whole_app ss ss' : whole (ss ++ ss') ↔ whole ss ∧ whole ss'.
Proof. apply Forall_app. Qed.

Lemma run_segs ops : ∀ ks t t' ks', run ops ks t = Some (t', ks') → ∃ ss, t_segs t' = t_segs t ++ ss.
Proof.
  induction ops as [|[d|d|] ops IH]; intros ks t t' ks' Hrun; cbn [run] in Hrun.
  - injection Hrun as <- _. exists []. by rewrite app_nil_r.
  - destruct (write _ _ _) as [[[[res|] wb] ss] ks1]; [|done].
    destruct (IH _ _ _ _ Hrun) as (ss' & ->). exists (ss ++ ss'). cbn. by rewrite app_assoc.
  - exact (IH _ _ _ _ Hrun).
  - destruct (flush _ _) as [[[[b|] wb] ss] ks1]; [|done].
    destruct (IH _ _ _ _ Hrun) as (ss' & ->). exists (ss ++ ss'). cbn. by rewrite app_assoc.
Qed.

(** The answers of the system are used from the front. *)
Lemma flush_priority_used ks : ∀ wb r wb' ss ks',
  flush_priority_unlocked ks wb = (r, wb', ss, ks') → ∃ used, ks = used ++ ks'.
Proof.
  induction ks as [|k ks IH]; intros wb r wb' ss ks' Hrun; cbn [flush_priority_unlocked] in Hrun;
    destruct (priority_chunks wb); try (injection Hrun as <- <- <- <-; by exists []).
  destruct (sys_write _ _); try (injection Hrun as <- <- <- <-; by eexists [_]).
  case_match.
  - destruct (advance _ _ _). destruct (flush_priority_unlocked ks _) as [[[r0 wb0] ss0] ks0] eqn:E.
    injection Hrun as <- <- <- <-. apply IH in E as [u ->]. by exists (k :: u).
  - apply IH in Hrun as [u ->]. by exists (k :: u).
Qed.

Lemma flush_loop_used f : ∀ ks wb r wb' ss ks',
  flush_loop f ks wb = (r, wb', ss, ks') → ∃ used, ks = used ++ ks'.
Proof.
  induction f as [|f IH]; intros ks wb r wb' ss ks' Hrun; cbn [flush_loop] in Hrun.
  { injection Hrun as <- <- <- <-. by exists []. }
  destruct (chunks wb); [by eapply flush_priority_used|].
  destruct ks as [|k ks]; [injection Hrun as <- <- <- <-; by exists []|].
  destruct (sys_write _ _); try (injection Hrun as <- <- <- <-; by eexists [_]).
  case_match; [|by apply IH in Hrun as [u ->]; exists (k :: u)].
  destruct (advance _ _ _). case_match.
  - destruct (flush_priority_unlocked ks _) as [[[r1 wb1] ss1] ks1] eqn:Ep. apply flush_priority_used in Ep as [u ->].
    assert (∃ used, ks1 = used ++ ks') as [u' ->].
    { destruct r1 as [[]|]; try (injection Hrun as <- <- <- <-; by exists []).
      destruct (flush_loop f ks1 wb1) as [[[r2 wb2] ss2] ks2] eqn:El. injection Hrun as <- <- <- <-. by eapply IH. }
    exists (k :: u ++ u'). cbn. by rewrite <- app_assoc.
  - destruct (flush_loop f ks _) as [[[r2 wb2] ss2] ks2] eqn:El. injection Hrun as <- <- <- <-.
    apply IH in El as [u ->]. by exists (k :: u).
Qed.

Lemma flush_used ks wb r wb' ss ks' : flush ks wb = (r, wb', ss, ks') → ∃ used, ks = used ++ ks'.
Proof. apply flush_loop_used. Qed.

Lemma write_used ks d wb res wb' ss ks' :
  write ks d wb = (Some res, wb', ss, ks') → ∃ used, ks = used ++ ks'.
Proof.
  assert (Hdirect : ∀ ks wb res wb' ss ks', write_direct ks d wb = (Some res, wb', ss, ks') → ∃ used, ks = used ++ ks').
  { intros [|[n| |] l] wb0 r wb1 s1 l1; cbn; try done; repeat case_match; intros [= <- <- <- <-]; by eexists [_]. }
  unfold write. destruct (chunks wb); [apply Hdirect|].
  destruct (flush_unlocked ks wb) as [[[[b|] wb1] ss1] ks1] eqn:Ef; [|done].
  apply flush_used in Ef as [u ->]. destruct (chunks wb1).
  - destruct (write_direct ks1 d wb1) as [[[r2 wb2] ss2] ks2] eqn:E. intros [= -> <- <- <-].
    destruct (Hdirect _ _ _ _ _ _ E) as [u' ->]. exists (u ++ u'). by rewrite <- app_assoc.
  - intros [= <- <- <- <-]. by exists u.
Qed.

Lemma run_carries ops : ∀ ks t t' ks' part D P,
  Forall op_ok ops → wf (t_buf t) → carries part (stream (t_segs t)) D P (t_buf t) → WErr ∉ ks →
  run ops ks t = Some (t', ks') → whole (t_segs t') →
  ∃ part', carries part' (stream (t_segs t')) (D ++ data_ops ops) (P ++ prio_ops ops) (t_buf t').
Proof.
  induction ops as [|o ops IH]; intros ks t t' ks' part D P Hok Hwf Hc Herr Hrun Hw.
  { injection Hrun as <- _. exists part. by rewrite !app_nil_r. }
  apply Forall_cons in Hok as [Hd Hok]. destruct o as [d|d|]; cbn [run] in Hrun.
  - destruct (write ks d (t_buf t)) as [[[[res|] wb] ss] ks1] eqn:E; [|done].
    destruct (run_segs _ _ _ _ _ Hrun) as (ss' & Hss). cbn in Hss.
    assert (Hws : whole ss) by (rewrite Hss, !whole_app in Hw; tauto).
    destruct (write_carries _ _ _ _ _ _ _ _ _ _ _ Hwf Hc Herr E Hws) as (part' & Hc').
    pose proof (write_spec _ _ _ false _ _ _ _ Hwf ltac:(done) Hd E) as (Hwf' & _).
    destruct (write_used _ _ _ _ _ _ _ E) as [u ->].
    apply (IH _ _ _ _ part' (D ++ [d]) P) in Hrun as (part2 & Hc2);
      [|done|done|cbn [t_segs t_buf]; by rewrite stream_app|set_solver|done].
    exists part2. by rewrite <- app_assoc in Hc2.
  - apply (IH _ _ _ _ part D (P ++ [d])) in Hrun as (part2 & Hc2);
      [|done|exact (proj1 (wf_write_priority _ _ Hwf Hd))|by apply priority_carries|done..].
    exists part2. by rewrite <- app_assoc in Hc2.
  - unfold flush in Hrun. pose proof (flush_spec ks (t_buf t) false Hwf ltac:(done)) as Hf.
    destruct (flush_unlocked ks (t_buf t)) as [[[[b|] wb] ss] ks1] eqn:E; [|done].
    destruct Hf as ([Hwf' _ _] & _ & _ & [u ->] & _).
    destruct (run_segs _ _ _ _ _ Hrun) as (ss' & Hss). cbn in Hss.
    assert (Hws : whole ss) by (rewrite Hss, !whole_app in Hw; tauto).
    destruct (flush_carries _ _ _ _ _ _ _ _ _ _ Hwf Hc E Hws) as (part' & Hc').
    apply (IH _ _ _ _ part' D P) in Hrun; [done|done|done|cbn [t_segs t_buf]; by rewrite stream_app|set_solver|done].
Qed.

End queues.

(** ** From one endpoint to the other *)

(** What an endpoint does with the writer of a connection: data frames are written, control
    and acknowledgement frames go to the priority queue, EPOLLOUT flushes. *)
Inductive use := UData (f : Frame.frame) | UPriority (f : Frame.frame) | UFlush.

Definition to_op (u : use) : op :=
  match u with
  | UData f => OpWrite (Frame.encode f)
  | UPriority f => OpPriority (Frame.encode f)
  | UFlush => OpFlush
  end.
Definition data_of (us : list use) : list Frame.frame :=
  omap (λ u, match u with UData f => Some f | _ => None end) us.
Definition priority_of (us : list use) : list Frame.frame :=
  omap (λ u, match u with UPriority f => Some f | _ => None end) us.

Lemma data_ops_of us : data_ops (map to_op us) = map Frame.encode (data_of us).
Proof. unfold data_ops, data_of. induction us as [|[f|f|] us IH]; cbn; [done|by f_equal|done..]. Qed.
Lemma prio_ops_of us : prio_ops (map to_op us) = map Frame.encode (priority_of us).
Proof. unfold prio_ops, priority_of. induction us as [|[f|f|] us IH]; cbn; [done|done|by f_equal|done]. Qed.

Lemma map_snoc_inv {A B} (g : A → B) l bs b :
  map g l = bs ++ [b] → ∃ l0 a, l = l0 ++ [a] ∧ map g l0 = bs ∧ g a = b.
Proof.
  intros (l0 & l1 & -> & E & Hb)%map_eq_app. destruct l1 as [|a [|]]; try done.
  injection Hb as Hb. eauto.
Qed.

Lemma interleave_map {A B} (g : A → B) bd bp bs : interleave bd bp bs → ∀ ds ps,
  map g ds = bd → map g ps = bp → ∃ fs, map g fs = bs ∧ interleave ds ps fs.
Proof.
  induction 1 as [|bd bp bs b _ IH|bd bp bs b _ IH]; intros ds ps Hd Hp.
  - apply map_eq_nil in Hd as ->. apply map_eq_nil in Hp as ->. exists []. split; [done|constructor].
  - apply map_snoc_inv in Hd as (ds0 & a & -> & Hd & Ha). destruct (IH ds0 ps Hd Hp) as (fs & Hfs & Hil).
    exists (fs ++ [a]). rewrite map_app, Hfs, <- Ha. split; [done|by constructor].
  - apply map_snoc_inv in Hp as (ps0 & a & -> & Hp & Ha). destruct (IH ds ps0 Hd Hp) as (fs & Hfs & Hil).
    exists (fs ++ [a]). rewrite map_app, Hfs, <- Ha. split; [done|by constructor].
Qed.

Lemma interleave_Forall {A} (Q : A → Prop) ds ps fs :
  interleave ds ps fs → Forall Q ds → Forall Q ps → Forall Q fs.
Proof. induction 1; rewrite ?Forall_app; tauto. Qed.

Lemma carries_start : carries [] [] [] [] new_buffer.
Proof. exists [], [], []. split_and!; try done. constructor. Qed.

Lemma frame_encode_nonempty sd f : Frame.frame_ok sd f → Frame.encode f ≠ [].
Proof.
  intros Hf. rewrite (Frame.encode_shape sd f Hf). unfold Frame.with_len. by intros [_ ?]%app_eq_nil.
Qed.

Lemma uses_ok sd us : Forall (Frame.frame_ok sd) (data_of us ++ priority_of us) → Forall op_ok (map to_op us).
Proof.
  rewrite Forall_app. unfold data_of, priority_of.
  induction us as [|[f|f|] us IH]; cbn; [done|..|by intros [? ?]; constructor; [|apply IH]].
  - intros [[Hf ?]%Forall_cons ?]. constructor; [by eapply frame_encode_nonempty|by apply IH].
  - intros [? [Hf ?]%Forall_cons]. constructor; [by eapply frame_encode_nonempty|by apply IH].
Qed.

(** [C13] A connection carries frames: those of the data queue in their order, those of the
    priority queue in theirs. Whatever an endpoint does with the writer of a connection,
    and however the socket takes the bytes (short writes, EAGAIN), once the writer is empty
    the peer's reader, given the bytes in any blocks, delivers exactly the frames handed to
    the writer, data and priority frames interleaved in some way; provided that the
    connection has no error and takes each priority frame in one piece. (Without the last
    condition it fails: [WB.data_splits_priority].) *)
Theorem connection_carries_frames (sd : Frame.side) (us : list use) (ks ks' : list wres) (t : trace)
    (rb : Frame.RBuf) (blocks : list bytes)
    (Hok : Forall (Frame.frame_ok sd) (data_of us ++ priority_of us))
    (Hrun : run (map to_op us) ks start = Some (t, ks')) (Herr : WErr ∉ ks)
    (Hwhole : whole (t_segs t)) (Hempty : WB.empty (t_buf t) = true)
    (Hrb : Frame.read_offset rb = length (Frame.read_buf rb))
    (Hblocks : concat blocks = stream (t_segs t)) :
  ∃ fs rb', Frame.feed sd rb blocks = Some (fs, rb') ∧ Frame.unread rb' = []
    ∧ interleave (data_of us) (priority_of us) fs.
Proof.
  pose proof (uses_ok sd us Hok) as Hops. destruct start_inv as (Hwf & _).
  destruct (run_carries _ _ _ _ _ [] [] [] Hops Hwf carries_start Herr Hrun Hwhole) as
    (part & bs & ds & ps & Hil & Hout & Hp & _ & Hd).
  unfold WB.empty in Hempty. destruct (chunks (t_buf t)), (priority_chunks (t_buf t)); try done.
  destruct Hd as [Hd ->]. rewrite app_nil_r in Hp, Hout. cbn [app] in Hd, Hp.
  rewrite data_ops_of in Hd. rewrite prio_ops_of in Hp.
  destruct (interleave_map Frame.encode _ _ _ Hil _ _ Hd Hp) as (fs & <- & Hfs).
  apply Forall_app in Hok as [Hokd Hokp].
  destruct (Frame.feed_segmentation sd rb fs blocks) as (rb' & Hfeed & Hu); [by eapply interleave_Forall|done|congruence|].
  by exists fs, rb'.
Qed.

(** A control frame and two data frames through a socket that takes few bytes at a time. *)
Definition demo_uses : list use :=
  [UData (Frame.FData 0 [7; 7]); UPriority (Frame.FControl 3 [1]); UData (Frame.FData 1 [8]); UFlush; UFlush].
Definition demo_ks : list wres := [WWrote 3; WWrote 2; WWrote 1; WWrote 9; WWrote 2; WAgain; WWrote 3; WWrote 9].
Definition demo_blocks : list bytes :=
  match run (map to_op demo_uses) demo_ks start with
  | Some (t, _) => map (λ b, [b]) (stream (t_segs t))
  | None => []
  end.

Lemma connection_carries_frames_witness :
  ∃ fs rb', Frame.feed Frame.Server (Frame.mkRBuf [] 0) demo_blocks = Some (fs, rb') ∧ Frame.unread rb' = []
    ∧ interleave [Frame.FData 0 [7; 7]; Frame.FData 1 [8]] [Frame.FControl 3 [1]] fs.
Proof.
  destruct (run (map to_op demo_uses) demo_ks start) as [[t ks]|] eqn:E; [|vm_compute in E; discriminate].
  apply (connection_carries_frames Frame.Server demo_uses demo_ks ks t (Frame.mkRBuf [] 0) demo_blocks).
  - repeat constructor; done.
  - exact E.
  - set_solver.
  - vm_compute in E. injection E as <- _. repeat constructor; done.
  - vm_compute in E. injection E as <- _. reflexivity.
  - reflexivity.
  - unfold demo_blocks. rewrite E. apply Frame.concat_byte_blocks.
Defined.

End Connection.
