(* ===== verification/Ledger.v ===== *)
(** * Bytes handed to a connection

    Both endpoints keep connections in a map, each with its descriptor and its write buffer,
    and write to descriptors in between. This file follows the bytes handed to one of them,
    whichever endpoint it is: they are on its socket or in its buffer, in order. *)

From S2P Require Import Prelude WriteBuffer Connection.
Local Open Scope Z_scope.

Module Ledger.

(** The connections with their descriptors and writers, the descriptors of everything else
    that is written to, and what the writes put on descriptors. *)
Record t := mk {
  conns : gmap Z (Z * WB.WriteBuffer);
  others : list Z;
  outs : list (Z * list WB.seg)
}.

Definition sent_to (fd' : Z) (l : list (Z * list WB.seg)) : bytes :=
  concat (map (λ e, if e.1 =? fd' then WB.out_of false e.2 else []) l).

Lemma sent_to_snoc fd' l f ss :
  sent_to fd' (l ++ [(f, ss)]) = sent_to fd' l ++ if f =? fd' then WB.out_of false ss else [].
Proof. unfold sent_to. rewrite map_app, concat_app. cbn. by rewrite app_nil_r. Qed.

Section ledger.
(** One connection, and the socket that only it uses. *)
Context (cid cfd : Z).

(** All of [acc] is on the socket or waits in the connection's writer. *)
Definition holds (acc : bytes) (L : t) : Prop :=
  (∃ wb, conns L !! cid = Some (cfd, wb) ∧ WB.wf wb ∧ sent_to cfd (outs L) ++ WB.data_pending wb = acc)
  ∧ (∀ c wb, conns L !! c = Some (cfd, wb) → c = cid)
  ∧ Forall (λ f, f ≠ cfd) (others L).

(** A writer was used on connection [c], whose stream gained [d]. *)
Lemma holds_used acc m o l c f wb wb' ss d :
  holds acc (mk m o l) → m !! c = Some (f, wb) →
  (c = cid → WB.wf wb' ∧ WB.out_of false ss ++ WB.data_pending wb' = WB.data_pending wb ++ d) →
  holds (acc ++ if c =? cid then d else []) (mk (<[c := (f, wb')]> m) o (l ++ [(f, ss)])).
Proof.
  intros ((wb0 & H0 & Hwf & Hacc) & Hu & Ho) Hc Hw. cbn [conns outs others] in *. split_and!; [| |done]; cbn [conns outs].
  - rewrite sent_to_snoc. destruct (Z.eqb_spec c cid) as [->|Hne].
    + rewrite H0 in Hc. injection Hc as <- <-. destruct (Hw eq_refl) as [Hwf' Hd]. exists wb'.
      rewrite lookup_insert_eq. split_and!; [done|done|].
      by rewrite Z.eqb_refl, <- app_assoc, Hd, app_assoc, Hacc.
    + exists wb0. rewrite lookup_insert_ne by done. split_and!; [done|done|].
      destruct (Z.eqb_spec f cfd) as [->|]; [by destruct Hne; eapply Hu|]. by rewrite !app_nil_r.
  - intros c' wb1 [[<- [= -> _]]|[_ H1]]%lookup_insert_Some; by eapply Hu.
Qed.

(** A buffer changed without anything of its stream being written. *)
Lemma holds_writer acc m o l c f wb wb' :
  holds acc (mk m o l) → m !! c = Some (f, wb) →
  (WB.wf wb → WB.wf wb') → WB.data_pending wb' = WB.data_pending wb →
  holds acc (mk (<[c := (f, wb')]> m) o l).
Proof.
  intros ((wb0 & H0 & Hwf & Hacc) & Hu & Ho) Hc Hw Hd. cbn [conns outs others] in *. split_and!; [| |done]; cbn [conns outs].
  - destruct (decide (c = cid)) as [->|Hne].
    + rewrite H0 in Hc. injection Hc as <- <-. exists wb'. rewrite lookup_insert_eq, Hd. auto.
    + exists wb0. by rewrite lookup_insert_ne.
  - intros c' wb1 [[<- [= -> _]]|[_ H1]]%lookup_insert_Some; by eapply Hu.
Qed.

Lemma holds_out acc m o l f ss : f ≠ cfd → holds acc (mk m o l) → holds acc (mk m o (l ++ [(f, ss)])).
Proof.
  intros Hf ((wb & Hc & Hwf & Hacc) & Hrest). split; [|done]. exists wb. cbn [conns outs others] in *. split_and!; [done|done|].
  rewrite sent_to_snoc. by rewrite (proj2 (Z.eqb_neq _ _) Hf), app_nil_r.
Qed.

Lemma holds_erase acc m o l c : c ≠ cid → holds acc (mk m o l) → holds acc (mk (delete c m) o l).
Proof.
  intros Hne ((wb & Hc & Hwf & Hacc) & Hu & Ho). cbn [conns outs others] in *. split_and!; [| |done]; cbn [conns].
  - exists wb. by rewrite lookup_delete_ne.
  - intros c' wb' [_ Hc']%lookup_delete_Some. by eapply Hu.
Qed.

(** [WriteBuffer::write] on a connection; the system reports no hard error. *)
Lemma holds_write acc m o l c f wb ks d res wb' ss ks' :
  holds acc (mk m o l) → m !! c = Some (f, wb) → d ≠ [] → WB.WErr ∉ ks →
  WB.write ks d wb = (Some res, wb', ss, ks') →
  holds (acc ++ if c =? cid then d else []) (mk (<[c := (f, wb')]> m) o (l ++ [(f, ss)])).
Proof.
  intros Hh Hc Hd Herr Hw. eapply holds_used; [done|done|]. intros ->.
  destruct Hh as ((wb0 & H0 & Hwf & _) & _). cbn in H0. rewrite Hc in H0. injection H0 as -> <-.
  pose proof (WB.write_spec _ _ _ false _ _ _ _ Hwf ltac:(done) Hd Hw) as (Hwf' & _ & _ & Hout & _).
  split; [done|]. rewrite Hout. f_equal. unfold WB.taken. case_match; [|done].
  assert (res = -1) as -> by lia. destruct Herr. eapply Connection.write_error; [exact Hwf|exact Hw].
Qed.

Lemma holds_flush acc m o l c f wb ks b wb' ss ks' :
  holds acc (mk m o l) → m !! c = Some (f, wb) →
  WB.flush ks wb = (WB.Ret b, wb', ss, ks') →
  holds acc (mk (<[c := (f, wb')]> m) o (l ++ [(f, ss)])).
Proof.
  intros Hh Hc Hf. rewrite <- (app_nil_r acc).
  replace (@nil Z) with (if c =? cid then @nil Z else []) at 1 by (by case_match).
  eapply holds_used; [done|done|]. intros ->.
  destruct Hh as ((wb0 & H0 & Hwf & _) & _). cbn in H0. rewrite Hc in H0. injection H0 as -> <-.
  pose proof (WB.flush_spec ks wb false Hwf ltac:(done)) as Hp. unfold WB.flush in Hf. rewrite Hf in Hp.
  destruct Hp as ([Hwf' Hd _] & _). by rewrite app_nil_r.
Qed.

(** A connection that was just made. *)
Lemma holds_new m o l :
  m !! cid = Some (cfd, WB.new_buffer) → (∀ c wb, m !! c = Some (cfd, wb) → c = cid) →
  Forall (λ f, f ≠ cfd) o → holds (sent_to cfd l) (mk m o l).
Proof.
  intros Hc Hu Ho. split_and!; [|done|done]. exists WB.new_buffer.
  split_and!; [done|apply WB.start_inv|apply app_nil_r].
Qed.

End ledger.

(** What a packet that leaves a chain on the application's side has for connection [cid]:
    the first byte is the connection, 255 marks a control packet. *)
Definition payload_of (cid : Z) (p : bytes) : bytes :=
  match p with
  | 255 :: _ | [] => []
  | c :: d => if c =? cid then d else []
  end.
Definition has_payload (p : bytes) : Prop := match p with [] => True | _ :: d => d ≠ [] end.

(** ** Connections kept with other data *)

Section project.
Context {A : Type} (p : A → Z * WB.WriteBuffer).

Lemma fmap_alter_writer (m : gmap Z A) c f a :
  m !! c = Some a → p <$> alter f c m = <[c := p (f a)]> (p <$> m).
Proof.
  intros Ha. apply map_eq. intros j. rewrite lookup_fmap, lookup_alter, lookup_insert, lookup_fmap.
  case_decide; [subst j; by rewrite Ha|done].
Qed.

Lemma fmap_alter_none (m : gmap Z A) c f : m !! c = None → p <$> alter f c m = p <$> m.
Proof.
  intros Ha. apply map_eq. intros j. rewrite !lookup_fmap, lookup_alter.
  case_decide; [subst j; by rewrite Ha|done].
Qed.

(** What an endpoint does to a connection without writing. *)
Lemma holds_alter cid cfd acc (m : gmap Z A) o l c f :
  holds cid cfd acc (mk (p <$> m) o l) →
  (∀ a, m !! c = Some a → (p (f a)).1 = (p a).1 ∧ (WB.wf (p a).2 → WB.wf (p (f a)).2)
                          ∧ WB.data_pending (p (f a)).2 = WB.data_pending (p a).2) →
  holds cid cfd acc (mk (p <$> alter f c m) o l).
Proof.
  intros Hh Hf. destruct (m !! c) as [a|] eqn:Ha; [|by rewrite fmap_alter_none].
  destruct (Hf a eq_refl) as (H1 & H2 & H3). rewrite (fmap_alter_writer m c f a Ha).
  destruct (p (f a)) as [x wb'] eqn:E. cbn in *. subst x. destruct (p a) as [x wb] eqn:E'. cbn in *.
  eapply holds_writer; [done| |done|done]. rewrite lookup_fmap, Ha. cbn. by rewrite E'.
Qed.

End project.
End Ledger.
