(* ===== verification/Control.v ===== *)
(** * Control messages (send_control, deliver_control, process_wire_buffer)

    Both sides number their control messages with one byte and deal them round-robin to
    the data connections; the receiver puts them back in order with a table of 256 slots.
    [process_wire_buffer] handles the bytes that arrived behind the last authentication
    message. *)

From S2P Require Import Prelude Protocol Frame.
Local Open Scope Z_scope.

Module Control.
Import Frame.

(** ** Numbering and dealing *)

(** [control_seq_] and [control_rr_counter_] after one message; the counter is an [int]
    that wraps (fetch_add on a two's-complement atomic). *)
Record Sender := mkSender { control_seq : Z; control_rr : Z }.

Definition int32 (z : Z) : Z := (z + 2 ^ 31) mod 2 ^ 32 - 2 ^ 31.

(** The connection [send_control] picks among the descriptors [fds]: the first open one
    from [start] on, [None] when it finds none. [start + i] is computed in [size_t]. *)
Definition pick_from (fds : list Z) (start : Z) (i : nat) : option nat :=
  let idx := Z.to_nat (u64 (start + Z.of_nat i) mod Z.of_nat (length fds)) in
  fd ← fds !! idx;
  if fd <? 0 then None else Some idx.

Fixpoint first_some {A} (l : list (option A)) : option A :=
  match l with [] => None | Some x :: _ => Some x | None :: r => first_some r end.

Definition pick_connection (fds : list Z) (start : Z) : option nat :=
  first_some (map (pick_from fds start) (seq 0 (length fds))).

(** [send_control]: the new counters, and the connection and frame to queue there with
    priority, if any connection is open. *)
Definition send_control (s : Sender) (fds : list Z) (pkt : Packet)
    : Sender * option (nat * bytes) :=
  let frame := control_frame (control_seq s) pkt in
  let seq' := u8 (control_seq s + 1) in
  match fds with
  | [] => (mkSender seq' (control_rr s), None)
  | _ =>
      let start := Z.rem (control_rr s) (Z.of_nat (length fds)) in
      (mkSender seq' (int32 (control_rr s + 1)),
       (λ idx, (idx, frame)) <$> pick_connection fds start)
  end.

(** Messages sent one after the other, each with the descriptors of that moment. *)
Fixpoint send_all (s : Sender) (l : list (list Z * Packet)) : Sender * list (option (nat * bytes)) :=
  match l with
  | [] => (s, [])
  | (fds, pkt) :: rest =>
      let '(s1, o) := send_control s fds pkt in
      let '(s2, os) := send_all s1 rest in (s2, o :: os)
  end.

(** ** Putting them back in order *)

(** [exp_control_seq_], and [pending_control_] where [pending_control_valid_] is set. *)
Record Reorder := mkReorder { exp_control_seq : Z; pending_control : gmap Z Packet }.

Definition new_reorder : Reorder := mkReorder 0 ∅.

(** The [while (pending_control_valid_[exp_control_seq_])] loop; each round clears one of
    256 flags. The list is the arguments of [apply_control], in order. *)
Fixpoint drain (fuel : nat) (r : Reorder) : Reorder * list Packet :=
  match fuel with
  | O => (r, [])
  | S k =>
      match pending_control r !! exp_control_seq r with
      | Some pkt =>
          let r' := mkReorder (u8 (exp_control_seq r + 1))
                              (delete (exp_control_seq r) (pending_control r)) in
          let '(r'', ps) := drain k r' in (r'', pkt :: ps)
      | None => (r, [])
      end
  end.

Definition deliver_control (r : Reorder) (seq : Z) (pkt : Packet) : Reorder * list Packet :=
  if seq =? exp_control_seq r then
    let '(r', ps) := drain 256 (mkReorder (u8 (exp_control_seq r + 1)) (pending_control r)) in
    (r', pkt :: ps)
  else (mkReorder (exp_control_seq r) (<[seq := pkt]> (pending_control r)), []).

Fixpoint deliver_all (r : Reorder) (l : list (Z * Packet)) : Reorder * list Packet :=
  match l with
  | [] => (r, [])
  | (s, p) :: rest =>
      let '(r1, ps) := deliver_control r s p in
      let '(r2, ps') := deliver_all r1 rest in (r2, ps ++ ps')
  end.

(** What the reader of a data connection does with one frame, as far as control messages are
    concerned. *)
Definition receive (sd : side) (r : Reorder) (bs : bytes) : Reorder * list Packet :=
  match reader_step sd bs with
  | RFrame (FControl recv_seq proto) _ =>
      match try_parse proto with
      | ParseOk pkt consumed => if 0 <? consumed then deliver_control r recv_seq pkt else (r, [])
      | _ => (r, [])
      end
  | _ => (r, [])
  end.

Fixpoint receive_all (sd : side) (r : Reorder) (l : list bytes) : Reorder * list Packet :=
  match l with
  | [] => (r, [])
  | bs :: rest =>
      let '(r1, ps) := receive sd r bs in
      let '(r2, ps') := receive_all sd r1 rest in (r2, ps ++ ps')
  end.

(** ** Bytes behind the last authentication message *)

(** What [process_wire_buffer] hands on: control packets (without their number), data
    blocks, and (server) half-closes. *)
Inductive leftover :=
| LControl (pkt : Packet)
| LData (payload : bytes)
| LShutdownWr (cid : Z).

#[export] Instance leftover_eq_dec : EqDecision leftover.
Proof. solve_decision. Defined.

(** One frame of [process_wire_buffer]: nothing (skip), something, or [None] when the
    inner parser leaves defined behaviour. *)
Definition wire_item (sd : side) (ty : Z) (body : bytes) : option (list leftover) :=
  if ty =? WIRE_CONTROL then
    match body with
    | _ :: proto =>
        match try_parse proto with
        | ParseOk pkt total => Some (if 0 <? total then [LControl pkt] else [])
        | ParseNone => Some []
        | ParseUndefined => None
        end
    | [] => Some []
    end
  else if (ty =? WIRE_SHUTDOWN_WR) && (if sd is Server then true else false) then
    match body with cid :: _ => Some [LShutdownWr cid] | [] => Some [] end
  else if ty =? WIRE_DATA then
    Some (match body with [] => [] | _ => [LData body] end)
  else Some [].

(** [dispatch_data_conn_packet] ignores an empty block, so an empty body gives nothing.
    The loop stops at the first incomplete frame; [recv_buf_] is cleared afterwards. *)
Fixpoint process_wire_buffer (fuel : nat) (sd : side) (data : bytes) : option (list leftover) :=
  match fuel with
  | O => Some []
  | S k =>
      if (length data =? 0)%nat then Some [] else
      let '(val, shift, pos) := read_len data in
      if (10 <=? pos)%nat || (56 <=? shift) then Some [] else
      if (Z.of_nat (length data) <? Z.of_nat pos + val) || (val <? 1) then Some [] else
      match drop pos data with
      | ty :: rest =>
          items ← wire_item sd ty (take (Z.to_nat (val - 1)) rest);
          more ← process_wire_buffer k sd (drop (Z.to_nat (val - 1)) rest);
          Some (items ++ more)
      | [] => Some []
      end
  end.

(** ** Order *)

(** Messages numbered from [e]. *)
Definition number (e : Z) (i : nat) : Z := u8 (e + Z.of_nat i).
Definition numbered (e : Z) (pkts : list Packet) : list (Z * Packet) :=
  imap (λ i p, (number e i, p)) pkts.

(** The [i]-th message. *)
Definition message (e : Z) (pkts : list Packet) (i : nat) : Z * Packet :=
  (number e i, default (mkPacket 0 []) (pkts !! i)).

Section order.
Context (e : Z) (pkts : list Packet).
Context (He : 0 <= e < 256).

Lemma number_inj i j : (i < j + 256)%nat → (j < i + 256)%nat → number e i = number e j → i = j.
Proof. unfold number. intros. zlia. Qed.

Lemma number_succ j : u8 (number e j + 1) = number e (S j).
Proof. unfold number. zlia. Qed.

(** After the messages with indices [R], [j] of them were applied. *)
Record inv (R : list nat) (j : nat) (r : Reorder) (out : list Packet) : Prop := {
  inv_le : (j <= length pkts)%nat;
  inv_exp : exp_control_seq r = number e j;
  inv_out : out = take j pkts;
  inv_seen : ∀ i, (i < j)%nat → i ∈ R;
  inv_near : ∀ i, i ∈ R → (i < j + 256)%nat;
  inv_pending : ∀ k p, pending_control r !! k = Some p
    ↔ ∃ i, i ∈ R ∧ (j <= i)%nat ∧ k = number e i ∧ pkts !! i = Some p
}.

Lemma inv_head R j r out p :
  inv R j r out → pending_control r !! exp_control_seq r = Some p →
  j ∈ R ∧ pkts !! j = Some p.
Proof.
  intros [H1 H2 H3 H4 Hnear H5] Hp. rewrite H2 in Hp. apply H5 in Hp as (i & Hi & Hji & E & Hpi).
  specialize (Hnear _ Hi). apply number_inj in E; [by subst|lia|lia].
Qed.

(** Applying the next message. *)
Lemma inv_apply R j r out p :
  inv R j r out → j ∈ R → pkts !! j = Some p →
  inv R (S j) (mkReorder (u8 (exp_control_seq r + 1))
                         (delete (exp_control_seq r) (pending_control r))) (out ++ [p]).
Proof.
  intros [H1 H2 H3 H4 Hnear H5] HR Hp. apply lookup_lt_Some in Hp as Hlt.
  constructor; cbn [exp_control_seq pending_control].
  - lia.
  - by rewrite H2, number_succ.
  - by rewrite (take_S_r _ _ _ Hp), H3.
  - intros i Hi. destruct (decide (i = j)) as [->|]; [done|]. apply H4. lia.
  - intros i Hi. specialize (Hnear _ Hi). lia.
  - intros k q. rewrite lookup_delete_Some, H5, H2. split.
    + intros (Hne & i & Hi & Hji & -> & Hq). exists i. split_and!; try done.
      destruct (decide (i = j)) as [->|]; [done|lia].
    + intros (i & Hi & Hji & -> & Hq). specialize (Hnear _ Hi). split.
      * intros E. apply number_inj in E; lia.
      * exists i. split_and!; try done. lia.
Qed.

Lemma drain_spec fuel : ∀ R j r out,
  inv R j r out → (∀ i, i ∈ R → (i < j + fuel)%nat) →
  ∃ j', inv R j' (drain fuel r).1 (out ++ (drain fuel r).2)
        ∧ pending_control (drain fuel r).1 !! exp_control_seq (drain fuel r).1 = None.
Proof.
  induction fuel as [|k IH]; intros R j r out Hi Hf; cbn [drain].
  { exists j. cbn [fst snd]. rewrite app_nil_r. split; [done|].
    destruct (pending_control r !! _) as [p|] eqn:E; [|done].
    destruct (inv_head _ _ _ _ _ Hi E) as [HR _]. specialize (Hf _ HR). lia. }
  destruct (pending_control r !! exp_control_seq r) as [p|] eqn:E.
  2: { exists j. cbn [fst snd]. by rewrite app_nil_r. }
  destruct (inv_head _ _ _ _ _ Hi E) as [HR Hp].
  pose proof (inv_apply _ _ _ _ _ Hi HR Hp) as Hi'.
  destruct (IH _ _ _ _ Hi') as (j' & Hj' & Hn); [intros i HiR; specialize (Hf _ HiR); lia|].
  destruct (drain k _) as [r' ps]. cbn [fst snd] in *. exists j'. split; [|done].
  by rewrite <- (assoc_L (++)) in Hj'.
Qed.

Lemma deliver_spec R j r out i p :
  inv R j r out → pending_control r !! exp_control_seq r = None →
  i ∉ R → pkts !! i = Some p → (∀ k, (k + 256 <= i)%nat → k ∈ R) →
  ∃ j', inv (i :: R) j' (deliver_control r (number e i) p).1
            (out ++ (deliver_control r (number e i) p).2)
        ∧ pending_control (deliver_control r (number e i) p).1
            !! exp_control_seq (deliver_control r (number e i) p).1 = None.
Proof.
  intros Hi Hn HiR Hp Hwin. unfold deliver_control. apply lookup_lt_Some in Hp as Hlt.
  assert (j <= i)%nat as Hji.
  { destruct (decide (i < j)%nat); [|lia]. destruct HiR. by eapply inv_seen. }
  assert (i < j + 256)%nat as Hij.
  { destruct (decide (j + 256 <= i)%nat) as [Hfar|]; [|lia]. specialize (Hwin j Hfar).
    destruct (lookup_lt_is_Some_2 pkts j) as [q Hq]; [lia|]. pose proof Hi as [_ H2 _ _ _ H5].
    assert (pending_control r !! exp_control_seq r = Some q); [|congruence]. rewrite H5, H2. by exists j. }
  rewrite (inv_exp _ _ _ _ Hi) in *. destruct (Z.eqb_spec (number e i) (number e j)) as [E|E].
  - apply number_inj in E as ->; [|lia|lia].
    assert (inv (j :: R) (S j) (mkReorder (u8 (number e j + 1)) (pending_control r)) (out ++ [p]))
      as Hi'.
    { pose proof Hi as [H1 H2 H3 H4 Hnear H5]. constructor; cbn [exp_control_seq pending_control].
      - lia.
      - apply number_succ.
      - by rewrite (take_S_r _ _ _ Hp), H3.
      - intros i' Hi'. destruct (decide (i' = j)) as [->|]; [by left|]. right. apply H4. lia.
      - intros i' [->|Hi']%elem_of_cons; [lia|]. specialize (Hnear _ Hi'). lia.
      - intros k q. rewrite H5. split.
        + intros (i' & Hi' & Hji' & -> & Hq). exists i'. split_and!; try done; [by right|].
          destruct (decide (i' = j)) as [->|]; [done|lia].
        + intros (i' & Hi' & Hji' & -> & Hq). exists i'. split_and!; try done; [|lia].
          apply elem_of_cons in Hi' as [->|]; [lia|done]. }
    destruct (drain_spec 256 _ _ _ _ Hi') as (j' & Hj' & Hn'); [apply (inv_near _ _ _ _ Hi')|].
    destruct (drain 256 _) as [r' ps]. cbn [fst snd] in *. exists j'. split; [|done].
    by rewrite <- (assoc_L (++)) in Hj'.
  - exists j. cbn [fst snd exp_control_seq pending_control]. rewrite app_nil_r.
    rewrite lookup_insert_ne by done. split; [|done].
    pose proof Hi as [H1 H2 H3 H4 Hnear H5]. constructor; cbn [exp_control_seq pending_control]; try done.
    + intros i' Hi'. right. by apply H4.
    + intros i' [->|Hi']%elem_of_cons; [lia|by apply Hnear].
    + intros k q. destruct (decide (k = number e i)) as [->|Hne].
      * rewrite lookup_insert_eq. split.
        -- intros [= <-]. exists i. split_and!; try done. by left.
        -- intros (i' & Hi' & Hji' & E' & Hq). apply elem_of_cons in Hi' as [->|Hi']; [congruence|].
           specialize (Hnear _ Hi'). apply number_inj in E'; [|lia|lia]. subst. congruence.
      * rewrite lookup_insert_ne by done. rewrite H5.
        split; intros (i' & Hi' & ? & ? & ?); exists i'; split_and!; try done; [by right|].
        apply elem_of_cons in Hi' as [->|]; [done|done].
Qed.

Lemma deliver_all_spec is_ : ∀ R j r out,
  inv R j r out → pending_control r !! exp_control_seq r = None →
  NoDup (is_ ++ R) → Forall (λ i, (i < length pkts)%nat) is_ →
  (∀ pre i post k, is_ = pre ++ i :: post → (k + 256 <= i)%nat → k ∈ pre ∨ k ∈ R) →
  ∃ j', let res := deliver_all r (map (message e pkts) is_) in
        inv (reverse is_ ++ R) j' res.1 (out ++ res.2)
        ∧ pending_control res.1 !! exp_control_seq res.1 = None.
Proof.
  induction is_ as [|i is_ IH]; intros R j r out Hi Hn Hnd Hf Hwin.
  { exists j. cbn. by rewrite app_nil_r. }
  apply Forall_cons in Hf as [Hlt Hf]. destruct (lookup_lt_is_Some_2 _ _ Hlt) as [p Hp].
  cbn [app] in Hnd. apply NoDup_cons in Hnd as [HiR Hnd].
  destruct (deliver_spec R j r out i p Hi Hn) as (j1 & Hi1 & Hn1); [|done| |].
  { intros HR. apply HiR. apply elem_of_app. by right. }
  { intros k Hk. by destruct (Hwin [] i is_ k eq_refl Hk) as [?%elem_of_nil|]. }
  assert (message e pkts i = (number e i, p)) as Hmsg by (unfold message; by rewrite Hp).
  cbn [map]. rewrite Hmsg. cbn [deliver_all].
  destruct (deliver_control r (number e i) p) as [r1 ps]. cbn [fst snd] in *.
  destruct (IH (i :: R) j1 r1 _ Hi1 Hn1) as (j2 & Hi2 & Hn2); [|done| |].
  { apply NoDup_app. apply NoDup_app in Hnd as (H1 & H2 & H3).
    split_and!; [done| |].
    - intros x Hx. apply not_elem_of_cons. split; [|by apply H2].
      intros ->. apply HiR, elem_of_app. by left.
    - apply NoDup_cons. split; [|done]. intros HR. apply HiR, elem_of_app. by right. }
  { intros pre i' post k -> Hk. destruct (Hwin (i :: pre) i' post k eq_refl Hk) as [[->|?]%elem_of_cons|?]; [right; by left|by left|].
    right. by right. }
  exists j2. destruct (deliver_all r1 _) as [r2 ps']. cbn [fst snd] in *. split; [|done].
  by rewrite reverse_cons, <- !(assoc_L (++)) in *.
Qed.

End order.

Lemma numbered_map e pkts : numbered e pkts = map (message e pkts) (seq 0 (length pkts)).
Proof.
  apply list_eq. intros i. unfold numbered. rewrite list_lookup_imap.
  change (map ?f ?l) with (f <$> l). rewrite list_lookup_fmap.
  destruct (decide (i < length pkts)%nat) as [Hi|Hi].
  - rewrite lookup_seq_lt by done. simpl. unfold message.
    destruct (lookup_lt_is_Some_2 _ _ Hi) as [p ->]. done.
  - rewrite lookup_seq_ge, lookup_ge_None_2 by lia. done.
Qed.

(** No message overtakes [w] or more others: when the message with index [i] arrives, those
    that were sent [w] or more before it are there. *)
Definition within (w : nat) (arrive : list nat) : Prop :=
  ∀ pre i post k, arrive = pre ++ i :: post → (k + w <= i)%nat → k ∈ pre.

Lemma deliver_all_in_order e pkts arrive : 0 <= e < 256 →
  arrive ≡ₚ seq 0 (length pkts) → within 256 arrive →
  deliver_all (mkReorder e ∅) (map (message e pkts) arrive) = (mkReorder (number e (length pkts)) ∅, pkts).
Proof.
  intros He Hp Hw.
  destruct (deliver_all_spec e pkts He arrive [] 0 (mkReorder e ∅) []) as (j & Hi & Hn).
  - constructor; cbn [exp_control_seq pending_control]; try done; [lia|unfold number; zlia|intros i Hi; lia| |].
    + by intros i ?%elem_of_nil.
    + intros k p. rewrite lookup_empty. split; [done|]. by intros (i & ?%elem_of_nil & _).
  - apply lookup_empty.
  - rewrite app_nil_r, Hp. apply NoDup_seq.
  - rewrite Hp. apply Forall_forall. intros i Hi%elem_of_seq. lia.
  - intros pre i post k E Hk. left. by apply (Hw pre i post).
  - cbv zeta in Hi, Hn. destruct (deliver_all _ _) as [r ps]. cbn [fst snd] in *.
    destruct Hi as [H1 H2 H3 H4 _ H5]. rewrite app_nil_r in *.
    assert (∀ i, (i < length pkts)%nat → i ∈ reverse arrive) as Hall.
    { intros i Hi. rewrite elem_of_reverse, Hp. apply elem_of_seq. lia. }
    assert (j = length pkts) as ->.
    { destruct (decide (j = length pkts)) as [|Hne]; [done|exfalso].
      destruct (lookup_lt_is_Some_2 pkts j) as [p Hj]; [lia|].
      assert (pending_control r !! exp_control_seq r = Some p); [|congruence].
      rewrite H5, H2. exists j. split_and!; try done. apply Hall. lia. }
    cbn [app] in H3. rewrite H3, take_ge by done. f_equal.
    destruct r as [x m]. cbn [exp_control_seq pending_control] in *. subst x. f_equal.
    apply map_eq. intros k. rewrite lookup_empty. destruct (m !! k) as [p|] eqn:E; [|done].
    apply H5 in E as (i & _ & Hi & _ & Hpi). apply lookup_lt_Some in Hpi. lia.
Qed.

(** What a control message may be: a packet whose frame's length fits the reader's varint. *)
Definition control_ok (pkt : Packet) : Prop := packet_ok pkt ∧ Z.of_nat (length (serialize pkt)) < 2 ^ 55.

Lemma receive_control sd r seq pkt : control_ok pkt → receive sd r (control_frame seq pkt) = deliver_control r seq pkt.
Proof.
  intros [Hok Hl]. unfold receive. rewrite encode_control. rewrite <- (app_nil_r (encode _)), reader_step_encode.
  2: { cbn [frame_ok]. lia. }
  pose proof (try_parse_header pkt (payload pkt) Hok) as Hps. rewrite <- serialize_header in Hps. rewrite Hps.
  rewrite Nat.ltb_irrefl, take_ge by done. rewrite (proj2 (Z.ltb_lt 0 _)); [by destruct pkt|].
  rewrite serialize_length. pose proof (header_length pkt Hok). lia.
Qed.

Lemma receive_all_controls sd e pkts is_ : ∀ r,
  Forall control_ok pkts → Forall (λ i, (i < length pkts)%nat) is_ →
  receive_all sd r (map (λ i, control_frame (message e pkts i).1 (message e pkts i).2) is_)
  = deliver_all r (map (message e pkts) is_).
Proof.
  intros r Hok Hf. revert r. induction Hf as [|i is_ Hi _ IH]; intros r; [done|]. cbn [map receive_all deliver_all].
  rewrite receive_control.
  2: { unfold message. cbn [snd]. destruct (lookup_lt_is_Some_2 _ _ Hi) as [p Hp]. rewrite Hp. by apply (Forall_lookup_1 _ _ _ _ Hok Hp). }
  destruct (message e pkts i) as [q p]. cbn [fst snd]. destruct (deliver_control r q p) as [r1 ps]. by rewrite IH.
Qed.

(** [send_control] numbers the messages one after the other. *)
Lemma send_control_shape s fds pkt :
  control_seq (send_control s fds pkt).1 = u8 (control_seq s + 1)
  ∧ (∀ idx bs, (send_control s fds pkt).2 = Some (idx, bs) → bs = control_frame (control_seq s) pkt).
Proof.
  unfold send_control. destruct fds; [done|]. split; [done|]. cbn [snd].
  intros idx bs (x & _ & E)%fmap_Some. by injection E.
Qed.

Lemma number_shift e i : number (u8 (e + 1)) i = number e (S i).
Proof. unfold number. zlia. Qed.

Lemma send_all_numbers l : ∀ s outs, 0 <= control_seq s < 256 → (send_all s l).2 = map Some outs →
  map snd outs = imap (λ i m, control_frame (number (control_seq s) i) m.2) l
  ∧ control_seq (send_all s l).1 = number (control_seq s) (length l).
Proof.
  induction l as [|[fds pkt] l IH]; intros s outs Hs E.
  - destruct outs; [|done]. split; [done|]. cbn. unfold number. zlia.
  - cbn [send_all] in *. destruct (send_control_shape s fds pkt) as [Hq Hb].
    destruct (send_control s fds pkt) as [s1 o]. cbn [fst snd] in *. specialize (IH s1).
    destruct (send_all s1 l) as [s2 os]. cbn [fst snd] in *. destruct outs as [|[idx bs] outs]; [done|]. cbn [map] in E.
    injection E as -> Eo. rewrite (Hb idx bs eq_refl). destruct (IH outs) as [I1 I2]; [rewrite Hq; zlia|done|].
    rewrite I2, Hq, number_shift. split; [|done]. cbn [map snd imap]. rewrite I1, Hq. f_equal; [f_equal; unfold number; zlia|].
    apply imap_ext. intros i x _. cbn. by rewrite number_shift.
Qed.


(** 300 messages numbered from 250, over connections of which one closes on the way, with
    every two neighbours swapped. *)
Definition sample_sends : list (list Z * Packet) :=
  map (λ i, (if (i <? 150)%nat then [7; 8; -1] else [-1; 8; 9], mkPacket MSG_WRITER_PAUSE [Z.of_nat i mod 256])) (seq 0 300).
Definition sample_outs : list (nat * bytes) := omap id (send_all (mkSender 250 5) sample_sends).2.
Definition sample_arrive : list nat := map (λ i, if Nat.even i then S i else pred i) (seq 0 300).

(** A test for [within]. *)
Fixpoint withinb (w : nat) (seen : list nat) (arrive : list nat) : bool :=
  match arrive with
  | [] => true
  | i :: rest => forallb (λ k, bool_decide (k ∈ seen)) (seq 0 (S i - w)) && withinb w (i :: seen) rest
  end.

Lemma withinb_ok w arrive : ∀ seen, withinb w seen arrive = true →
  ∀ pre i post k, arrive = pre ++ i :: post → (k + w <= i)%nat → k ∈ pre ∨ k ∈ seen.
Proof.
  induction arrive as [|a arrive IH]; intros seen H pre i post k E Hk; [by destruct pre|].
  cbn [withinb] in H. apply andb_true_iff in H as [Ha Hr]. destruct pre as [|x pre]; injection E as -> E.
  - right. rewrite forallb_forall in Ha. specialize (Ha k). rewrite bool_decide_eq_true in Ha. apply Ha.
    apply list_elem_of_In, elem_of_seq. lia.
  - destruct (IH _ Hr pre i post k E Hk) as [?|[->|?]%elem_of_cons]; [left; by right|left; by left|by right].
Qed.

Definition sample_controls : list Packet :=
  [mkPacket MSG_CONNECT_OK [0; 0]; mkPacket MSG_WRITER_PAUSE [0]; mkPacket MSG_WRITER_RESUME [0];
   mkPacket MSG_DISCONNECT [0]].


(** ** Dealing *)

Lemma first_some_exists {A} (l : list (option A)) :
  (∃ x, Some x ∈ l) → ∃ y, first_some l = Some y ∧ Some y ∈ l.
Proof.
  induction l as [|[a|] l IH]; intros [x Hx].
  - by apply elem_of_nil in Hx.
  - exists a. split; [done|by left].
  - apply elem_of_cons in Hx as [?|Hx]; [done|].
    destruct (IH (ex_intro _ x Hx)) as (y & Hy & Hin). exists y. split; [done|by right].
Qed.

(** A control message is queued whenever some connection is open: the search from
    the round-robin position visits every connection, and stops at an open one. (For the
    first 2^31 messages; the counter is a signed int.) *)
Theorem send_control_finds_open (s : Sender) (fds : list Z) (pkt : Packet) (k : nat) (fd : Z) :
  0 <= control_rr s → Z.of_nat (length fds) < 2 ^ 31 → fds !! k = Some fd → 0 <= fd →
  ∃ idx fd', (send_control s fds pkt).2 = Some (idx, control_frame (control_seq s) pkt)
    ∧ fds !! idx = Some fd' ∧ 0 <= fd'.
Proof.
  intros Hrr Hlen Hk Hfd. apply lookup_lt_Some in Hk as Hlt.
  unfold send_control. destruct fds as [|f0 fds']; [by rewrite lookup_nil in Hk|].
  set (fds := f0 :: fds') in *. cbn [snd].
  assert (Z.rem (control_rr s) (Z.of_nat (length fds)) = control_rr s mod Z.of_nat (length fds))
    as -> by (apply Z.rem_mod_nonneg; lia).
  set (n := Z.of_nat (length fds)) in *. set (st := control_rr s mod n).
  assert (0 <= st < n) as Hst by (apply Z.mod_pos_bound; lia).
  destruct (first_some_exists (map (pick_from fds st) (seq 0 (length fds)))) as (idx & Hf & Hin).
  { exists k. apply list_elem_of_fmap. exists (Z.to_nat ((Z.of_nat k - st) mod n)).
    assert (0 <= (Z.of_nat k - st) mod n < n) as Hr by (apply Z.mod_pos_bound; lia).
    split; [|apply elem_of_seq; lia]. unfold pick_from. fold n.
    rewrite Z2Nat.id by lia. replace (u64 (st + (Z.of_nat k - st) mod n))
      with (st + (Z.of_nat k - st) mod n) by zlia.
    rewrite Zplus_mod_idemp_r. replace (st + (Z.of_nat k - st)) with (Z.of_nat k) by lia.
    rewrite Z.mod_small, Nat2Z.id by lia. rewrite Hk. cbn [mbind option_bind].
    by rewrite (proj2 (Z.ltb_ge fd 0)). }
  apply list_elem_of_fmap in Hin as (i & Hi & _). unfold pick_connection. rewrite Hf.
  unfold pick_from in Hi. symmetry in Hi. apply bind_Some in Hi as (fd' & Hfd' & Hi).
  destruct (Z.ltb_spec fd' 0); [done|]. injection Hi as <-. eauto.
Qed.

Lemma send_control_finds_open_witness :
  ∃ idx fd', (send_control (mkSender 9 4) [-1; 17; -1] (mkPacket MSG_CHAIN_READY [])).2
      = Some (idx, control_frame 9 (mkPacket MSG_CHAIN_READY []))
    ∧ [-1; 17; -1] !! idx = Some fd' ∧ 0 <= fd'.
Proof.
  apply (send_control_finds_open (mkSender 9 4) [-1; 17; -1] _ 1 17);
    [simpl; lia|simpl; lia|reflexivity|lia].
Defined.

(** ** Lost numbers *)

(** Messages other than the awaited one are stored, never applied. *)
Lemma deliver_all_blocked l : ∀ r,
  Forall (λ m, m.1 ≠ exp_control_seq r) l →
  (deliver_all r l).2 = [] ∧ exp_control_seq (deliver_all r l).1 = exp_control_seq r.
Proof.
  induction l as [|[s p] l IH]; intros r Hf; [done|].
  apply Forall_cons in Hf as [Hs Hf]. cbn [fst] in Hs. cbn [deliver_all].
  unfold deliver_control. rewrite (proj2 (Z.eqb_neq _ _) Hs).
  destruct (IH (mkReorder (exp_control_seq r) (<[s:=p]> (pending_control r)))) as [H1 H2]; [done|].
  destruct (deliver_all _ l) as [r2 ps]. cbn [fst snd] in *. by subst.
Qed.

Lemma numbered_ne e pkts :
  0 <= e < 256 → (length pkts <= 255)%nat →
  Forall (λ m, m.1 ≠ e) (numbered (u8 (e + 1)) pkts).
Proof.
  intros He Hl. apply Forall_lookup. intros i m Hm. unfold numbered in Hm.
  rewrite list_lookup_imap in Hm. apply fmap_Some in Hm as (p & Hp & ->).
  apply lookup_lt_Some in Hp. cbn [fst]. unfold number. zlia.
Qed.

(** [send_control] takes a number before it knows whether a connection is open. A
    message sent while none is open is lost together with its number, and the next (up
    to 255) messages are then never applied, whatever their order. *)
Theorem closed_send_blocks_control (s : Sender) (fds : list Z) (pkt : Packet) (r : Reorder)
    (pkts : list Packet) (l : list (Z * Packet)) :
  Forall (λ fd, fd < 0) fds → 0 <= control_seq s < 256 → exp_control_seq r = control_seq s →
  (length pkts <= 255)%nat → l ≡ₚ numbered (control_seq (send_control s fds pkt).1) pkts →
  (send_control s fds pkt).2 = None ∧ (deliver_all r l).2 = [].
Proof.
  intros Hfds Hs Hr Hl Hp.
  assert ((send_control s fds pkt).2 = None
          ∧ control_seq (send_control s fds pkt).1 = u8 (control_seq s + 1)) as [Hn Hq].
  { unfold send_control. destruct fds as [|f0 fds']; [done|]. split; [|done]. cbn [snd].
    set (fds := f0 :: fds') in *.
    assert (∀ st l, first_some (map (pick_from fds st) l) = None) as H.
    { intros st l'. induction l' as [|i l' IH]; [done|]. cbn [map first_some].
      unfold pick_from at 1. destruct (fds !! _) as [fd|] eqn:E; cbn [mbind option_bind]; [|done].
      eapply Forall_lookup_1 in Hfds; [|done].
      by rewrite (proj2 (Z.ltb_lt fd 0)). }
    unfold pick_connection. by rewrite H. }
  split; [done|]. apply deliver_all_blocked. rewrite Hp, Hq, Hr. by apply numbered_ne.
Qed.

Lemma closed_send_blocks_control_witness :
  (send_control (mkSender 0 0) [-1] (mkPacket MSG_DISCONNECT [1])).2 = None
  ∧ (deliver_all new_reorder (numbered 1 sample_controls)).2 = [].
Proof.
  apply (closed_send_blocks_control (mkSender 0 0) [-1] (mkPacket MSG_DISCONNECT [1])
           new_reorder sample_controls);
    [by repeat constructor|simpl; lia|reflexivity|simpl; lia|reflexivity].
Defined.

(** ** Leftover bytes *)

Section leftovers.
Context (sd : side).

Lemma process_wire_buffer_framed k ty body rest :
  Z.of_nat (length (ty :: body)) < 2 ^ 56 →
  process_wire_buffer (S k) sd (with_len (ty :: body) ++ rest)
  = (items ← wire_item sd ty body; more ← process_wire_buffer k sd rest; Some (items ++ more)).
Proof.
  intros Hl. set (v := Z.of_nat (length (ty :: body))) in *. unfold with_len. fold v.
  rewrite <- (assoc_L (++)). destruct (read_len_varint v ((ty :: body) ++ rest))
    as (sh & E & Hs & H8); [lia|].
  pose proof (write_varint_loop_nonempty 9 v ltac:(lia)) as Hne.
  cbn [process_wire_buffer].
  rewrite (proj2 (Nat.eqb_neq _ 0)) by (rewrite length_app; lia).
  rewrite E. rewrite (proj2 (Nat.leb_gt 10 _)), (proj2 (Z.leb_gt 56 sh)) by lia. cbn [orb].
  rewrite !(proj2 (Z.ltb_ge _ _)) by (rewrite ?length_app; subst v; cbn [length] in *; lia).
  cbn [orb]. rewrite drop_app_length. cbn [app].
  replace (Z.to_nat (v - 1)) with (length body) by (subst v; cbn [length]; lia).
  by rewrite take_app_length, drop_app_length.
Qed.

(** A frame cut short yields nothing, and its bytes are gone. *)
Lemma process_wire_buffer_partial k f j :
  frame_ok sd f → (j < length (encode f))%nat →
  process_wire_buffer k sd (take j (encode f)) = Some [].
Proof.
  intros Hok Hj. destruct k as [|k]; [done|]. cbn [process_wire_buffer].
  destruct (Nat.eqb_spec (length (take j (encode f))) 0) as [|Hn0]; [done|].
  assert (reader_step sd (take j (encode f)) = RWait) as Hw.
  { destruct (reader_step_prefix sd f (take j (encode f)) (drop j (encode f)) [] Hok)
      as [?|[Hs _]]; [by rewrite take_drop, app_nil_r|done|].
    apply reader_step_consumed in Hs. rewrite length_take in Hs. lia. }
  revert Hw. unfold reader_step. rewrite (proj2 (Z.ltb_ge _ 1)) by lia.
  destruct (read_len (take j (encode f))) as [[val sh] pos] eqn:E.
  destruct (_ || _); [done|].
  destruct (read_len_app _ [] _ _ _ E) as (Hp & _ & Hv & _).
  rewrite (proj2 (Z.ltb_ge _ (Z.of_nat pos))) by lia. cbn [orb].
  destruct (_ || _); [done|]. case_match eqn:Et; [|done]. unfold decode.
  intros H. by repeat case_match.
Qed.

End leftovers.

(** Frames that arrive in the same segment as the last authentication message are
    not treated like the others. A control message among them is applied whatever its
    number, without advancing the receiver's table, so the up to 255 messages that
    follow it are stored and never applied; a data frame is passed on with the two bytes
    of its sequence number still in front; and a frame that is not complete yet is
    dropped. *)
Theorem leftover_frames_mishandled (sd : side) (s : Z) (pkt : Packet) (seq : Z) (d : bytes)
    (f : frame) (j : nat) (pkts : list Packet) (l : list (Z * Packet)) :
  packet_ok pkt → Z.of_nat (length (serialize pkt)) < 2 ^ 55 → Z.of_nat (length d) < 2 ^ 55 →
  frame_ok sd f → (j < length (encode f))%nat →
  (length pkts <= 255)%nat → l ≡ₚ numbered 1 pkts →
  process_wire_buffer 3 sd (control_frame s pkt ++ data_frame seq d ++ take j (encode f))
  = Some [LControl pkt; LData (seq_bytes seq ++ d)]
  ∧ (deliver_all new_reorder l).2 = [].
Proof.
  intros Hok Hl Hd Hf Hj Hn Hp. split.
  - rewrite encode_control. cbn [encode].
    rewrite (process_wire_buffer_framed sd 2) by (cbn [length]; lia).
    assert (data_frame seq d = with_len (WIRE_DATA :: seq_bytes seq ++ d)) as ->
      by (exact (encode_shape Server (FData seq d) I) || (unfold data_frame, with_len, seq_bytes;
          do 2 f_equal; simpl; lia)).
    rewrite (process_wire_buffer_framed sd 1) by (unfold seq_bytes; simpl; lia).
    rewrite process_wire_buffer_partial by done.
    assert (wire_item sd WIRE_CONTROL (s :: serialize pkt) = Some [LControl pkt]) as ->.
    { cbn [wire_item Z.eqb WIRE_CONTROL Pos.eqb].
      pose proof (try_parse_header pkt (payload pkt) Hok) as Hps.
      rewrite <- serialize_header in Hps. rewrite Hps.
      rewrite Nat.ltb_irrefl, take_ge by done.
      rewrite (proj2 (Z.ltb_lt 0 _)); [by destruct pkt|].
      rewrite serialize_length. pose proof (header_length pkt Hok). lia. }
    done.
  - apply deliver_all_blocked. rewrite Hp. by apply (numbered_ne 0).
Qed.

Lemma leftover_frames_mishandled_witness :
  process_wire_buffer 3 Server (control_frame 0 (mkPacket MSG_MODULE_LIST_REQ [0])
                                ++ data_frame 0 [1; 2] ++ take 1 (encode FPing))
  = Some [LControl (mkPacket MSG_MODULE_LIST_REQ [0]); LData [0; 0; 1; 2]]
  ∧ (deliver_all new_reorder (numbered 1 sample_controls)).2 = [].
Proof.
  apply (leftover_frames_mishandled Server 0 (mkPacket MSG_MODULE_LIST_REQ [0]) 0 [1; 2] FPing 1
           sample_controls); try reflexivity; try done; simpl; lia.
Defined.

End Control.
