(* ===== verification/Reliable.v ===== *)
(** * Numbered data frames on one data connection

    The part of a [DataConnection] that numbers, acknowledges and retransmits data frames:
    [wire_write] (dst >= 1), the WIRE_DATA and WIRE_DATA_ACK cases of the reader, and the
    retransmission in [process_pending_io]. Server and client run the same code. *)

From S2P Require Import Prelude Protocol Frame.
Local Open Scope Z_scope.

Module Reliable.
Import Frame.

(** Times are milliseconds of the steady clock. *)
Record PendingFrame := mkPF { pf_seq : Z; pf_frame : bytes; sent_at : Z }.

Record Link := mkLink { unacked : list PendingFrame; send_seq : Z; recv_seq : Z }.

Definition new_link : Link := mkLink [] 0 0.

(** ** Operations *)

(** [unacked] when a frame is added: the oldest is discarded at the limit. *)
Definition push_unacked (u : list PendingFrame) (pf : PendingFrame) : list PendingFrame :=
  (if (WIRE_MAX_UNACKED <=? length u)%nat then tail u else u) ++ [pf].

(** [wire_write]: number the block; the second component is given to the writer. *)
Definition send_data (now : Z) (data : bytes) (l : Link) : Link * bytes :=
  let seq := send_seq l in
  let frame := data_frame seq data in
  (mkLink (push_unacked (unacked l) (mkPF seq frame now)) (u16 (send_seq l + 1)) (recv_seq l),
   frame).

(** A data frame arrives: it is dispatched when it is the expected one, and acknowledged in
    any case (the acknowledgement goes to the priority queue). *)
Definition on_data (seq : Z) (l : Link) : Link * bool * bytes :=
  if seq =? recv_seq l
  then (mkLink (unacked l) (send_seq l) (u16 (recv_seq l + 1)), true, ack_frame seq)
  else (l, false, ack_frame seq).

(** [while (!unacked.empty() && unacked.front().seq <= ack_seq) unacked.pop_front()]. *)
Fixpoint pop_acked (u : list PendingFrame) (ack_seq : Z) : list PendingFrame :=
  match u with
  | pf :: rest => if pf_seq pf <=? ack_seq then pop_acked rest ack_seq else u
  | [] => []
  end.

Definition on_ack (ack_seq : Z) (l : Link) : Link :=
  mkLink (pop_acked (unacked l) ack_seq) (send_seq l) (recv_seq l).

(** The retransmission loop: it writes the oldest frame when it is due and stamps it with
    [now], which makes the next round leave the loop; so at most one frame is written. *)
Fixpoint retransmit_loop (fuel : nat) (now : Z) (u : list PendingFrame)
    : list PendingFrame * list bytes :=
  match fuel, u with
  | S k, pf :: rest =>
      if WIRE_RETRANSMIT_MS <? now - sent_at pf then
        let '(u', out) := retransmit_loop k now (mkPF (pf_seq pf) (pf_frame pf) now :: rest) in
        (u', pf_frame pf :: out)
      else (u, [])
  | _, _ => (u, [])
  end.

Definition retransmit (now : Z) (l : Link) : Link * list bytes :=
  let '(u, out) := retransmit_loop 2 now (unacked l) in
  (mkLink u (send_seq l) (recv_seq l), out).

(** The client's reconnection of a secondary connection writes every unacknowledged frame
    again. *)
Definition resend_all (now : Z) (l : Link) : Link * list bytes :=
  (mkLink (map (λ pf, mkPF (pf_seq pf) (pf_frame pf) now) (unacked l)) (send_seq l) (recv_seq l),
   map pf_frame (unacked l)).

(** Two rounds are enough: the second one always stops. *)
Lemma retransmit_fuel k now u :
  retransmit_loop (S (S k)) now u = retransmit_loop 2 now u.
Proof.
  destruct u as [|pf rest]; [done|]. cbn [retransmit_loop sent_at].
  assert ((WIRE_RETRANSMIT_MS <? now - now) = false) as ->
    by (rewrite Z.sub_diag; done).
  done.
Qed.

(** ** One direction of a connection

    [up] numbers and retransmits, [down] receives; TCP delivers the written frames in
    order, one by one, and the acknowledgements likewise. *)
Record System := mkSys {
  up : Link; down : Link;
  data_wire : list bytes;
  ack_wire : list Z;
  sent : list bytes;
  delivered : list bytes
}.

Definition initial : System := mkSys new_link new_link [] [] [] [].

Inductive sys_step : System → System → Prop :=
| StepSend now d s l' f :
    Z.of_nat (length d) < 2 ^ 55 → send_data now d (up s) = (l', f) →
    sys_step s (mkSys l' (down s) (data_wire s ++ [f]) (ack_wire s) (sent s ++ [d]) (delivered s))
| StepRetransmit now s l' fs :
    retransmit now (up s) = (l', fs) →
    sys_step s (mkSys l' (down s) (data_wire s ++ fs) (ack_wire s) (sent s) (delivered s))
| StepReceive s b rest seq d l' ok ack :
    data_wire s = b :: rest → reader_step Server b = RFrame (FData seq d) (length b) →
    on_data seq (down s) = (l', ok, ack) →
    sys_step s (mkSys (up s) l' rest (ack_wire s ++ [seq]) (sent s)
                      (delivered s ++ if (ok : bool) then [d] else []))
| StepAck s a rest :
    ack_wire s = a :: rest →
    sys_step s (mkSys (on_ack a (up s)) (down s) (data_wire s) rest (sent s) (delivered s)).

(** ** Exactly once, in order *)

Definition num (j : nat) : Z := u16 (Z.of_nat j).

(** [b] is the frame of the [j]-th block sent. *)
Definition is_frame (blocks : list bytes) (b : bytes) (j : nat) : Prop :=
  ∃ d, blocks !! j = Some d ∧ b = data_frame (num j) d.

(** The frames on the wire, by block: from a receiver that has [r] blocks to a sender that
    has sent [n], each frame is the next block or one of the 200 before it. *)
Inductive chan : nat → list nat → nat → Prop :=
| chan_nil n : chan n [] n
| chan_next r w n : chan (S r) w n → chan r (r :: w) n
| chan_again r j w n : (j < r)%nat → (r <= j + 200)%nat → chan r w n → chan r (j :: w) n.

Lemma chan_le r w n : chan r w n → (r <= n)%nat.
Proof. induction 1; lia. Qed.

Lemma chan_fresh r w n : chan r w n → chan r (w ++ [n]) (S n).
Proof. induction 1; cbn [app]; [apply chan_next|apply chan_next|apply chan_again]; auto using chan_nil. Qed.

Lemma chan_repeat r w n j : (j < n)%nat → (n <= j + 200)%nat → chan r w n → chan r (w ++ [j]) n.
Proof.
  intros Hj Hj'. induction 1; cbn [app].
  - apply chan_again; [done|done|constructor].
  - apply chan_next. auto.
  - apply chan_again; auto.
Qed.

Record inv (s : System) : Prop := {
  inv_send : send_seq (up s) = num (length (sent s));
  inv_unacked : ∃ k, (k <= 200)%nat ∧ (k <= length (sent s))%nat
    ∧ Forall2 (λ pf j, pf_seq pf = num j ∧ is_frame (sent s) (pf_frame pf) j)
              (unacked (up s)) (seq (length (sent s) - k) k);
  inv_wire : ∃ r w, chan r w (length (sent s)) ∧ Forall2 (is_frame (sent s)) (data_wire s) w
    ∧ recv_seq (down s) = num r ∧ delivered s = take r (sent s);
  inv_size : Forall (λ d : bytes, Z.of_nat (length d) < 2 ^ 55) (sent s)
}.

Lemma is_frame_app blocks d b j : is_frame blocks b j → is_frame (blocks ++ [d]) b j.
Proof. intros (x & Hx & ->). exists x. split; [by apply lookup_app_l_Some|done]. Qed.

Lemma num_succ j : u16 (num j + 1) = num (S j).
Proof. unfold num. zlia. Qed.

(** Numbers of blocks less than 65536 apart differ. *)
Lemma num_inj i j : (i < j)%nat → Z.of_nat j < Z.of_nat i + 65536 → num i ≠ num j.
Proof. unfold num. intros. zlia. Qed.

Lemma push_unacked_inv u blocks k pf d :
  (k <= 200)%nat → (k <= length blocks)%nat →
  Forall2 (λ pf j, pf_seq pf = num j ∧ is_frame blocks (pf_frame pf) j) u
          (seq (length blocks - k) k) →
  pf_seq pf = num (length blocks) → pf_frame pf = data_frame (num (length blocks)) d →
  ∃ k', (k' <= 200)%nat ∧ (k' <= length (blocks ++ [d]))%nat
    ∧ Forall2 (λ pf j, pf_seq pf = num j ∧ is_frame (blocks ++ [d]) (pf_frame pf) j)
              (push_unacked u pf) (seq (length (blocks ++ [d]) - k') k').
Proof.
  intros Hk Hk' Hf Hs Hfr. unfold push_unacked.
  assert (length u = k) as Hlu by (apply Forall2_length in Hf; by rewrite length_seq in Hf).
  assert (∀ u js, Forall2 (λ pf j, pf_seq pf = num j ∧ is_frame blocks (pf_frame pf) j) u js →
            Forall2 (λ pf j, pf_seq pf = num j ∧ is_frame (blocks ++ [d]) (pf_frame pf) j) u js)
    as Hmono by (intros ?? H; eapply Forall2_impl; [exact H|]; intros ?? [? ?]; split;
                 [done|by apply is_frame_app]).
  assert (Forall2 (λ pf j, pf_seq pf = num j ∧ is_frame (blocks ++ [d]) (pf_frame pf) j)
                  [pf] [length blocks]) as Hlast.
  { constructor; [|done]. split; [done|]. exists d. split; [|done].
    by rewrite lookup_app_r, Nat.sub_diag. }
  rewrite length_app. cbn [length].
  destruct (Nat.leb_spec WIRE_MAX_UNACKED (length u)) as [Hge|Hlt];
    unfold WIRE_MAX_UNACKED in *.
  - exists k. split_and!; [done|lia|]. destruct u as [|x u]; [simpl in Hge; lia|].
    destruct k as [|k]; [lia|]. cbn [seq] in Hf. apply Forall2_cons in Hf as [_ Hf].
    replace (length blocks + 1 - S k)%nat with (S (length blocks - S k)) by lia.
    rewrite seq_S. cbn [tail]. apply Forall2_app; [by apply Hmono|].
    by replace (S (length blocks - S k) + k)%nat with (length blocks) by lia.
  - exists (S k). split_and!; [lia|lia|].
    replace (length blocks + 1 - S k)%nat with (length blocks - k)%nat by lia.
    rewrite seq_S. apply Forall2_app; [by apply Hmono|].
    by replace (length blocks - k + k)%nat with (length blocks) by lia.
Qed.

Lemma pop_acked_suffix u a : ∃ p, u = p ++ pop_acked u a.
Proof.
  induction u as [|pf u [p IH]]; [by exists []|]. cbn [pop_acked].
  case_match; [|by exists []]. exists (pf :: p). cbn [app]. by rewrite <- IH.
Qed.

Lemma initial_inv : inv initial.
Proof.
  constructor; cbn; try done.
  - exists 0%nat. split_and!; [lia|lia|constructor].
  - exists 0%nat, []. split_and!; constructor.
Qed.

Lemma step_send_inv s now d l' f :
  inv s → Z.of_nat (length d) < 2 ^ 55 → send_data now d (up s) = (l', f) →
  inv (mkSys l' (down s) (data_wire s ++ [f]) (ack_wire s) (sent s ++ [d]) (delivered s)).
Proof.
  intros [H1 (k & Hk & Hk' & Hu) (r & w & Hc & Hw & Hr & Hd) Hsz] Hl [= <- <-].
  constructor; cbn [up down data_wire sent delivered unacked send_seq recv_seq].
  - rewrite H1, length_app, num_succ. f_equal. simpl. lia.
  - rewrite H1. by eapply push_unacked_inv.
  - exists r, (w ++ [length (sent s)]). rewrite length_app. cbn [length]. rewrite Nat.add_1_r.
    split_and!; [by apply chan_fresh| |done|].
    + apply Forall2_app.
      * eapply Forall2_impl; [exact Hw|]. intros. by apply is_frame_app.
      * constructor; [|done]. exists d. rewrite H1. split; [|done].
        by rewrite lookup_app_r, Nat.sub_diag.
    + rewrite take_app_le; [done|]. by apply chan_le in Hc.
  - by apply Forall_app_2, Forall_singleton.
Qed.

Lemma step_retransmit_inv s now l' fs :
  inv s → retransmit now (up s) = (l', fs) →
  inv (mkSys l' (down s) (data_wire s ++ fs) (ack_wire s) (sent s) (delivered s)).
Proof.
  intros [H1 (k & Hk & Hk' & Hu) (r & w & Hc & Hw & Hr & Hd) Hsz]. unfold retransmit.
  destruct (unacked (up s)) as [|pf u] eqn:Eu.
  { intros [= <- <-]. rewrite app_nil_r. constructor; cbn; try done; eauto 10. }
  cbn [retransmit_loop sent_at]. assert ((WIRE_RETRANSMIT_MS <? now - now) = false) as ->
    by (by rewrite Z.sub_diag).
  destruct k as [|k]; [by inversion Hu|]. cbn [seq] in Hu.
  pose proof Hu as [[Hs Hf] Hu']%Forall2_cons.
  destruct (_ <? _); intros [= <- <-]; constructor; cbn [up down data_wire sent delivered unacked
    send_seq recv_seq]; try done.
  - exists (S k). split_and!; [done|done|]. cbn [seq]. by constructor.
  - exists r, (w ++ [(length (sent s) - S k)%nat]). split_and!; [|by apply Forall2_app; [|constructor]|done|done].
    apply chan_repeat; [lia|lia|done].
  - exists (S k). split_and!; [done|done|]. by constructor.
  - exists r, w. rewrite app_nil_r. by split_and!.
Qed.

Lemma step_receive_inv s b rest seq d l' ok ack :
  inv s → data_wire s = b :: rest → reader_step Server b = RFrame (FData seq d) (length b) →
  on_data seq (down s) = (l', ok, ack) →
  inv (mkSys (up s) l' rest (ack_wire s ++ [seq]) (sent s)
             (delivered s ++ if (ok : bool) then [d] else [])).
Proof.
  intros [H1 Hun (r & w & Hc & Hw & Hr & Hd) Hsz] Eb Hst Hon.
  rewrite Eb in Hw. destruct w as [|j w]; [by apply Forall2_length in Hw|].
  apply Forall2_cons in Hw as [(x & Hx & ->) Hw].
  assert (seq = num j ∧ d = x) as [-> ->].
  { pose proof (reader_step_encode Server (FData (num j) x) []) as He.
    cbn [encode frame_ok] in He. rewrite app_nil_r in He.
    rewrite He in Hst; [by simplify_eq|]. split; [unfold num; zlia|].
    by eapply Forall_lookup_1 in Hsz. }
  unfold on_data in Hon. rewrite Hr in Hon.
  constructor; cbn [up down data_wire sent delivered]; try done.
  inversion Hc as [|? ? ? Hc'|? ? ? ? Hj Hj' Hc']; subst.
  - rewrite Z.eqb_refl in Hon. injection Hon as <- <- _. exists (S j), w. cbn [recv_seq].
    split_and!; [done|done|apply num_succ|]. by rewrite Hd, (take_S_r _ _ _ Hx).
  - rewrite (proj2 (Z.eqb_neq _ _)) in Hon by (apply num_inj; lia).
    injection Hon as <- <- _. exists r, w. rewrite app_nil_r. by split_and!.
Qed.

Lemma step_ack_inv s a rest :
  inv s → ack_wire s = a :: rest →
  inv (mkSys (on_ack a (up s)) (down s) (data_wire s) rest (sent s) (delivered s)).
Proof.
  intros [H1 (k & Hk & Hk' & Hu) Hw Hsz] _. constructor; cbn; try done.
  destruct (pop_acked_suffix (unacked (up s)) a) as [p Hp].
  set (u' := pop_acked _ _) in *. rewrite Hp in Hu.
  pose proof (Forall2_length _ _ _ Hu) as Hlen. rewrite length_seq, length_app in Hlen.
  exists (length u'). split_and!; [lia|lia|].
  apply Forall2_app_inv_l in Hu as (l1 & l2 & Hp1 & Hu2 & E).
  apply Forall2_length in Hp1, Hu2 as Hl2.
  replace (seq (length (sent s) - length u') (length u')) with l2; [done|].
  apply (f_equal (drop (length l1))) in E. rewrite drop_app_length in E. rewrite <- E.
  replace (length (sent s) - k)%nat with (length (sent s) - k)%nat by lia.
  rewrite drop_seq. f_equal; lia.
Qed.

Lemma sys_step_inv s s' : sys_step s s' → inv s → inv s'.
Proof.
  destruct 1; intros Hi.
  - by eapply step_send_inv.
  - by eapply step_retransmit_inv.
  - by eapply step_receive_inv.
  - by eapply step_ack_inv.
Qed.

Lemma reachable_inv s : rtc sys_step initial s → inv s.
Proof.
  intros Hr. remember initial as s0 eqn:E0. assert (inv s0) as H0 by (subst; apply initial_inv).
  clear E0. induction Hr as [|? ? ? Hs _ IH]; [done|]. by apply IH, (sys_step_inv _ _ Hs).
Qed.

(** [C2] Exactly-once, in-order delivery over one connection: in every reachable state of
    a sender and a receiver joined by a TCP connection, with retransmissions at any time
    and acknowledgements delayed at will, the blocks delivered are a prefix of the blocks
    sent, and they are all of them once the wire is empty. (A retransmitted frame is never
    taken for a new one, although the number has only 16 bits.) *)
Theorem exactly_once_in_order (s : System) :
  rtc sys_step initial s →
  delivered s `prefix_of` sent s ∧ (data_wire s = [] → delivered s = sent s).
Proof.
  intros Hr. destruct (reachable_inv s Hr) as [_ _ (r & w & Hc & Hw & _ & Hd) _].
  split; [rewrite Hd; apply prefix_take|]. intros E. rewrite E in Hw.
  apply Forall2_nil_inv_l in Hw as ->. inversion Hc; subst. rewrite Hd. by apply take_ge.
Qed.

(** A run: two blocks, the first retransmitted, three frames received. *)
Definition run_end : System :=
  let l1 := (send_data 0 [7] (up initial)).1 in
  let l2 := (send_data 1 [8; 9] l1).1 in
  let l3 := (retransmit 500 l2).1 in
  mkSys l3 (mkLink [] 0 2) [] [0; 1; 0] [[7]; [8; 9]] [[7]; [8; 9]].

Lemma exactly_once_in_order_witness :
  delivered run_end `prefix_of` sent run_end
  ∧ (data_wire run_end = [] → delivered run_end = sent run_end).
Proof.
  apply exactly_once_in_order.
  eapply rtc_l; [eapply (StepSend 0 [7]); [simpl; lia|reflexivity]|].
  eapply rtc_l; [eapply (StepSend 1 [8; 9]); [simpl; lia|reflexivity]|].
  eapply rtc_l; [eapply (StepRetransmit 500); reflexivity|].
  do 3 (eapply rtc_l; [eapply StepReceive; [reflexivity|reflexivity|reflexivity]|]).
  apply rtc_refl.
Defined.

(** ** After a reconnection *)

(** The receiver fed with frames. *)
Fixpoint receive_frames (l : Link) (fs : list bytes) : Link * list bytes :=
  match fs with
  | [] => (l, [])
  | b :: rest =>
      match reader_step Server b with
      | RFrame (FData seq d) _ =>
          let '(l1, ok, _) := on_data seq l in
          let '(l2, ds) := receive_frames l1 rest in
          (l2, (if (ok : bool) then [d] else []) ++ ds)
      | _ => receive_frames l rest
      end
  end.

(** [C40] The limit of 200 unacknowledged frames loses data: when a connection breaks with
    more than 200 blocks sent that the server has not received (and at most 65536, so that
    the 16-bit numbers tell them apart), the oldest of them is no longer held, and of all the
    frames the client sends again after it has reconnected the server delivers none: it
    still waits for the block that is gone. *)
Theorem reconnect_loses_blocks (s : System) (now : Z) :
  rtc sys_step initial s →
  (length (delivered s) + 200 < length (sent s))%nat →
  Z.of_nat (length (sent s)) <= Z.of_nat (length (delivered s)) + 65536 →
  receive_frames (down s) (resend_all now (up s)).2 = (down s, []).
Proof.
  intros Hr Hgap Hwrap.
  destruct (reachable_inv s Hr) as [_ (k & Hk & Hk' & Hu) (r & w & Hc & _ & Hrecv & Hd) Hsz].
  assert (length (delivered s) = r) as Hlr.
  { rewrite Hd, length_take. apply chan_le in Hc. lia. }
  cbn [resend_all snd]. assert (Forall2 (is_frame (sent s)) (map pf_frame (unacked (up s)))
      (seq (length (sent s) - k) k)) as Hf.
  { apply Forall2_fmap_l. eapply Forall2_impl; [exact Hu|]. by intros ?? [_ ?]. }
  assert (Forall (λ j, (r < j)%nat ∧ Z.of_nat j < Z.of_nat r + 65536)
                 (seq (length (sent s) - k) k)) as Hj.
  { apply Forall_forall. intros j Hj%elem_of_seq. lia. }
  revert Hf Hj. generalize (map pf_frame (unacked (up s))) as fs.
  generalize (seq (length (sent s) - k) k) as js. intros js fs Hf.
  induction Hf as [|b j fs js (d & Hd' & ->) _ IH]; intros Hj; [done|].
  apply Forall_cons in Hj as [Hj Hjs]. cbn [receive_frames].
  pose proof (reader_step_encode Server (FData (num j) d) []) as He.
  cbn [encode frame_ok] in He. rewrite app_nil_r in He. rewrite He.
  2: { split; [unfold num; zlia|]. by eapply Forall_lookup_1 in Hsz. }
  unfold on_data. rewrite Hrecv, (proj2 (Z.eqb_neq _ _)).
  - by rewrite IH.
  - apply not_eq_sym, num_inj; lia.
Qed.

Fixpoint send_many (n : nat) (s : System) : System :=
  match n with
  | O => s
  | S k => let '(l', f) := send_data 0 [5] (up s) in
           send_many k (mkSys l' (down s) (data_wire s ++ [f]) (ack_wire s) (sent s ++ [[5]])
                              (delivered s))
  end.

Lemma send_many_steps n : ∀ s, rtc sys_step s (send_many n s).
Proof.
  induction n as [|n IH]; intros s; [apply rtc_refl|]. cbn [send_many].
  destruct (send_data 0 [5] (up s)) as [l' f] eqn:E.
  eapply rtc_l; [|apply IH]. by apply (StepSend 0 [5]).
Qed.

Lemma reconnect_loses_blocks_witness :
  receive_frames (down (send_many 201 initial)) (resend_all 9 (up (send_many 201 initial))).2
  = (down (send_many 201 initial), []).
Proof.
  apply (reconnect_loses_blocks (send_many 201 initial) 9).
  - apply send_many_steps.
  - vm_compute. lia.
  - vm_compute. discriminate.
Defined.

End Reliable.
