(* ===== verification/Kernel.v ===== *)
(** * The event loop (core/kernel.h, core/kernel.cpp)

    The table of callbacks, the interest list epoll keeps for it, and the dispatch of one
    event. Callbacks are values of a type [H] given by the user of the kernel; what they
    do is a parameter of the dispatch. *)

From S2P Require Import Prelude.
Local Open Scope Z_scope.

Definition EPOLLIN : Z := 1.
Definition EPOLLOUT : Z := 4.
Definition EPOLLERR : Z := 8.
Definition EPOLLHUP : Z := 16.

Definition has (events bit : Z) : bool := negb (Z.land events bit =? 0).

(** Clearing bits: [x &= ~y]. *)
Definition clear_bits (x y : Z) : Z := Z.ldiff x y.

Module Kernel.
Section kernel.
Context {H : Type}.

Record FdState := mkFd { in_cb : option H; out_cb : option H; events : Z }.

(** [fd_to_handler_], and the interest list inside epoll. *)
Record t := mkK { handlers : gmap Z FdState; interest : gmap Z Z }.

Definition new : t := mkK ∅ ∅.

(** ** epoll_ctl

    As documented: ADD fails with EEXIST on a descriptor already in the list, MOD and DEL
    fail with ENOENT on one that is not. Descriptors are open when these are called. *)
Inductive ctl := CtlAdd | CtlMod | CtlDel.
Inductive ctl_err := ErrExist | ErrNoent.

Definition epoll_ctl (op : ctl) (fd ev : Z) (m : gmap Z Z) : gmap Z Z * option ctl_err :=
  match op, m !! fd with
  | CtlAdd, None => (<[fd := ev]> m, None)
  | CtlAdd, Some _ => (m, Some ErrExist)
  | CtlMod, Some _ => (<[fd := ev]> m, None)
  | CtlMod, None => (m, Some ErrNoent)
  | CtlDel, Some _ => (delete fd m, None)
  | CtlDel, None => (m, Some ErrNoent)
  end.

(** Closing a descriptor removes it from the list, not from the table. *)
Definition os_close (fd : Z) (k : t) : t := mkK (handlers k) (delete fd (interest k)).

(** ** Operations *)

Definition add_fd_handler (fd : Z) (cb : H) (ev : Z) (k : t) : t :=
  let state := default (mkFd None None 0) (handlers k !! fd) in
  let state := mkFd (if has ev EPOLLIN then Some cb else in_cb state)
                    (if has ev EPOLLOUT then Some cb else out_cb state)
                    (Z.lor (events state) ev) in
  let '(m, err) := epoll_ctl CtlAdd fd (events state) (interest k) in
  let m := match err with
           | Some ErrExist => (epoll_ctl CtlMod fd (events state) m).1
           | _ => m
           end in
  mkK (<[fd := state]> (handlers k)) m.

Definition mod_fd_events (fd add remove : Z) (k : t) : t :=
  match handlers k !! fd with
  | None => k
  | Some state =>
      let was_empty := events state =? 0 in
      let ev := clear_bits (Z.lor (events state) add) remove in
      let hs := <[fd := mkFd (in_cb state) (out_cb state) ev]> (handlers k) in
      let no_cb := match in_cb state, out_cb state with None, None => true | _, _ => false end in
      if (ev =? 0) || no_cb then mkK hs (epoll_ctl CtlDel fd 0 (interest k)).1
      else if was_empty then mkK hs (epoll_ctl CtlAdd fd ev (interest k)).1
      else mkK hs (epoll_ctl CtlMod fd ev (interest k)).1
  end.

Definition del_fd (fd : Z) (k : t) : t :=
  mkK (delete fd (handlers k)) (epoll_ctl CtlDel fd 0 (interest k)).1.

(** ** Dispatch of one event of epoll_wait

    The world [W] holds the kernel; [call] runs a callback in it. *)
Section dispatch.
Context {W : Type} (get : W → t) (put : t → W → W) (call : H → Z → Z → W → W).

Definition call_opt (cb : option H) (fd ev : Z) (w : W) : W :=
  match cb with Some h => call h fd ev w | None => w end.

Definition dispatch_in (fd e : Z) (w : W) : W :=
  if has e EPOLLIN then
    match handlers (get w) !! fd with
    | Some s => call_opt (in_cb s) fd EPOLLIN w
    | None => w
    end
  else w.

Definition dispatch_out (fd e : Z) (w : W) : W :=
  if has e EPOLLOUT then
    match handlers (get w) !! fd with
    | Some s => call_opt (out_cb s) fd EPOLLOUT w
    | None => w
    end
  else w.

Definition dispatch_hup (fd e : Z) (w : W) : W :=
  if has e (Z.lor EPOLLERR EPOLLHUP) then
    let w := match handlers (get w) !! fd with
             | Some s => match in_cb s with
                         | Some h => call h fd EPOLLHUP w
                         | None => call_opt (out_cb s) fd EPOLLHUP w
                         end
             | None => w
             end in
    put (del_fd fd (get w)) w
  else w.

(** The eventfd is drained elsewhere and has no callback. *)
Definition dispatch (wake_fd fd e : Z) (w : W) : W :=
  if fd =? wake_fd then w else dispatch_hup fd e (dispatch_out fd e (dispatch_in fd e w)).

End dispatch.

(** ** The table and the interest list agree *)

(** An entry wants some events exactly when epoll watches it for those; an entry that
    wants events has a callback. *)
Definition wf (k : t) : Prop :=
  ∀ fd, match handlers k !! fd with
        | Some s => 0 <= events s
            ∧ interest k !! fd = (if events s =? 0 then None else Some (events s))
            ∧ (in_cb s ≠ None ∨ out_cb s ≠ None)
        | None => interest k !! fd = None
        end.

Lemma new_wf : wf new.
Proof. intros fd. cbn. by rewrite !lookup_empty. Qed.

Lemma has_callback ev (cb : H) s :
  has ev EPOLLIN ∨ has ev EPOLLOUT →
  (if has ev EPOLLIN then Some cb else in_cb s) ≠ None
  ∨ (if has ev EPOLLOUT then Some cb else out_cb s) ≠ None.
Proof. intros [E|E]; [left|right]; destruct (has ev _); done. Qed.

Lemma lor_ne_0 a b : 0 <= a → 0 <= b → b <> 0 → (Z.lor a b =? 0) = false.
Proof.
  intros Ha Hb Hne. apply Z.eqb_neq. intros E. apply Z.lor_eq_0_iff in E as [_ ?]. done.
Qed.

Lemma has_ne_0 ev bit : has ev bit → ev <> 0.
Proof. unfold has. intros Hh ->. by rewrite Z.land_0_l in Hh. Qed.

Lemma add_fd_handler_wf fd cb ev k :
  0 <= ev → has ev EPOLLIN ∨ has ev EPOLLOUT → wf k → wf (add_fd_handler fd cb ev k).
Proof.
  intros Hev Hh Hw. assert (ev <> 0) as Hne by (destruct Hh as [?%has_ne_0|?%has_ne_0]; done).
  unfold add_fd_handler. specialize (Hw fd) as Hfd.
  set (st := default _ _) in *.
  assert (0 <= events st) as Hst by (subst st; destruct (handlers k !! fd); [apply Hfd|done]).
  assert (∀ m, m = (let '(m, err) := epoll_ctl CtlAdd fd (Z.lor (events st) ev) (interest k) in
                    match err with
                    | Some ErrExist => (epoll_ctl CtlMod fd (Z.lor (events st) ev) m).1
                    | _ => m end) → m = <[fd := Z.lor (events st) ev]> (interest k)) as Hm.
  { intros m ->. unfold epoll_ctl. destruct (interest k !! fd) eqn:E; cbn; by rewrite ?E. }
  cbn [events]. destruct (epoll_ctl CtlAdd _ _ _) as [m err].
  specialize (Hm _ eq_refl). cbv zeta. rewrite Hm.
  intros fd'. cbn [handlers interest]. destruct (decide (fd' = fd)) as [->|Hd].
  - rewrite !lookup_insert_eq. cbn [events in_cb out_cb].
    split; [apply Z.lor_nonneg; lia|]. rewrite lor_ne_0 by done. split; [done|].
    by apply has_callback.
  - rewrite !lookup_insert_ne by done. apply Hw.
Qed.

Lemma mod_fd_events_wf fd add remove k :
  0 <= add → wf k → wf (mod_fd_events fd add remove k).
Proof.
  intros Ha Hw. unfold mod_fd_events. specialize (Hw fd) as Hfd.
  destruct (handlers k !! fd) as [s|] eqn:E; [|done].
  destruct Hfd as (Hs & Hi & Hcb). set (ev := clear_bits _ _).
  assert (0 <= ev) as Hev.
  { apply Z.ldiff_nonneg. left. apply Z.lor_nonneg. lia. }
  assert (match in_cb s, out_cb s with None, None => true | _, _ => false end = false) as ->
    by (destruct (in_cb s), (out_cb s); [done..|by destruct Hcb]).
  rewrite orb_false_r.
  assert (∀ m, m !! fd = (if ev =? 0 then None else Some ev) →
            (∀ fd', fd' ≠ fd → m !! fd' = interest k !! fd') →
            wf (mkK (<[fd := mkFd (in_cb s) (out_cb s) ev]> (handlers k)) m)) as Hgo.
  { intros m Hm Ho fd'. cbn [handlers interest]. destruct (decide (fd' = fd)) as [->|Hd].
    - rewrite lookup_insert_eq. cbn [events in_cb out_cb]. done.
    - rewrite lookup_insert_ne by done. specialize (Hw fd'). by rewrite Ho. }
  destruct (ev =? 0) eqn:Hz; [|destruct (events s =? 0) eqn:He]; apply Hgo; clear Hgo;
    unfold epoll_ctl; rewrite ?Hi; try (destruct (events s =? 0) eqn:He); cbn [fst];
    rewrite ?Hi, ?lookup_delete_eq, ?lookup_insert_eq; try done;
    intros; by rewrite ?lookup_delete_ne, ?lookup_insert_ne.
Qed.

Lemma del_fd_wf fd k : wf k → wf (del_fd fd k).
Proof.
  intros Hw fd'. unfold del_fd, epoll_ctl. cbn [handlers interest].
  destruct (decide (fd' = fd)) as [->|Hd].
  - rewrite lookup_delete_eq. destruct (interest k !! fd) eqn:E; cbn [fst];
      [apply lookup_delete_eq|done].
  - rewrite lookup_delete_ne by done. specialize (Hw fd').
    destruct (interest k !! fd); cbn [fst]; by rewrite ?lookup_delete_ne.
Qed.

(** Deleting and then closing, the order the code uses almost everywhere. *)
Lemma del_close_wf fd k : wf k → wf (os_close fd (del_fd fd k)).
Proof.
  intros Hw fd'. pose proof (del_fd_wf fd k Hw fd') as Hd. revert Hd.
  cbn [os_close handlers interest]. destruct (decide (fd' = fd)) as [->|Hne].
  - unfold del_fd. cbn [handlers]. rewrite !lookup_delete_eq. done.
  - rewrite (lookup_delete_ne _ fd fd') by done. done.
Qed.

(** ** Sequences of operations *)

Inductive op :=
| OpAdd (fd : Z) (cb : H) (ev : Z)
| OpMod (fd add remove : Z)
| OpDel (fd : Z)
| OpDelClose (fd : Z).

Definition run_op (k : t) (o : op) : t :=
  match o with
  | OpAdd fd cb ev => add_fd_handler fd cb ev k
  | OpMod fd add remove => mod_fd_events fd add remove k
  | OpDel fd => del_fd fd k
  | OpDelClose fd => os_close fd (del_fd fd k)
  end.

(** The calls in the source register for reading, writing or both. *)
Definition op_ok (o : op) : Prop :=
  match o with
  | OpAdd _ _ ev => ev = EPOLLIN ∨ ev = EPOLLOUT ∨ ev = Z.lor EPOLLIN EPOLLOUT
  | OpMod _ add remove => 0 <= add
  | _ => True
  end.

Lemma run_op_wf k o : op_ok o → wf k → wf (run_op k o).
Proof.
  destruct o; cbn [op_ok run_op]; intros Ho Hw.
  - apply add_fd_handler_wf; [| |done]; destruct Ho as [->|[->| ->]];
      (by left) || (by right) || done.
  - by apply mod_fd_events_wf.
  - by apply del_fd_wf.
  - by apply del_close_wf.
Qed.

(** [C30] The kernel's view and epoll's never diverge: after any sequence of registrations,
    changes of interest, removals, and closes preceded by a removal, epoll watches exactly
    the registered descriptors that want some event, for exactly the events they want. *)
Theorem kernel_interest_exact (ops : list op) (fd : Z) :
  Forall op_ok ops →
  let k := foldl run_op new ops in
  interest k !! fd = (s ← handlers k !! fd; if events s =? 0 then None else Some (events s)).
Proof.
  intros Hf k. assert (wf k) as Hw.
  { subst k. generalize new new_wf. induction Hf as [|o ops Ho _ IH]; intros k Hk; [done|].
    cbn [foldl]. by apply IH, run_op_wf. }
  specialize (Hw fd). destruct (handlers k !! fd) as [s|]; [|done].
  destruct Hw as (_ & -> & _). done.
Qed.

(** A callback removed by an earlier callback of the same event is not called: when
    the EPOLLIN callback leaves the descriptor unregistered, the rest of the event only
    repeats the removal. *)
Theorem dispatch_respects_del {W : Type} (get : W → t) (put : t → W → W)
    (call : H → Z → Z → W → W) (wake_fd fd e : Z) (w : W) :
  handlers (get (dispatch_in get call fd e w)) !! fd = None → fd ≠ wake_fd →
  let w1 := dispatch_in get call fd e w in
  dispatch get put call wake_fd fd e w
  = if has e (Z.lor EPOLLERR EPOLLHUP) then put (del_fd fd (get w1)) w1 else w1.
Proof.
  intros Hn Hfd w1. unfold dispatch. rewrite (proj2 (Z.eqb_neq _ _) Hfd). fold w1 in Hn |- *.
  unfold dispatch_out, dispatch_hup. rewrite Hn. destruct (has e EPOLLOUT); by rewrite Hn.
Qed.

(** Closing a descriptor without removing it leaves its callback behind: when the
    system hands out the same number again and the new owner registers for reading, it is
    watched for writing too, with the old owner's callback. ([setup_tunnel_target_async],
    [handle_connect_cancel] and [check_pending_connect_timeout] close so.) *)
Theorem close_without_del_leaks_callback (fd : Z) (old_cb new_cb : H) (k : t) :
  handlers k !! fd = None → interest k !! fd = None →
  let k' := add_fd_handler fd new_cb EPOLLIN
              (os_close fd (add_fd_handler fd old_cb EPOLLOUT k)) in
  handlers k' !! fd = Some (mkFd (Some new_cb) (Some old_cb) (Z.lor EPOLLOUT EPOLLIN))
  ∧ interest k' !! fd = Some (Z.lor EPOLLOUT EPOLLIN).
Proof.
  intros Hh Hi k'. subst k'. unfold add_fd_handler, os_close, epoll_ctl.
  rewrite Hh, Hi. cbn [handlers interest]. rewrite lookup_insert_eq, lookup_delete_eq.
  cbn [handlers interest fst]. by rewrite !lookup_insert_eq.
Qed.

End kernel.
Arguments FdState : clear implicits.
Arguments t : clear implicits.
Arguments op : clear implicits.

Definition sample_ops : list (op nat) :=
  [OpAdd 5 1%nat EPOLLIN; OpAdd 5 2%nat EPOLLOUT; OpMod 5 0 EPOLLIN; OpMod 5 0 EPOLLOUT;
   OpMod 5 EPOLLIN 0; OpAdd 6 3%nat EPOLLIN; OpDelClose 6].

Lemma kernel_interest_exact_witness :
  let k := foldl run_op new sample_ops in
  interest k !! 5 = (s ← handlers k !! 5; if events s =? 0 then None else Some (events s)).
Proof.
  apply (kernel_interest_exact sample_ops 5).
  repeat constructor; (by left) || (by right; left) || done.
Defined.

(** A world that is just the kernel, and a callback that removes its descriptor. *)
Definition removing (h : nat) (fd ev : Z) (k : t nat) : t nat := del_fd fd k.

Lemma dispatch_respects_del_witness :
  let k := add_fd_handler 5 1%nat EPOLLOUT (add_fd_handler 5 0%nat EPOLLIN new) in
  dispatch id (λ k _, k) removing 3 5 (Z.lor EPOLLIN EPOLLOUT) k
  = dispatch_in id removing 5 (Z.lor EPOLLIN EPOLLOUT) k.
Proof.
  intros k. exact (dispatch_respects_del id (λ k _, k) removing 3 5 (Z.lor EPOLLIN EPOLLOUT) k
                     eq_refl ltac:(done)).
Defined.

Lemma close_without_del_leaks_callback_witness :
  interest (add_fd_handler 5 1%nat EPOLLIN (os_close 5 (add_fd_handler 5 0%nat EPOLLOUT new))) !! 5
  = Some 5.
Proof.
  exact (proj2 (close_without_del_leaks_callback 5 0%nat 1%nat new eq_refl eq_refl)).
Defined.

End Kernel.
