(* ===== verification/EventLoop.v ===== *)
(** * Running the event loop (core/kernel.cpp)

    [Kernel] has the table of callbacks and the dispatch of one event; here is the loop
    around it: waiting, the tick callback, stopping, and the eventfd by which the workers
    of the pool wake it. *)

From coqutil Require Import Datatypes.RecordSetters.
From S2P Require Import Prelude Kernel.
Import DoubleBraceUpdate.
Local Open Scope Z_scope.

Module EventLoop.

(** ** The loop *)

Definition MAX_EVENTS : nat := 64.

(** What [epoll_wait] returns: interrupted by a signal, another error, or events. *)
Inductive waitres := WIntr | WErr | WEvents (evs : list (Z * Z)).

Section loop.
(** The program's world [W] holds the kernel's table; callbacks and the tick run in it. *)
Context {H W : Type} (get : W → Kernel.t H) (put : Kernel.t H → W → W).
Context (call : H → Z → Z → W → W) (tick : option (W → W)) (wake_fd : Z).

(** [running_] and [stop_requested_] with the world. *)
Record State := mkState { world : W; running : bool; stop_requested : bool }.

(** Callbacks may stop the loop: after each of them the flags may have changed. *)
Context (stops : W → bool).

Definition after (w : W) (s : State) : State :=
  mkState w (running s) (stop_requested s || stops w).

Definition run_tick (s : State) : State :=
  match tick with Some f => after (f (world s)) s | None => s end.

Definition run_event (s : State) (ev : Z * Z) : State :=
  after (Kernel.dispatch get put call wake_fd ev.1 ev.2 (world s)) s.

(** One round after [epoll_wait] returned: the tick first, then every event. *)
Definition round (evs : list (Z * Z)) (s : State) : State := foldl run_event (run_tick s) evs.

(** The loop for the given results of [epoll_wait]; [false] when it is still running after
    the last of them. *)
Fixpoint event_loop (ws : list waitres) (s : State) : State * bool :=
  if running s && negb (stop_requested s) then
    match ws with
    | [] => (s, false)
    | WIntr :: rest => event_loop rest s
    | WErr :: _ => (mkState (world s) false (stop_requested s), true)
    | WEvents evs :: rest => event_loop rest (round evs s)
    end
  else (mkState (world s) false (stop_requested s), true).

Definition start (ws : list waitres) (s : State) : State * bool :=
  if running s then (s, true)
  else event_loop ws (mkState (world s) true (stop_requested s)).

Definition request_stop (s : State) : State := mkState (world s) (running s) true.

(** [stop]; the pool is stopped as well, see [ThreadPool.stop_step]. *)
Definition stop (s : State) : State := mkState (world s) false true.

(** ** Stopping *)

Lemma after_stop w s : stop_requested s = true → stop_requested (after w s) = true.
Proof. unfold after. cbn. by intros ->. Qed.

Lemma round_keeps_stop evs s : stop_requested s = true → stop_requested (round evs s) = true.
Proof.
  intros Hs. unfold round.
  assert (stop_requested (run_tick s) = true) as Ht.
  { unfold run_tick. destruct tick; [by apply after_stop|done]. }
  revert Ht. generalize (run_tick s). clear Hs.
  induction evs as [|ev evs IH]; intros s0 Ht; cbn; [done|]. apply IH. by apply after_stop.
Qed.

(** Once a stop is requested, by a signal, the tick or a callback, the loop ends with that
    round: it waits no more and returns. *)
Theorem stop_ends_loop evs ws s :
  stop_requested (round evs s) = true →
  event_loop (WEvents evs :: ws) s =
    if running s && negb (stop_requested s)
    then (mkState (world (round evs s)) false true, true)
    else (mkState (world s) false (stop_requested s), true).
Proof.
  intros Hs. cbn [event_loop]. destruct (_ && _); [|done].
  destruct ws as [|r ws]; cbn [event_loop]; rewrite Hs, andb_false_r; done.
Qed.

(** [stop_requested_] is never cleared: a loop started after it was set ends at once. *)
Theorem restart_ends_at_once ws s : stop_requested s = true → running s = false →
  start ws s = (mkState (world s) false true, true).
Proof. intros Hs Hr. unfold start. rewrite Hr. destruct ws; cbn; by rewrite Hs. Qed.

End loop.

(** ** Waking the loop

    A worker leaves work for the loop's thread (a closure in [pending_io_]) and calls
    [wakeup]. [wake] is the counter of the eventfd: [wakeup] adds one, the drain in the loop
    reads it to zero. *)

Inductive phase :=
| PWait                      (* in [epoll_wait] *)
| PTick (woken : bool)       (* returned; [woken]: the eventfd is among the events *)
| PEvents (woken : bool).    (* the tick has run *)

Record Loop := mkLoop { at_ : phase; wake : Z; work : list nat; handled : list nat }.

(** [wakeup] writes 1 to the eventfd (a write that would overflow the counter fails, and is
    ignored); the loop reads it until nothing is left. *)
Definition wakeup (n : Z) : Z := if n <? 2 ^ 64 - 2 then n + 1 else n.
Definition drain_wake (n : Z) : Z := 0.

Definition new_loop : Loop := mkLoop PWait 0 [] [].

Inductive action := AWork (j : nat) | ATimeout | AReturn | ATick | AEvents.

#[export] Instance action_eq_dec : EqDecision action.
Proof. solve_decision. Defined.

(** [AReturn]: [epoll_wait] returns because the eventfd is readable; [ATimeout]: because 50
    ms have passed or another event came. *)
Definition do (a : action) (l : Loop) : option Loop :=
  match a, at_ l with
  | AWork j, _ => Some (l{{work ::= λ w, w ++ [j]; wake ::= wakeup}})
  | ATimeout, PWait => Some (l{{at_ := PTick (0 <? wake l)}})
  | AReturn, PWait => if 0 <? wake l then Some (l{{at_ := PTick true}}) else None
  | ATick, PTick b => Some (l{{at_ := PEvents b; handled ::= λ h, h ++ work l; work := [] }})
  | AEvents, PEvents b => Some (l{{at_ := PWait; wake ::= if (b : bool) then drain_wake else id}})
  | _, _ => None
  end.

Fixpoint run (as_ : list action) (l : Loop) : option Loop :=
  match as_ with
  | [] => Some l
  | a :: rest => l' ← do a l; run rest l'
  end.

(** The ticks in a run. *)
Definition ticks (as_ : list action) : nat :=
  length (List.filter (λ a, match a with ATick => true | _ => false end) as_).

Lemma do_work a l l' : do a l = Some l' →
  ∃ m, handled l' ++ work l' = handled l ++ work l ++ m
    ∧ (a = ATick → handled l' = handled l ++ work l)
    ∧ (length (handled l) <= length (handled l'))%nat.
Proof.
  destruct l as [p w j h]. destruct a, p; cbn; try done; try (case_match; [|done]); intros [= <-]; cbn;
    unfold constant.
  1-3: by exists [j0].
  1-2, 4: exists []; by rewrite app_nil_r.
  exists []. rewrite !app_nil_r. split_and!; [done|done|]. rewrite length_app. lia.
Qed.

Lemma run_work as_ : ∀ l l', run as_ l = Some l' →
  ∃ m, handled l' ++ work l' = handled l ++ work l ++ m
    ∧ (length (handled l) <= length (handled l'))%nat
    ∧ ((1 <= ticks as_)%nat → (length (handled l ++ work l) <= length (handled l'))%nat).
Proof.
  induction as_ as [|a rest IH]; intros l l'; cbn [run].
  - intros [= <-]. exists []. rewrite app_nil_r. split_and!; [done|done|cbn; lia].
  - intros (l1 & E & Hr)%bind_Some. destruct (IH _ _ Hr) as (m2 & H2 & Hl2 & Ht2).
    destruct (do_work _ _ _ E) as (m1 & H1 & Hk & Hl1). exists (m1 ++ m2).
    split_and!; [by rewrite H2, app_assoc, H1, !app_assoc|lia|].
    intros Ht. destruct (decide (a = ATick)) as [Ha|Ha].
    + rewrite <- (Hk Ha). done.
    + assert (1 <= ticks rest)%nat as Ht' by (unfold ticks in *; cbn in Ht; by destruct a).
      specialize (Ht2 Ht').
      assert (length (handled l ++ work l) <= length (handled l1 ++ work l1))%nat
        by (rewrite H1, !length_app; lia). lia.
Qed.

(** Work left for the loop by another thread is done by the next tick: whatever is
    interleaved, after one round (at most 50 ms of waiting) everything left before it has
    been handled, once and in the order in which it was left. *)
Theorem work_done_by_next_tick as_ l l' :
  run as_ l = Some l' → (1 <= ticks as_)%nat → handled l ++ work l `prefix_of` handled l'.
Proof.
  intros Hr Ht. destruct (run_work _ _ _ Hr) as (m & H & _ & Hlen). specialize (Hlen Ht).
  rewrite app_assoc in H.
  destruct (prefix_weak_total (handled l ++ work l) (handled l') (handled l' ++ work l')) as [Hp|Hp].
  - rewrite H. by apply prefix_app_r.
  - by apply prefix_app_r.
  - done.
  - apply prefix_length_eq in Hp as Heq; [by rewrite Heq|done].
Qed.

Lemma work_done_by_next_tick_witness :
  ∃ l', run [AWork 1; AReturn; ATick; AWork 2; AEvents] (mkLoop PWait 0 [5] [4])%nat = Some l'
    ∧ [4; 5]%nat `prefix_of` handled l'.
Proof.
  eexists. split; [reflexivity|].
  apply (work_done_by_next_tick [AWork 1; AReturn; ATick; AWork 2; AEvents] (mkLoop PWait 0 [5] [4])%nat);
    [reflexivity|cbn; lia].
Defined.

(** A wake-up can be lost: the tick runs before the eventfd is read, so that work left
    between the two has its wake-up consumed without being done; the loop then waits, and
    only the time-out or an unrelated event makes it go on. *)
Theorem wakeup_can_be_lost :
  ∃ as_ l, run as_ new_loop = Some l ∧ at_ l = PWait ∧ work l ≠ [] ∧ do AReturn l = None.
Proof.
  exists [AWork 1; AReturn; ATick; AWork 2; AEvents]%nat. eexists. by split; [reflexivity|].
Qed.

(** ** Creation and end of the kernel

    The descriptors of epoll and of the eventfd, as [epoll_create1] and [eventfd] return
    them; a negative number is a failure, which the constructor logs and survives. *)

Record Fds := mkFds { epoll_fd : Z; wake_fd : Z }.

Section life.
Context {H : Type}.

Definition kernel_new (epoll eventfd : Z) : Fds * Kernel.t H :=
  (mkFds epoll eventfd,
   if (eventfd <? 0) || (epoll <? 0) then Kernel.new
   else Kernel.mkK ∅ (Kernel.epoll_ctl Kernel.CtlAdd eventfd EPOLLIN ∅).1).

(** The descriptors the destructor closes. *)
Definition kernel_end (f : Fds) : list Z :=
  (if 0 <=? wake_fd f then [wake_fd f] else []) ++ (if 0 <=? epoll_fd f then [epoll_fd f] else []).

(** The descriptor an operation is about. *)
Definition op_fd (o : Kernel.op H) : Z :=
  match o with
  | Kernel.OpAdd fd _ _ | Kernel.OpMod fd _ _ | Kernel.OpDel fd | Kernel.OpDelClose fd => fd
  end.

(** The list with the eventfd in it. *)
Definition watch (w e : Z) (k : Kernel.t H) : Kernel.t H :=
  Kernel.mkK (Kernel.handlers k) (<[w := e]> (Kernel.interest k)).

Lemma ctl_watch op fd ev w e m : fd ≠ w →
  Kernel.epoll_ctl op fd ev (<[w := e]> m) = (<[w := e]> (Kernel.epoll_ctl op fd ev m).1, (Kernel.epoll_ctl op fd ev m).2).
Proof.
  intros Hne. unfold Kernel.epoll_ctl. rewrite lookup_insert_ne by done.
  destruct op, (m !! fd); cbn; try done; f_equal;
    by rewrite ?(insert_insert_ne m fd w), ?delete_insert_ne by done.
Qed.

Lemma run_op_watch o w e k : op_fd o ≠ w → Kernel.run_op (watch w e k) o = watch w e (Kernel.run_op k o).
Proof.
  intros Hne. unfold watch. destruct o as [fd cb ev|fd a r|fd|fd]; cbn [op_fd Kernel.run_op] in *.
  - unfold Kernel.add_fd_handler. cbn [Kernel.handlers Kernel.interest]. rewrite ctl_watch by done.
    destruct (Kernel.epoll_ctl Kernel.CtlAdd _ _ _) as [m [[]|]]; cbn -[Kernel.epoll_ctl]; [by rewrite ctl_watch|done..].
  - unfold Kernel.mod_fd_events. cbn [Kernel.handlers Kernel.interest]. destruct (Kernel.handlers k !! fd); [|done].
    rewrite !ctl_watch by done. by repeat case_match.
  - unfold Kernel.del_fd. cbn [Kernel.handlers Kernel.interest]. by rewrite ctl_watch.
  - unfold Kernel.os_close, Kernel.del_fd. cbn [Kernel.handlers Kernel.interest]. rewrite ctl_watch by done.
    cbn. by rewrite delete_insert_ne.
Qed.

Lemma run_ops_watch ops w e : Forall (λ o, op_fd o ≠ w) ops →
  ∀ k, foldl Kernel.run_op (watch w e k) ops = watch w e (foldl Kernel.run_op k ops).
Proof. induction 1 as [|o ops Ho _ IH]; intros k; cbn; [done|]. by rewrite run_op_watch, IH. Qed.

(** The loop can always be woken: from the constructor on, whatever the program registers,
    changes and removes on its own descriptors, epoll watches the eventfd for reading; and
    at the end each of the two descriptors is closed once. *)
Theorem wake_stays_watched (epoll eventfd : Z) (ops : list (Kernel.op H)) :
  0 <= epoll → 0 <= eventfd → epoll ≠ eventfd → Forall (λ o, op_fd o ≠ eventfd) ops →
  let '(f, k) := kernel_new epoll eventfd in
  Kernel.interest (foldl Kernel.run_op k ops) !! eventfd = Some EPOLLIN
  ∧ NoDup (kernel_end f) ∧ (∀ fd, fd ∈ kernel_end f ↔ fd = epoll ∨ fd = eventfd).
Proof.
  intros He Hw Hne Hops. unfold kernel_new.
  rewrite !(proj2 (Z.ltb_ge _ _)) by done. cbn [orb]. split.
  - change (Kernel.mkK ∅ _) with (watch eventfd EPOLLIN (Kernel.new (H:=H))).
    rewrite run_ops_watch by done. apply lookup_insert_eq.
  - unfold kernel_end. cbn [wake_fd epoll_fd]. rewrite !(proj2 (Z.leb_le _ _)) by done. cbn. split.
    + apply NoDup_cons. split; [by rewrite list_elem_of_singleton|apply NoDup_singleton].
    + intros fd. set_solver.
Qed.

End life.

(** [wakeup] without an eventfd does nothing. *)
Definition wakeup_call (f : Fds) (n : Z) : Z := if 0 <=? wake_fd f then wakeup n else n.

Lemma wake_stays_watched_witness :
  Kernel.interest (foldl Kernel.run_op (kernel_new 3 4).2 [Kernel.OpAdd 5 0%nat EPOLLIN; Kernel.OpDelClose 5]) !! 4
  = Some EPOLLIN.
Proof.
  apply (wake_stays_watched (H:=nat) 3 4 [Kernel.OpAdd 5 0%nat EPOLLIN; Kernel.OpDelClose 5]); try done.
  by repeat constructor.
Defined.

End EventLoop.
