(* ===== verification/ThreadPool.v ===== *)
(** * The thread pool (core/thread_pool.h, core/thread_pool.cpp)

    Workers, the mutex, the condition variable and [stop] as interleaved steps. A label
    names who moves, and [exec] is that move, so that runs are lists of labels and can be
    evaluated. *)

From coqutil Require Import Datatypes.RecordSetters.
From S2P Require Import Prelude.
Import DoubleBraceUpdate.

Module ThreadPool.

(** Where a worker is in [worker_loop]. *)
Inductive pc {T : Type} :=
| Top                (* about to test [while (!shutdown_)] *)
| Lock               (* about to take [mtx_]: on entry, or woken inside [cv_.wait] *)
| Test               (* holds [mtx_], about to evaluate the predicate of the wait *)
| Sleep              (* holds [mtx_], the predicate was false, about to block *)
| Waiting            (* blocked on [cv_], which has released [mtx_] *)
| Deq                (* holds [mtx_], the predicate was true *)
| Got (t : T)        (* has taken a task and released [mtx_] *)
| Running (t : T)    (* in [task.fn()] *)
| Exited.
Arguments pc : clear implicits.

(** Where [stop] is. *)
Inductive stop_pc := NotStopping | Stored | Notified | Joined.

Section pool.
Context {T : Type}.

(** [notes] counts calls of [enqueue] between the release of the mutex and [notify_one].
    [arrived] and [begun] are the history: tasks enqueued, and tasks whose [fn] was
    entered. *)
Record Pool := mkPool {
  workers : list (pc T);
  mtx : option nat;
  queue : list T;
  shutdown : bool;
  stopper : stop_pc;
  notes : nat;
  arrived : list T;
  begun : list T
}.

Definition new : Pool := mkPool [] None [] false NotStopping 0 [] [].

Definition start (count : nat) (s : Pool) : Pool :=
  let count := if (count =? 0)%nat then 1%nat else count in
  s{{shutdown := false; workers ::= λ w, w ++ replicate count Top}}.

Definition pending (s : Pool) : nat := length (queue s).

Definition set_pc (i : nat) (p : pc T) (s : Pool) : Pool := s{{workers ::= <[i := p]>}}.

(** [enqueue]: the block under the lock; [notify_one] follows as a step of its own. *)
Definition enqueue (t : T) (s : Pool) : option Pool :=
  match mtx s with
  | Some _ => None
  | None => Some (s{{queue ::= λ q, q ++ [t]; notes ::= S; arrived ::= λ a, a ++ [t] }})
  end.

(** One step of [worker_loop] of worker [i]; none when it is blocked or has returned. *)
Definition worker_step (i : nat) (s : Pool) : option Pool :=
  match workers s !! i with
  | Some Top => Some (set_pc i (if shutdown s then Exited else Lock) s)
  | Some Lock =>
      match mtx s with
      | None => Some (set_pc i Test (s{{mtx := Some i}}))
      | Some _ => None
      end
  | Some Test =>
      let ready := shutdown s || match queue s with [] => false | _ => true end in
      Some (set_pc i (if ready then Deq else Sleep) s)
  | Some Sleep => Some (set_pc i Waiting (s{{mtx := None}}))
  | Some Deq =>
      if shutdown s then Some (set_pc i Exited (s{{mtx := None}}))
      else match queue s with
           | t :: q => Some (set_pc i (Got t) (s{{queue := q; mtx := None}}))
           | [] => None
           end
  | Some (Got t) => Some (set_pc i (Running t) (s{{begun ::= λ b, b ++ [t] }}))
  | Some (Running t) => Some (set_pc i Top s)
  | Some Waiting | Some Exited | None => None
  end.

Definition is_waiting (p : pc T) : bool := match p with Waiting => true | _ => false end.
Definition is_exited (p : pc T) : bool := match p with Exited => true | _ => false end.

(** [notify_one] wakes a waiting worker, if there is one. *)
Definition notify_one (who : option nat) (s : Pool) : option Pool :=
  match notes s with
  | O => None
  | S n =>
      match who with
      | Some i => match workers s !! i with
                  | Some Waiting => Some (set_pc i Lock (s{{notes := n}}))
                  | _ => None
                  end
      | None => if existsb is_waiting (workers s) then None else Some (s{{notes := n}})
      end
  end.

(** A wake-up without a reason, which the standard allows. *)
Definition spurious (i : nat) (s : Pool) : option Pool :=
  match workers s !! i with
  | Some Waiting => Some (set_pc i Lock s)
  | _ => None
  end.

(** [stop]: the store, [notify_all], the joins with [workers_.clear()]. *)
Definition wake (p : pc T) : pc T := if is_waiting p then Lock else p.

Definition stop_step (s : Pool) : option Pool :=
  match stopper s with
  | NotStopping => Some (s{{shutdown := true; stopper := Stored}})
  | Stored => Some (s{{workers ::= map wake; stopper := Notified}})
  | Notified => if forallb is_exited (workers s)
                then Some (s{{workers := []; stopper := Joined}}) else None
  | Joined => None
  end.

Inductive label := LEnqueue (t : T) | LNotify (who : option nat) | LWorker (i : nat)
                 | LSpurious (i : nat) | LStop.

Definition exec (l : label) (s : Pool) : option Pool :=
  match l with
  | LEnqueue t => enqueue t s
  | LNotify who => notify_one who s
  | LWorker i => worker_step i s
  | LSpurious i => spurious i s
  | LStop => stop_step s
  end.

Fixpoint run (ls : list label) (s : Pool) : option Pool :=
  match ls with
  | [] => Some s
  | l :: rest => s' ← exec l s; run rest s'
  end.

Inductive reachable (count : nat) : Pool → Prop :=
| reach_start : reachable count (start count new)
| reach_step l s s' : reachable count s → exec l s = Some s' → reachable count s'.

(** Steps the pool takes by itself: workers and the notifications under way. *)
Definition internal (l : label) : Prop :=
  match l with LWorker _ | LNotify _ => True | _ => False end.

Definition stuck (s : Pool) : Prop := ∀ l, internal l → exec l s = None.

(** ** Invariant *)

Definition holds (p : pc T) : bool :=
  match p with Test | Sleep | Deq => true | _ => false end.
Definition awake (p : pc T) : bool :=
  match p with Top | Lock | Test | Deq | Got _ | Running _ => true | _ => false end.

(** The mutex is held by the worker that is in a critical section. *)
Definition holder (m : option nat) (ws : list (pc T)) : Prop :=
  ∀ i, m = Some i ↔ ∃ p, ws !! i = Some p ∧ holds p = true.

Record Inv (s : Pool) : Prop := {
  i_mtx : holder (mtx s) (workers s);
  i_sleep : ∀ i, workers s !! i = Some Sleep → queue s = [];
  i_deq : ∀ i, workers s !! i = Some Deq → queue s ≠ [] ∨ shutdown s = true;
  i_exit : ∀ i, workers s !! i = Some Exited → shutdown s = true;
  i_stop : stopper s ≠ NotStopping → shutdown s = true;
  i_some : shutdown s = false → workers s ≠ [];
  i_awake : shutdown s = false → queue s ≠ [] →
    (0 < notes s)%nat ∨ ∃ i p, workers s !! i = Some p ∧ awake p = true
}.

Lemma holder_set m m' ws i p0 p :
  holder m ws → ws !! i = Some p0 →
  m' = (if holds p then Some i else if holds p0 then None else m) →
  (holds p = true → holds p0 = true ∨ m = None) → holder m' (<[i := p]> ws).
Proof.
  intros Hm Hi -> Hp j. pose proof (Hm j) as Hj. pose proof (Hm i) as Hmi.
  assert (Hlt : (i < length ws)%nat) by (by eapply lookup_lt_Some).
  assert (Hmi' : holds p0 = true → m = Some i) by (intros; apply Hmi; eauto).
  destruct (decide (j = i)) as [->|Hne].
  - rewrite list_lookup_insert_eq by done. destruct (holds p) eqn:Ep; [split; [eauto|done]|].
    split; [|intros (p1 & [= <-] & Hh); congruence].
    destruct (holds p0) eqn:Ep0; [done|]. intros (q & Hq & Hh)%Hmi. congruence.
  - rewrite list_lookup_insert_ne by done. rewrite <- Hj.
    destruct (holds p) eqn:Ep.
    + destruct (Hp eq_refl) as [Hp'| ->]; [rewrite (Hmi' Hp')|]; split; congruence.
    + destruct (holds p0) eqn:Ep0; [rewrite Hmi' by done; split; congruence|done].
Qed.

Lemma new_inv count : Inv (start count new).
Proof.
  assert (Hl : ∀ i p, replicate (if (count =? 0)%nat then 1%nat else count) Top !! i = Some p → p = (Top : pc T)).
  { intros i p [? _]%lookup_replicate. done. }
  unfold start, new. constructor; cbn.
  - intros i. split; [done|]. intros (p & Hp%Hl & Hh). by subst.
  - done.
  - intros i Hi%Hl. done.
  - intros i Hi%Hl. done.
  - done.
  - intros _. by destruct count.
  - done.
Qed.

(** The fields other than [i_mtx] after worker [i] moves from [p0] to [p]. *)
Lemma set_inv (s s' : Pool) i p0 p :
  Inv s → workers s !! i = Some p0 → workers s' = <[i := p]> (workers s) →
  mtx s' = (if holds p then Some i else if holds p0 then None else mtx s) →
  (holds p = true → holds p0 = true ∨ mtx s = None) →
  shutdown s' = shutdown s → stopper s' = stopper s →
  (queue s' = queue s ∨ holds p0 = true ∧ holds p = false) →
  (p = Sleep → queue s' = []) → (p = Deq → queue s' ≠ [] ∨ shutdown s = true) →
  (p = Exited → shutdown s = true) →
  (shutdown s = false → queue s' ≠ [] → (0 < notes s')%nat ∨ awake p = true
    ∨ notes s' = notes s ∧ awake p0 = false ∧ queue s' = queue s) →
  Inv s'.
Proof.
  intros HI Hi Hw Hm Hh Hsd Hst Hq Hsl Hdq Hex Haw.
  assert (Hlt : (i < length (workers s))%nat) by (by eapply lookup_lt_Some).
  assert (Hother : ∀ j q, workers s !! j = Some q → holds q = true → j ≠ i → queue s' = queue s).
  { intros j q Hj Hhq Hne. destruct Hq as [|[Hp0 _]]; [done|].
    pose proof (proj2 (i_mtx s HI j) (ex_intro _ q (conj Hj Hhq))).
    pose proof (proj2 (i_mtx s HI i) (ex_intro _ p0 (conj Hi Hp0))). congruence. }
  constructor; rewrite ?Hw, ?Hsd, ?Hst.
  - rewrite Hm. eapply holder_set; eauto using i_mtx.
  - intros j [(-> & -> & _)|[Hne Hj]]%list_lookup_insert_Some; [auto|].
    rewrite (Hother j Sleep) by done. by eapply i_sleep.
  - intros j [(-> & -> & _)|[Hne Hj]]%list_lookup_insert_Some; [auto|].
    rewrite (Hother j Deq) by done. by eapply i_deq.
  - intros j [(-> & -> & _)|[Hne Hj]]%list_lookup_insert_Some; [auto|]. by eapply i_exit.
  - by apply i_stop.
  - intros Hs Hn. apply (i_some s HI Hs). rewrite <- length_zero_iff_nil, length_insert in Hn.
    by apply length_zero_iff_nil.
  - intros Hs Hne. destruct (Haw Hs Hne) as [|[Ha|(Hn & Ha & Hqs)]]; [by left| |].
    + right. exists i, p. split; [by apply list_lookup_insert_eq|done].
    + rewrite Hn. rewrite Hqs in Hne. destruct (i_awake s HI Hs Hne) as [|(j & q & Hj & Hqa)]; [by left|].
      right. exists j, q. split; [|done]. rewrite list_lookup_insert_ne; [done|]. intros ->. congruence.
Qed.

Ltac pool_step H := injection H as <-;
  eapply set_inv; [eassumption|eassumption|reflexivity|..]; cbn; auto; try congruence.

Lemma worker_inv i s s' : Inv s → worker_step i s = Some s' → Inv s'.
Proof.
  intros HI. unfold worker_step, set_pc. destruct (workers s !! i) as [p0|] eqn:Ei; [|done].
  destruct p0; try done.
  - intros H. destruct (shutdown s) eqn:Es; pool_step H.
  - destruct (mtx s) eqn:Em; [done|]. intros H. pool_step H.
  - intros H. assert (Hm : mtx s = Some i) by (apply (i_mtx s HI); eauto).
    destruct (shutdown s) eqn:Es, (queue s) eqn:Eq; cbn [orb] in H; pool_step H; intros; try congruence;
      left; unfold queue in *; congruence.
  - intros H. pose proof (i_sleep s HI i Ei) as Hq. pool_step H.
  - destruct (shutdown s) eqn:Es.
    + intros H. pool_step H.
    + destruct (queue s); [done|]. intros H. pool_step H.
  - intros H. pool_step H.
  - intros H. pool_step H.
Qed.

Lemma stop_inv s s' : Inv s → stop_step s = Some s' → Inv s'.
Proof.
  intros HI. pose proof (i_stop s HI) as Hsd. destruct HI, s as [ws m q sd st nt ar bg].
  unfold stop_step. cbn in *. destruct st; [| | |done].
  - intros [= <-]. constructor; cbn; auto; done.
  - intros [= <-]. rewrite Hsd in * by done.
    assert (Hl : ∀ i p, map wake ws !! i = Some p → p ≠ Lock → ws !! i = Some p).
    { intros i p Hi Hn. apply list_lookup_fmap_Some in Hi as (r & -> & Hr). by destruct r. }
    constructor; cbn; auto; try done.
    + intros i. rewrite (i_mtx0 i). setoid_rewrite list_lookup_fmap_Some. split.
      * intros (p & Hp & Hh). exists p. split; [|done]. exists p. by destruct p.
      * intros (p & (r & -> & Hr) & Hh). exists r. by destruct r.
    + intros i Hi. by eapply i_sleep0, Hl.
  - rewrite Hsd in * by done. destruct (forallb _ _) eqn:Ef; [|done]. intros [= <-].
    assert (m = None) as ->.
    { destruct m as [i|]; [|done]. destruct (proj1 (i_mtx0 i) eq_refl) as (p & Hp & Hh).
      rewrite forallb_forall in Ef. apply list_elem_of_lookup_2, list_elem_of_In, Ef in Hp. by destruct p. }
    constructor; cbn; try done. intros i. split; [done|]. intros (p & Hp & _). done.
Qed.

Lemma exec_inv l s s' : Inv s → exec l s = Some s' → Inv s'.
Proof.
  intros HI. destruct l as [t|who|i|i|]; cbn.
  - unfold enqueue. destruct (mtx s) eqn:Em; [done|]. intros [= <-].
    assert (Hno : ∀ i p, workers s !! i = Some p → holds p = false).
    { intros i p Hi. destruct (holds p) eqn:Eh; [|done].
      pose proof (proj2 (i_mtx s HI i) (ex_intro _ p (conj Hi Eh))). congruence. }
    destruct HI. constructor; cbn; try done.
    + intros i Hi. by apply Hno in Hi.
    + intros i Hi. by apply Hno in Hi.
    + intros _ _. left. lia.
  - unfold notify_one. destruct (notes s) as [|n] eqn:En; [done|]. destruct who as [i|].
    + destruct (workers s !! i) as [[]|] eqn:Ei; try done. intros H. unfold set_pc in H. pool_step H.
    + destruct (existsb _ _) eqn:Ew; [done|]. intros [= <-].
      destruct HI, s as [ws m q sd st nt ar bg]. cbn in *. constructor; cbn; try done.
      intros Hs Hq. right. specialize (i_some0 Hs). destruct ws as [|p ws]; [done|].
      exists 0%nat, p. split; [done|]. destruct p; try done.
      * by pose proof (i_sleep0 0%nat eq_refl).
      * pose proof (i_exit0 0%nat eq_refl). congruence.
  - by apply worker_inv.
  - unfold spurious. destruct (workers s !! i) as [[]|] eqn:Ei; try done. intros H. unfold set_pc in H. pool_step H.
  - by apply stop_inv.
Qed.

Lemma pool_reachable_inv count s : reachable count s → Inv s.
Proof. induction 1; [apply new_inv|by eapply exec_inv]. Qed.

(** ** The history *)

(** Tasks taken from the queue whose [fn] was not entered yet. *)
Definition held_pc (p : pc T) : list T := match p with Got t => [t] | _ => [] end.
Definition held (ws : list (pc T)) : list T := concat (map held_pc ws).
#[local] Arguments held : simpl never.

Lemma held_split ws i p : ws !! i = Some p →
  held ws = held (take i ws) ++ held_pc p ++ held (drop (S i) ws).
Proof.
  intros Hi. rewrite <- (take_drop_middle ws i p Hi) at 1. unfold held.
  by rewrite map_app, concat_app.
Qed.

Lemma held_insert ws i p q : ws !! i = Some p →
  held (<[i := q]> ws) = held (take i ws) ++ held_pc q ++ held (drop (S i) ws).
Proof.
  intros Hi. assert (i < length ws)%nat by (by eapply lookup_lt_Some).
  rewrite insert_take_drop by done. unfold held. by rewrite map_app, concat_app.
Qed.

Lemma held_insert_same ws i p q : ws !! i = Some p → held_pc q = held_pc p →
  held (<[i := q]> ws) = held ws.
Proof. intros Hi E. by rewrite (held_insert ws i p q), (held_split ws i p), E. Qed.

(** Every task enqueued is in one place. *)
Definition accounted (s : Pool) : Prop :=
  Permutation (arrived s) (begun s ++ held (workers s) ++ queue s).

(** A worker's step, as far as tasks are concerned: it takes the first task of the queue,
    enters the task it holds, or does neither. *)
Lemma worker_tasks i s s' : worker_step i s = Some s' →
  arrived s' = arrived s ∧ length (workers s') = length (workers s) ∧ stopper s' = stopper s ∧
  ((∃ t p, workers s !! i = Some p ∧ held_pc p = [] ∧ queue s = t :: queue s' ∧ begun s' = begun s
      ∧ workers s' = <[i := Got t]> (workers s))
   ∨ (∃ t, workers s !! i = Some (Got t) ∧ queue s' = queue s ∧ begun s' = begun s ++ [t]
      ∧ workers s' = <[i := Running t]> (workers s))
   ∨ (queue s' = queue s ∧ begun s' = begun s ∧ held (workers s') = held (workers s))).
Proof.
  unfold worker_step, set_pc. destruct s as [ws m q sd st nt ar bg]. cbn.
  destruct (ws !! i) as [p|] eqn:Ei; [|done].
  destruct p; cbn; try done; repeat case_match; try done; intros [= <-]; cbn;
    (split_and!; [done|apply length_insert|done|]).
  all: try (right; right; split_and!; [done|done|by eapply held_insert_same]).
  - left. by exists t, Deq.
  - right. left. by exists t.
Qed.

Lemma map_wake_held ws : held (map wake ws) = held ws.
Proof.
  unfold held. f_equal. rewrite map_map. apply map_ext. intros p. by destruct p.
Qed.

Lemma exec_accounted l s s' : accounted s → exec l s = Some s' → accounted s'.
Proof.
  unfold accounted. intros Ha. destruct l as [t|who|i|i|]; cbn.
  - unfold enqueue. destruct (mtx s); [done|]. intros [= <-]. cbn. by rewrite Ha, !app_assoc.
  - unfold notify_one, set_pc. destruct s as [ws m q sd st nt ar bg]; cbn in *.
    repeat case_match; try done; intros [= <-]; try exact Ha. cbn.
    by erewrite (held_insert_same _ _ Waiting).
  - intros (Har & _ & _ & [(t & p & Hi & Hp & Hq & Hb & Hw)|[(t & Hi & Hq & Hb & Hw)|(Hq & Hb & Hh)]])%worker_tasks.
    + rewrite Har, Ha, Hb, Hw, (held_insert _ _ _ _ Hi), (held_split _ _ _ Hi), Hp, Hq. cbn.
      solve_Permutation.
    + rewrite Har, Ha, Hb, Hw, (held_insert _ _ _ _ Hi), (held_split _ _ _ Hi), Hq. cbn.
      solve_Permutation.
    + by rewrite Har, Ha, Hb, Hh, Hq.
  - unfold spurious, set_pc. destruct s as [ws m q sd st nt ar bg]; cbn in *.
    repeat case_match; try done; intros [= <-]; cbn. by erewrite (held_insert_same _ _ Waiting).
  - unfold stop_step. destruct s as [ws m q sd st nt ar bg]; cbn in *.
    repeat case_match; try done; intros [= <-]; cbn; [done|by rewrite map_wake_held|].
    assert (held ws = []) as E; [|by rewrite E in Ha].
    match goal with H : forallb _ _ = true |- _ => rename H into Hf end.
    unfold held. clear -Hf. induction ws as [|p ws IH]; [done|]. cbn in *.
    apply andb_prop in Hf as [Hp Hf]. rewrite IH by done. by destruct p.
Qed.

Lemma reachable_accounted count s : reachable count s → accounted s.
Proof.
  induction 1; [|by eapply exec_accounted]. unfold accounted, start, new, held. cbn.
  set (n := if (count =? 0)%nat then _ else _). clearbody n. by induction n.
Qed.

(** ** The pool drains its queue *)

(** A bound on the steps that are left: each internal step lowers it. *)
Definition pc_effort (p : pc T) : nat :=
  match p with
  | Got _ => 7 | Running _ => 6 | Top => 5 | Lock => 4 | Test => 3 | Sleep => 2 | Deq => 2
  | Waiting => 0 | Exited => 0
  end.

Definition effort (s : Pool) : nat :=
  sum_list_with pc_effort (workers s) + 10 * length (queue s) + 5 * notes s.

Lemma internal_effort l s s' : internal l → exec l s = Some s' → (effort s' < effort s)%nat.
Proof.
  destruct l as [t|who|i|i|]; cbn; try done; intros _.
  - unfold notify_one, set_pc. destruct s as [ws m q sd st nt ar bg]; cbn.
    repeat case_match; try done; intros [= <-]; unfold effort;
      cbn -[Nat.mul sum_list_with insert]; unfold constant; try lia.
    match goal with Hi : ws !! _ = Some _ |- _ => pose proof (sum_insert pc_effort _ _ _ Lock Hi) end.
    cbn -[Nat.mul sum_list_with insert] in *. lia.
  - unfold worker_step, set_pc. destruct s as [ws m q sd st nt ar bg]; cbn.
    destruct (ws !! i) as [p|] eqn:Ei; [|done].
    destruct p; try done; repeat case_match; try done; intros [= <-]; unfold effort;
      cbn -[Nat.mul sum_list_with insert]; unfold constant;
      match goal with |- context [<[i := ?x]> ws] => pose proof (sum_insert pc_effort _ _ _ x Ei) end;
      cbn -[Nat.mul sum_list_with insert] in *; lia.
Qed.

Lemma internal_run_effort ls : ∀ s s', Forall internal ls → run ls s = Some s' →
  (length ls + effort s' <= effort s)%nat.
Proof.
  induction ls as [|l ls IH]; intros s s' Hi; cbn [run]; [intros [= <-]; cbn; lia|].
  apply Forall_cons in Hi as [Hl Hi]. intros (s1 & E & Hr)%bind_Some.
  specialize (IH _ _ Hi Hr). apply internal_effort in E; [|done]. cbn. lia.
Qed.

Lemma internal_run_keeps ls : ∀ s s', Forall internal ls → run ls s = Some s' →
  shutdown s' = shutdown s ∧ arrived s' = arrived s.
Proof.
  induction ls as [|l ls IH]; intros s s' Hi; cbn [run]; [by intros [= <-]|].
  apply Forall_cons in Hi as [Hl Hi]. intros (s1 & E & Hr)%bind_Some.
  destruct (IH _ _ Hi Hr) as [-> ->]. destruct l as [t|who|i|i|]; cbn in *; try done.
  - unfold notify_one, set_pc in E. repeat case_match; simplify_eq; done.
  - split; [|by destruct (worker_tasks _ _ _ E)].
    unfold worker_step, set_pc in E. repeat case_match; simplify_eq; cbn; done.
Qed.

Lemma run_reachable count ls : ∀ s s', reachable count s → run ls s = Some s' → reachable count s'.
Proof.
  induction ls as [|l ls IH]; intros s s' Hs; cbn [run]; [by intros [= <-]|].
  intros (s1 & E & Hr)%bind_Some. eapply IH, Hr. by eapply reach_step.
Qed.

(** When nothing moves, every worker waits for work and there is none. *)
Lemma stuck_idle s : Inv s → shutdown s = false → stuck s →
  queue s = [] ∧ Forall (λ p, p = Waiting) (workers s).
Proof.
  intros HI Hsd Hst. destruct s as [ws m q sd st nt ar bg]. cbn in *.
  assert (Hworker : ∀ i p, ws !! i = Some p → p = Waiting).
  { intros i p Hi. pose proof (Hst (LWorker i) I) as Hw. cbn in Hw. unfold worker_step in Hw.
    cbn in Hw. rewrite Hi in Hw. destruct p; try done.
    - destruct m as [j|]; [|done]. destruct (proj1 (i_mtx _ HI j) eq_refl) as (pj & Hj & Hh). cbn in Hj.
      pose proof (Hst (LWorker j) I) as Hwj. cbn in Hwj. unfold worker_step in Hwj. cbn in Hwj.
      rewrite Hj in Hwj. destruct pj; try done. subst sd.
      destruct q; [|done]. by destruct (i_deq _ HI j Hj).
    - subst sd. destruct q; [|done]. by destruct (i_deq _ HI i Hi).
    - pose proof (i_exit _ HI i Hi). cbn in *. congruence. }
  split; [|by apply Forall_lookup].
  destruct q as [|t q]; [done|]. exfalso.
  destruct (i_awake _ HI Hsd) as [Hn|(i & p & Hi & Ha)]; [done| |by apply Hworker in Hi as ->].
  cbn in Hn. destruct nt as [|n]; [lia|].
  destruct ws as [|p ws]; [by apply (i_some _ HI Hsd)|].
  pose proof (Hworker 0%nat p eq_refl) as ->.
  by pose proof (Hst (LNotify (Some 0%nat)) I).
Qed.

Lemma held_waiting ws : Forall (λ p, p = Waiting) ws → held ws = [].
Proof. unfold held. induction 1 as [|p ws -> _ IH]; [done|]. cbn. apply IH. Qed.

(** [C36] A pool never sleeps on work. From any state of a running pool, however threads are
    scheduled, the workers and the notifications under way come to rest after a bounded
    number of steps, and when they do, every worker waits on the condition variable, the
    queue is empty, and every task that was enqueued has been run, each once. *)
Theorem pool_drains count s ls s' :
  reachable count s → shutdown s = false → Forall internal ls → run ls s = Some s' →
  (length ls <= effort s)%nat
  ∧ (stuck s' → queue s' = [] ∧ Forall (λ p, p = Waiting) (workers s')
                ∧ Permutation (arrived s) (begun s')).
Proof.
  intros Hr Hsd Hi Hrun. split.
  { pose proof (internal_run_effort _ _ _ Hi Hrun). lia. }
  intros Hst. destruct (internal_run_keeps _ _ _ Hi Hrun) as [E1 E2].
  pose proof (run_reachable _ _ _ _ Hr Hrun) as Hr'. rewrite Hsd in E1.
  destruct (stuck_idle s' (pool_reachable_inv _ _ Hr') E1 Hst) as [Hq Hw].
  split_and!; [done..|]. pose proof (reachable_accounted _ _ Hr') as Ha. unfold accounted in Ha.
  by rewrite <- E2, Ha, Hq, held_waiting, app_nil_r by done.
Qed.

(** ** Order *)

(** One worker: every task is begun, held or queued, in the order of arrival. *)
Lemma one_worker_ordered s : reachable 1 s →
  (length (workers s) <= 1)%nat ∧ arrived s = begun s ++ held (workers s) ++ queue s.
Proof.
  induction 1 as [|l s s' _ [Hlen IH] E]; [done|].
  destruct l as [t|who|i|i|]; cbn in E.
  - unfold enqueue in E. destruct s as [ws m q sd st nt ar bg]; cbn in *.
    destruct m; [done|]. injection E as <-. split; [done|]. cbn. by rewrite IH, !app_assoc.
  - unfold notify_one, set_pc in E. destruct s as [ws m q sd st nt ar bg]; cbn in *.
    repeat case_match; simplify_eq; cbn; rewrite ?length_insert; (split; [done|]); [|done].
    by erewrite (held_insert_same _ _ Waiting).
  - apply worker_tasks in E as (Har & Hl & _ & Hcase). rewrite Hl. split; [done|].
    rewrite Har, IH. destruct Hcase as [(t & p & Hi & Hp & Hq & Hb & Hw)|[(t & Hi & Hq & Hb & Hw)|(Hq & Hb & Hh)]].
    + destruct (workers s) as [|w [|]]; cbn in Hlen; try lia; [done|]. destruct i; [|done].
      injection Hi as ->. rewrite Hw, Hb, Hq. unfold held. cbn. by rewrite Hp.
    + destruct (workers s) as [|w [|]]; cbn in Hlen; try lia; [done|]. destruct i; [|done].
      injection Hi as ->. rewrite Hw, Hb, Hq. unfold held. cbn. by rewrite <- app_assoc.
    + by rewrite Hb, Hh, Hq.
  - unfold spurious, set_pc in E. destruct s as [ws m q sd st nt ar bg]; cbn in *.
    repeat case_match; simplify_eq; cbn; rewrite length_insert. split; [done|].
    by erewrite (held_insert_same _ _ Waiting).
  - unfold stop_step in E. destruct s as [ws m q sd st nt ar bg]; cbn in *.
    repeat case_match; simplify_eq; cbn; [done|by rewrite length_map, map_wake_held|].
    split; [lia|]. destruct ws as [|w [|]]; cbn in Hlen; try lia; [done|].
    match goal with H : forallb _ _ = true |- _ => cbn in H; destruct w; done end.
Qed.

(** With one worker, tasks are begun in the order in which they were enqueued. *)
Theorem one_worker_fifo s : reachable 1 s → begun s `prefix_of` arrived s.
Proof. intros [_ ->]%one_worker_ordered. by eexists. Qed.

(** ** The end *)

Lemma joined_empty count s : reachable count s → stopper s = Joined → workers s = [].
Proof.
  induction 1 as [|l s s' _ IH E]; [done|]. destruct l as [t|who|i|i|]; cbn in E.
  - unfold enqueue in E. destruct (mtx s); [done|]. by injection E as <-.
  - unfold notify_one, set_pc in E. destruct s as [ws m q sd st nt ar bg]; cbn in *.
    repeat case_match; simplify_eq; cbn; try done. intros Hj. by rewrite IH in *.
  - destruct (worker_tasks _ _ _ E) as (_ & Hl & Hst & _). rewrite Hst. intros Hj.
    apply length_zero_iff_nil. by rewrite Hl, IH.
  - unfold spurious, set_pc in E. destruct s as [ws m q sd st nt ar bg]; cbn in *.
    repeat case_match; simplify_eq; cbn. intros Hj. by rewrite IH in *.
  - unfold stop_step in E. destruct s as [ws m q sd st nt ar bg]; cbn in *.
    repeat case_match; simplify_eq; done.
Qed.

(** [stop] leaves queued tasks behind: once it has returned, no task is begun any more,
    neither one still in the queue nor one that [enqueue] still accepts. *)
Theorem stopped_pool_runs_nothing count s ls s' :
  reachable count s → stopper s = Joined → run ls s = Some s' → begun s' = begun s.
Proof.
  intros Hr Hj. revert s Hr Hj. induction ls as [|l ls IH]; intros s Hr Hj; cbn [run]; [by intros [= <-]|].
  intros (s1 & E & Hrun)%bind_Some. pose proof (joined_empty _ _ Hr Hj) as Hw.
  assert (H : begun s1 = begun s ∧ stopper s1 = Joined).
  { destruct l as [t|who|i|i|]; cbn in E.
    - unfold enqueue in E. destruct (mtx s); [done|]. by injection E as <-.
    - unfold notify_one, set_pc in E. rewrite Hw in E. repeat case_match; simplify_eq; done.
    - unfold worker_step in E. by rewrite Hw in E.
    - unfold spurious in E. by rewrite Hw in E.
    - unfold stop_step in E. by rewrite Hj in E. }
  destruct H as [Hb Hj1]. rewrite <- Hb. apply IH; [by eapply reach_step|done..].
Qed.

End pool.
Arguments Pool : clear implicits.
Arguments label : clear implicits.

Lemma pool_run_reachable count (ls : list (label nat)) s :
  run ls (start count new) = Some s → reachable count s.
Proof. intros H. eapply run_reachable, H. constructor. Qed.

(** ** Examples *)

(** A worker goes to sleep, two tasks arrive, both are run. *)
Definition example_sleep : list (label nat) := replicate 4 (LWorker 0).
Definition example_work : list (label nat) :=
  [LNotify (Some 0%nat); LNotify None] ++ replicate 15 (LWorker 0).
Definition example_busy : Pool nat :=
  mkPool [Waiting] None [7; 8]%nat false NotStopping 2 [7; 8]%nat [].
Definition example_idle : Pool nat :=
  mkPool [Waiting] None [] false NotStopping 0 [7; 8]%nat [7; 8]%nat.

Lemma example_busy_reachable : reachable 1 example_busy.
Proof.
  by apply (pool_run_reachable 1 (example_sleep ++ [LEnqueue 7; LEnqueue 8])%nat).
Qed.

Lemma pool_drains_witness :
  run example_work example_busy = Some example_idle
  ∧ queue example_idle = [] ∧ Permutation [7; 8]%nat (begun example_idle).
Proof.
  assert (Hi : Forall internal example_work) by repeat constructor.
  destruct (pool_drains 1 example_busy example_work example_idle
    example_busy_reachable eq_refl Hi eq_refl) as [_ H].
  destruct H as (Hq & _ & Hp); [|by repeat split].
  intros [|[[|]|]|[|]| |]; done.
Defined.

Lemma one_worker_fifo_witness :
  begun example_busy `prefix_of` arrived example_busy.
Proof. apply (one_worker_fifo example_busy), example_busy_reachable. Defined.

(** ** Where the code falls short *)

(** With two workers the order is lost: a worker can take the first task and be
    overtaken before it enters the task's function, where the chain's lock is taken. *)
Theorem two_workers_reorder :
  ∃ ls s, run ls (start 2 new) = Some s ∧ arrived s = [7; 8]%nat ∧ begun s = [8; 7]%nat.
Proof.
  exists ([LEnqueue 7; LEnqueue 8] ++ replicate 4 (LWorker 0) ++ replicate 5 (LWorker 1) ++ [LWorker 0])%nat.
  eexists. split; [reflexivity|]. by split.
Qed.

(** [stop] sets [shutdown_] and notifies without holding the mutex: a worker that has just
    found nothing to do misses both and blocks. *)
Definition example_lost : Pool nat := mkPool [Waiting] None [] true Notified 0 [] [].

(** [stop] can wait for ever: the flag and the notification fall between a worker's
    test and its sleep; then neither the worker nor [stop] can move, unless the system
    wakes the worker without a reason. *)
Theorem stop_can_hang :
  reachable 1 example_lost ∧ ∀ l, (∃ i, l = LSpurious i) ∨ (∃ t, l = LEnqueue t) ∨ exec l example_lost = None.
Proof.
  split.
  - by apply (pool_run_reachable 1 [LWorker 0; LWorker 0; LWorker 0; LStop; LStop; LWorker 0]).
  - intros [t|[[|]|]|[|]|i|]; eauto.
Qed.

Definition example_stopped : Pool nat := mkPool [] None [7]%nat true Joined 0 [7]%nat [].

Lemma stopped_pool_runs_nothing_witness :
  ∃ s', run [LEnqueue 8] example_stopped = Some s' ∧ queue s' = [7; 8]%nat ∧ begun s' = [].
Proof.
  eexists. split; [reflexivity|]. split; [reflexivity|].
  apply (stopped_pool_runs_nothing 1 example_stopped [LEnqueue 8]); [|reflexivity..].
  apply (pool_run_reachable 1 (example_sleep ++ [LEnqueue 7; LStop; LStop; LNotify None; LWorker 0; LWorker 0; LWorker 0; LStop])%nat).
  reflexivity.
Defined.

End ThreadPool.
