(* ===== verification/Gate.v ===== *)
(** * The EPOLLIN gate of an endpoint

    A session reads its targets, a client its external connections, and both stop reading
    in the same way: several mechanisms set a flag of the connection and clear EPOLLIN in
    the kernel, and a gate at the end of each tick brings the kernel in line with the
    flags. [Endpoint] is what the argument needs of either; [FlowControl] and [ClientFlow]
    instantiate it. *)

From S2P Require Import Prelude Kernel.
Local Open Scope Z_scope.

Module Gate.

(** ** Interest of the kernel in a descriptor *)

Section interest.
Context {H : Type}.
Implicit Types k : Kernel.t H.

Definition wants_in (k : Kernel.t H) (fd : Z) : bool :=
  match Kernel.handlers k !! fd with
  | Some s => has (Kernel.events s) EPOLLIN
  | None => false
  end.
Definition known (k : Kernel.t H) (fd : Z) : Prop := is_Some (Kernel.handlers k !! fd).

Lemma has_in_testbit e : has e EPOLLIN = Z.testbit e 0.
Proof.
  unfold has, EPOLLIN. rewrite Z.bit0_odd. change 1 with (Z.ones 1) at 1.
  rewrite Z.land_ones by lia. rewrite Zmod_odd. by destruct (Z.odd e).
Qed.

Lemma mod_add_wants k fd : known k fd → wants_in (Kernel.mod_fd_events fd EPOLLIN 0 k) fd = true.
Proof.
  intros [s Hs]. unfold wants_in, Kernel.mod_fd_events. rewrite Hs.
  assert (has (clear_bits (Z.lor (Kernel.events s) EPOLLIN) 0) EPOLLIN = true) as Hh.
  { rewrite has_in_testbit. unfold clear_bits. rewrite Z.ldiff_0_r, Z.lor_spec. apply orb_true_r. }
  repeat case_match; cbn in *; rewrite lookup_insert_eq in *; by simplify_eq.
Qed.

Lemma mod_other k fd a r fd' :
  fd' ≠ fd → Kernel.handlers (Kernel.mod_fd_events fd a r k) !! fd' = Kernel.handlers k !! fd'.
Proof.
  intros Hne. unfold Kernel.mod_fd_events. repeat case_match; cbn; by rewrite ?lookup_insert_ne.
Qed.

Lemma mod_known k fd a r fd' : known k fd' → known (Kernel.mod_fd_events fd a r k) fd'.
Proof.
  intros Hk. destruct (decide (fd' = fd)) as [->|Hne].
  - destruct Hk as [s Hs]. unfold known, Kernel.mod_fd_events. rewrite Hs.
    repeat case_match; cbn; by rewrite lookup_insert_eq.
  - unfold known. by rewrite mod_other.
Qed.

(** Interest only grows. *)
Definition mono (k k' : Kernel.t H) : Prop :=
  ∀ fd, known k fd → known k' fd ∧ (wants_in k fd = true → wants_in k' fd = true).

#[global] Instance mono_preorder : PreOrder mono.
Proof.
  split; [by intros k fd|]. intros a b c H1 H2 fd Hk. destruct (H1 fd Hk) as [Hk' Hw].
  destruct (H2 fd Hk') as [? Hw']. auto.
Qed.

Lemma add_mono fd cb ev k : mono k (Kernel.add_fd_handler fd cb ev k).
Proof.
  intros fd' Hk. unfold known, wants_in, Kernel.add_fd_handler.
  set (m := Kernel.epoll_ctl _ _ _ _). destruct m as [m err]. cbn.
  destruct (decide (fd' = fd)) as [->|Hne].
  - destruct Hk as [s Hs]. rewrite lookup_insert_eq, Hs. cbn. split; [done|].
    rewrite !has_in_testbit, Z.lor_spec. by intros ->.
  - by rewrite lookup_insert_ne.
Qed.

Lemma add_wants fd cb k :
  known (Kernel.add_fd_handler fd cb EPOLLIN k) fd
  ∧ wants_in (Kernel.add_fd_handler fd cb EPOLLIN k) fd = true.
Proof.
  unfold known, wants_in, Kernel.add_fd_handler. set (m := Kernel.epoll_ctl _ _ _ _).
  destruct m as [m err]. cbn. rewrite lookup_insert_eq. split; [done|]. cbn.
  by rewrite has_in_testbit, Z.lor_spec, orb_true_r.
Qed.

Lemma del_other fd k fd' :
  fd' ≠ fd → Kernel.handlers (Kernel.os_close fd (Kernel.del_fd fd k)) !! fd' = Kernel.handlers k !! fd'.
Proof. intros Hne. cbn. by rewrite lookup_delete_ne. Qed.

End interest.

(** ** Endpoints *)

(** A world [W] with connections [T] by id, and the kernel's table. [asks_of]: a mechanism
    asks to pause the connection; [removed_of]: the gate has paused it. *)
Class Endpoint (W T H : Type) := {
  conns_of : W → gmap Z T;
  kern_of : W → Kernel.t H;
  set_conns : (gmap Z T → gmap Z T) → W → W;
  set_kern : (Kernel.t H → Kernel.t H) → W → W;
  fd_of : T → Z;
  asks_of : T → bool;
  removed_of : T → bool;
  set_removed : bool → T → T
}.

Class EndpointLaws (W T H : Type) `{Endpoint W T H} := {
  conns_set_conns f w : conns_of (set_conns f w) = f (conns_of w);
  kern_set_conns f w : kern_of (set_conns f w) = kern_of w;
  conns_set_kern f w : conns_of (set_kern f w) = conns_of w;
  kern_set_kern f w : kern_of (set_kern f w) = f (kern_of w);
  fd_set_removed b t : fd_of (set_removed b t) = fd_of t;
  asks_set_removed b t : asks_of (set_removed b t) = asks_of t;
  removed_set_removed b t : removed_of (set_removed b t) = b;
  set_removed_id t : set_removed (removed_of t) t = t
}.

Section gate.
Context {W T H : Type} `{EP : Endpoint W T H} `{EL : !EndpointLaws W T H}.
Implicit Types (w : W) (t : T).

(** The operations, as both endpoints spell them. *)
Definition adjust (cid : Z) (g : T → T) (b : bool) (fd a r : Z) : act W unit :=
  modify (set_conns (alter g cid)) ;; when b (modify (set_kern (Kernel.mod_fd_events fd a r))).

Definition for_conns (f : Z → T → act W unit) : act W unit :=
  ids ← gets (λ w, map fst (map_to_list (conns_of w)));
  each ids (λ cid, t ← gets (λ w, conns_of w !! cid);
                   match t with Some t => f cid t | None => mret tt end).

Definition gate (bp0 : bool) : act W unit :=
  for_conns (λ cid t,
    if fd_of t <? 0 then mret tt else
    if asks_of t || bp0 then
      when (negb (removed_of t)) (adjust cid (set_removed true) true (fd_of t) 0 EPOLLIN)
    else when (removed_of t) (adjust cid (set_removed false) true (fd_of t) EPOLLIN 0)).

Definition flagged t : bool := asks_of t || removed_of t.

Definition conn_ok (k : Kernel.t H) t : Prop :=
  0 <= fd_of t → known k (fd_of t) ∧ (wants_in k (fd_of t) = true ∨ flagged t = true).

(** The invariant: a connection that is not read is flagged; descriptors are not shared. *)
Definition live w : Prop :=
  (∀ cid t, conns_of w !! cid = Some t → conn_ok (kern_of w) t)
  ∧ (∀ c c' t t', conns_of w !! c = Some t → conns_of w !! c' = Some t' →
       fd_of t = fd_of t' → c = c').

Lemma live_empty w : conns_of w = ∅ → live w.
Proof. intros E. unfold live. rewrite E. split; intros *; by rewrite lookup_empty. Qed.

(** What is left of the connections is as before (up to what the invariant does not see),
    and the kernel's interest in their descriptors did not shrink. *)
Definition kept w w' : Prop :=
  ∀ c t', conns_of w' !! c = Some t' →
    ∃ t, conns_of w !! c = Some t ∧ fd_of t' = fd_of t ∧ flagged t' = flagged t
      ∧ (known (kern_of w) (fd_of t) → known (kern_of w') (fd_of t)
         ∧ (wants_in (kern_of w) (fd_of t) = true → wants_in (kern_of w') (fd_of t) = true)).

Lemma live_kept w w' : live w → kept w w' → live w'.
Proof.
  intros [Hok Hd] Hc. split.
  - intros c t' (t & Ht & Hfd & Hfl & Hm)%Hc H0. rewrite Hfd in H0 |- *.
    destruct (Hok c t Ht H0) as [Hk Hw]. destruct (Hm Hk) as [? Hw']. rewrite Hfl.
    split; [done|]. destruct Hw; auto.
  - intros c c' x x' (t & Ht & Hfd & _)%Hc (t' & Ht' & Hfd' & _)%Hc E.
    eapply Hd; [done|done|congruence].
Qed.

Lemma live_same w w' : live w → conns_of w' = conns_of w → mono (kern_of w) (kern_of w') → live w'.
Proof. intros Hl E Hm. eapply live_kept; [done|]. intros c t. rewrite E. eauto 10. Qed.

(** One connection changes, and the kernel's interest in its descriptor. *)
Lemma live_change cid t t' w w' :
  live w → conns_of w !! cid = Some t → fd_of t' = fd_of t →
  conns_of w' = <[cid := t']> (conns_of w) →
  (∀ fd, fd ≠ fd_of t → Kernel.handlers (kern_of w') !! fd = Kernel.handlers (kern_of w) !! fd) →
  conn_ok (kern_of w') t' → live w'.
Proof.
  intros [Hok Hd] Ht Hfd HT Hk Hok'. unfold live. rewrite HT. split.
  - intros c x [[<- <-]|[Hne Hx]]%lookup_insert_Some; [done|].
    unfold conn_ok, known, wants_in. intros H0. rewrite Hk; [by apply (Hok c)|].
    intros E. apply Hne. by eapply Hd.
  - intros c c' x x'.
    intros [[<- <-]|[Hne Hx]]%lookup_insert_Some [[<- <-]|[Hne' Hx']]%lookup_insert_Some E; try done.
    + by eapply Hd; [| |etransitivity; [symmetry|]].
    + eapply Hd; [done|done|congruence].
    + by eapply Hd.
Qed.

(** A connection goes, perhaps with its descriptor. *)
Lemma live_delete cid t w w' :
  live w → conns_of w !! cid = Some t → conns_of w' = delete cid (conns_of w) →
  (∀ fd, fd ≠ fd_of t → Kernel.handlers (kern_of w') !! fd = Kernel.handlers (kern_of w) !! fd) →
  live w'.
Proof.
  intros [Hok Hd] Ht HT Hk. unfold live. rewrite HT. split.
  - intros c x [Hne Hx]%lookup_delete_Some H0. unfold known, wants_in.
    rewrite Hk; [by apply (Hok c)|]. intros Hfd. apply Hne. by eapply Hd.
  - intros c c' x x' [_ Hx]%lookup_delete_Some [_ Hx']%lookup_delete_Some. by eapply Hd.
Qed.

(** A connection comes, with a descriptor that no other one has. *)
Lemma live_insert cid t w w' :
  live w → conns_of w' = <[cid := t]> (conns_of w) →
  (∀ c x, conns_of w !! c = Some x → c ≠ cid → fd_of x ≠ fd_of t) →
  mono (kern_of w) (kern_of w') → known (kern_of w') (fd_of t) →
  wants_in (kern_of w') (fd_of t) = true → live w'.
Proof.
  intros [Hok Hd] HT Hfresh Hm Hk Hw. unfold live. rewrite HT. split.
  - intros c x [[<- <-]|[Hne Hx]]%lookup_insert_Some H0; [by auto|].
    destruct (Hok c x Hx H0) as [H1 H2]. destruct (Hm _ H1). split; [done|]. destruct H2; auto.
  - intros c c' x x'.
    intros [[<- <-]|[Hne Hx]]%lookup_insert_Some [[<- <-]|[Hne' Hx']]%lookup_insert_Some Ef; try done.
    + destruct (Hfresh _ _ Hx'); done.
    + destruct (Hfresh _ _ Hx); done.
    + by eapply Hd.
Qed.

(** A change of flags and, perhaps, of the events watched. *)
Lemma adjust_live cid g (b : bool) a r t w :
  live w → conns_of w !! cid = Some t → fd_of (g t) = fd_of t →
  (0 <= fd_of t → flagged (g t) = true ∨ (b = true ∧ a = EPOLLIN ∧ r = 0)) →
  ∃ w', adjust cid g b (fd_of t) a r w = Some (tt, w') ∧ live w'
    ∧ conns_of w' = <[cid := g t]> (conns_of w).
Proof.
  intros Hl Ht Hfd Hg.
  assert (∃ w', adjust cid g b (fd_of t) a r w = Some (tt, w')
    ∧ conns_of w' = <[cid := g t]> (conns_of w)
    ∧ kern_of w' = (if b then Kernel.mod_fd_events (fd_of t) a r (kern_of w) else kern_of w))
    as (w' & Hr & HT & Hk).
  { assert (alter g cid (conns_of w) = <[cid := g t]> (conns_of w)) as Ha.
    { apply map_eq. intros c. destruct (decide (cid = c)) as [<-|].
      - by rewrite lookup_alter_eq, lookup_insert_eq, Ht.
      - by rewrite lookup_alter_ne, lookup_insert_ne. }
    unfold adjust, mbind, act_bind, modify. destruct b; cbn [when]; eexists; (split; [reflexivity|]).
    - by rewrite conns_set_kern, kern_set_kern, conns_set_conns, kern_set_conns.
    - by rewrite conns_set_conns, kern_set_conns. }
  exists w'. split_and!; [done| |done]. apply (live_change cid t (g t) w w'); try done.
  - intros fd Hne. rewrite Hk. destruct b; [by apply mod_other|done].
  - intros H0. rewrite Hfd in H0 |- *. destruct Hl as [Hok _]. destruct (Hok _ _ Ht H0) as [Hkn _].
    rewrite Hk. split; [destruct b; [by apply mod_known|done]|].
    destruct (Hg H0) as [?|(-> & -> & ->)]; [by right|left]. by apply mod_add_wants.
Qed.

(** A loop over the connections that changes each of them by [g]. *)
Lemma for_conns_run (f : Z → T → act W unit) (P : W → Prop) g :
  (∀ cid t w, P w → conns_of w !! cid = Some t →
     ∃ w', f cid t w = Some (tt, w') ∧ P w' ∧ conns_of w' = <[cid := g t]> (conns_of w)) →
  ∀ w, P w → ∃ w', for_conns f w = Some (tt, w') ∧ P w' ∧ conns_of w' = g <$> conns_of w.
Proof.
  intros Hf w0 Hw0. unfold for_conns.
  assert (∀ l w, NoDup l → P w → ∃ w',
    each l (λ cid, t ← gets (λ w, conns_of w !! cid);
                   match t with Some t => f cid t | None => mret tt end) w = Some (tt, w') ∧ P w'
    ∧ ∀ c, conns_of w' !! c = (if decide (c ∈ l) then g <$> conns_of w !! c else conns_of w !! c))
    as Hloop.
  { induction l as [|cid l IH]; intros w Hnd Hw; [by exists w|].
    apply NoDup_cons in Hnd as [Hni Hnd]. cbn [each].
    destruct (conns_of w !! cid) as [t|] eqn:Et.
    - destruct (Hf cid t w Hw Et) as (w1 & Hr & Hw1 & HT).
      destruct (IH w1 Hnd Hw1) as (w2 & Hr2 & Hw2 & Hlk). exists w2. split_and!; [|done|].
      + unfold gets, mbind, act_bind. rewrite Et, Hr. exact Hr2.
      + intros c. rewrite Hlk, HT. destruct (decide (c = cid)) as [->|Hne].
        * rewrite decide_False by done. rewrite decide_True by (by left).
          by rewrite lookup_insert_eq, Et.
        * rewrite lookup_insert_ne by done. symmetry. apply decide_ext. rewrite elem_of_cons. tauto.
    - destruct (IH w Hnd Hw) as (w2 & Hr2 & Hw2 & Hlk). exists w2. split_and!; [|done|].
      + unfold gets, mbind, act_bind. rewrite Et. exact Hr2.
      + intros c. rewrite Hlk. destruct (decide (c = cid)) as [->|Hne].
        * rewrite decide_False, decide_True by (done || by left). by rewrite Et.
        * symmetry. apply decide_ext. rewrite elem_of_cons. tauto. }
  destruct (Hloop (map fst (map_to_list (conns_of w0))) w0) as (w' & Hr & Hw' & Hlk);
    [apply NoDup_fst_map_to_list|done|].
  exists w'. split_and!; [exact Hr|done|]. apply map_eq. intros c. rewrite Hlk, lookup_fmap.
  case_decide as Hin; [done|]. destruct (conns_of w0 !! c) as [t|] eqn:Et; [|done].
  destruct Hin. apply list_elem_of_fmap. exists (c, t). split; [done|by apply elem_of_map_to_list].
Qed.

(** A mechanism that sets its flag for every connection, and one that clears it and reads
    again unless another mechanism is active. *)
Lemma pause_all_live g w :
  (∀ t, fd_of (g t) = fd_of t ∧ flagged (g t) = true) → live w →
  ∃ w', for_conns (λ cid t, adjust cid g (0 <=? fd_of t) (fd_of t) 0 EPOLLIN) w = Some (tt, w')
    ∧ live w'.
Proof.
  intros Hg Hl. destruct (for_conns_run (λ cid t, adjust cid g (0 <=? fd_of t) (fd_of t) 0 EPOLLIN)
    live g) with (w := w) as (w' & ? & ? & _); [|done|by eauto].
  intros cid t w1 Hl1 Ht. destruct (Hg t) as [H1 H2]. by apply adjust_live; auto.
Qed.

Lemma resume_all_live g (go : T → bool) w :
  (∀ t, fd_of (g t) = fd_of t ∧ (0 <= fd_of t → flagged (g t) = true ∨ go t = true)) → live w →
  ∃ w', for_conns (λ cid t, adjust cid g (go t) (fd_of t) EPOLLIN 0) w = Some (tt, w') ∧ live w'.
Proof.
  intros Hg Hl. destruct (for_conns_run (λ cid t, adjust cid g (go t) (fd_of t) EPOLLIN 0) live g)
    with (w := w) as (w' & ? & ? & _); [|done|by eauto].
  intros cid t w1 Hl1 Ht. destruct (Hg t) as [H1 H2]. apply adjust_live; [done..|].
  intros [?|?]%H2; auto.
Qed.

(** The condition under which a mechanism that ends lets read again. *)
Lemma resume_cases t fd b1 b2 :
  (b1 = true ∨ b2 = true → flagged t = true) → 0 <= fd →
  flagged t = true ∨ (0 <=? fd) && negb b1 && negb b2 = true.
Proof. intros Hb H0%Z.leb_le. rewrite H0. destruct b1; [auto|]. destruct b2; auto. Qed.

(** What the gate does to a connection. *)
Definition gated (bp0 : bool) t : T :=
  if fd_of t <? 0 then t else set_removed (asks_of t || bp0) t.

Lemma gate_run bp0 w :
  live w → ∃ w', gate bp0 w = Some (tt, w') ∧ live w' ∧ conns_of w' = gated bp0 <$> conns_of w.
Proof.
  unfold gate. apply for_conns_run. clear w. intros cid t w Hl Et. unfold gated.
  destruct (fd_of t <? 0); [exists w; by rewrite insert_id|].
  destruct (asks_of t || bp0) eqn:Ea, (removed_of t) eqn:Er; cbn [when negb].
  - exists w. by rewrite <- Er, set_removed_id, insert_id.
  - apply adjust_live; [done|done|apply fd_set_removed|]. intros _. left. unfold flagged.
    by rewrite removed_set_removed, orb_true_r.
  - apply adjust_live; [done|done|apply fd_set_removed|]. auto.
  - exists w. by rewrite <- Er, set_removed_id, insert_id.
Qed.

(** After the gate every connection that nothing asks to pause is read. *)
Lemma gate_effective bp0 w :
  live w → ∃ w', gate bp0 w = Some (tt, w')
    ∧ ∀ cid t, conns_of w' !! cid = Some t → 0 <= fd_of t → asks_of t || bp0 = false →
               wants_in (kern_of w') (fd_of t) = true.
Proof.
  intros Hl. destruct (gate_run bp0 w Hl) as (w' & Hg & [Hok _] & HT). exists w'. split; [done|].
  intros cid t Ht Hfd Hp. destruct (Hok _ _ Ht Hfd) as [_ [?|Hf]]; [done|].
  rewrite HT, lookup_fmap in Ht. destruct (conns_of w !! cid) as [t0|]; [|done].
  injection Ht as <-. unfold gated in *. destruct (Z.ltb_spec (fd_of t0) 0); [lia|].
  unfold flagged in Hf. rewrite removed_set_removed in Hf. rewrite asks_set_removed in *.
  destruct (asks_of t0), bp0; done.
Qed.

End gate.
End Gate.
