(* ===== verification/ChainApi.v ===== *)
(** * What a tunnel endpoint needs of a chain (core/chain.h)

    [Session] and [Client] use a [Chain] only through these operations; [Chain.v] has the
    instance. A buffer is named by the size it was allocated with. *)

From S2P Require Import Prelude.
Local Open Scope Z_scope.

Record ModuleSpec := mkSpec { name : bytes; params : bytes }.

#[export] Instance ModuleSpec_eq_dec : EqDecision ModuleSpec.
Proof. solve_decision. Defined.

Class ChainOps (C : Type) := {
  (** the constructor, at a given time; a module that is missing or fails to start leaves an empty chain *)
  chain_new : Z → list ModuleSpec → C;
  (** [push_packet(data, len, src_idx, dir)], [data] being in a buffer of [asize] bytes *)
  push_packet : Z → bytes → Z → Z → C → C;
  alloc_buffer : Z → C → option C;
  free_buffer : Z → C → C;
  is_backpressure_paused : Z → C → bool;
  is_drained : C → bool;
  total_extra_outputs : C → Z;
  (** [check_module_heartbeats(system_interval_ms)] at a given time *)
  check_module_heartbeats : Z → Z → C → C;
  (** the destructor: [cancel] and [wait_drain] *)
  chain_cancel : Z → C → C
}.

Definition MAX_WIRE_CONNECTIONS : Z := 200.
