(* ===== verification/Config.v ===== *)
(** * The configuration text (core/config.cpp, common/utils.cpp)

    [host:port,password;module|params;...] with the built-in [copy] module put at both
    ends; [parse_hostport]; the choice of module files in a directory. *)

From S2P Require Import Prelude Text ChainApi.
From stdpp Require Import options.
Local Open Scope Z_scope.

Module Config.

Record ChainConfig := mkConfig {
  host : bytes;
  port : Z;
  password : bytes;
  modules : list ModuleSpec;
  valid : bool
}.

Definition empty_config : ChainConfig := mkConfig [] 0 [] [] false.

Definition COLON : Z := 58.
Definition SEMICOLON : Z := 59.
Definition COMMA : Z := 44.
Definition PIPE : Z := 124.

(** The result and the two output arguments, which keep their values [h0] and [p0] where
    the function does not assign them. *)
Definition parse_hostport (str h0 : bytes) (p0 : Z) : bool * bytes * Z :=
  match rfind COLON str with
  | None => (false, h0, p0)
  | Some colon =>
      let host := substr str 0 colon in
      let p := atoi (drop (S colon) str) in
      if (p <=? 0) || (65535 <? p) then (false, host, p0) else (true, host, u16 p)
  end.

(** The loop that cuts the text at semicolons. *)
Fixpoint split_blocks (fuel : nat) (str : bytes) (start : nat) : list bytes :=
  match fuel with
  | O => []
  | S f =>
      if (start <? length str)%nat then
        match find SEMICOLON str start with
        | None => [drop start str]
        | Some semicolon =>
            substr str start (semicolon - start) :: split_blocks f str (S semicolon)
        end
      else []
  end.

Definition parse_module (b : bytes) : ModuleSpec :=
  match find PIPE b 0 with
  | None => mkSpec b []
  | Some pipe => mkSpec (substr b 0 pipe) (drop (S pipe) b)
  end.

(** The blocks after the first, without the empty ones. *)
Definition parse_modules (blocks : list bytes) : list ModuleSpec :=
  map parse_module (List.filter (λ b, negb (bool_decide (b = []))) blocks).

Definition copy_spec : ModuleSpec := mkSpec (lit "copy") [].

Definition parse_chain (str : bytes) : ChainConfig :=
  match split_blocks (S (length str)) str 0 with
  | [] => empty_config
  | first :: rest =>
      let '(addr, pw) := match find COMMA first 0 with
                         | None => (first, [])
                         | Some comma => (substr first 0 comma, drop (S comma) first)
                         end in
      let '(ok, h, p) := parse_hostport addr [] 0 in
      if (ok : bool) then mkConfig h p pw (reverse (copy_spec :: parse_modules rest ++ [copy_spec])) true
      else mkConfig h p pw [] false
  end.

(** [scan_modules]: the names that [readdir] gives, [None] when [opendir] fails. *)
Definition is_so (name : bytes) : bool :=
  (3 <? Z.of_nat (length name)) && bool_decide (drop (length name - 3) name = lit ".so").

Definition scan_modules (dir : bytes) (entries : option (list bytes)) : list bytes :=
  match entries with
  | None => []
  | Some names => map (λ n, dir ++ lit "/" ++ n) (List.filter is_so names)
  end.

(** ** Specification: the text of a configuration *)

(** A configuration that text can express: what no field may contain is the separator
    that ends it. *)
Record module_ok (m : ModuleSpec) : Prop := {
  mo_name : (SEMICOLON ∉ name m) ∧ (PIPE ∉ name m);
  mo_params : SEMICOLON ∉ params m
}.

Record wf (cfg : ChainConfig) : Prop := {
  wf_valid : valid cfg = true;
  wf_port : 1 <= port cfg <= 65535;
  wf_host : (SEMICOLON ∉ host cfg) ∧ (COMMA ∉ host cfg);
  wf_password : SEMICOLON ∉ password cfg;
  wf_modules : ∃ ms, modules cfg = copy_spec :: reverse ms ++ [copy_spec] ∧ Forall module_ok ms
}.

Definition print_module (m : ModuleSpec) : bytes :=
  name m ++ (if bool_decide (params m = [] ∧ name m ≠ []) then [] else PIPE :: params m).

(** [ms] in the order of the text. *)
Definition print_chain (h : bytes) (p : Z) (pw : bytes) (ms : list ModuleSpec) : bytes :=
  (h ++ COLON :: dec p ++ (if bool_decide (pw = []) then [] else COMMA :: pw))
  ++ concat (map (λ m, SEMICOLON :: print_module m) ms).

(** ** Cutting at semicolons *)

Definition no_semi (b : bytes) : Prop := SEMICOLON ∉ b.

Lemma split_blocks_cons fuel (pre b rest : bytes) :
  no_semi b → b ++ rest ≠ [] → match rest with x :: _ => x = SEMICOLON | [] => True end →
  split_blocks (S fuel) (pre ++ b ++ rest) (length pre) =
    b :: match rest with
         | [] => []
         | _ :: r => split_blocks fuel (pre ++ b ++ rest) (S (length pre + length b))
         end.
Proof.
  intros Hb Hne Hr. cbn [split_blocks].
  assert ((length pre <? length (pre ++ b ++ rest))%nat = true) as ->.
  { apply Nat.ltb_lt. rewrite length_app. destruct (b ++ rest); [done|cbn; lia]. }
  unfold find, substr. rewrite drop_app_length. destruct rest as [|x r].
  - rewrite app_nil_r. by rewrite (proj2 (index_of_none _ b) Hb).
  - subst x. rewrite index_of_app_r by done. cbn [fmap option_fmap option_map].
    replace (length pre + length b - length pre)%nat with (length b) by lia.
    by rewrite take_app_length.
Qed.

(** The end of the loop: nothing follows the last semicolon. *)
Lemma split_blocks_end fuel s : split_blocks fuel s (length s) = [].
Proof. destruct fuel; cbn [split_blocks]; [done|]. by rewrite Nat.ltb_irrefl. Qed.

Lemma split_blocks_all fuel (pre b : bytes) (bs : list bytes) :
  Forall no_semi (b :: bs) → Forall (λ x, x ≠ []) bs → b ≠ [] ∨ bs ≠ [] →
  (length bs < fuel)%nat →
  split_blocks fuel (pre ++ b ++ concat (map (cons SEMICOLON) bs)) (length pre) = b :: bs.
Proof.
  revert pre b fuel. induction bs as [|b' bs IH]; intros pre b fuel Hs Hne Hn Hf;
    (destruct fuel as [|fuel]; [cbn in Hf; lia|]);
    apply Forall_cons in Hs as [Hb Hs].
  - rewrite split_blocks_cons; [done|done|destruct b; naive_solver|done].
  - rewrite split_blocks_cons; [|done|destruct b; done|done]. cbn [concat map]. f_equal.
    replace (pre ++ b ++ (SEMICOLON :: b') ++ concat (map (cons SEMICOLON) bs)) with
      ((pre ++ b ++ [SEMICOLON]) ++ b' ++ concat (map (cons SEMICOLON) bs))
      by (by rewrite <- !app_assoc).
    replace (S (length pre + length b)) with (length (pre ++ b ++ [SEMICOLON]))
      by (rewrite !length_app; cbn; lia).
    apply Forall_cons in Hne as [Hb' Hne]. apply IH; [done|done|by left|cbn in Hf; lia].
Qed.

Lemma split_blocks_no_semi fuel s start : Forall no_semi (split_blocks fuel s start).
Proof.
  revert start. induction fuel as [|f IH]; intros start; cbn [split_blocks]; [constructor|].
  destruct (start <? length s)%nat; [|constructor].
  unfold find. destruct (index_of SEMICOLON (drop start s)) as [i|] eqn:E; cbn.
  - constructor; [|apply IH]. unfold substr, no_semi.
    replace (start + i - start)%nat with i by lia. by apply index_of_some in E as [_ ?].
  - constructor; [|constructor]. by apply index_of_none.
Qed.

(** ** Modules *)

Lemma parse_print_module m : module_ok m → parse_module (print_module m) = m.
Proof.
  intros [[_ Hp] _]. destruct m as [n ps]. unfold parse_module, print_module, find, substr.
  cbn [name params] in *. rewrite drop_0. case_bool_decide as E.
  - rewrite app_nil_r, (proj2 (index_of_none _ n) Hp). cbn. by destruct E as [-> _].
  - rewrite index_of_app_r by done. cbn -[drop]. rewrite take_app_length.
    by rewrite drop_separator.
Qed.

Lemma print_module_block m : module_ok m → no_semi (print_module m) ∧ print_module m ≠ [].
Proof.
  intros [[Hn _] Hp]. destruct m as [n ps]. unfold print_module, no_semi. cbn [name params] in *.
  case_bool_decide as E; [rewrite app_nil_r|].
  - by split; [|destruct E].
  - split; [|by destruct n]. rewrite not_elem_of_app, not_elem_of_cons.
    split_and!; [done| |done]. unfold SEMICOLON, PIPE. lia.
Qed.

Lemma parse_print_modules ms : Forall module_ok ms → parse_modules (map print_module ms) = ms.
Proof.
  unfold parse_modules. induction 1 as [|m ms Hm _ IH]; cbn; [done|].
  destruct (print_module_block m Hm) as [_ Hne]. rewrite (bool_decide_eq_false_2 _ Hne). cbn.
  by rewrite parse_print_module, IH.
Qed.

Lemma parse_module_ok b : no_semi b → module_ok (parse_module b).
Proof.
  intros Hb. unfold parse_module, find, substr, no_semi in *. rewrite !drop_0.
  destruct (index_of PIPE b) as [i|] eqn:E; cbn -[drop].
  - apply index_of_some in E as [E N].
    constructor; cbn [name params]; [split; [by apply not_elem_of_take|done]|].
    by apply not_elem_of_drop.
  - apply index_of_none in E. constructor; cbn; [done|apply not_elem_of_nil].
Qed.

Lemma parse_modules_ok bs : Forall no_semi bs → Forall module_ok (parse_modules bs).
Proof.
  unfold parse_modules. induction 1 as [|b bs Hb _ IH]; cbn; [constructor|].
  destruct (negb _); [constructor; [by apply parse_module_ok|done]|done].
Qed.

(** ** Host and port *)

Lemma parse_hostport_print h p h0 p0 :
  1 <= p <= 65535 → parse_hostport (h ++ COLON :: dec p) h0 p0 = (true, h, p).
Proof.
  intros Hp. unfold parse_hostport, substr.
  rewrite rfind_app by (apply dec_no; [lia|done]). rewrite drop_0, take_app_length.
  rewrite drop_separator. pose proof (atoi_dec p [] ltac:(lia) I) as ->%(eq_trans (f_equal atoi (eq_sym (app_nil_r (dec p))))).
  rewrite (proj2 (Z.leb_gt p 0)), (proj2 (Z.ltb_ge 65535 p)) by lia. cbn [orb].
  f_equal. unfold u16. by rewrite Z.mod_small by lia.
Qed.

Lemma parse_hostport_range str h0 p0 h p :
  parse_hostport str h0 p0 = (true, h, p) →
  1 <= p <= 65535 ∧ ∃ i, h = take i str.
Proof.
  unfold parse_hostport, substr. destruct (rfind COLON str) as [i|]; [|done].
  destruct (Z.leb_spec (atoi (drop (S i) str)) 0); cbn [orb]; [done|].
  destruct (Z.ltb_spec 65535 (atoi (drop (S i) str))); [done|].
  intros [= <- <-]. split; [|by exists i].
  unfold u16. rewrite Z.mod_small by lia. lia.
Qed.

(** ** The whole text *)

Lemma reverse_ends {A} (a b : A) (l : list A) :
  reverse (a :: l ++ [b]) = b :: reverse l ++ [a].
Proof. by rewrite reverse_cons, reverse_app. Qed.

(** The first block and the rest of what [parse_chain] cuts the text into. *)
Lemma parse_chain_blocks h p pw ms :
  SEMICOLON ∉ h → SEMICOLON ∉ pw → 1 <= p <= 65535 → Forall module_ok ms →
  split_blocks (S (length (print_chain h p pw ms))) (print_chain h p pw ms) 0 =
    (h ++ COLON :: dec p ++ (if bool_decide (pw = []) then [] else COMMA :: pw)) ::
    map print_module ms.
Proof.
  intros Hh Hpw Hp Hms. unfold print_chain.
  set (first := h ++ COLON :: dec p ++ _).
  replace (map (λ m, SEMICOLON :: print_module m) ms)
    with (map (cons SEMICOLON) (map print_module ms)) by (by rewrite map_map).
  apply (split_blocks_all _ []).
  - constructor.
    + unfold no_semi, first. rewrite not_elem_of_app, not_elem_of_cons, not_elem_of_app.
      split_and!; [done|done|apply dec_no; [lia|done]|].
      case_bool_decide; [apply not_elem_of_nil|]. by apply not_elem_of_cons.
    + rewrite Forall_map. eapply Forall_impl; [done|]. intros m Hm. by apply print_module_block.
  - rewrite Forall_map. eapply Forall_impl; [done|]. intros m Hm. by apply print_module_block.
  - left. unfold first. by destruct h.
  - rewrite length_map, length_app.
    assert (length ms <= length (concat (map (cons SEMICOLON) (map print_module ms))))%nat; [|lia].
    clear. induction ms; cbn; [lia|]. rewrite length_app. lia.
Qed.

(** [C37] A configuration written out as text is read back unchanged: the host, the port, the
    password (which may contain commas, colons and bars), and the modules, which come out
    in the order of the wire (the reverse of the text) between two [copy] modules. *)
Theorem parse_chain_roundtrip h p pw ms :
  SEMICOLON ∉ h → COMMA ∉ h → SEMICOLON ∉ pw → 1 <= p <= 65535 → Forall module_ok ms →
  parse_chain (print_chain h p pw ms) =
    mkConfig h p pw (copy_spec :: reverse ms ++ [copy_spec]) true.
Proof.
  intros Hh Hc Hpw Hp Hms. unfold parse_chain.
  rewrite parse_chain_blocks by done. unfold find, substr. rewrite drop_0.
  assert (Ha : COMMA ∉ (h ++ COLON :: dec p)).
  { rewrite not_elem_of_app, not_elem_of_cons. split_and!; [done|done|apply dec_no; [lia|done]]. }
  assert (∀ pw', (h ++ COLON :: dec p ++ pw') = (h ++ COLON :: dec p) ++ pw') as ->
    by (intros; by rewrite <- app_assoc).
  rewrite parse_print_modules by done.
  rewrite reverse_ends.
  case_bool_decide as E.
  - rewrite app_nil_r, (proj2 (index_of_none _ _) Ha). cbn -[parse_hostport]. subst pw.
    by rewrite parse_hostport_print.
  - rewrite index_of_app_r by done. cbn -[parse_hostport drop].
    rewrite take_app_length, parse_hostport_print by done.
    by rewrite drop_separator.
Qed.

Lemma parse_chain_roundtrip_witness :
  parse_chain (lit "a.b:80,x,y|z:1;split|n:4;base64") =
    mkConfig (lit "a.b") 80 (lit "x,y|z:1")
      [copy_spec; mkSpec (lit "base64") []; mkSpec (lit "split") (lit "n:4"); copy_spec] true.
Proof.
  apply (parse_chain_roundtrip (lit "a.b") 80 (lit "x,y|z:1")
    [mkSpec (lit "split") (lit "n:4"); mkSpec (lit "base64") []]).
  - apply index_of_none. reflexivity.
  - apply index_of_none. reflexivity.
  - apply index_of_none. reflexivity.
  - lia.
  - repeat constructor; apply index_of_none; reflexivity.
Defined.

Lemma parse_chain_accepts s : valid (parse_chain s) = true → wf (parse_chain s).
Proof.
  unfold parse_chain. pose proof (split_blocks_no_semi (S (length s)) s 0) as Hs.
  destruct (split_blocks _ s 0) as [|first rest]; [done|].
  apply Forall_cons in Hs as [Hf Hr]. unfold no_semi in Hf.
  set (ap := match find COMMA first 0 with Some _ => _ | None => _ end).
  assert (Hap : (COMMA ∉ ap.1) ∧ (SEMICOLON ∉ ap.1) ∧ (SEMICOLON ∉ ap.2)).
  { subst ap. unfold find, substr. rewrite drop_0.
    destruct (index_of COMMA first) as [i|] eqn:E; cbn -[drop].
    - apply index_of_some in E as [_ N].
      split_and!; [done|by apply not_elem_of_take|by apply not_elem_of_drop].
    - apply index_of_none in E. split_and!; [done|done|apply not_elem_of_nil]. }
  destruct ap as [addr pw]. cbn [fst snd] in Hap. destruct Hap as (H1 & H2 & H3).
  destruct (parse_hostport addr [] 0) as [[[] h] p] eqn:E; [|done].
  intros _. apply parse_hostport_range in E as [Hp [i ->]].
  constructor; cbn; [done|done|by split; apply not_elem_of_take|done|].
  exists (parse_modules rest). split; [|by apply parse_modules_ok].
  apply reverse_ends.
Qed.

(** What a text that is accepted can contain: a port a TCP address can have, at least the
    two [copy] modules, and fields free of the separators that end them. Together with the
    round trip: these configurations are exactly the ones that text can express. *)
Theorem parse_chain_wf s : valid (parse_chain s) = true → wf (parse_chain s).
Proof. apply parse_chain_accepts. Qed.

Lemma parse_chain_wf_witness : wf (parse_chain (lit "h:1,p;;|;limit|x")).
Proof. apply parse_chain_wf. reflexivity. Defined.

(** The usage text of the client asks for at least one module; a text without modules is
    accepted all the same. *)
Example no_module_needed :
  parse_chain (lit "h:1") = mkConfig (lit "h") 1 [] [copy_spec; copy_spec] true.
Proof. reflexivity. Qed.

(** Text that [parse_chain] refuses. *)
Example refused :
  map (λ s, valid (parse_chain s)) [[]; lit "h"; lit "h:"; lit "h:0"; lit "h:65536"; lit "h:-1"; lit ";h:1"]
  = repeat false 7.
Proof. reflexivity. Qed.

(** Hidden files and bare [".so"] are skipped or kept by their ending alone. *)
Example scan_ex :
  scan_modules (lit "d") (Some [lit "."; lit ".so"; lit "a.so"; lit "b.so.1"]) = [lit "d/a.so"].
Proof. reflexivity. Qed.

End Config.
