(* ===== verification/Chain.v ===== *)
(** * The module chain (core/chain.h, core/chain.cpp, core/module_instance.h)

    Construction of the module graph, the queue of tasks, buffer accounting and the
    back-pressure flags. What a module does is a parameter: [init] and [process]. A task, and
    an update of the flags, is one step here; [Workers] and [Pressure] have the steps inside. *)

From coqutil Require Import Datatypes.RecordSetters.
From S2P Require Import Prelude ChainApi.
Import DoubleBraceUpdate.
Local Open Scope Z_scope.

Module Chain.

Definition BACKPRESSURE_HIGH : Z := 524288.
Definition BACKPRESSURE_LOW : Z := 131072.

(** The calls a module makes while it handles a packet, in order. A buffer is given by its
    contents and the size it was allocated with. [MSetSrc] is [set_src], [MHeartbeat] is
    [request_heartbeat]. ([request_outputs] has an effect only during [init].) *)
Inductive mod_ev :=
| MMalloc (size : Z)
| MFree (size : Z)
| MSetSrc (src : Z)
| MHeartbeat (interval_sec : Z)
| MWrite (dst : Z) (data : bytes) (asize : Z).

(** What a module may ask for while it starts. *)
Inductive init_ev := IOutputs (count : Z) | IHeartbeat (interval_sec : Z).

(** A module returns a constant, or what its last [write_packet] returned. *)
Inductive mod_ret := RetConst (z : Z) | RetLastWrite.

Section chain.
(** The state of a module instance; [ModuleBase::find] and the module's [init]: [None]
    when the module is unknown or refuses, otherwise its state and its calls; and the module's [process] (name, state, dir, src_idx, data
    with its allocated size). *)
Context {X : Type}.
Context (init : ModuleSpec → option (X * list init_ev)).
Context (process : bytes → X → Z → Z → option (bytes * Z) → X * list mod_ev * mod_ret).
(** What [wire_write] of the endpoint returns, and whether malloc succeeds. *)
Context (wire_ret : Z → bytes → Z).
Context (malloc_ok : Z → Z → bool).

(** A module; pointers to modules are indices into the list of all of them. *)
Record Module := mkMod {
  mod_name : bytes;
  mod_id : Z;
  near : list (option nat);
  wire_dst : Z;
  cfg_idx : nat;
  ctx : X;
  heartbeat_interval_sec : Z;
  last_activity : Z
}.

Record task := mkTask { t_mod : nat; t_data : bytes; t_asize : Z; t_src : Z; t_dir : Z }.

(** [crashed] is set when the code would follow a null or dangling module pointer. *)
Record Chain := mkChain {
  modules : list Module;
  entry_ext : bool;
  wire_entries : list (option nat);
  bytes_allocated : Z;
  bp0 : bool;
  bp1 : bool;
  cancelled : bool;
  owner : bool;
  inflight : Z;
  queue : list task;
  exits : list (Z * bytes);
  crashed : bool;
  pause_cb : bool * bool;                (* whether each callback is set *)
  pause_calls : list (Z * bool)          (* the calls of them: direction, paused *)
}.

(** ** Construction *)

Record Build := mkBuild {
  build : list Module;
  requested : list (nat * Z);
  next_id : Z
}.

(** [request_outputs_impl]: the last count of a module is kept. *)
Definition request_outputs (m : nat) (count : Z) (r : list (nat * Z)) : list (nat * Z) :=
  if count <? 1 then r else filter (λ e, e.1 ≠ m) r ++ [(m, count)].

Definition request_heartbeat (interval_sec : Z) (md : Module) : Module :=
  md{{heartbeat_interval_sec := if 0 <? interval_sec then interval_sec
                                else if interval_sec =? 0 then -2 else 0}}.

Definition run_init (m : nat) (st : Module * list (nat * Z)) (e : init_ev)
    : Module * list (nat * Z) :=
  match e with
  | IOutputs n => (st.1, request_outputs m n st.2)
  | IHeartbeat i => (request_heartbeat i st.1, st.2)
  end.

(** [now] is the time of the construction. *)
Definition create_one (now : Z) (spec : ModuleSpec) (cidx : nat) (b : Build) : option Build :=
  '(x, evs) ← init spec;
  let m := length (build b) in
  let md := mkMod (name spec) (next_id b) [None; None] (-1) cidx x 0 now in
  let '(md, req) := foldl (run_init m) (md, requested b) evs in
  Some (mkBuild (build b ++ [md]) req (next_id b + 1)).

Definition set_near (m i : nat) (p : option nat) (l : list Module) : list Module :=
  alter (λ x, x{{near ::= λ n, <[i := p]> n}}) m l.
Definition set_wire_dst (m : nat) (port : Z) (l : list Module) : list Module :=
  alter (λ x, x{{wire_dst := port}}) m l.

(** Phase 1: one instance per configured module, linked in a line. *)
Fixpoint create_main (now : Z) (specs : list ModuleSpec) (i : nat) (b : Build) : option Build :=
  match specs with
  | [] => Some b
  | s :: rest => b' ← create_one now s i b; create_main now rest (S i) b'
  end.

Definition link_main (l : list Module) : list Module :=
  imap (λ i x, x{{near := [if (i =? 0)%nat then None else Some (i - 1)%nat;
                           if (i + 1 <? length l)%nat then Some (i + 1)%nat else None] }}) l.

(** The instances [specs] of one sub-chain, linked behind [prev] ([mod] itself keeps its
    [near[1]]); the result is the last of them. *)
Fixpoint create_sub (now : Z) (mod_ prev : nat) (specs : list (nat * ModuleSpec)) (b : Build)
    : option (Build * nat) :=
  match specs with
  | [] => Some (b, prev)
  | (ri, spec) :: rest =>
      b1 ← create_one now spec ri b;
      let mp := length (build b) in
      let l := set_near mp 0 (Some prev) (build b1) in
      let l := if (prev =? mod_)%nat then l else set_near prev 1 (Some mp) l in
      create_sub now mod_ mp rest (b1{{build := l}})
  end.

(** State of phase 2: the instances, [_wire_entries], [next_port]. *)
Definition tail_specs (cfg : list ModuleSpec) (mc : nat) : list (nat * ModuleSpec) :=
  drop (S mc) (imap (λ i s, (i, s)) cfg).

(** Outputs [k], [k+1], ... of [mod_], [n] of them. *)
Fixpoint create_outputs (now : Z) (cfg : list ModuleSpec) (mod_ mc k n : nat)
    (st : Build * list (option nat) * nat) : option (Build * list (option nat) * nat) :=
  match n with
  | O => Some st
  | S n' =>
      let '(b, entries, port) := st in
      '(b1, last) ← create_sub now mod_ mod_ (tail_specs cfg mc) b;
      let l := set_wire_dst last (Z.of_nat port) (build b1) in
      let l := set_near mod_ (1 + k) (Some (length (build b))) l in
      let entries := entries ++ replicate (S port - length entries) None in
      create_outputs now cfg mod_ mc (S k) n'
        (b1{{build := l}}, <[port := Some last]> entries, S port)
  end.

Definition serve_request (now : Z) (cfg : list ModuleSpec) (st : Build * list (option nat) * nat)
    (req : nat * Z) : option (Build * list (option nat) * nat) :=
  let '(b, entries, port) := st in
  let '(m, count) := req in
  match build b !! m with
  | None => Some st
  | Some x =>
      if (length cfg <=? S (cfg_idx x))%nat then Some st else
      let l := alter (λ x, x{{near ::= λ nr, nr ++ replicate (2 + Z.to_nat count - length nr) None}})
                     m (build b) in
      create_outputs now cfg m (cfg_idx x) 1 (Z.to_nat count) (b{{build := l}}, entries, port)
  end.

Fixpoint serve_all (now : Z) (cfg : list ModuleSpec) (reqs : list (nat * Z))
    (st : Build * list (option nat) * nat) : option (Build * list (option nat) * nat) :=
  match reqs with
  | [] => Some st
  | r :: rest => st' ← serve_request now cfg st r; serve_all now cfg rest st'
  end.

(** Phase 2: [while (!_requested_outputs.empty())]. The instances a round creates come
    later in the configuration than the one that asked, so as many rounds as there are
    configured modules are enough. (The code walks an unordered map with the modules'
    addresses as keys; here requests are served in the order they were made. That is one
    of the orders the code may take; where a round has at most one request, as in every
    configuration with one split module, it is the only one.) *)
Fixpoint phase2 (fuel : nat) (now : Z) (cfg : list ModuleSpec) (st : Build * list (option nat) * nat)
    : option (Build * list (option nat) * nat) :=
  match fuel with
  | O => Some st
  | S f =>
      let '(b, entries, port) := st in
      match requested b with
      | [] => Some st
      | reqs => 
          st' ← serve_all now cfg reqs (b{{requested := [] }}, entries, port);
          phase2 f now cfg st'
      end
  end.

Definition fresh (l : list Module) (has_entry : bool) (entries : list (option nat)) : Chain :=
  mkChain l has_entry entries 0 false false false true 0 [] [] false (false, false) [].

(** The constructor. When a sub-chain cannot be built the modules are destroyed, but the
    entry pointers stay. *)
Definition chain_new (now : Z) (cfg : list ModuleSpec) : Chain :=
  match create_main now cfg 0 (mkBuild [] [] 0) with
  | None => fresh [] false []
  | Some b =>
      match build b with
      | [] => fresh [] false []
      | _ =>
          let last := (length (build b) - 1)%nat in
          let l := set_wire_dst last 1 (set_wire_dst 0 0 (link_main (build b))) in
          match phase2 (length cfg) now cfg (b{{build := l}}, [None; Some last], 2%nat) with
          | Some (b', entries, _) => fresh (build b') true entries
          | None => fresh [] true [None; Some last]
          end
      end
  end.

Definition total_extra_outputs (c : Chain) : Z :=
  if (length (wire_entries c) <? 2)%nat then 0 else Z.of_nat (length (wire_entries c)) - 2.

(** ** Buffers and back-pressure *)

Definition bp_next (bytes : Z) (was : bool) : bool :=
  let p := if (BACKPRESSURE_HIGH <? bytes) && negb was then true else was in
  if (bytes <=? BACKPRESSURE_LOW) && was then false else p.

Definition set_pause_callback (dir : Z) (c : Chain) : Chain :=
  c{{pause_cb ::= λ cb, if dir =? 0 then (true, cb.2) else (cb.1, true)}}.

(** A callback that is set is called when the flag of its direction changes. *)
Definition pause_call (dir : Z) (cb was paused : bool) : list (Z * bool) :=
  if cb && xorb was paused then [(dir, paused)] else [].

Definition check_backpressure (c : Chain) : Chain :=
  let p0 := bp_next (bytes_allocated c) (bp0 c) in
  let p1 := bp_next (bytes_allocated c) (bp1 c) in
  c{{bp0 := p0; bp1 := p1;
     pause_calls ::= λ l, l ++ pause_call 0 (pause_cb c).1 (bp0 c) p0
                            ++ pause_call 1 (pause_cb c).2 (bp1 c) p1}}.

Definition alloc_buffer (size : Z) (c : Chain) : option Chain :=
  if malloc_ok (bytes_allocated c) size
  then Some (check_backpressure (c{{bytes_allocated ::= Z.add size}}))
  else None.

Definition free_buffer (size : Z) (c : Chain) : Chain :=
  check_backpressure (c{{bytes_allocated ::= λ b, b - size}}).

(** ** Tasks *)

Definition enqueue_module (m : nat) (data : bytes) (asize src_idx dir : Z) (c : Chain) : Chain :=
  if negb (owner c) then free_buffer asize c
  else c{{inflight ::= Z.add 1; queue ::= λ q, q ++ [mkTask m data asize src_idx dir] }}.

Definition exit_chain (dst : Z) (data : bytes) (c : Chain) : Chain :=
  c{{exits ::= λ l, l ++ [(dst, data)] }}.

Definition push_packet (asize : Z) (data : bytes) (src_idx dir : Z) (c : Chain) : Chain :=
  if cancelled c then free_buffer asize c
  else if negb (entry_ext c) then
    free_buffer asize (exit_chain (if dir =? 0 then 1 else 0) data c)
  else if negb (owner c) then free_buffer asize c
  else if dir =? 0 then enqueue_module 0 data asize src_idx dir c
  else if (src_idx <? 0) || (Z.of_nat (length (wire_entries c)) <=? src_idx)
       then free_buffer asize c
  else match wire_entries c !! Z.to_nat src_idx with
       | Some (Some m) => enqueue_module m data asize src_idx dir c
       | _ => c{{crashed := true}}
       end.

Definition task_done (c : Chain) : Chain := c{{inflight ::= λ n, n - 1}}.

(** [write_packet_impl] of module [m], with [g_ctx_src_idx = src]. *)
Definition write_packet (m : nat) (x : Module) (src dst : Z) (data : bytes) (asize : Z) (c : Chain)
    : Chain * Z :=
  let dir := if dst =? 0 then 1 else 0 in
  match (if dst <? 0 then None else near x !! Z.to_nat dst) with
  | Some (Some n) => (enqueue_module n data asize src dir c, 0)
  | _ =>
      let port := if dst =? 0 then 0 else wire_dst x in
      (free_buffer asize (exit_chain port data c), wire_ret port data)
  end.

(** The module's calls, one after the other; the result is that of the last write. A
    [malloc] that fails leaves the accounting as it is. *)
Fixpoint run_events (m : nat) (x : Module) (src : Z) (evs : list mod_ev) (last : Z) (c : Chain)
    : Chain * Z :=
  match evs with
  | [] => (c, last)
  | MMalloc n :: rest => run_events m x src rest last (default c (alloc_buffer n c))
  | MFree n :: rest => run_events m x src rest last (free_buffer n c)
  | MSetSrc s :: rest => run_events m x s rest last c
  | MHeartbeat i :: rest =>
      run_events m x src rest last (c{{modules ::= alter (request_heartbeat i) m}})
  | MWrite dst d a :: rest =>
      let '(c', r) := write_packet m x src dst d a c in run_events m x src rest r c'
  end.

Definition set_ctx (m : nat) (x : X) (c : Chain) : Chain :=
  c{{modules ::= alter (λ md, md{{ctx := x}}) m}}.

(** The function of a [WorkTask]. *)
Definition run_task (now : Z) (t : task) (c : Chain) : Chain :=
  if cancelled c then task_done (free_buffer (t_asize t) c)
  else match modules c !! t_mod t with
       | None => task_done (c{{crashed := true}})
       | Some md =>
           let c := c{{modules ::= alter (λ md, md{{last_activity := now}}) (t_mod t)}} in
           let '(x', evs, r) :=
             process (mod_name md) (ctx md) (t_dir t) (t_src t) (Some (t_data t, t_asize t)) in
           let '(c, last) := run_events (t_mod t) md (t_src t) evs 0 (set_ctx (t_mod t) x' c) in
           let ret := match r with RetConst z => z | RetLastWrite => last end in
           task_done (if ret <? 0 then free_buffer (t_asize t) c else c)
       end.

(** A worker of the pool takes the oldest task and runs it. *)
Definition work (now : Z) (c : Chain) : Chain :=
  match queue c with
  | [] => c
  | t :: rest => run_task now t (c{{queue := rest}})
  end.

Definition is_drained (c : Chain) : bool := inflight c =? 0.
Definition is_backpressure_paused (dir : Z) (c : Chain) : bool := if dir =? 0 then bp0 c else bp1 c.

(** ** Heartbeats *)

(** Whether a module is called at [now], and its new time stamp. *)
Definition heartbeat_due (now system_ms : Z) (md : Module) : bool * Module :=
  let i := heartbeat_interval_sec md in
  if i =? 0 then (false, md)
  else if i =? -2 then (true, md)
  else
    let eff := if i <? 0 then system_ms else i * 1000 in
    let eff := if eff <? 1000 then 1000 else eff in
    if eff <=? now - last_activity md then (true, md{{last_activity := now}}) else (false, md).

(** A module is called on the event loop's thread, whose [g_ctx_src_idx] is still what the
    last [set_src] there left, 0 at first; here it is 0 at every call. That is exact for a
    module that calls [set_src] before it writes (limit) or that writes nothing on a
    heartbeat (the others under modules/). *)
Definition tick_module (now system_ms : Z) (m : nat) (c : Chain) : Chain :=
  match modules c !! m with
  | None => c
  | Some md =>
      let '(due, md') := heartbeat_due now system_ms md in
      let c := c{{modules ::= <[m := md']>}} in
      if (due : bool) then
        let '(x', evs, _) := process (mod_name md) (ctx md) (-1) 0 None in
        (run_events m md 0 evs 0 (set_ctx m x' c)).1
      else c
  end.

Definition check_module_heartbeats (now system_ms : Z) (c : Chain) : Chain :=
  foldl (λ c m, tick_module now system_ms m c) c (seq 0 (length (modules c))).

(** [cancel], and [wait_drain]: the queued tasks run and give their buffers back. *)
Definition cancel (c : Chain) : Chain := c{{cancelled := true}}.

Fixpoint drain (fuel : nat) (now : Z) (c : Chain) : Chain :=
  match fuel with
  | O => c
  | S k => match queue c with [] => c | _ => drain k now (work now c) end
  end.

Definition cancel_and_drain (now : Z) (c : Chain) : Chain :=
  drain (length (queue c)) now (cancel c).

(** ** Accounting *)

(** Tasks in flight are the queued ones, and [k] that run. *)
Definition balance (k : Z) (c : Chain) : Prop := inflight c = Z.of_nat (length (queue c)) + k.
Abbreviation counted := (balance 0).

Lemma enqueue_counted k m d a s dir c : balance k c → balance k (enqueue_module m d a s dir c).
Proof.
  unfold balance, enqueue_module. intros Hc. destruct (owner c); [|done].
  destruct c; cbn in *. rewrite length_app. simpl. lia.
Qed.

Lemma free_counted k n c : balance k c → balance k (free_buffer n c).
Proof. done. Qed.

Lemma alloc_counted k n c : balance k c → balance k (default c (alloc_buffer n c)).
Proof. intros Hc. unfold alloc_buffer. by case_match. Qed.

Lemma write_packet_counted k m x src dst d a c :
  balance k c → balance k (write_packet m x src dst d a c).1.
Proof.
  intros Hc. unfold write_packet.
  destruct (if dst <? 0 then None else near x !! Z.to_nat dst) as [[n|]|]; cbn [fst]; try done.
  by apply enqueue_counted.
Qed.

Lemma run_events_counted k m x evs : ∀ src last c,
  balance k c → balance k (run_events m x src evs last c).1.
Proof.
  induction evs as [|[n|n|s|i|dst d a] evs IH]; intros src last c Hc; cbn [run_events]; try done.
  - by apply IH, alloc_counted.
  - by apply IH.
  - by apply IH.
  - by apply IH.
  - pose proof (write_packet_counted k m x src dst d a c Hc) as Hw.
    destruct (write_packet m x src dst d a c) as [c' r]. by apply IH.
Qed.

Lemma task_done_counted k c : balance (k + 1) c → balance k (task_done c).
Proof. unfold balance, task_done. destruct c; cbn. lia. Qed.

Lemma run_task_counted now t c : balance 1 c → counted (run_task now t c).
Proof.
  unfold run_task. intros Hc. destruct (cancelled c); [by apply task_done_counted|].
  destruct (modules c !! t_mod t) as [md|]; [|by apply task_done_counted].
  destruct (process _ _ _ _ _) as [[x' evs] r]. set (c1 := set_ctx _ _ _).
  pose proof (run_events_counted 1 (t_mod t) md evs (t_src t) 0 c1 Hc) as Hr.
  destruct (run_events _ _ _ _ _ _) as [c2 last]. apply task_done_counted. by case_match.
Qed.

Lemma work_counted now c : counted c → counted (work now c).
Proof.
  unfold work. intros Hc. destruct (queue c) as [|t rest] eqn:E; [done|].
  apply run_task_counted. unfold balance in *. destruct c; cbn in *. subst. unfold constant. cbn in *. lia.
Qed.

Lemma push_packet_counted k a d s dir c : balance k c → balance k (push_packet a d s dir c).
Proof.
  intros Hc. unfold push_packet. repeat case_match; try done; by apply enqueue_counted.
Qed.

Lemma tick_counted now ms m c : counted c → counted (tick_module now ms m c).
Proof.
  intros Hc. unfold tick_module. destruct (modules c !! m) as [md|]; [|done].
  destruct (heartbeat_due now ms md) as [due md']. destruct due; [|done].
  destruct (process _ _ _ _ _) as [[x' evs] r]. by apply run_events_counted.
Qed.

(** What the rest of the program does to a chain. *)
Inductive op :=
| OpPush (asize : Z) (data : bytes) (src dir : Z)
| OpAlloc (size : Z)
| OpFree (size : Z)
| OpWork (now : Z)
| OpTick (now system_ms : Z)
| OpCancel.

Definition run_op (c : Chain) (o : op) : Chain :=
  match o with
  | OpPush a d s dir => push_packet a d s dir c
  | OpAlloc n => default c (alloc_buffer n c)
  | OpFree n => free_buffer n c
  | OpWork now => work now c
  | OpTick now ms => check_module_heartbeats now ms c
  | OpCancel => cancel c
  end.

Lemma run_op_counted c o : counted c → counted (run_op c o).
Proof.
  intros Hc. destruct o; cbn [run_op]; try done.
  - by apply push_packet_counted.
  - by apply alloc_counted.
  - by apply work_counted.
  - unfold check_module_heartbeats. generalize (seq 0 (length (modules c))).
    intros l. revert c Hc. induction l as [|m l IH]; intros c Hc; [done|].
    cbn [foldl]. by apply IH, tick_counted.
Qed.

Lemma run_ops_counted ops c : counted c → counted (foldl run_op c ops).
Proof. revert c. induction ops; intros c Hc; [done|]. cbn. by apply IHops, run_op_counted. Qed.

Lemma chain_new_counted now cfg : counted (chain_new now cfg).
Proof. unfold chain_new. repeat case_match; done. Qed.

(** [is_drained] means what its users (disconnects wait for it) take it to mean:
    after any history of pushes, module runs, heartbeats, allocations and a cancellation,
    the in-flight count is zero exactly when no task is queued. *)
Theorem drained_iff_no_task (now : Z) (cfg : list ModuleSpec) (ops : list op) :
  let c := foldl run_op (chain_new now cfg) ops in
  is_drained c = true ↔ queue c = [].
Proof.
  intros c. assert (counted c) as Hc by (apply run_ops_counted, chain_new_counted).
  unfold is_drained. unfold balance in Hc. rewrite Z.eqb_eq, Hc. destruct (queue c); [done|]. split; [simpl; lia|done].
Qed.

(** ** Back-pressure *)

(** From [b], every call of [l] changes the state, and the last one leaves [b']. *)
Fixpoint toggles (b : bool) (l : list bool) (b' : bool) : Prop :=
  match l with [] => b = b' | x :: r => x = negb b ∧ toggles x r b' end.

Lemma toggles_app b l1 x l2 b' : toggles b l1 x → toggles x l2 b' → toggles b (l1 ++ l2) b'.
Proof. revert b. induction l1 as [|y l1 IH]; cbn; [by intros b ->|]. intros b [-> H1] H2. split; [done|]. eauto. Qed.

Definition calls_of (dir : Z) (l : list (Z * bool)) : list bool := map snd (filter (λ e, e.1 = dir) l).

(** What the callbacks were told is what the flags did. *)
Definition told (cb : bool * bool) (c : Chain) : Prop :=
  pause_cb c = cb ∧ (cb.1 = true → toggles false (calls_of 0 (pause_calls c)) (bp0 c))
  ∧ (cb.2 = true → toggles false (calls_of 1 (pause_calls c)) (bp1 c)).

(** The two flags agree, and follow the allocation with hysteresis. *)
Definition pressure_ok (cb : bool * bool) (c : Chain) : Prop :=
  bp0 c = bp1 c ∧ (bp0 c = true → BACKPRESSURE_LOW < bytes_allocated c)
  ∧ (bp0 c = false → bytes_allocated c <= BACKPRESSURE_HIGH) ∧ told cb c.

Lemma calls_of_app d l1 l2 : calls_of d (l1 ++ l2) = calls_of d l1 ++ calls_of d l2.
Proof. unfold calls_of. by rewrite filter_app, map_app. Qed.

Lemma pause_call_toggles d was p : toggles was (calls_of d (pause_call d true was p)) p.
Proof. unfold pause_call, calls_of. by destruct was, p; cbn; rewrite ?decide_True by done. Qed.

Lemma pause_call_other d d' cb was p : d ≠ d' → calls_of d' (pause_call d cb was p) = [].
Proof. intros Hd. unfold pause_call, calls_of. case_match; [|done]. cbn. by rewrite decide_False. Qed.

Lemma check_backpressure_told (cb : bool * bool) c : told cb c → told cb (check_backpressure c).
Proof.
  intros (<- & H0 & H1). unfold told, check_backpressure.
  destruct c as [? ? ? n p0 p1 ? ? ? ? ? ? [cb0 cb1] l]; cbn -[calls_of pause_call toggles] in *.
  split; [done|]. split; intros ->; rewrite !calls_of_app.
  - rewrite (pause_call_other 1 0), app_nil_r by done. eapply toggles_app; [by apply H0|apply pause_call_toggles].
  - rewrite (pause_call_other 0 1) by done. eapply toggles_app; [by apply H1|apply pause_call_toggles].
Qed.

Lemma check_backpressure_ok (cb : bool * bool) c :
  bp0 c = bp1 c → told cb c → pressure_ok cb (check_backpressure c).
Proof.
  intros Hb Ht%check_backpressure_told. unfold pressure_ok. rewrite !(assoc and). split; [|exact Ht]. clear Ht.
  unfold check_backpressure, bp_next, BACKPRESSURE_LOW, BACKPRESSURE_HIGH.
  destruct c as [? ? ? n p0 p1]; cbn in *. subst p1. rewrite <- !(assoc and). split; [done|].
  destruct p0; cbn; rewrite ?andb_false_r, ?andb_true_r;
    destruct (Z.ltb_spec 524288 n), (Z.leb_spec n 131072); split; try done; lia.
Qed.

Lemma enqueue_pressure (cb : bool * bool) m d a s dir c : pressure_ok cb c → pressure_ok cb (enqueue_module m d a s dir c).
Proof.
  intros Hc. unfold enqueue_module. destruct (owner c); [done|].
  apply check_backpressure_ok; apply Hc.
Qed.

Lemma free_pressure (cb : bool * bool) n c : pressure_ok cb c → pressure_ok cb (free_buffer n c).
Proof. intros Hc. apply check_backpressure_ok; apply Hc. Qed.

Lemma alloc_pressure (cb : bool * bool) n c : pressure_ok cb c → pressure_ok cb (default c (alloc_buffer n c)).
Proof.
  intros Hc. unfold alloc_buffer. case_match; [|done]. apply check_backpressure_ok; apply Hc.
Qed.

Lemma run_events_pressure (cb : bool * bool) m x evs : ∀ src last c,
  pressure_ok cb c → pressure_ok cb (run_events m x src evs last c).1.
Proof.
  induction evs as [|[n|n|s|i|dst d a] evs IH]; intros src last c Hc; cbn [run_events]; try done.
  - by apply IH, alloc_pressure.
  - by apply IH, free_pressure.
  - by apply IH.
  - by apply IH.
  - unfold write_packet. repeat case_match; simplify_eq; apply IH;
      (by apply enqueue_pressure) || (by apply free_pressure).
Qed.

Lemma run_op_pressure (cb : bool * bool) c o : pressure_ok cb c → pressure_ok cb (run_op c o).
Proof.
  intros Hc. destruct o; cbn [run_op]; try done.
  - unfold push_packet. repeat case_match; try done;
      (by apply free_pressure) || (by apply enqueue_pressure).
  - by apply alloc_pressure.
  - by apply free_pressure.
  - unfold work. destruct (queue c) as [|t rest]; [done|]. unfold run_task.
    destruct (cancelled _); [by apply (free_pressure _ (t_asize t))|].
    destruct (modules _ !! _) as [md|]; [|done]. destruct (process _ _ _ _ _) as [[x' evs] r].
    set (c1 := set_ctx _ _ _).
    pose proof (run_events_pressure cb (t_mod t) md evs (t_src t) 0 c1 Hc) as H1.
    destruct (run_events _ _ _ _ _ _) as [c2 last]. destruct (_ <? 0); [|done].
    by apply (free_pressure _ (t_asize t)) in H1.
  - unfold check_module_heartbeats. generalize (seq 0 (length (modules c))).
    intros l. revert c Hc. induction l as [|m l IH]; intros c Hc; [done|].
    cbn [foldl]. apply IH. unfold tick_module. destruct (modules c !! m) as [md|]; [|done].
    destruct (heartbeat_due now system_ms md) as [due md']. destruct due; [|done].
    destruct (process _ _ _ _ _) as [[x' evs] r]. by apply run_events_pressure.
Qed.

Lemma run_ops_pressure (cb : bool * bool) ops c : pressure_ok cb c → pressure_ok cb (foldl run_op c ops).
Proof. revert c. induction ops as [|o ops IH]; intros c Hc; [done|]. cbn. by apply IH, run_op_pressure. Qed.

(** Back-pressure is a hysteresis on the bytes allocated: after any history, reading
    is paused only while more than 128 KB are allocated, and is not paused only while at
    most 512 KB are; the two directions are always paused together. *)
Theorem backpressure_hysteresis (now : Z) (cfg : list ModuleSpec) (ops : list op) :
  let c := foldl run_op (chain_new now cfg) ops in
  is_backpressure_paused 0 c = is_backpressure_paused 1 c
  ∧ (is_backpressure_paused 0 c = true → BACKPRESSURE_LOW < bytes_allocated c)
  ∧ (is_backpressure_paused 0 c = false → bytes_allocated c <= BACKPRESSURE_HIGH).
Proof.
  intros c. enough (pressure_ok (false, false) c) as (H1 & H2 & H3 & _) by (split_and!; done).
  apply run_ops_pressure. unfold chain_new; by repeat case_match.
Qed.

(** The endpoint is told of every change of the back-pressure: with both callbacks set
    after the construction, the calls of each direction alternate between pause and resume,
    starting with a pause, and the last of them is the state of the flag. *)
Theorem pause_callbacks_exact (now : Z) (cfg : list ModuleSpec) (ops : list op) (dir : Z) :
  dir = 0 ∨ dir = 1 →
  let c := foldl run_op (set_pause_callback 1 (set_pause_callback 0 (chain_new now cfg))) ops in
  toggles false (calls_of dir (pause_calls c)) (is_backpressure_paused dir c).
Proof.
  intros Hd c. enough (pressure_ok (true, true) c) as (_ & _ & _ & _ & H0 & H1).
  { destruct Hd as [-> | ->]; [by apply H0|by apply H1]. }
  apply run_ops_pressure. unfold chain_new; by repeat case_match.
Qed.

(** ** Teardown *)

Definition queued_bytes (c : Chain) : Z := foldr (λ t n, t_asize t + n) 0 (queue c).

(** A cancelled chain gives the buffers of its tasks back, one by one. *)
Lemma drain_cancelled now k : ∀ c,
  cancelled c = true → (length (queue c) <= k)%nat →
  let c' := drain k now c in
  queue c' = [] ∧ bytes_allocated c' = bytes_allocated c - queued_bytes c
  ∧ exits c' = exits c ∧ modules c' = modules c
  ∧ inflight c' = inflight c - Z.of_nat (length (queue c)).
Proof.
  induction k as [|k IH]; intros c Hc Hk; cbn [drain]; unfold queued_bytes.
  - destruct (queue c); [|cbn in Hk; lia]. cbn. split_and!; done || lia.
  - destruct (queue c) as [|t rest] eqn:E; [cbn; split_and!; done || lia|].
    unfold work. rewrite E. unfold run_task.
    match goal with |- context [if cancelled ?d then _ else _] => change (cancelled d) with (cancelled c) end.
    rewrite Hc. match goal with |- context [drain k now ?d] => destruct (IH d) as (H1 & H2 & H3 & H4 & H5) end.
    + exact Hc.
    + cbn in Hk. unfold task_done, free_buffer, check_backpressure. cbn. unfold constant. lia.
    + unfold queued_bytes, task_done, free_buffer, check_backpressure in *. destruct c.
      cbn -[drain Z.of_nat] in *. unfold constant in *. split_and!; try done; lia.
Qed.


#[global] Instance chain_ops : ChainOps Chain := {|
  ChainApi.chain_new := chain_new;
  ChainApi.push_packet := push_packet;
  ChainApi.alloc_buffer := alloc_buffer;
  ChainApi.free_buffer := free_buffer;
  ChainApi.is_backpressure_paused := is_backpressure_paused;
  ChainApi.is_drained := is_drained;
  ChainApi.total_extra_outputs := total_extra_outputs;
  ChainApi.check_module_heartbeats := check_module_heartbeats;
  ChainApi.chain_cancel := cancel_and_drain
|}.

End chain.

(** 600000 bytes are allocated and given back: a pause and a resume of each direction. *)
Lemma pause_callbacks_exact_witness :
  let run := foldl (run_op (λ (_ : bytes) (x : unit) _ _ _, (x, [], RetConst 0)) (λ _ _, 0) (λ _ _, true))
                   (set_pause_callback 1 (set_pause_callback 0 (chain_new (λ _, None) 0 []))) in
  toggles false (calls_of 1 (pause_calls (run [OpAlloc 600000; OpFree 600000])))
          (is_backpressure_paused 1 (run [OpAlloc 600000; OpFree 600000]))
  ∧ pause_calls (run [OpAlloc 600000; OpFree 600000]) = [(0, true); (1, true); (0, false); (1, false)].
Proof.
  intros run. split; [|reflexivity].
  apply (pause_callbacks_exact (X := unit)). by right.
Defined.

End Chain.
