(* ===== verification/Copy.v ===== *)
(** * The built-in [copy] module (core/modules/copy.cpp)

    It passes every packet on, as it is or in a fresh buffer. *)

From S2P Require Import Prelude Text ChainApi Chain.
Local Open Scope Z_scope.

Module Copy.

Record ctx := mkCtx { trace : bool; node_id : Z; mode_copy : bool }.

Definition s_trace : bytes := [116; 114; 97; 99; 101].
Definition s_m : bytes := [109; 58].

(** [init]: [mode_copy] is set by the letter after the first ["m:"]. *)
Definition builtin_copy_init (node : Z) (config : bytes) : ctx :=
  let config := c_str config in
  let mode := match strstr s_m config with
              | Some m => match m !! 2%nat with
                          | Some c => c =? 99
                          | None => false
                          end
              | None => false
              end in
  mkCtx (match strstr s_trace config with Some _ => true | None => false end) node mode.

(** [process]; [malloc_ok] says for which sizes the chain's [malloc] gives a buffer. *)
Definition builtin_copy_process (malloc_ok : Z → bool) (x : ctx) (dir trigger_idx : Z) (data : option (bytes * Z))
    : ctx * list Chain.mod_ev * Chain.mod_ret :=
  match data with
  | None => (x, [], Chain.RetConst (-1))
  | Some ([], _) => (x, [], Chain.RetConst (-1))
  | Some (d, a) =>
      let write_dst := if dir =? 0 then 1 else 0 in
      if mode_copy x then
        if negb (malloc_ok (Z.of_nat (length d))) then (x, [], Chain.RetConst (-1)) else
        (x, [Chain.MMalloc (Z.of_nat (length d)); Chain.MFree a;
             Chain.MWrite write_dst d (Z.of_nat (length d))], Chain.RetLastWrite)
      else (x, [Chain.MWrite write_dst d a], Chain.RetLastWrite)
  end.

(** The module as the chain sees it, found by its name. *)
Definition s_copy : bytes := [99; 111; 112; 121].

Definition init (spec : ModuleSpec) : option (ctx * list Chain.init_ev) :=
  if bool_decide (name spec = s_copy) then Some (builtin_copy_init 0 (params spec), []) else None.

Definition process_in (malloc_ok : Z → bool) (nm : bytes) (x : ctx) (dir src : Z) (data : option (bytes * Z))
    : ctx * list Chain.mod_ev * Chain.mod_ret :=
  builtin_copy_process malloc_ok x dir src data.

(** When memory does not run out. *)
Definition process := process_in (λ _, true).

(** In move mode memory does not matter; in copy mode a buffer that is not given is reported
    to the chain, and the packet is left alone. *)
Lemma copy_out_of_memory (malloc_ok : Z → bool) nm x dir src d a : d ≠ [] → malloc_ok (Z.of_nat (length d)) = false →
  process_in malloc_ok nm x dir src (Some (d, a))
  = if mode_copy x then (x, [], Chain.RetConst (-1)) else process nm x dir src (Some (d, a)).
Proof. intros Hd Hm. unfold process, process_in, builtin_copy_process. rewrite Hm. by destruct d, (mode_copy x). Qed.

End Copy.
