(* ===== verification/SplitConfig.v ===== *)
(** * Starting the split module (modules/split/split.cpp, [parse_size] and [init])

    The configuration text [n:N,s:MIN-MAX] is turned into a context and a request for
    outputs; whatever the text, the context satisfies what [process_split] relies on. *)

From S2P Require Import Prelude Text ChainApi Chain Split.
From stdpp Require Import options.
Local Open Scope Z_scope.

Module SplitConfig.

Definition DASH : Z := 45.

(** The last character is ['K'] or ['k']. *)
Definition ends_in_k (s : bytes) : bool :=
  match last s with Some c => (c =? 75) || (c =? 107) | None => false end.

(** [parse_size(s, def)] on a C string; no result when [val *= 1024] leaves [long]. *)
Definition parse_size (s : bytes) (def : Z) : option Z :=
  match s with
  | [] => Some def
  | _ =>
      let val := atol s in
      if val <=? 0 then Some def
      else
        let val' := if ends_in_k s then val * 1024 else val in
        if val' <? 2 ^ 63 then Some (Split.CLAMP (int32 val') Split.MIN_CHUNK Split.MAX_CHUNK)
        else None
  end.

(** The two bounds of the chunk size, from the text after [s:]; at most 63 characters in
    front of the dash are copied to [tmp]. *)
Definition parse_range (sp : bytes) : option (Z * Z) :=
  '(lo, hi) ← match index_of DASH sp with
              | Some dash =>
                  let len := Nat.min dash 63 in
                  lo ← parse_size (take len sp) Split.DEF_CHUNK_SIZE;
                  hi ← parse_size (drop (S dash) sp) Split.DEF_CHUNK_SIZE;
                  Some (lo, hi)
              | None =>
                  lo ← parse_size sp Split.DEF_CHUNK_SIZE;
                  Some (lo, lo)
              end;
  Some (if hi <? lo then (hi, lo) else (lo, hi)).

Definition parse_outputs (config : bytes) : Z :=
  match strstr (lit "n:") config with
  | Some t => atoi (drop 2 t)
  | None => if bool_decide (take 6 config = lit "split:") then atoi (drop 6 config) else 1
  end.

(** [init(api, config)], with [api_ok]: the chain has [request_outputs]. The result is the
    context and the number of outputs asked for. ([trace] only enables output.) *)
Definition init (api_ok : bool) (config : bytes) : option (Split.SplitContext * option Z) :=
  let config := c_str config in
  '(lo, hi) ← match strstr (lit "s:") config with
              | Some t => parse_range (drop 2 t)
              | None => Some (Split.DEF_CHUNK_SIZE, Split.DEF_CHUNK_SIZE)
              end;
  let extra := match config with [] => 1 | _ => parse_outputs config end in
  let extra := if extra <? 1 then 1 else extra in
  if api_ok then
    Some (Split.new_ctx extra lo hi, Some (if 1 <? extra then extra - 1 else 0))
  else Some (Split.new_ctx 1 lo hi, None).

(** ** The context is well formed *)

Lemma clamp_bounds x : Split.MIN_CHUNK <= Split.CLAMP x Split.MIN_CHUNK Split.MAX_CHUNK <= Split.MAX_CHUNK.
Proof.
  unfold Split.CLAMP, Split.MIN_CHUNK, Split.MAX_CHUNK.
  destruct (Z.ltb_spec x 64); [lia|]. destruct (Z.ltb_spec 65536 x); lia.
Qed.

Lemma parse_size_bounds s v : parse_size s Split.DEF_CHUNK_SIZE = Some v →
  Split.MIN_CHUNK <= v <= Split.MAX_CHUNK.
Proof.
  assert (H : Split.MIN_CHUNK <= Split.DEF_CHUNK_SIZE <= Split.MAX_CHUNK) by done.
  destruct s as [|b s]; [by intros [= <-]|]. unfold parse_size.
  destruct (atol (b :: s) <=? 0); [by intros [= <-]|]. cbv zeta.
  destruct (_ <? 2 ^ 63); [intros [= <-]; apply clamp_bounds|done].
Qed.

Lemma parse_range_bounds sp lo hi : parse_range sp = Some (lo, hi) →
  Split.MIN_CHUNK <= lo <= hi ∧ hi <= Split.MAX_CHUNK.
Proof.
  unfold parse_range. intros ([a b] & E & H)%bind_Some.
  assert (Hab : (Split.MIN_CHUNK <= a <= Split.MAX_CHUNK) ∧ (Split.MIN_CHUNK <= b <= Split.MAX_CHUNK)).
  { destruct (index_of DASH sp).
    - apply bind_Some in E as (x & Hx & (y & Hy & [= <- <-])%bind_Some).
      split; by eapply parse_size_bounds.
    - apply bind_Some in E as (x & Hx & [= <- <-]). split; by eapply parse_size_bounds. }
  destruct (Z.ltb_spec b a); injection H as <- <-; lia.
Qed.

Lemma parse_outputs_range config : - 2 ^ 31 <= parse_outputs config < 2 ^ 31.
Proof.
  unfold parse_outputs. destruct (strstr _ config); [apply int32_range|].
  case_bool_decide; [apply int32_range|lia].
Qed.

(** What [init] leaves for the data path. *)
Lemma init_wf config ctx req :
  init true config = Some (ctx, req) →
  Split.sizes_ok ctx ∧ req = Some (Split.num_outputs ctx - 1)
  ∧ ctx = Split.new_ctx (Split.num_outputs ctx) (Split.chunk_size_min ctx) (Split.chunk_size_max ctx).
Proof.
  unfold init. intros ([lo hi] & E & H)%bind_Some.
  assert (Hs : Split.MIN_CHUNK <= lo <= hi ∧ hi <= Split.MAX_CHUNK).
  { destruct (strstr (lit "s:") (c_str config)); [by eapply parse_range_bounds|].
    by injection E as <- <-. }
  revert H. set (e := match c_str config with [] => 1 | _ => _ end).
  assert (He : e < 2 ^ 31).
  { subst e. destruct (c_str config); [lia|apply parse_outputs_range]. }
  clearbody e. intros [= <- <-].
  unfold Split.sizes_ok. cbn. destruct (Z.ltb_spec e 1).
  - cbn. repeat split; lia.
  - split_and!; [lia..| |done]. destruct (Z.ltb_spec 1 e); f_equal; lia.
Qed.

(** [C38] Whatever its configuration text, a split module that starts has a context of the
    type the data path needs: chunk sizes ordered and within 64..65536, at least one
    output, all counters at zero, nothing pending; and it asks the chain for one output
    less than it uses, the first being the one every module has. *)
Theorem split_init_ok config ctx req :
  init true config = Some (ctx, req) →
  Split.sizes_ok ctx ∧ req = Some (Split.num_outputs ctx - 1)
  ∧ ctx = Split.new_ctx (Split.num_outputs ctx) (Split.chunk_size_min ctx) (Split.chunk_size_max ctx).
Proof. apply init_wf. Qed.

Lemma split_init_ok_witness :
  ∃ ctx, init true (lit "n:3,s:32K-1K") = Some (ctx, Some 2)
    ∧ Split.chunk_size_min ctx = 1024 ∧ Split.chunk_size_max ctx = 32768 ∧ Split.sizes_ok ctx.
Proof.
  eexists. split; [reflexivity|]. split; [reflexivity|]. split; [reflexivity|].
  eapply (split_init_ok (lit "n:3,s:32K-1K")). reflexivity.
Defined.

(** ** Where the code falls short *)

(** [atol] keeps a huge number at the largest [long], and the suffix multiplies it: the
    signed product overflows. *)
Theorem size_suffix_overflows def : parse_size (lit "9223372036854775807K") def = None.
Proof. reflexivity. Qed.

(** The suffix is looked for at the end of the whole configuration: a size that is not the
    last setting loses it, and [16K] becomes the minimum, 64. *)
Theorem size_suffix_ignored :
  (Split.chunk_size_min ∘ fst <$> init true (lit "n:3,s:16K")) = Some 16384
  ∧ (Split.chunk_size_min ∘ fst <$> init true (lit "s:16K,n:3")) = Some 64.
Proof. split; reflexivity. Qed.

(** The help text offers [n:N] for N extra streams; N is the total, N - 1 are extra. *)
Theorem outputs_are_total :
  (snd <$> init true (lit "n:3")) = Some (Some 2).
Proof. reflexivity. Qed.

(** ** The module in a chain *)

(** The calls the chain sees while the module starts. *)
Definition chain_init (config : bytes) : option (Split.SplitContext * list Chain.init_ev) :=
  '(ctx, req) ← init true config;
  Some (ctx, match req with Some n => [Chain.IOutputs n] | None => [] end).

Lemma chain_init_wf config ctx evs :
  chain_init config = Some (ctx, evs) →
  evs = [Chain.IOutputs (Split.num_outputs ctx - 1)] ∧ Split.sizes_ok ctx
  ∧ ctx = Split.new_ctx (Split.num_outputs ctx) (Split.chunk_size_min ctx) (Split.chunk_size_max ctx).
Proof.
  unfold chain_init. intros ([ctx' req] & H & [= -> <-])%bind_Some.
  apply init_wf in H as (Hs & -> & Hc). done.
Qed.

End SplitConfig.
