(* ===== verification/ChainFlow.v ===== *)
(** * Packets through a chain

    A chain of modules that turn one packet into one packet, or refuse it, is the
    composition of those modules: packets leave in the order they entered, only those that
    a module refuses are missing, and the chain of the peer undoes it. *)

From coqutil Require Import Datatypes.RecordSetters.
From S2P Require Import Prelude ChainApi Chain Copy.
Import DoubleBraceUpdate.
Local Open Scope Z_scope.

Module ChainFlow.
Import Chain.

Section flow.
Context {X : Type}.
Context (init : ModuleSpec → option (X * list init_ev)).
Context (process : bytes → X → Z → Z → option (bytes * Z) → X * list mod_ev * mod_ret).
Context (wire_ret : Z → bytes → Z).
Context (malloc_ok : Z → Z → bool).
(** What the module of a specification does to a packet, by direction; [None] when it
    refuses it. *)
Context (f : ModuleSpec → Z → bytes → option bytes).
Context (cfg : list ModuleSpec).

#[local] Abbreviation Chain := (@Chain X).
#[local] Abbreviation run_op := (run_op process wire_ret malloc_ok).
#[local] Abbreviation Mod := (@Chain.Module X).
#[local] Abbreviation chain_new := (chain_new init).
#[local] Abbreviation n := (length cfg).

(** Calls that only move buffers. *)
Definition is_buffer_ev (e : mod_ev) : Prop :=
  match e with MMalloc _ | MFree _ => True | _ => False end.

(** A module that answers each packet with one packet, passed on in the direction it came,
    or with none; that asks for no extra output, and does nothing on a heartbeat. *)
Definition relays (spec : ModuleSpec) : Prop :=
  ∃ x ievs,
    init spec = Some (x, ievs)
    ∧ Forall (λ e, match e with IHeartbeat _ => True | IOutputs _ => False end) ievs
    ∧ (∀ dir src d a, dir = 0 ∨ dir = 1 → d ≠ [] →
         match f spec dir d with
         | Some d' =>
             d' ≠ [] ∧ ∃ pre a' r, process (name spec) x dir src (Some (d, a))
                                   = (x, pre ++ [MWrite (1 - dir) d' a'], r)
                                   ∧ Forall is_buffer_ev pre
         | None => ∃ evs r, process (name spec) x dir src (Some (d, a)) = (x, evs, r)
                            ∧ Forall is_buffer_ev evs
         end)
    ∧ ∃ r, process (name spec) x (-1) 0 None = (x, [], r).

(** ** The specification *)

Fixpoint encode (specs : list ModuleSpec) (d : bytes) : option bytes :=
  match specs with
  | [] => Some d
  | s :: rest => f s 0 d ≫= encode rest
  end.
Fixpoint decode (specs : list ModuleSpec) (d : bytes) : option bytes :=
  match specs with
  | [] => Some d
  | s :: rest => decode rest d ≫= f s 1
  end.

Lemma decode_snoc specs s d : decode (specs ++ [s]) d = f s 1 d ≫= decode specs.
Proof.
  induction specs as [|s' specs IH]; cbn; [by destruct (f s 1 d)|]. rewrite IH.
  by destruct (f s 1 d).
Qed.

(** The packets pushed in a direction, and those that left through a port. *)
Definition pushes (dir : Z) (ops : list op) : list bytes :=
  omap (λ o, match o with
             | OpPush _ d _ dir' => if dir' =? dir then Some d else None
             | _ => None
             end) ops.
Definition exits_at (port : Z) (c : Chain) : list bytes := (filter (λ e, e.1 = port) (exits c)).*2.

(** The uses of a chain that are considered: no cancellation, packets are not empty, and
    those of the wire come from connection 1. *)
Definition valid_op (o : op) : Prop :=
  match o with
  | OpPush _ d src dir => d ≠ [] ∧ (dir = 0 ∨ dir = 1 ∧ src = 1)
  | OpCancel => False
  | _ => True
  end.

(** ** Tasks in flight, in the order they will leave *)

(** How many modules are after the one of a task, and what will become of its packet. *)
Definition rank (t : task) : nat := if t_dir t =? 0 then n - 1 - t_mod t else t_mod t.
Definition final (t : task) : option bytes :=
  if t_dir t =? 0 then encode (drop (t_mod t) cfg) (t_data t)
  else decode (take (S (t_mod t)) cfg) (t_data t).

Definition at_rank (dir : Z) (r : nat) (q : list task) : list task :=
  filter (λ t, t_dir t = dir ∧ rank t = r) q.

Fixpoint flight (dir : Z) (k : nat) (q : list task) : list bytes :=
  match k with
  | O => []
  | S k => flight dir k q ++ omap final (at_rank dir k q)
  end.

Definition stream (dir : Z) (c : Chain) : list bytes :=
  exits_at (1 - dir) c ++ flight dir n (queue c).

Lemma flight_other dir k q t : t_dir t ≠ dir ∨ (k <= rank t)%nat →
  flight dir k (t :: q) = flight dir k q ∧ flight dir k (q ++ [t]) = flight dir k q.
Proof.
  intros Hne. induction k as [|k IH]; [done|]. cbn [flight].
  destruct IH as [-> ->]; [destruct Hne; [by left|right; lia]|].
  unfold at_rank. rewrite filter_app, filter_cons_False, filter_cons_False by (intros [??]; intuition (congruence || lia)).
  by rewrite filter_nil, app_nil_r.
Qed.

Lemma flight_above dir k q q' j :
  (k <= j)%nat → flight dir k q = flight dir k q' →
  (∀ r, (k <= r)%nat → at_rank dir r q = at_rank dir r q') → flight dir j q = flight dir j q'.
Proof.
  intros Hj Hk Hr. induction j as [|j IH]; [by replace k with O in * by lia|].
  destruct (decide (k = S j)) as [->|]; [done|]. cbn [flight].
  by rewrite IH, Hr by lia.
Qed.

(** A new packet is the last. *)
Lemma flight_snoc dir q t :
  t_dir t = dir → flight dir (S (rank t)) (q ++ [t]) = flight dir (S (rank t)) q ++ option_list (final t).
Proof.
  intros Hd. cbn [flight]. rewrite (proj2 (flight_other dir (rank t) q t ltac:(auto))).
  unfold at_rank. rewrite filter_app, filter_cons_True by done.
  by rewrite filter_nil, omap_snoc_opt, app_assoc.
Qed.

(** A packet at the last module is the first to leave. *)
Lemma flight_cons dir k q t :
  t_dir t = dir → rank t = O → (0 < k)%nat → flight dir k (t :: q) = option_list (final t) ++ flight dir k q.
Proof.
  intros Hd Hr. induction k as [|k IH]; [lia|]. intros _. cbn [flight]. unfold at_rank.
  destruct k as [|k].
  - cbn [flight app]. rewrite filter_cons_True by done. by rewrite omap_cons_opt.
  - rewrite IH, filter_cons_False by (lia || intros [??]; lia). by rewrite app_assoc.
Qed.

(** A packet that will be refused leaves no trace. *)
Lemma flight_lost dir k q t : final t = None → flight dir k (t :: q) = flight dir k q.
Proof.
  intros Hf. induction k as [|k IH]; [done|]. cbn [flight]. rewrite IH. f_equal. unfold at_rank.
  destruct (decide (t_dir t = dir ∧ rank t = k)).
  - rewrite filter_cons_True, omap_cons_opt, Hf by done. done.
  - by rewrite filter_cons_False.
Qed.

(** A packet that moves on keeps its place. *)
Lemma flight_move dir k q t t' :
  t_dir t = dir → t_dir t' = dir → rank t = S (rank t') → final t' = final t →
  (rank t < k)%nat → flight dir k (q ++ [t']) = flight dir k (t :: q).
Proof.
  intros Hd Hd' Hr Hf Hk. apply (flight_above dir (S (rank t))); [done| |].
  - rewrite Hr. change (flight dir (S (S (rank t'))) ?l)
      with (flight dir (S (rank t')) l ++ omap final (at_rank dir (S (rank t')) l)).
    rewrite flight_snoc by done.
    rewrite (proj1 (flight_other dir (S (rank t')) q t ltac:(right; lia))).
    unfold at_rank. rewrite filter_app, (filter_cons_False _ t') by (intros [??]; intuition (congruence || lia)).
    rewrite (filter_cons_True _ t) by done.
    by rewrite filter_nil, app_nil_r, <- app_assoc, omap_cons_opt, Hf.
  - intros r Hle. unfold at_rank. rewrite filter_app, !filter_cons_False by (intros [??]; intuition (congruence || lia)).
    by rewrite filter_nil, app_nil_r.
Qed.

(** ** The chain built from the configuration *)

(** The module at position [i] of the line. *)
Definition stage_ok (i : nat) (md : Mod) : Prop :=
  ∃ spec ievs,
    cfg !! i = Some spec ∧ mod_name md = name spec ∧ init spec = Some (ctx md, ievs)
    ∧ near md = [if (i =? 0)%nat then None else Some (i - 1)%nat;
                 if (i + 1 <? n)%nat then Some (i + 1)%nat else None]
    ∧ (S i = n → wire_dst md = 1).

Definition line (c : Chain) : Prop :=
  length (modules c) = n ∧ (∀ i (md : Mod), modules c !! i = Some md → stage_ok i md)
  ∧ entry_ext c = true ∧ wire_entries c = [None; Some (n - 1)%nat]
  ∧ owner c = true ∧ cancelled c = false.

Lemma run_init_relay m (st : Mod * list (nat * Z)) evs :
  Forall (λ e, match e with IHeartbeat _ => True | IOutputs _ => False end) evs →
  (foldl (run_init m) st evs).2 = st.2
  ∧ mod_name (foldl (run_init m) st evs).1 = mod_name st.1
  ∧ ctx (foldl (run_init m) st evs).1 = ctx st.1
  ∧ near (foldl (run_init m) st evs).1 = near st.1.
Proof.
  intros H. revert st. induction H as [|[|i] evs He _ IH]; intros [md req]; cbn; [done..|].
  exact (IH (request_heartbeat i md, req)).
Qed.

(** An instance as it is created, not yet linked. *)
Definition instance_of (spec : ModuleSpec) (md : Mod) : Prop :=
  mod_name md = name spec ∧ ∃ ievs, init spec = Some (ctx md, ievs).

Lemma create_one_relay now spec i b :
  relays spec →
  ∃ md, create_one init now spec i b
        = Some (mkBuild (build b ++ [md]) (requested b) (next_id b + 1))
    ∧ instance_of spec md ∧ near md = [None; None].
Proof.
  intros (x & ievs & Hi & He & _). unfold create_one. rewrite Hi. cbn.
  pose proof (run_init_relay (length (build b))
                (mkMod (name spec) (next_id b) [None; None] (-1) i x 0 now, requested b) ievs He) as Hr.
  destruct (foldl _ _ _) as [md req]. cbn in Hr. destruct Hr as (-> & Hn & Hx & Hne).
  exists md. split; [done|]. split; [|done]. split; [done|]. rewrite Hx. eauto.
Qed.

Lemma create_main_relays now specs : ∀ i b,
  Forall relays specs →
  ∃ l b', create_main init now specs i b = Some b' ∧ build b' = build b ++ l
    ∧ requested b' = requested b ∧ Forall2 instance_of specs l.
Proof.
  induction specs as [|spec specs IH]; intros i b Hs.
  { exists [], b. by rewrite app_nil_r. }
  apply Forall_cons in Hs as [Hspec Hs]. cbn [create_main].
  destruct (create_one_relay now spec i b Hspec) as (md & -> & Hmd & _). cbn.
  destruct (IH (S i) (mkBuild (build b ++ [md]) (requested b) (next_id b + 1)) Hs)
    as (l & b' & Hc & Hl & Hr' & Hf).
  exists (md :: l), b'. cbn in *. rewrite Hl, <- app_assoc. split_and!; try done. by constructor.
Qed.

Lemma link_main_ok (l : list Mod) i md :
  link_main l !! i = Some md →
  ∃ md0, l !! i = Some md0 ∧ mod_name md = mod_name md0 ∧ ctx md = ctx md0
    ∧ near md = [if (i =? 0)%nat then None else Some (i - 1)%nat;
                 if (i + 1 <? length l)%nat then Some (i + 1)%nat else None].
Proof.
  unfold link_main. rewrite list_lookup_imap. intros H.
  destruct (l !! i) as [md0|]; [|done]. cbn in H. injection H as <-. exists md0. by destruct md0.
Qed.

Lemma set_wire_dst_ok m port (l : list Mod) i md :
  set_wire_dst m port l !! i = Some md →
  ∃ md0, l !! i = Some md0 ∧ mod_name md = mod_name md0 ∧ ctx md = ctx md0 ∧ near md = near md0
    ∧ (i = m → wire_dst md = port).
Proof.
  unfold set_wire_dst. intros H. destruct (decide (i = m)) as [->|Hne].
  - rewrite list_lookup_alter_eq in H. destruct (l !! m) as [md0|]; [|done]. cbn in H.
    injection H as <-. exists md0. by destruct md0.
  - rewrite list_lookup_alter_ne in H by done. by exists md.
Qed.

Lemma phase2_idle k now (b : @Build X) e p :
  requested b = [] → phase2 init k now cfg (b, e, p) = Some (b, e, p).
Proof. intros H. destruct k; cbn [phase2]; [done|]. by rewrite H. Qed.

Lemma chain_new_line now :
  cfg ≠ [] → Forall relays cfg →
  line (chain_new now cfg) ∧ queue (chain_new now cfg) = [] ∧ exits (chain_new now cfg) = [].
Proof.
  intros Hne Hr. unfold Chain.chain_new.
  destruct (create_main_relays now cfg 0 (mkBuild [] [] 0) Hr) as (l & b & -> & Hb & Hq & Hf).
  cbn in Hb. rewrite Hb. pose proof (Forall2_length _ _ _ Hf) as Hl.
  destruct l as [|md0 l0] eqn:El; [by destruct cfg|]. rewrite <- El in *.
  rewrite phase2_idle by done. split; [|done]. unfold line. cbn [modules fresh].
  split_and!; try done.
  - cbn. unfold constant, set_wire_dst. rewrite !length_alter. unfold link_main.
    by rewrite length_imap.
  - intros i md Hi. apply set_wire_dst_ok in Hi as (m1 & Hi & N1 & C1 & R1 & Hw).
    apply set_wire_dst_ok in Hi as (m2 & Hi & N2 & C2 & R2 & _).
    apply link_main_ok in Hi as (m3 & Hi & N3 & C3 & R3).
    destruct (Forall2_lookup_r _ _ _ _ _ Hf Hi) as (spec & Hs & Hn & ievs & Hx).
    exists spec, ievs. rewrite N1, N2, N3, C1, C2, C3, R1, R2, R3, <- Hl. split_and!; try done. intros Hlast. apply Hw. lia.
  - cbn. by rewrite <- Hl.
Qed.

(** ** Running it *)

(** What buffer accounting does not touch. *)
Definition core (c : Chain) :=
  (modules c, entry_ext c, wire_entries c, owner c, cancelled c, queue c, exits c).

Lemma core_line c c' : core c' = core c → line c → line c' ∧ queue c' = queue c ∧ exits c' = exits c.
Proof. unfold core, line. intros [= -> -> -> -> -> -> ->]. by intros. Qed.

Lemma run_buffer_evs m (md : Mod) src evs pre : Forall is_buffer_ev pre → ∀ last c,
  ∃ c', run_events wire_ret malloc_ok m md src (pre ++ evs) last c
        = run_events wire_ret malloc_ok m md src evs last c' ∧ core c' = core c.
Proof.
  induction 1 as [|[k|k|k|k|k d a] pre He _ IH]; intros last c; try done; [by exists c| |].
  - cbn [run_events app]. destruct (IH last (default c (alloc_buffer malloc_ok k c))) as (c' & -> & Hc').
    exists c'. split; [done|]. rewrite Hc'. unfold alloc_buffer. by case_match.
  - cbn [run_events app]. destruct (IH last (free_buffer k c)) as (c' & -> & Hc'). by exists c'.
Qed.

(** A task of the line, and the module it is for. *)
Definition task_ok (t : task) : Prop :=
  (t_mod t < n)%nat ∧ (t_dir t = 0 ∨ t_dir t = 1) ∧ t_data t ≠ [].

(** The step of a packet, seen from outside: it leaves, it is refused, or it moves to the
    next module. *)
Definition advances (t : task) (c c' : Chain) : Prop :=
  (rank t = O ∧ queue c' = queue c ∧ ∃ e, final t = Some e ∧ exits c' = exits c ++ [(1 - t_dir t, e)])
  ∨ (final t = None ∧ queue c' = queue c ∧ exits c' = exits c)
  ∨ ∃ t', rank t = S (rank t') ∧ t_dir t' = t_dir t ∧ final t' = final t ∧ task_ok t'
          ∧ queue c' = queue c ++ [t'] ∧ exits c' = exits c.

Lemma final_next spec i d dir :
  cfg !! i = Some spec → dir = 0 ∨ dir = 1 →
  final (mkTask i d 0 0 dir)
  = d' ← f spec dir d; if dir =? 0 then encode (drop (S i) cfg) d' else decode (take i cfg) d'.
Proof.
  intros Hs [-> | ->]; unfold final; cbn.
  - by rewrite (drop_S cfg spec i).
  - rewrite (take_S_r cfg i spec) by done. apply decode_snoc.
Qed.

Lemma write_packet_advances i md spec src d d' a a' dir c :
  line c → stage_ok i md → cfg !! i = Some spec → dir = 0 ∨ dir = 1 → f spec dir d = Some d' → d' ≠ [] →
  let c' := (write_packet wire_ret i md src (1 - dir) d' a' c).1 in
  line c' ∧ advances (mkTask i d a src dir) c c'.
Proof.
  intros Hl (spec' & ievs & Hs' & _ & _ & Hn & Hw) Hs Hd Hfd Hne. unfold write_packet.
  pose proof (lookup_lt_Some _ _ _ Hs) as Hi. destruct Hl as (L1 & L2 & L3 & L4 & L5 & L6).
  pose proof (final_next spec i d dir Hs Hd) as Hf. rewrite Hfd in Hf.
  change (final (mkTask i d 0 0 dir)) with (final (mkTask i d a src dir)) in Hf.
  unfold advances. rewrite Hf.
  destruct Hd as [-> | ->]; cbn [Z.sub Z.add Z.opp Z.pos_sub Z.ltb Z.compare Z.eqb Z.to_nat];
    rewrite Hn; cbn [lookup list_lookup Pos.to_nat Pos.iter_op].
  - destruct (Nat.ltb_spec (i + 1) n); cbn.
    + unfold enqueue_module. rewrite L5. split; [done|]. right. right.
      exists (mkTask (i + 1) d' a' src 0). unfold rank, task_ok. cbn.
      split_and!; [lia|done| |lia|by left|done|done|done].
      unfold final. cbn. by rewrite Nat.add_1_r.
    + rewrite Hw by lia. split; [done|]. left. unfold rank. cbn.
      split_and!; [lia|done|]. exists d'. by rewrite drop_ge by lia.
  - destruct i as [|i]; cbn.
    + split; [done|]. left. split_and!; [done|done|]. by exists d'.
    + unfold enqueue_module. rewrite L5. split; [done|]. right. right. rewrite Nat.sub_0_r.
      exists (mkTask i d' a' src 1). unfold rank, task_ok. cbn.
      split_and!; try done; [lia|by right].
Qed.

Lemma line_modules c g i :
  (∀ md, stage_ok i md → stage_ok i (g md)) → line c → line (c{{modules ::= alter g i}}).
Proof.
  intros Hg (L1 & L2 & L). destruct c as [ms]. unfold line. cbn in *. rewrite length_alter. split; [done|]. split; [|exact L].
  intros j md Hj. destruct (decide (i = j)) as [<-|]; [|rewrite list_lookup_alter_ne in Hj; auto].
  rewrite list_lookup_alter_eq in Hj. destruct (ms !! i) as [md0|] eqn:E; [|done].
  cbn in Hj. injection Hj as <-. auto.
Qed.

(** Changes of a module that the invariant does not see. *)
Lemma stage_ok_time i t md : stage_ok i md → stage_ok i (md{{last_activity := t}}).
Proof. by destruct md. Qed.
Lemma stage_ok_ctx i x ievs spec md :
  cfg !! i = Some spec → init spec = Some (x, ievs) → stage_ok i md → stage_ok i (md{{ctx := x}}).
Proof. intros Hs Hi (s' & e' & Hs' & ? & ? & ? & ?). exists s', ievs. destruct md. by simplify_eq. Qed.

Context (Hrelays : Forall relays cfg).

Lemma run_task_advances now t c :
  line c → task_ok t →
  line (run_task process wire_ret malloc_ok now t c)
  ∧ advances t c (run_task process wire_ret malloc_ok now t c).
Proof.
  intros Hl (Hm & Hd & Hne). pose proof Hl as (L1 & L2 & _ & _ & _ & L6).
  destruct (lookup_lt_is_Some_2 (modules c) (t_mod t)) as [md Hmd]; [lia|].
  pose proof (L2 _ _ Hmd) as Hst. pose proof Hst as (spec & ievs & Hs & Hn & Hi & _).
  pose proof (Forall_lookup_1 _ _ _ _ Hrelays Hs) as (x & ie & Hi' & _ & Hp & _).
  rewrite Hi in Hi'. injection Hi' as <- <-.
  specialize (Hp (t_dir t) (t_src t) (t_data t) (t_asize t) Hd Hne).
  assert (∀ x', x' = ctx md → let c1 := set_ctx (t_mod t) x' (c{{modules ::= alter (λ md, md{{last_activity := now}}) (t_mod t)}}) in
    line c1 ∧ queue c1 = queue c ∧ exits c1 = exits c) as Hc1.
  { intros x' ->. split; [|done]. apply line_modules; [intros md' H'; by eapply stage_ok_ctx|].
    apply line_modules; [intros; by apply stage_ok_time|done]. }
  destruct (Hc1 _ eq_refl) as (Hl1 & Hq1 & He1). clear Hc1. unfold run_task. rewrite L6, Hmd, Hn.
  destruct (f spec (t_dir t) (t_data t)) as [d'|] eqn:Hf.
  - destruct Hp as (Hne' & pre & a' & r & Hev & Hpre). rewrite Hev. set (c1 := set_ctx _ _ _) in *.
    destruct (run_buffer_evs (t_mod t) md (t_src t) [MWrite (1 - t_dir t) d' a'] pre Hpre 0 c1) as (c2 & -> & Hc2).
    destruct (core_line c1 c2 Hc2 Hl1) as (Hl2 & Hq2 & He2). cbn [run_events].
    pose proof (write_packet_advances _ md spec (t_src t) (t_data t) d' (t_asize t) a' _ c2 Hl2 Hst Hs Hd Hf Hne')
      as [Hl3 Ha]. destruct (write_packet _ _ _ _ _ _ _ _) as [c3 rr]. cbn [fst] in *.
    destruct t as [tm td ta ts tdir]; cbn [t_mod t_data t_asize t_src t_dir] in *.
    unfold advances in Ha. rewrite Hq2, He2, Hq1, He1 in Ha. destruct (_ <? 0); by split.
  - destruct Hp as (evs & r & Hev & Hpre). rewrite Hev. set (c1 := set_ctx _ _ _) in *.
    destruct (run_buffer_evs (t_mod t) md (t_src t) [] evs Hpre 0 c1) as (c2 & Hrun & Hc2).
    rewrite app_nil_r in Hrun. rewrite Hrun. cbn [run_events].
    destruct (core_line c1 c2 Hc2 Hl1) as (Hl2 & Hq2 & He2).
    assert (final t = None) as Hfin.
    { pose proof (final_next spec (t_mod t) (t_data t) (t_dir t) Hs Hd) as H. by rewrite Hf in H. }
    unfold advances. destruct (_ <? 0); split; try done; right; left; (split; [done|]);
      (split; [exact (eq_trans Hq2 Hq1)|exact (eq_trans He2 He1)]).
Qed.

Definition inv (c : Chain) : Prop := line c ∧ Forall task_ok (queue c).

Lemma rank_lt t : task_ok t → (rank t < n)%nat.
Proof. intros (? & ? & ?). unfold rank. case_match; lia. Qed.

Lemma exits_at_snoc p q d c c' :
  exits c' = exits c ++ [(q, d)] →
  exits_at p c' = exits_at p c ++ (if decide (q = p) then [d] else []).
Proof.
  unfold exits_at. intros ->. rewrite filter_app, fmap_app. f_equal.
  case_decide; [by rewrite filter_cons_True|by rewrite filter_cons_False].
Qed.

(** A worker changes nothing of what comes out in the end. *)
Lemma work_stream now dir c :
  inv c → inv (work process wire_ret malloc_ok now c)
  ∧ stream dir (work process wire_ret malloc_ok now c) = stream dir c.
Proof.
  intros [Hl Hq]. unfold work. destruct (queue c) as [|t rest] eqn:E.
  { split; [|done]. split; [done|by rewrite E]. }
  apply Forall_cons in Hq as [Ht Hrest]. pose proof (rank_lt t Ht) as Hrk.
  assert (line (c{{queue := rest}})) as Hl1 by exact Hl.
  destruct (run_task_advances now t _ Hl1 Ht) as [Hl2 Ha]. set (c' := run_task _ _ _ _ _ _) in *.
  assert (queue (c{{queue := rest}}) = rest ∧ exits (c{{queue := rest}}) = exits c) as [Hq0 He0] by done.
  unfold advances in Ha. rewrite Hq0, He0 in Ha. unfold inv, stream. rewrite E.
  destruct Ha as [(Hr & Hq & e & Hf & He)|[(Hf & Hq & He)|(t' & Hr & Hd & Hf & Hok & Hq & He)]]; rewrite Hq.
  - split; [done|]. rewrite (exits_at_snoc _ _ _ _ _ He). case_decide as Hdec.
    + rewrite flight_cons, Hf by (lia || done). by rewrite <- app_assoc.
    + rewrite (proj1 (flight_other dir n rest t ltac:(left; lia))). by rewrite app_nil_r.
  - split; [done|]. unfold exits_at. by rewrite He, flight_lost.
  - split; [split; [done|by apply Forall_app; auto]|].
    unfold exits_at. rewrite He. f_equal. destruct (decide (t_dir t = dir)) as [<-|Hne].
    + by apply flight_move.
    + rewrite (proj1 (flight_other dir n rest t ltac:(by left))).
      by rewrite (proj2 (flight_other dir n rest t' ltac:(left; congruence))).
Qed.

Context (Hcfg : cfg ≠ []).

Definition whole (dir : Z) (d : bytes) : option bytes := if dir =? 0 then encode cfg d else decode cfg d.

Lemma n_pos : (0 < n)%nat.
Proof. destruct cfg; [done|]. cbn. lia. Qed.

Lemma push_stream dir a d s dir' c :
  inv c → d ≠ [] → dir' = 0 ∨ dir' = 1 ∧ s = 1 →
  inv (push_packet a d s dir' c)
  ∧ stream dir (push_packet a d s dir' c)
    = stream dir c ++ (if dir' =? dir then option_list (whole dir d) else []).
Proof.
  intros [Hl Hq] Hd Hdir. pose proof Hl as (L1 & L2 & L3 & L4 & L5 & L6). pose proof n_pos as Hn.
  set (m := if dir' =? 0 then O else (n - 1)%nat). set (t := mkTask m d a s dir').
  assert (push_packet a d s dir' c = enqueue_module m d a s dir' c) as ->.
  { unfold push_packet. rewrite L6, L3, L5, L4. by destruct Hdir as [-> |[-> ->]]. }
  assert (task_ok t) as Ht.
  { split_and!; [|tauto|done]. subst t m. cbn. case_match; lia. }
  assert (S (rank t) = n) as Hr.
  { subst t m. unfold rank. cbn. destruct Hdir as [-> |[-> _]]; cbn; lia. }
  assert (final t = whole dir' d) as Hf.
  { subst t m. unfold final, whole. cbn. destruct Hdir as [-> |[-> _]]; cbn; [done|].
    by rewrite take_ge by lia. }
  unfold enqueue_module. rewrite L5. cbn [negb]. unfold inv, stream.
  change (queue (c{{inflight ::= _; queue ::= _}})) with (queue c ++ [t]).
  change (exits_at ?p (c{{inflight ::= _; queue ::= _}})) with (exits_at p c).
  split; [split; [exact Hl|apply Forall_app; auto]|].
  destruct (Z.eqb_spec dir' dir) as [<-|Hne].
  - rewrite <- Hr at 1. rewrite flight_snoc by done. by rewrite Hr, Hf, app_assoc.
  - rewrite (proj2 (flight_other dir n (queue c) t ltac:(by left))). by rewrite app_nil_r.
Qed.

Lemma tick_stream now ms m dir c :
  inv c → inv (tick_module process wire_ret malloc_ok now ms m c)
  ∧ stream dir (tick_module process wire_ret malloc_ok now ms m c) = stream dir c.
Proof.
  intros [Hl Hq]. pose proof Hl as (L1 & L2 & _). unfold tick_module.
  destruct (modules c !! m) as [md|] eqn:Hm; [|done].
  pose proof (L2 _ _ Hm) as Hst0. pose proof Hst0 as (spec & ievs & Hs & Hn & Hi & _).
  destruct (heartbeat_due now ms md) as [due md'] eqn:Hdue.
  assert (stage_ok m md') as Hst.
  { unfold heartbeat_due in Hdue. repeat case_match; injection Hdue as <- <-;
      done || by apply stage_ok_time. }
  set (c1 := c{{modules ::= <[m := md']>}}).
  assert (line c1) as Hl1.
  { replace c1 with (c{{modules ::= alter (λ _, md') m}}); [by apply line_modules|].
    unfold c1. destruct c; cbn in *. f_equal. apply list_eq. intros j.
    destruct (decide (m = j)) as [<-|].
    - rewrite list_lookup_alter_eq, Hm, list_lookup_insert_eq by (by eapply lookup_lt_Some). done.
    - by rewrite list_lookup_alter_ne, list_lookup_insert_ne by done. }
  destruct due; [|done].
  pose proof (Forall_lookup_1 _ _ _ _ Hrelays Hs) as (x & ie & Hi' & _ & _ & r & Hp).
  rewrite Hi in Hi'. injection Hi' as <- <-. rewrite Hn, Hp. cbn [run_events fst].
  split; [|done]. split; [|done]. apply line_modules; [|done].
  intros md2 H2. by eapply stage_ok_ctx.
Qed.

Lemma run_op_stream dir c o :
  inv c → valid_op o →
  inv (run_op c o) ∧ stream dir (run_op c o) = stream dir c ++ omap (whole dir) (pushes dir [o]).
Proof.
  intros Hc Ho. destruct o as [a d s dir'|k|k|now|now ms|]; cbn [Chain.run_op pushes omap list_omap];
    rewrite ?app_nil_r; try done.
  - destruct Ho as [Hd Hdir]. destruct (push_stream dir a d s dir' c Hc Hd Hdir) as [? ->].
    split; [done|]. f_equal. destruct (dir' =? dir); [|done]. cbn. by destruct (whole dir d).
  - unfold alloc_buffer. case_match; done.
  - by apply work_stream.
  - unfold check_module_heartbeats. generalize (seq 0 (length (modules c))). intros l.
    revert c Hc. induction l as [|m l IH]; intros c Hc; [done|]. cbn [foldl].
    destruct (tick_stream now ms m dir c Hc) as [Hc' <-]. by apply IH.
Qed.

Lemma run_ops_stream dir ops : ∀ c,
  inv c → Forall valid_op ops →
  inv (foldl run_op c ops)
  ∧ stream dir (foldl run_op c ops) = stream dir c ++ omap (whole dir) (pushes dir ops).
Proof.
  induction ops as [|o ops IH]; intros c Hc Ho; cbn [foldl]; [by rewrite app_nil_r|].
  apply Forall_cons in Ho as [Ho Hos]. destruct (run_op_stream dir c o Hc Ho) as [Hc' Hs].
  destruct (IH _ Hc' Hos) as [? ->]. split; [done|]. rewrite Hs, <- app_assoc. f_equal.
  change (o :: ops) with ([o] ++ ops). unfold pushes. by rewrite !omap_app.
Qed.

(** ** Every packet leaves *)

Definition weight (q : list task) : nat := sum_list_with (λ t, S (rank t)) q.

Lemma weight_bound q : Forall task_ok q → (weight q <= n * length q)%nat.
Proof.
  unfold weight. induction 1 as [|t q Ht _ IH]; cbn; [lia|]. pose proof (rank_lt t Ht). lia.
Qed.

Lemma work_weight now t rest c :
  inv c → queue c = t :: rest →
  (weight (queue (work process wire_ret malloc_ok now c)) < weight (queue c))%nat.
Proof.
  intros [Hl Hq] E. unfold work. rewrite E in *. cbv iota. apply Forall_cons in Hq as [Ht _].
  match goal with |- context [run_task _ _ _ now t ?c1] =>
    destruct (run_task_advances now t c1 Hl Ht) as [_ Ha]; unfold advances in Ha;
    change (queue c1) with rest in Ha
  end. unfold weight.
  destruct Ha as [(_ & -> & _)|[(_ & -> & _)|(t' & Hr & _ & _ & _ & -> & _)]]; cbn [sum_list_with]; [lia..|].
  rewrite sum_list_with_app. cbn [sum_list_with]. lia.
Qed.

Lemma drain_stream now dir k : ∀ c,
  inv c → (weight (queue c) <= k)%nat →
  queue (drain process wire_ret malloc_ok k now c) = []
  ∧ stream dir (drain process wire_ret malloc_ok k now c) = stream dir c.
Proof.
  induction k as [|k IH]; intros c Hc Hk; cbn [drain].
  - split; [|done]. destruct (queue c); [done|]. unfold weight in Hk. cbn in Hk. lia.
  - destruct (queue c) as [|t rest] eqn:E; [done|].
    pose proof (work_weight now t rest c Hc E) as Hw. rewrite E in Hw.
    destruct (work_stream now dir c Hc) as [Hc' Hs]. rewrite <- Hs. apply IH; [done|lia].
Qed.

Lemma flight_nil dir k : flight dir k [] = [].
Proof. induction k as [|k IH]; [done|]. cbn. by rewrite IH. Qed.

Lemma chain_output now now' ops dir :
  Forall valid_op ops →
  let c := foldl run_op (chain_new now cfg) ops in
  let c' := drain process wire_ret malloc_ok (n * length (queue c)) now' c in
  queue c' = [] ∧ exits_at (1 - dir) c' = omap (whole dir) (pushes dir ops).
Proof.
  intros Ho c c'. destruct (chain_new_line now Hcfg Hrelays) as (Hl & Hq & He).
  assert (inv (chain_new now cfg)) as H0 by (split; [done|by rewrite Hq]).
  destruct (run_ops_stream dir ops _ H0 Ho) as [Hc Hs].
  destruct (drain_stream now' dir (n * length (queue c)) c Hc) as [Hq' Hs'];
    [apply weight_bound, Hc|]. split; [exact Hq'|].
  fold c' in Hs', Hq'. fold c in Hs. rewrite Hs in Hs'. unfold stream in Hs'.
  rewrite Hq', Hq, !flight_nil, !app_nil_r in Hs'. unfold exits_at at 2 in Hs'. by rewrite He in Hs'.
Qed.

End flow.

(** The built-in copy module is one of these modules, in both of its modes. *)
Lemma copy_relays spec :
  name spec = Copy.s_copy → relays Copy.init Copy.process (λ _ _ d, Some d) spec.
Proof.
  intros Hn. exists (Copy.builtin_copy_init 0 (params spec)), [].
  unfold Copy.init. rewrite bool_decide_true by done. split_and!; [done|done| |by eexists].
  intros dir src d a Hdir Hd. split; [done|]. destruct d as [|b d]; [done|].
  unfold Copy.process, Copy.process_in, Copy.builtin_copy_process. cbn [negb].
  replace (if dir =? 0 then 1 else 0) with (1 - dir) by (by destruct Hdir as [-> | ->]).
  destruct (Copy.mode_copy _).
  - eexists [MMalloc _; MFree _], _, _. split; [reflexivity|]. by repeat constructor.
  - eexists [], _, _. split; [reflexivity|done].
Qed.

(** A packet as the application sends it: some bytes. *)
Definition packet (d : bytes) : Prop := d ≠ [] ∧ bytes_ok d.

(** A module that accepts what is sent, and whose second direction undoes the first. *)
Definition inverts (f : ModuleSpec → Z → bytes → option bytes) (spec : ModuleSpec) : Prop :=
  ∀ d, packet d → ∃ e, f spec 0 d = Some e ∧ packet e ∧ f spec 1 e = Some d.

Lemma encode_decode f cfg d :
  Forall (inverts f) cfg → packet d →
  ∃ e, encode f cfg d = Some e ∧ packet e ∧ decode f cfg e = Some d.
Proof.
  intros Hinv. revert d. induction Hinv as [|spec cfg Hs _ IH]; intros d Hd; [by exists d|].
  destruct (Hs d Hd) as (d' & E & Hd' & Hback). destruct (IH d' Hd') as (e & E' & He & Hdec).
  exists e. cbn. by rewrite E, Hdec.
Qed.

Lemma copy_inverts spec : inverts (λ _ _ d, Some d) spec.
Proof. intros d Hd. by exists d. Qed.

Section claims.
Context {X : Type} (init : ModuleSpec → option (X * list init_ev)).
Context (process : bytes → X → Z → Z → option (bytes * Z) → X * list mod_ev * mod_ret).
Context (wire_ret : Z → bytes → Z) (malloc_ok : Z → Z → bool).

(** A chain after some operations and the time its workers need to finish. *)
Definition settled (now : Z) (cfg : list ModuleSpec) (ops : list op) : Chain :=
  let c := foldl (run_op process wire_ret malloc_ok) (chain_new init now cfg) ops in
  drain process wire_ret malloc_ok (length cfg * length (queue c)) now c.

(** [C4] A chain of packet-to-packet modules is the composition of those modules. After
    any interleaving of packets pushed from both sides, worker steps, heartbeats and buffer
    traffic, the workers empty the queue within [modules * queued tasks] tasks, and then
    what has left on the wire side is every packet of the application, in order,
    transformed by the modules from first to last; what has left on the application side
    is every packet of the wire, in order, transformed from last to first. The packets that
    a module refuses on their way are missing, and only those. *)
Theorem chain_is_composition f (now : Z) (cfg : list ModuleSpec) (ops : list op)
    (Hcfg : cfg ≠ []) (Hr : Forall (relays init process f) cfg) (Ho : Forall valid_op ops) :
  let c := settled now cfg ops in
  queue c = []
  ∧ exits_at 1 c = omap (encode f cfg) (pushes 0 ops)
  ∧ exits_at 0 c = omap (decode f cfg) (pushes 1 ops).
Proof.
  destruct (chain_output init process wire_ret malloc_ok f cfg Hr Hcfg now now ops 0 Ho) as [Hq H0].
  destruct (chain_output init process wire_ret malloc_ok f cfg Hr Hcfg now now ops 1 Ho) as [_ H1].
  done.
Qed.

(** [C5] Two endpoints with the same module list undo each other: when every packet that
    leaves the first chain on the wire side enters the second one there, in order, the
    second chain hands out exactly the packets the application pushed into the first,
    provided that each module accepts them and its second direction inverts its first. *)
Theorem peer_chain_inverts f (now now' : Z) (cfg : list ModuleSpec) (ops ops' : list op)
    (Hcfg : cfg ≠ []) (Hr : Forall (relays init process f) cfg)
    (Hinv : Forall (inverts f) cfg)
    (Ho : Forall valid_op ops) (Ho' : Forall valid_op ops') (Hsent : Forall packet (pushes 0 ops))
    (Hwire : pushes 1 ops' = exits_at 1 (settled now cfg ops)) :
  exits_at 0 (settled now' cfg ops') = pushes 0 ops.
Proof.
  destruct (chain_output init process wire_ret malloc_ok f cfg Hr Hcfg now now ops 0 Ho) as [_ H0].
  destruct (chain_output init process wire_ret malloc_ok f cfg Hr Hcfg now' now' ops' 1 Ho') as [_ H1].
  etransitivity; [exact H1|]. rewrite Hwire. etransitivity; [exact (f_equal _ H0)|].
  unfold whole. cbn [Z.eqb]. rewrite omap_omap. apply omap_id.
  eapply Forall_impl; [exact Hsent|]. intros d Hd.
  destruct (encode_decode f cfg d Hinv Hd) as (e & -> & _ & E). exact E.
Qed.

End claims.

(** Two copy modules, in move and in copy mode; packets of both directions interleave. *)
Definition copy_cfg : list ModuleSpec :=
  [mkSpec Copy.s_copy []; mkSpec Copy.s_copy [109; 58; 99]].
Definition copy_ops : list op :=
  [OpAlloc 1; OpPush 1 [7] 0 0; OpPush 1 [9] 1 1; OpWork 0; OpPush 2 [8; 8] 0 0; OpWork 0].

Lemma copy_cfg_relays : Forall (relays Copy.init Copy.process (λ _ _ d, Some d)) copy_cfg.
Proof. repeat constructor; by apply copy_relays. Qed.

Lemma chain_is_composition_witness :
  let c := settled Copy.init Copy.process (λ _ _, 0) (λ _ _, true) 0 copy_cfg copy_ops in
  queue c = [] ∧ exits_at 1 c = [[7]; [8; 8]] ∧ exits_at 0 c = [[9]].
Proof.
  apply (chain_is_composition Copy.init Copy.process (λ _ _, 0) (λ _ _, true) (λ _ _ d, Some d)).
  - done.
  - apply copy_cfg_relays.
  - repeat constructor; done || lia.
Defined.

Lemma peer_chain_inverts_witness :
  exits_at 0 (settled Copy.init Copy.process (λ _ _, 0) (λ _ _, true) 5 copy_cfg
                [OpPush 1 [7] 1 1; OpWork 0; OpPush 2 [8; 8] 1 1]) = [[7]; [8; 8]].
Proof.
  apply (peer_chain_inverts Copy.init Copy.process (λ _ _, 0) (λ _ _, true) (λ _ _ d, Some d) 0 5
           copy_cfg copy_ops).
  - done.
  - apply copy_cfg_relays.
  - repeat constructor; apply copy_inverts.
  - repeat constructor; done || lia.
  - repeat constructor; done || lia.
  - repeat constructor; done || (unfold is_byte; lia).
  - vm_compute. reflexivity.
Defined.

(** When the endpoint cannot write a packet ([wire_write] returns -1 for a closed
    connection), its buffer is released twice: [write_packet_impl] frees it and passes the
    -1 on, and the task frees it again. With one copy module in move mode, a buffer of [a]
    bytes allocated, pushed and refused leaves the account at [-a]. *)
Theorem wire_failure_frees_twice (a b : Z) (d : bytes) :
  let c := foldl (run_op Copy.process (λ _ _, -1) (λ _ _, true))
                 (chain_new Copy.init 0 [mkSpec Copy.s_copy []])
                 [OpAlloc a; OpPush a (b :: d) 0 0; OpWork 0] in
  queue c = [] ∧ bytes_allocated c = - a.
Proof.
  cbv zeta. split; [done|]. transitivity (a + 0 - a - a); [|lia]. reflexivity.
Qed.

End ChainFlow.
