(* ===== verification/SplitChain.v ===== *)
(** * A tunnel over several connections

    A chain in which one module is split and the others turn a packet into a packet, as the
    configuration text [host:port,password;split|n:3;base64] gives it. The constructor gives
    each output of split its own copy of the modules behind it and its own connection; the
    packets of the application come out of the peer's chain whole and in order, whatever
    the order in which the connections deliver the chunks. *)

From coqutil Require Import Datatypes.RecordSetters.
From S2P Require Import Prelude Text ChainApi Config Chain Copy Split SplitConfig ChainFlow.
Import DoubleBraceUpdate.
Local Open Scope Z_scope.

Module SplitChain.
Import Chain.

Definition s_split : bytes := [115; 112; 108; 105; 116].

Definition chunk_fits (d : bytes) : Prop := (Split.HEADER_SIZE < length d)%nat ∧ Split.last_fits d.

Section tunnel.
(** The modules behind split. *)
Context {Y : Type}.
Context (tinit : ModuleSpec → option (Y * list init_ev)).
Context (tprocess : bytes → Y → Z → Z → option (bytes * Z) → Y * list mod_ev * mod_ret).

(** ** The modules of the chain *)

#[local] Abbreviation X := (Split.SplitContext + Y)%type.

Definition init (spec : ModuleSpec) : option (X * list init_ev) :=
  if bool_decide (name spec = s_split)
  then '(x, evs) ← SplitConfig.chain_init (params spec); Some (inl x, evs)
  else '(y, evs) ← tinit spec; Some (inr y, evs).

(** The calls of split as the chain sees them, [a] being the size of the input buffer. *)
Definition calls (a : Z) (e : Split.event) : mod_ev :=
  match e with
  | Split.EvMalloc n => MMalloc n
  | Split.EvWrite dst d => MWrite dst d (Z.of_nat (length d))
  | Split.EvFree d => MFree (Z.of_nat (length d))
  | Split.EvFreeInput => MFree a
  end.

(** [env] is the generator of this process and the answers of the chain's [malloc]. A call
    of split that does not return leaves everything as it is here; the theorems show that
    this does not happen while memory lasts. *)
Definition process (env : Split.Env) (nm : bytes) (x : X) (dir src : Z) (data : option (bytes * Z))
    : X * list mod_ev * mod_ret :=
  match x with
  | inl x =>
      match Split.process env x dir (fst <$> data) with
      | Some (r, x', evs) => (inl x', map (calls (default 0 (snd <$> data))) evs, RetConst r)
      | None => (inl x, [], RetConst 0)
      end
  | inr y => let '(y', evs, r) := tprocess nm y dir src data in (inr y', evs, r)
  end.

(** ** The graph *)

Context (env : Split.Env).
Context (wire_ret : Z → bytes → Z).
Context (malloc_ok : Z → Z → bool).
Context (f : ModuleSpec → Z → bytes → option bytes).
Context (pre : list ModuleSpec) (ps : bytes) (tail : list ModuleSpec) (x0 : Split.SplitContext) (ievs0 : list init_ev).

#[local] Abbreviation Mod := (@Chain.Module X).
#[local] Abbreviation Chain := (@Chain.Chain X).
#[local] Abbreviation cfg := (pre ++ mkSpec s_split ps :: tail).
#[local] Abbreviation P := (length pre).
#[local] Abbreviation T := (length tail).
#[local] Abbreviation N := (Z.to_nat (Split.num_outputs x0)).
#[local] Abbreviation relays := (ChainFlow.relays init (process env) f).

Lemma relays_lift spec :
  name spec ≠ s_split → ChainFlow.relays tinit tprocess f spec → relays spec.
Proof.
  intros Hn (y & ievs & Hi & He & Hp & r & Hh). exists (inr y), ievs.
  unfold init. rewrite bool_decide_false, Hi by done. split_and!; [done|done| |].
  - intros dir src d a Hdir Hd. specialize (Hp dir src d a Hdir Hd).
    destruct (f spec dir d) as [d'|].
    + destruct Hp as (Hne & bufs & a' & r' & E & Hbufs).
      split; [done|]. exists bufs, a', r'. cbn. by rewrite E.
    + destruct Hp as (evs & r' & E & Hevs). exists evs, r'. cbn. by rewrite E.
  - exists r. cbn. by rewrite Hh.
Qed.

Context (Hmem : ∀ k, Split.malloc_ok env k = true).
Context (Hstart : SplitConfig.chain_init ps = Some (x0, ievs0)).
Context (Hpre : Forall relays pre).
Context (Htail : Forall relays tail).
Context (HP : (0 < P)%nat).
Context (HT : (0 < T)%nat).

(** The instance at place [j] of a lane of [len] instances that starts at index [B]. *)
Definition lane_mod (B len j : nat) (md : Mod) : Prop :=
  ∃ spec, tail !! j = Some spec ∧ ChainFlow.instance_of init spec md
    ∧ near md = [Some (if (j =? 0)%nat then P else (B + j - 1)%nat);
                 if (j + 1 <? len)%nat then Some (B + j + 1)%nat else None].

Definition lane (B len : nat) (l : list Mod) : Prop :=
  ∀ j md, (j < len)%nat → l !! (B + j)%nat = Some md → lane_mod B len j md.

Lemma lookup_set_near m i p (l : list Mod) k md :
  set_near m i p l !! k = Some md →
  ∃ md0, l !! k = Some md0 ∧ mod_name md = mod_name md0 ∧ ctx md = ctx md0
    ∧ wire_dst md = wire_dst md0
    ∧ near md = if decide (m = k) then <[i := p]> (near md0) else near md0.
Proof.
  unfold set_near. rewrite list_lookup_alter. intros H. case_decide; [subst|by exists md].
  destruct (l !! k) as [md0|]; [|done]. injection H as <-. exists md0. by destruct md0.
Qed.

Lemma instance_of_same spec (md md0 : Mod) :
  mod_name md = mod_name md0 → ctx md = ctx md0 →
  ChainFlow.instance_of init spec md0 → ChainFlow.instance_of init spec md.
Proof. unfold ChainFlow.instance_of. by intros -> ->. Qed.

(** One more instance at the end of a lane. *)
Lemma lane_extend B len (l : list Mod) spec md :
  (P < B)%nat → length l = (B + len)%nat → lane B len l →
  tail !! len = Some spec → ChainFlow.instance_of init spec md → near md = [None; None] →
  let prev := if (len =? 0)%nat then P else (B + len - 1)%nat in
  let l1 := set_near (B + len) 0 (Some prev) (l ++ [md]) in
  let l2 := if (prev =? P)%nat then l1 else set_near prev 1 (Some (B + len)%nat) l1 in
  lane B (S len) l2 ∧ length l2 = (B + S len)%nat ∧ (∀ i, (i < B)%nat → l2 !! i = l !! i).
Proof.
  intros HB Hlen Hl Hspec Hmd Hnear prev l1 l2.
  assert (∀ i, (i < B + len)%nat → l1 !! i = l !! i) as Hl1.
  { intros i Hi. unfold l1, set_near. rewrite list_lookup_alter_ne by lia. apply lookup_app_l. lia. }
  split_and!.
  - intros j m Hj Hm.
    assert (∃ m0, l1 !! (B + j)%nat = Some m0 ∧ mod_name m = mod_name m0 ∧ ctx m = ctx m0
      ∧ near m = if decide (S j = len) then <[1%nat := Some (B + len)%nat]> (near m0) else near m0)
      as (m0 & Hm0 & Hn & Hx & Hr).
    { unfold l2 in Hm. destruct (Nat.eqb_spec prev P) as [E|E].
      - exists m. rewrite decide_False; [done|]. subst prev. destruct (Nat.eqb_spec len 0); lia.
      - apply lookup_set_near in Hm as (m0 & H0 & ? & ? & _ & Hr). exists m0. split_and!; try done.
        rewrite Hr. subst prev. destruct (Nat.eqb_spec len 0); [done|].
        repeat case_decide; done || lia. }
    destruct (decide (j = len)) as [->|Hne].
    + apply lookup_set_near in Hm0 as (m1 & H1 & Hn1 & Hx1 & _ & Hr1).
      rewrite lookup_app_r, Hlen, Nat.sub_diag in H1 by lia. injection H1 as <-.
      rewrite decide_True in Hr1 by done. exists spec. rewrite Hr, Hr1, Hnear, decide_False by lia.
      split_and!; [done|by eapply instance_of_same; [| |exact Hmd]; congruence|].
      by rewrite (proj2 (Nat.ltb_ge (len + 1) (S len))) by lia.
    + rewrite Hl1 in Hm0 by lia. destruct (Hl j m0 ltac:(lia) Hm0) as (sp & Hs & Hi & Hr0).
      exists sp. split_and!; [done|by eapply instance_of_same|]. rewrite Hr, Hr0.
      destruct (Nat.ltb_spec (j + 1) len), (Nat.ltb_spec (j + 1) (S len)); try lia.
      * by rewrite decide_False by lia.
      * rewrite decide_True by lia. cbn. do 3 f_equal. lia.
  - unfold l2, l1. case_match; unfold set_near; rewrite ?length_alter, length_app; cbn; lia.
  - intros i Hi. transitivity (l1 !! i); [|apply Hl1; lia]. unfold l2.
    destruct (Nat.eqb_spec prev P) as [E|E]; [done|]. unfold set_near.
    apply list_lookup_alter_ne. subst prev. destruct (Nat.eqb_spec len 0); lia.
Qed.

Lemma create_sub_lane now B : (P < B)%nat → ∀ ss len b,
  drop len tail = ss.*2 → (len <= T)%nat → length (build b) = (B + len)%nat → lane B len (build b) →
  let prev := if (len =? 0)%nat then P else (B + len - 1)%nat in
  ∃ b', create_sub init now P prev ss b = Some (b', B + T - 1)%nat
    ∧ requested b' = requested b ∧ length (build b') = (B + T)%nat
    ∧ lane B T (build b') ∧ (∀ i, (i < B)%nat → build b' !! i = build b !! i).
Proof.
  intros HB. induction ss as [|[ri spec] ss IH]; intros len b Hs Hle Hlen Hl prev; cbn [create_sub].
  { apply (f_equal length) in Hs as HT'. rewrite length_drop in HT'. cbn in HT'.
    assert (len = T) as -> by lia. exists b. split; [|done]. subst prev. do 2 f_equal.
    destruct (Nat.eqb_spec T 0); lia. }
  assert (tail !! len = Some spec) as Hspec.
  { rewrite <- (Nat.add_0_r len), <- lookup_drop, Hs. done. }
  destruct (ChainFlow.create_one_relay init (process env) f now spec ri b) as (md & -> & Hmd & Hnear);
    [by eapply Forall_lookup_1|]. cbn [mbind option_bind build].
  pose proof (lane_extend B len (build b) spec md HB Hlen Hl Hspec Hmd Hnear) as Hext.
  cbv zeta in Hext. fold prev in Hext. rewrite <- Hlen in Hext.
  set (l2 := if (prev =? P)%nat then _ else _) in Hext |- *. destruct Hext as (Hl2 & Hlen2 & Hold).
  destruct (IH (S len) (mkBuild l2 (requested b) (next_id b + 1))) as (b' & Hrun & Hreq & Hlb & Hlane & Hsame).
  { rewrite (drop_S tail spec len Hspec) in Hs. by injection Hs. }
  { by apply lookup_lt_Some in Hspec. } { exact Hlen2. } { exact Hl2. }
  exists b'. split; [|split_and!; try done; intros i Hi; by rewrite Hsame, Hold].
  rewrite <- Hrun. cbn [Nat.eqb]. replace (B + S len - 1)%nat with (length (build b)) by lia. done.
Qed.

(** The modules in front of split, split itself, and the lanes of its first [L] outputs. *)
Definition heads (L : nat) : list (option nat) := (λ k, Some (S P + k * T)%nat) <$> seq 0 L.
Definition entries (L : nat) : list (option nat) := None :: ((λ p, Some (P + p * T)%nat) <$> seq 1 L).

#[local] Arguments heads : simpl never.
#[local] Arguments entries : simpl never.

Definition split_mod (x : Split.SplitContext) (L : nat) (md : Mod) : Prop :=
  near md = Some (P - 1)%nat :: heads L ++ replicate (N - L) None ∧ ctx md = inl x.

Definition pre_mod (i : nat) (md : Mod) : Prop :=
  ∃ spec, pre !! i = Some spec ∧ ChainFlow.instance_of init spec md
    ∧ near md = [if (i =? 0)%nat then None else Some (i - 1)%nat; Some (i + 1)%nat].

Definition lanes (x : Split.SplitContext) (L : nat) (l : list Mod) : Prop :=
  length l = (S P + L * T)%nat
  ∧ (∀ i md, (i < P)%nat → l !! i = Some md → pre_mod i md)
  ∧ (∃ md, l !! P = Some md ∧ split_mod x L md)
  ∧ ∀ k, (k < L)%nat →
      lane (S P + k * T) T l
      ∧ ∀ md, l !! (P + k * T + T)%nat = Some md → wire_dst md = Z.of_nat (S k).

(** Only what a lane is about matters. *)
Definition similar (md md' : Mod) : Prop :=
  mod_name md' = mod_name md ∧ ctx md' = ctx md ∧ near md' = near md.

Lemma lane_similar B len (l l' : list Mod) :
  (∀ i md', (B <= i < B + len)%nat → l' !! i = Some md' → ∃ md, l !! i = Some md ∧ similar md md') →
  lane B len l → lane B len l'.
Proof.
  intros Hsim Hl j md' Hj Hm. destruct (Hsim (B + j)%nat md' ltac:(lia) Hm) as (md & H & Hn & Hx & Hr).
  destruct (Hl j md Hj H) as (spec & ? & ? & ?). exists spec.
  split_and!; [done|by eapply instance_of_same|congruence].
Qed.

Lemma pre_similar i md md' : similar md md' → pre_mod i md → pre_mod i md'.
Proof.
  intros (Hn & Hx & Hr) (spec & ? & ? & ?). exists spec.
  split_and!; [done|by eapply instance_of_same|congruence].
Qed.

Lemma heads_S L : heads (S L) = heads L ++ [Some (S P + L * T)%nat].
Proof. unfold heads. by rewrite seq_S, fmap_app. Qed.
Lemma entries_S L : entries (S L) = entries L ++ [Some (P + S L * T)%nat].
Proof. unfold entries. by rewrite seq_S, fmap_app. Qed.
Lemma length_heads L : length (heads L) = L.
Proof. unfold heads. by rewrite length_fmap, length_seq. Qed.

(** What [create_outputs] does with a new lane. *)
Lemma add_lane x L (l l1 : list Mod) :
  (L < N)%nat → lanes x L l →
  length l1 = (S P + L * T + T)%nat → lane (S P + L * T) T l1 →
  (∀ i, (i < S P + L * T)%nat → l1 !! i = l !! i) →
  lanes x (S L) (set_near P (1 + L) (Some (length l))
                   (set_wire_dst (S P + L * T + T - 1) (Z.of_nat (S L)) l1)).
Proof.
  intros HL (Hlen & Hp & (md0 & H0 & Hr0 & Hx0) & Hk) Hlen1 Hlane Hsame.
  set (l2 := set_wire_dst _ _ _). set (l3 := set_near _ _ _ _).
  assert (∀ i md, i ≠ P → l3 !! i = Some md →
            ∃ md1, l1 !! i = Some md1 ∧ similar md1 md
              ∧ wire_dst md = if decide (i = S P + L * T + T - 1)%nat then Z.of_nat (S L) else wire_dst md1) as Hget.
  { intros i md Hi Hm. apply lookup_set_near in Hm as (m2 & H2 & Hn2 & Hx2 & Hw2 & Hr2).
    rewrite decide_False in Hr2 by lia. unfold l2, set_wire_dst in H2.
    rewrite list_lookup_alter in H2. case_decide as E.
    - rewrite E in H2. destruct (l1 !! i) as [m1|]; [|done]. injection H2 as <-.
      exists m1. rewrite Hw2, decide_True by done. by destruct m1.
    - exists m2. by rewrite decide_False by lia. }
  split_and!.
  - unfold l3, l2, set_near, set_wire_dst. rewrite !length_alter, Hlen1. lia.
  - intros i md Hi Hm. destruct (Hget i md ltac:(lia) Hm) as (m1 & H1 & Hs & _).
    rewrite Hsame in H1 by lia. eapply pre_similar; eauto.
  - rewrite <- (Hsame P) in H0 by lia. unfold l3, set_near. rewrite list_lookup_alter_eq.
    unfold l2, set_wire_dst. rewrite list_lookup_alter_ne, H0 by lia. eexists. split; [done|].
    destruct md0 as [? ? nr]; cbn in *. split; [|done]. cbn. rewrite Hr0, heads_S, Hlen. cbn. f_equal.
    etransitivity; [apply insert_app_r_alt; rewrite length_heads; lia|]. rewrite length_heads, Nat.sub_diag.
    replace (N - L)%nat with (S (N - S L)) by lia. cbn. by rewrite <- app_assoc.
  - intros k HkL. destruct (decide (k = L)) as [->|Hne].
    + split; [|intros md Hm; destruct (Hget (P + L * T + T)%nat md ltac:(lia) Hm) as (m1 & _ & _ & ->);
               by rewrite decide_True by lia].
      eapply lane_similar; [|exact Hlane]. intros i md' Hi Hm.
      destruct (Hget i md' ltac:(lia) Hm) as (m1 & ? & ? & _). eauto.
    + assert (k * T + T <= L * T)%nat as Hbound by nia. destruct (Hk k ltac:(lia)) as [Hl Hw]. split.
      * eapply lane_similar; [|exact Hl]. intros i md' Hi Hm.
        destruct (Hget i md' ltac:(lia) Hm) as (m1 & H1 & ? & _). rewrite Hsame in H1 by lia. eauto.
      * intros md Hm. destruct (Hget (P + k * T + T)%nat md ltac:(lia) Hm) as (m1 & H1 & _ & ->).
        rewrite decide_False by lia. rewrite Hsame in H1 by lia. auto.
Qed.

Lemma tail_specs_tail : (tail_specs cfg P).*2 = tail.
Proof.
  unfold tail_specs. apply list_eq. intros i. rewrite list_lookup_fmap, lookup_drop, list_lookup_imap.
  rewrite lookup_app_r by lia. replace (S P + i - P)%nat with (S i) by lia.
  change ((?a :: tail) !! S i) with (tail !! i). by destruct (tail !! i).
Qed.

Lemma create_outputs_lanes now x n : ∀ L b,
  (1 <= L)%nat → (L + n = N)%nat → lanes x L (build b) → requested b = [] →
  ∃ b', create_outputs init now cfg P P L n (b, entries L, S L) = Some (b', entries N, S N)
    ∧ lanes x N (build b') ∧ requested b' = [].
Proof.
  induction n as [|n IH]; intros L b HL Hn Hl Hr; cbn [create_outputs].
  { rewrite Nat.add_0_r in Hn. subst L. eauto. }
  pose proof (proj1 Hl) as Hlen.
  destruct (create_sub_lane now (S P + L * T) ltac:(lia) (tail_specs cfg P) 0 b) as
    (b1 & Hrun & Hreq & Hlen1 & Hlane & Hsame);
    [by rewrite drop_0, tail_specs_tail|lia|lia|intros j md ?; lia|].
  cbn [Nat.eqb] in Hrun. rewrite Hrun. cbn [mbind option_bind].
  pose proof (add_lane x L (build b) (build b1) ltac:(lia) Hl Hlen1 Hlane Hsame) as Hnew.
  assert (length (entries L) = S L) as He by (unfold entries; cbn; by rewrite length_fmap, length_seq).
  replace (<[S L:=_]> _) with (entries (S L)).
  - apply IH; [lia|lia|exact Hnew|]. change (requested b1 = []). by rewrite Hreq.
  - rewrite He. replace (S (S L) - S L)%nat with 1%nat by lia. cbn [replicate].
    rewrite insert_app_r_alt, He, Nat.sub_diag by lia. cbn. rewrite entries_S. do 3 f_equal. lia.
Qed.

(** The main line, before sub-chains. *)
Lemma main_lookup (l : list Mod) m i :
  set_wire_dst (length l - 1) 1 (set_wire_dst 0 0 (link_main l)) !! i = Some m →
  ∃ md, l !! i = Some md ∧ mod_name m = mod_name md ∧ ctx m = ctx md
    ∧ near m = [if (i =? 0)%nat then None else Some (i - 1)%nat;
                if (i + 1 <? length l)%nat then Some (i + 1)%nat else None]
    ∧ (i = (length l - 1)%nat → wire_dst m = 1).
Proof.
  intros Hm. apply ChainFlow.set_wire_dst_ok in Hm as (m1 & Hm & N1 & C1 & R1 & Hw).
  apply ChainFlow.set_wire_dst_ok in Hm as (m2 & Hm & N2 & C2 & R2 & _).
  apply ChainFlow.link_main_ok in Hm as (m3 & Hm & N3 & C3 & R3). exists m3.
  split_and!; try done; congruence.
Qed.

Lemma main_line lp (md : Mod) lt :
  Forall2 (ChainFlow.instance_of init) pre lp → Forall2 (ChainFlow.instance_of init) tail lt →
  let l := lp ++ md :: lt in
  let l' := set_wire_dst (length l - 1) 1 (set_wire_dst 0 0 (link_main l)) in
  length l' = (S P + T)%nat ∧ (∀ i m, (i < P)%nat → l' !! i = Some m → pre_mod i m)
  ∧ lane (S P) T l' ∧ (∀ m, l' !! (P + T)%nat = Some m → wire_dst m = 1)
  ∧ ∃ m, l' !! P = Some m ∧ near m = [Some (P - 1)%nat; Some (S P)] ∧ ctx m = ctx md.
Proof.
  intros Hp Ht l l'. pose proof (Forall2_length _ _ _ Hp) as HlP. pose proof (Forall2_length _ _ _ Ht) as HlT.
  assert (length l = (S P + T)%nat) as Hl by (unfold l; rewrite length_app; cbn; lia).
  assert (length l' = (S P + T)%nat) as Hl'.
  { unfold l', set_wire_dst. rewrite !length_alter. unfold link_main. by rewrite length_imap. }
  split_and!; [done| | | |].
  - intros i m Hi Hm. apply main_lookup in Hm as (m0 & Hm & Hn & Hc & Hr & _).
    unfold l in Hm. rewrite lookup_app_l in Hm by lia.
    destruct (Forall2_lookup_r _ _ _ _ _ Hp Hm) as (spec & Hs & Hi'). exists spec.
    split_and!; [done|by eapply instance_of_same|]. rewrite Hr, Hl.
    by rewrite (proj2 (Nat.ltb_lt (i + 1) (S P + T))) by lia.
  - intros j m Hj Hm. apply main_lookup in Hm as (m0 & Hm & Hn & Hc & Hr & _).
    unfold l in Hm. rewrite lookup_app_r in Hm by lia.
    replace (S P + j - length lp)%nat with (S j) in Hm by lia. cbn in Hm.
    destruct (Forall2_lookup_r _ _ _ _ _ Ht Hm) as (spec & Hs & Hi). exists spec.
    split_and!; [done|by eapply instance_of_same|]. rewrite Hr, Hl.
    destruct (Nat.eqb_spec (S P + j) 0); [lia|].
    destruct (Nat.ltb_spec (S P + j + 1) (S P + T)), (Nat.ltb_spec (j + 1) T), (Nat.eqb_spec j 0);
      try lia; repeat f_equal; lia.
  - intros m Hm. apply main_lookup in Hm as (m0 & _ & _ & _ & _ & Hw). apply Hw. lia.
  - destruct (lookup_lt_is_Some_2 l' P) as [m Hm]; [lia|]. exists m. split; [done|].
    apply main_lookup in Hm as (m0 & Hm & _ & Hc & Hr & _).
    unfold l in Hm. rewrite lookup_app_r in Hm by lia.
    replace (P - length lp)%nat with 0%nat in Hm by lia. injection Hm as <-. split; [|done].
    rewrite Hr, Hl. destruct (Nat.eqb_spec P 0); [lia|].
    rewrite (proj2 (Nat.ltb_lt (P + 1) (S P + T))) by lia. by rewrite Nat.add_1_r.
Qed.

Lemma alter_cfg_idx (g : Mod → Mod) k (l : list Mod) i m :
  (∀ md, cfg_idx (g md) = cfg_idx md) → alter g k l !! i = Some m →
  ∃ md, l !! i = Some md ∧ cfg_idx m = cfg_idx md.
Proof.
  intros Hg. rewrite list_lookup_alter. case_decide; [subst|by exists m].
  destruct (l !! i) as [md|]; [|done]. intros [= <-]. eauto.
Qed.

Lemma main_cfg_idx (l : list Mod) m i :
  set_wire_dst (length l - 1) 1 (set_wire_dst 0 0 (link_main l)) !! i = Some m →
  ∃ md, l !! i = Some md ∧ cfg_idx m = cfg_idx md.
Proof.
  intros (m1 & (m2 & Hm & E2)%alter_cfg_idx & E1)%alter_cfg_idx; [|by intros []..].
  unfold link_main in Hm. rewrite list_lookup_imap in Hm. destruct (l !! i) as [[]|]; [|done].
  injection Hm as <-. rewrite E1, E2. by eexists.
Qed.

Lemma create_main_app now specs1 specs2 : ∀ i b,
  create_main init now (specs1 ++ specs2) i b
  = b' ← create_main init now specs1 i b; create_main init now specs2 (i + length specs1) b'.
Proof.
  induction specs1 as [|s specs1 IH]; intros i b; cbn [app create_main length].
  - by rewrite Nat.add_0_r.
  - destruct (create_one init now s i b) as [b1|]; [|done]. cbn. rewrite IH. by rewrite Nat.add_succ_r.
Qed.

(** Phase 1. *)
Lemma create_main_split now :
  ∃ lp md lt b, create_main init now cfg 0 (mkBuild [] [] 0) = Some b
    ∧ build b = lp ++ md :: lt ∧ ctx md = inl x0 ∧ cfg_idx md = P
    ∧ requested b = request_outputs P (Split.num_outputs x0 - 1) []
    ∧ Forall2 (ChainFlow.instance_of init) pre lp ∧ Forall2 (ChainFlow.instance_of init) tail lt.
Proof.
  destruct (SplitConfig.chain_init_wf _ _ _ Hstart) as (Hev & _).
  assert (init (mkSpec s_split ps) = Some (inl x0, [IOutputs (Split.num_outputs x0 - 1)])) as Hi.
  { unfold init. rewrite bool_decide_true by done. cbn [params]. by rewrite Hstart, Hev. }
  destruct (ChainFlow.create_main_relays init (process env) f now pre 0 (mkBuild [] [] 0) Hpre)
    as (lp & b & Hrun & Hb & Hreq & Hf). cbn in Hb, Hreq. pose proof (Forall2_length _ _ _ Hf) as HlP.
  rewrite create_main_app, Hrun. cbn [mbind option_bind create_main]. unfold create_one. rewrite Hi.
  cbn [mbind option_bind foldl run_init fst snd].
  set (md := mkMod _ _ _ _ _ _ _ _). set (b1 := mkBuild _ _ _).
  destruct (ChainFlow.create_main_relays init (process env) f now tail (S (0 + P)) b1 Htail)
    as (lt & b2 & Hrun2 & Hb2 & Hreq2 & Hf2).
  exists lp, md, lt, b2. split_and!; try done.
  - rewrite Hb2. cbn. by rewrite Hb, <- app_assoc.
  - rewrite Hreq2. cbn. by rewrite Hb, Hreq, HlP.
Qed.

Lemma chain_new_lanes now :
  ∃ l, chain_new init now cfg = fresh l true (entries N) ∧ lanes x0 N l.
Proof.
  destruct (SplitConfig.chain_init_wf _ _ _ Hstart) as (_ & (_ & _ & Hn) & _).
  destruct (create_main_split now) as (lp & md & lt & b & Hrun & Hb & Hctx & Hidx & Hreq & Hf & Hf2).
  unfold chain_new. rewrite Hrun.
  pose proof (main_line lp md lt Hf Hf2) as (Hlen & Hpm & Hlane & Hlast & m & Hm & Hnear & Hcm).
  pose proof (Forall2_length _ _ _ Hf) as HlP. pose proof (Forall2_length _ _ _ Hf2) as HlT.
  assert (length (build b) = (S P + T)%nat) as HlB by (rewrite Hb, length_app; cbn; lia).
  destruct (build b) as [|m1 l1] eqn:E; [cbn in HlB; lia|]. rewrite <- E in *. clear m1 l1 E.
  replace (Some (length (build b) - 1)%nat) with (Some (P + 1 * T)%nat) by (f_equal; lia).
  change [None; Some (P + 1 * T)%nat] with (entries 1). rewrite <- Hb in *.
  set (l1 := set_wire_dst _ _ _) in *.
  assert (cfg_idx m = P) as Hcfg.
  { apply main_cfg_idx in Hm as (md' & Hm' & ->). rewrite Hb, lookup_app_r, HlP, Nat.sub_diag in Hm' by lia.
    by injection Hm' as <-. }
  destruct (decide (N = 1%nat)) as [E1|E1].
  - rewrite ChainFlow.phase2_idle.
    + exists l1. rewrite E1. split; [done|]. split_and!; [lia|done| |].
      * exists m. split; [done|]. split; [|by rewrite Hcm]. rewrite Hnear, E1. unfold heads. cbn. by rewrite Nat.add_0_r.
      * intros k Hk. replace k with 0%nat by lia. cbn [Nat.mul]. by rewrite !Nat.add_0_r.
    + change (requested b = []). rewrite Hreq. unfold request_outputs.
      destruct (Z.ltb_spec (Split.num_outputs x0 - 1) 1); [done|lia].
  - assert (requested b = [(P, Split.num_outputs x0 - 1)]) as Hreq1.
    { rewrite Hreq. unfold request_outputs. destruct (Z.ltb_spec (Split.num_outputs x0 - 1) 1); [lia|done]. }
    assert (∃ k, length cfg = S k) as (fuel & ->) by (rewrite length_app; cbn; eexists; apply Nat.add_succ_r).
    cbn [phase2]. change (requested (b{{build := l1}})) with (requested b). rewrite Hreq1.
    cbn [serve_all serve_request]. change (build (b{{build := l1; requested := [] }})) with l1.
    rewrite Hm, Hcfg. rewrite (proj2 (Nat.leb_gt (length cfg) (S P))) by (rewrite length_app; cbn; lia).
    set (l2 := alter _ P l1). set (b2 := b{{build := _; requested := _; build := _}}).
    destruct (create_outputs_lanes now x0 (N - 1) 1 b2) as (b' & Hrun' & Hl' & Hr'); [lia|lia| |done|].
    + change (lanes x0 1 l2). split_and!.
      * unfold l2. rewrite length_alter. lia.
      * intros i mi Hi. unfold l2. rewrite list_lookup_alter_ne by lia. by apply Hpm.
      * eexists. unfold l2. rewrite list_lookup_alter_eq, Hm. split; [done|].
        destruct m as [? ? nr]; cbn in Hnear, Hcm. subst nr. split; [|by rewrite <- Hctx, <- Hcm].
        cbn. unfold heads. cbn. rewrite Nat.add_0_r. do 3 f_equal. lia.
      * intros k Hk. replace k with 0%nat by lia. unfold l2. cbn [Nat.mul]. rewrite !Nat.add_0_r. split.
        -- intros j md' Hj. rewrite list_lookup_alter_ne by lia. by apply Hlane.
        -- intros md'. rewrite list_lookup_alter_ne by lia. apply Hlast.
    + replace (Z.to_nat (Split.num_outputs x0 - 1)) with (N - 1)%nat by lia.
      rewrite Hrun'. cbn [mbind option_bind]. rewrite ChainFlow.phase2_idle by done. by exists (build b').
Qed.

(** ** Running it *)

#[local] Abbreviation encode := (ChainFlow.encode f).
#[local] Abbreviation decode := (ChainFlow.decode f).

Definition tree (x : Split.SplitContext) (c : Chain) : Prop :=
  lanes x N (modules c) ∧ entry_ext c = true ∧ wire_entries c = entries N
  ∧ owner c = true ∧ cancelled c = false.

(** The place of an instance in its lane. *)
Definition place (m : nat) : nat := (m - S P) mod T.

Lemma place_at k j : (j < T)%nat → place (S P + k * T + j) = j.
Proof.
  intros Hj. unfold place. replace (S P + k * T + j - S P)%nat with (j + k * T)%nat by lia.
  rewrite Nat.Div0.mod_add. by apply Nat.mod_small.
Qed.

(** An instance of a lane, by its index. *)
Lemma lanes_lookup x l m md :
  lanes x N l → (P < m)%nat → l !! m = Some md →
  ∃ k, (k < N)%nat ∧ m = (S P + k * T + place m)%nat ∧ (place m < T)%nat
    ∧ lane_mod (S P + k * T) T (place m) md
    ∧ (S (place m) = T → wire_dst md = Z.of_nat (S k)).
Proof.
  intros (Hlen & _ & _ & Hk) Hm Hi. apply lookup_lt_Some in Hi as Hlt.
  set (i := (m - S P)%nat). unfold place. fold i.
  pose proof (Nat.div_mod_eq i T). pose proof (Nat.mod_upper_bound i T ltac:(lia)).
  assert (i / T < N)%nat as HN by (apply Nat.Div0.div_lt_upper_bound; lia).
  destruct (Hk _ HN) as [Hl Hw]. exists (i / T)%nat. split_and!; try done; [lia| |].
  - apply Hl; [done|]. rewrite <- Hi. f_equal. lia.
  - intros E. apply Hw. rewrite <- Hi. f_equal. lia.
Qed.

(** Changes of an instance that the invariant does not see. *)
Definition alike (md md' : Mod) : Prop := similar md md' ∧ wire_dst md' = wire_dst md.

Lemma lanes_alike x (l l' : list Mod) :
  length l' = length l →
  (∀ i md', l' !! i = Some md' → ∃ md, l !! i = Some md ∧ alike md md') →
  lanes x N l → lanes x N l'.
Proof.
  intros Hlen Hget (H1 & Hp & (m0 & H0 & Hr & Hx) & Hk). split_and!; [by rewrite Hlen| | |].
  - intros i md' Hi Hm. destruct (Hget _ _ Hm) as (md & ? & ? & _). eapply pre_similar; eauto.
  - destruct (lookup_lt_is_Some_2 l' P) as [m0' H0']; [lia|]. exists m0'. split; [done|].
    destruct (Hget _ _ H0') as (m & Hm & (_ & Hxm & Hrm) & _). rewrite H0 in Hm. injection Hm as <-.
    split; congruence.
  - intros k HkN. destruct (Hk k HkN) as [Hl Hw]. split.
    + eapply lane_similar; [|exact Hl]. intros i md' _ Hm.
      destruct (Hget _ _ Hm) as (md & ? & ? & _). eauto.
    + intros md' Hm. destruct (Hget _ _ Hm) as (md & ? & _ & ->). auto.
Qed.

Lemma lanes_alter x i g (l : list Mod) :
  (∀ md, l !! i = Some md → alike md (g md)) → lanes x N l → lanes x N (alter g i l).
Proof.
  intros Hg. apply lanes_alike; [apply length_alter|]. intros j md' Hj.
  rewrite list_lookup_alter in Hj. case_decide as E; [subst|by exists md'].
  destruct (l !! j) as [md|] eqn:Em; [|done]. injection Hj as <-. eauto.
Qed.

(** Split's own state changes. *)
Lemma lanes_ctx x x' (l : list Mod) :
  lanes x N l → lanes x' N (alter (λ md, md{{ctx := inl x'}}) P l).
Proof.
  intros (H1 & Hp & (m0 & H0 & Hr & Hx) & Hk). split_and!; [by rewrite length_alter| | |].
  - intros i md Hi. rewrite list_lookup_alter_ne by lia. by apply Hp.
  - rewrite list_lookup_alter_eq, H0. eexists. split; [done|]. by destruct m0.
  - intros k HkN. destruct (Hk k HkN) as [Hl Hw]. split.
    + eapply lane_similar; [|exact Hl]. intros i md' Hi. rewrite list_lookup_alter_ne by lia.
      intros Hm. by exists md'.
    + intros md'. rewrite list_lookup_alter_ne by lia. apply Hw.
Qed.

(** The tasks that the calls of split queue: a chunk for a lane, a packet for the module in
    front. *)
Definition to_task (src : Z) (e : Split.event) : option task :=
  match e with
  | Split.EvWrite dst d =>
      Some (if dst =? 0 then mkTask (P - 1) d (Z.of_nat (length d)) src 1
            else mkTask (S P + (Z.to_nat dst - 1) * T) d (Z.of_nat (length d)) src 0)
  | _ => None
  end.

(** What split writes goes to an output it has. *)
Definition in_range (e : Split.event) : Prop :=
  match e with Split.EvWrite dst _ => 0 <= dst <= Split.num_outputs x0 | _ => True end.

(** The chain with more tasks and more packets that have left. *)
Definition grown (c : Chain) (ts : list task) (es : list (Z * bytes)) :=
  (modules c, entry_ext c, wire_entries c, owner c, cancelled c, queue c ++ ts, exits c ++ es).

Lemma core_enqueue m d a src dir (c : Chain) :
  owner c = true → ChainFlow.core (enqueue_module m d a src dir c) = grown c [mkTask m d a src dir] [].
Proof.
  intros Ho. unfold enqueue_module, grown. rewrite Ho. destruct c. cbn in *. by rewrite app_nil_r, Ho.
Qed.

Lemma core_grown_trans (c c1 c2 : Chain) ts ts' :
  ChainFlow.core c1 = grown c ts [] → ChainFlow.core c2 = grown c1 ts' [] →
  ChainFlow.core c2 = grown c (ts ++ ts') [].
Proof.
  unfold ChainFlow.core, grown. intros [= -> -> -> -> -> -> ->] ->. by rewrite !app_nil_r, app_assoc.
Qed.

Lemma core_same (c c1 c2 : Chain) ts es :
  ChainFlow.core c1 = ChainFlow.core c → ChainFlow.core c2 = grown c1 ts es →
  ChainFlow.core c2 = grown c ts es.
Proof. unfold ChainFlow.core, grown. by intros [= -> -> -> -> -> -> ->]. Qed.

Lemma core_owner (c c' : Chain) ts es : ChainFlow.core c' = grown c ts es → owner c' = owner c.
Proof. unfold ChainFlow.core, grown. by intros [= _ _ _ -> _ _ _]. Qed.

Lemma split_write src (md : Mod) dst d a (c : Chain) :
  near md = Some (P - 1)%nat :: heads N → 0 <= dst <= Split.num_outputs x0 → owner c = true →
  ChainFlow.core (write_packet wire_ret P md src dst d a c).1
  = grown c [if dst =? 0 then mkTask (P - 1) d a src 1
             else mkTask (S P + (Z.to_nat dst - 1) * T) d a src 0] [].
Proof.
  intros Hn Hd Ho. unfold write_packet. rewrite Hn. destruct (Z.ltb_spec dst 0); [lia|].
  destruct (Z.eqb_spec dst 0) as [->|Hne]; [by apply core_enqueue|].
  assert ((Some (P - 1)%nat :: heads N) !! Z.to_nat dst = Some (Some (S P + (Z.to_nat dst - 1) * T)%nat)) as ->;
    [|by apply core_enqueue].
  destruct (Z.to_nat dst) as [|p] eqn:Ep; [lia|].
  change (heads N !! p = Some (Some (S P + (S p - 1) * T)%nat)). unfold heads.
  rewrite list_lookup_fmap, lookup_seq_lt by lia. cbn. by rewrite Nat.sub_0_r.
Qed.

Lemma split_calls src a (md : Mod) evs :
  near md = Some (P - 1)%nat :: heads N → Forall in_range evs →
  ∀ last c, owner c = true →
  ChainFlow.core (run_events wire_ret malloc_ok P md src (map (calls a) evs) last c).1
  = grown c (omap (to_task src) evs) [].
Proof.
  intros Hn. induction 1 as [|e evs He _ IH]; intros last c Ho.
  { unfold grown. cbn. by rewrite !app_nil_r. }
  destruct e as [n|dst d|d|]; cbn [map calls run_events omap list_omap to_task].
  - eapply core_same; [|apply IH]; unfold alloc_buffer; by case_match.
  - pose proof (split_write src md dst d (Z.of_nat (length d)) c Hn He Ho) as Hw.
    destruct (write_packet _ _ _ _ _ _ _ _) as [c1 r]. cbn [fst] in Hw.
    apply (core_grown_trans c c1 _ [_] (omap (to_task src) evs) Hw). apply IH.
    by rewrite (core_owner _ _ _ _ Hw).
  - by eapply core_same; [|apply IH].
  - by eapply core_same; [|apply IH].
Qed.

(** ** One task *)

(** In the modules in front of split. *)
#[local] Abbreviation rank := (ChainFlow.rank pre).
#[local] Abbreviation final := (ChainFlow.final f pre).
#[local] Abbreviation flight := (ChainFlow.flight f pre).

(** What reaches split of a packet of the application. *)
Definition at_split (t : task) : option bytes := encode (drop (t_mod t) pre) (t_data t).

(** A packet that split is the next to see; a chunk on its way out, as the wire will get
    it; a chunk on its way in, as split will get it. *)
Definition waiting (t : task) : option bytes :=
  if (t_dir t =? 0) && (t_mod t =? P)%nat then Some (t_data t) else None.
Definition chunk_out (t : task) : option bytes :=
  if (t_dir t =? 0) && (P <? t_mod t)%nat
  then encode (drop (place (t_mod t)) tail) (t_data t) else None.
Definition chunk_in (t : task) : option bytes :=
  if negb (t_dir t =? 0) && (P <=? t_mod t)%nat
  then if (t_mod t =? P)%nat then Some (t_data t)
       else decode (take (S (place (t_mod t))) tail) (t_data t)
  else None.

(** A packet for split has a size that fits [int], a chunk for split more than a header and
    is not the 65536th of a packet that announces another one. *)
Definition task_ok (t : task) : Prop :=
  (t_mod t < S P + N * T)%nat ∧ (t_dir t = 0 ∨ t_dir t = 1) ∧ t_data t ≠ []
  ∧ (t_dir t = 0 → (t_mod t <= P)%nat → ∀ d, at_split t = Some d → Z.of_nat (length d) < 2 ^ 31)
  ∧ (∀ d, chunk_in t = Some d → chunk_fits d).

(** How many tasks a task still causes, itself included. Split cuts a packet into at most
    as many chunks as it has bytes; a chunk that comes in may complete a packet. *)
Definition weight (t : task) : nat :=
  if t_dir t =? 0
  then if (P <? t_mod t)%nat then T - place (t_mod t)
       else S (P - t_mod t) + from_option length 0%nat (at_split t) * T
  else if (P <? t_mod t)%nat then 2 + P + place (t_mod t) else S (t_mod t).

(** What running a task comes to: split's state, the tasks queued, the packets that leave. *)
Inductive moves (x : Split.SplitContext) (t : task)
    : Split.SplitContext → list task → list (Z * bytes) → Prop :=
| move_lane t' :
    (P < t_mod t)%nat → (P <= t_mod t')%nat → chunk_out t' = chunk_out t → chunk_in t' = chunk_in t →
    waiting t' = None → weight t = S (weight t') → task_ok t' → moves x t x [t'] []
| move_drop :
    t_mod t ≠ P → chunk_out t = None → chunk_in t = None → ((t_mod t < P)%nat → final t = None) →
    moves x t x [] []
| move_exit k d :
    (P < t_mod t)%nat → chunk_out t = Some d → chunk_in t = None → (k < N)%nat →
    moves x t x [] [(Z.of_nat (S k), d)]
| move_front t' :
    (t_mod t < P)%nat → (t_mod t' < P)%nat → t_dir t' = t_dir t → rank t = S (rank t') →
    final t' = final t → weight t = S (weight t') → task_ok t' → moves x t x [t'] []
| move_enter t' :
    t_dir t = 0 → (t_mod t < P)%nat → rank t = 0%nat → waiting t' = final t →
    t_mod t' = P → t_dir t' = 0 → weight t = S (weight t') → task_ok t' → moves x t x [t'] []
| move_leave d :
    t_dir t = 1 → (t_mod t < P)%nat → rank t = 0%nat → final t = Some d → moves x t x [] [(0, d)]
| move_split x' evs :
    t_mod t = P → t_dir t = 0 →
    Split.process_split env x (Some (t_data t)) = (0, x', evs ++ [Split.EvFreeInput]) →
    Forall (Split.outgoing x) evs → moves x t x' (omap (to_task (t_src t)) evs) []
| move_merge x' evs :
    t_mod t = P → t_dir t = 1 →
    Split.process_merge env x (Some (t_data t)) = Some (0, x', evs) → Forall Split.incoming evs →
    moves x t x' (omap (to_task (t_src t)) evs) [].

(** A module of a lane passes the packet on. *)
Lemma lane_moves x l c m md spec src d d' a a' dir :
  lanes x N l → (P < m)%nat → l !! m = Some md → owner c = true → tail !! place m = Some spec →
  dir = 0 ∨ dir = 1 → f spec dir d = Some d' → d' ≠ [] → task_ok (mkTask m d a src dir) →
  ∃ ts es, moves x (mkTask m d a src dir) x ts es
    ∧ ChainFlow.core (write_packet wire_ret m md src (1 - dir) d' a' c).1 = grown c ts es.
Proof.
  intros Hl HPm Hm Ho Hs Hd Hfd Hf (_ & _ & _ & _ & Hchunk). pose proof (lookup_lt_Some _ _ _ Hm) as Hlt. rewrite (proj1 Hl) in Hlt.
  destruct (lanes_lookup x l m md Hl HPm Hm) as (k & Hk & Hi & Hj & (spec' & _ & _ & Hn) & Hw).
  set (j := place m) in *. unfold write_packet. rewrite Hn.
  assert ((P <? m)%nat = true) as HPm' by (by apply Nat.ltb_lt).
  destruct Hd as [-> | ->]; cbn [Z.sub Z.add Z.opp Z.pos_sub Z.ltb Z.compare Z.eqb Z.to_nat
                                 lookup list_lookup Pos.to_nat Pos.iter_op].
  - destruct (Nat.ltb_spec (j + 1) T) as [Hj'|Hj']; cbn [fst].
    + set (t' := mkTask (S P + k * T + j + 1) d' a' src 0). exists [t'], [].
      split; [|by apply core_enqueue].
      assert (t_mod t' = (S P + k * T + S j)%nat) as Ht' by (cbn; lia).
      assert ((P <? t_mod t')%nat = true) as Hlt' by (apply Nat.ltb_lt; lia).
      apply move_lane; cbn [t_mod]; [done|lia| | | | |].
      * unfold chunk_out. rewrite Hlt', Ht', place_at by lia. cbn [t_dir t_mod t_data t' Z.eqb andb].
        rewrite HPm'. fold j. rewrite (drop_S tail spec j) by done. cbn [ChainFlow.encode]. by rewrite Hfd.
      * done.
      * unfold waiting. cbn [t_dir t']. destruct (Nat.eqb_spec (t_mod t') P); [lia|done].
      * unfold weight. rewrite Hlt', Ht', place_at by lia. cbn [t_dir t_mod t' Z.eqb]. rewrite HPm'. fold j. lia.
      * unfold task_ok. rewrite Ht'. cbn [t_dir t_data t']. split_and!; [nia|by left|done|lia|done].
    + exists [], [(Z.of_nat (S k), d')]. split.
      * apply move_exit; [done| |done|done]. unfold chunk_out. cbn [t_dir t_mod t_data Z.eqb andb]. rewrite HPm'.
        fold j. rewrite (drop_S tail spec j) by done. cbn [ChainFlow.encode]. by rewrite Hfd, drop_ge by lia.
      * unfold grown. cbn. by rewrite app_nil_r, Hw by lia.
  - set (m' := if (j =? 0)%nat then P else (S P + k * T + j - 1)%nat).
    set (t' := mkTask m' d' a' src 1). exists [t'], []. cbn [fst].
    split; [|by apply core_enqueue].
    assert (chunk_in t' = chunk_in (mkTask m d a src 1) ∧ weight (mkTask m d a src 1) = S (weight t'))
      as [Hc Hwt].
    + unfold chunk_in, weight. cbn [t_dir t_mod t' Z.eqb t_data negb andb].
      rewrite HPm'. destruct (Nat.leb_spec P m), (Nat.eqb_spec m P); try lia. fold j.
      rewrite (take_S_r tail j spec), ChainFlow.decode_snoc, Hfd by done. cbn [mbind option_bind].
      unfold m'. destruct (Nat.eqb_spec j 0) as [E|E].
      * rewrite Nat.ltb_irrefl, Nat.leb_refl, Nat.eqb_refl, E. split; [done|lia].
      * replace (S P + k * T + j - 1)%nat with (S P + k * T + (j - 1))%nat by lia.
        rewrite (proj2 (Nat.ltb_lt _ _)), (proj2 (Nat.leb_le _ _)), (proj2 (Nat.eqb_neq _ _)), place_at by lia.
        split; [|lia]. by replace (S (j - 1)) with j by lia.
    + apply move_lane; try done; cbn [t_mod t'].
      * unfold m'. destruct (Nat.eqb_spec j 0); lia.
      * unfold task_ok. cbn [t_mod t' t_dir t_data].
        split_and!; [|by right|done|done|by rewrite Hc]. unfold m'. destruct (Nat.eqb_spec j 0); [lia|nia].
Qed.

(** A module in front of split passes the packet on. *)
Lemma at_split_next i d d' spec a src a' src' :
  pre !! i = Some spec → f spec 0 d = Some d' →
  at_split (mkTask (i + 1) d' a' src' 0) = at_split (mkTask i d a src 0).
Proof.
  intros Hs Hf. unfold at_split. cbn [t_mod t_data]. rewrite Nat.add_1_r, (drop_S pre spec i) by done.
  cbn [ChainFlow.encode]. by rewrite Hf.
Qed.

Lemma front_moves x l c i md spec src d d' a a' dir :
  lanes x N l → (i < P)%nat → l !! i = Some md → owner c = true → pre !! i = Some spec →
  dir = 0 ∨ dir = 1 → f spec dir d = Some d' → d' ≠ [] → task_ok (mkTask i d a src dir) →
  ∃ ts es, moves x (mkTask i d a src dir) x ts es
    ∧ ChainFlow.core (write_packet wire_ret i md src (1 - dir) d' a' c).1 = grown c ts es.
Proof.
  intros (_ & Hl & _) Hi Hm Ho Hs Hd Hfd Hf (_ & _ & _ & Hlen & _).
  destruct (Hl i md Hi Hm) as (spec' & _ & _ & Hn).
  unfold write_packet. rewrite Hn.
  destruct Hd as [-> | ->]; cbn [Z.sub Z.add Z.opp Z.pos_sub Z.ltb Z.compare Z.eqb Z.to_nat
                                 lookup list_lookup Pos.to_nat Pos.iter_op fst].
  - set (t' := mkTask (i + 1) d' a' src 0). exists [t'], [].
    split; [|by apply core_enqueue].
    pose proof (at_split_next i d d' spec a src a' src Hs Hfd) as Hat. fold t' in Hat.
    assert (weight (mkTask i d a src 0) = S (weight t')) as Hw.
    { unfold weight. rewrite Hat. cbn [t_dir t_mod t' Z.eqb].
      destruct (Nat.ltb_spec P i), (Nat.ltb_spec P (i + 1)); lia. }
    assert (task_ok t') as Ht'.
    { unfold task_ok. rewrite Hat. cbn [t_dir t_mod t_data t']. split_and!; [lia|by left|done| |done].
      intros _ _. apply Hlen; cbn; [done|lia]. }
    destruct (decide (S i = P)) as [E|E].
    + apply move_enter; cbn [t_mod t_dir t']; try done; try lia.
      * unfold ChainFlow.rank. cbn. lia.
      * unfold waiting. cbn [t_mod t_dir t_data t' Z.eqb andb]. destruct (Nat.eqb_spec (i + 1) P); [|lia].
        unfold ChainFlow.final. cbn [t_mod t_dir t_data Z.eqb].
        rewrite (drop_S pre spec i) by done. cbn [ChainFlow.encode]. by rewrite Hfd, drop_ge by lia.
    + apply move_front; cbn [t_mod t_dir t']; try done; [lia|]. unfold ChainFlow.rank. cbn. lia.
  - destruct i as [|i]; cbn [Nat.eqb].
    + exists [], [(0, d')]. split; [|unfold grown; cbn; by rewrite app_nil_r].
      apply move_leave; try done. unfold ChainFlow.final. cbn [t_mod t_dir t_data Z.eqb].
      rewrite (take_S_r pre 0 spec), ChainFlow.decode_snoc, Hfd by done. done.
    + cbn [fst]. set (t' := mkTask (S i - 1) d' a' src 1). exists [t'], [].
      split; [|by apply core_enqueue].
      apply move_front; cbn [t_mod t_dir t']; try done; try lia.
      * unfold ChainFlow.rank. cbn. lia.
      * unfold ChainFlow.final. cbn [t_mod t_dir t_data t' Z.eqb].
        rewrite (take_S_r pre (S i) spec), ChainFlow.decode_snoc, Hfd by done. cbn.
        by rewrite Nat.sub_0_r.
      * unfold weight. cbn [t_mod t_dir t' Z.eqb]. destruct (Nat.ltb_spec P (S i)), (Nat.ltb_spec P (S i - 1)); lia.
      * unfold task_ok. cbn [t_mod t_dir t_data t']. split_and!; [lia|by right|done|done|].
        intros e. unfold chunk_in. cbn [t_mod t_dir t']. destruct (Nat.leb_spec P (S i - 1)); [lia|done].
Qed.

(** The outcome of a task: how the chain differs. *)
Definition outcome (x' : Split.SplitContext) (ts : list task) (es : list (Z * bytes)) (c c' : Chain) : Prop :=
  tree x' c' ∧ queue c' = queue c ++ ts ∧ exits c' = exits c ++ es.

Lemma outcome_core x' ts es (c c1 c' : Chain) :
  tree x' c1 → queue c1 = queue c → exits c1 = exits c → ChainFlow.core c' = grown c1 ts es →
  outcome x' ts es c c'.
Proof.
  unfold outcome, tree, ChainFlow.core, grown. intros Ht Hq He [= -> -> -> -> -> -> ->].
  by rewrite Hq, He.
Qed.

(** The end of a task only moves buffers. *)
Lemma core_finish (b : bool) a (c : Chain) :
  ChainFlow.core (task_done (if b then free_buffer a c else c)) = ChainFlow.core c.
Proof. by destruct b. Qed.

(** The specification of a module other than split. *)
Lemma relay_spec x l m md :
  lanes x N l → m ≠ P → l !! m = Some md →
  ∃ spec, relays spec ∧ ChainFlow.instance_of init spec md
    ∧ if (m <? P)%nat then pre !! m = Some spec else tail !! place m = Some spec.
Proof.
  intros Hl Hne Hm. destruct (Nat.ltb_spec m P).
  - destruct (proj1 (proj2 Hl) m md ltac:(done) Hm) as (spec & Hs & Hi & _). exists spec.
    split_and!; [exact (Forall_lookup_1 _ _ _ _ Hpre Hs)|done|done].
  - destruct (lanes_lookup x l m md Hl ltac:(lia) Hm) as (_ & _ & _ & _ & (spec & Hs & Hi & _) & _).
    exists spec. split_and!; [exact (Forall_lookup_1 _ _ _ _ Htail Hs)|done|done].
Qed.

(** A module refuses the packet. *)
Lemma refused_moves x t spec :
  t_mod t ≠ P → t_dir t = 0 ∨ t_dir t = 1 →
  (if (t_mod t <? P)%nat then pre !! t_mod t = Some spec else tail !! place (t_mod t) = Some spec) →
  f spec (t_dir t) (t_data t) = None → moves x t x [] [].
Proof.
  intros Hne Hd Hs Hf. apply move_drop; [done| | |].
  - unfold chunk_out. destruct (Z.eqb_spec (t_dir t) 0) as [E|]; [|done].
    destruct (Nat.ltb_spec P (t_mod t)), (Nat.ltb_spec (t_mod t) P); try lia; [|done].
    rewrite E in Hf. rewrite (drop_S tail spec _) by done. cbn. by rewrite Hf.
  - unfold chunk_in. destruct (Z.eqb_spec (t_dir t) 0) as [|E]; [done|].
    destruct (Nat.leb_spec P (t_mod t)), (Nat.ltb_spec (t_mod t) P); try lia; [|done].
    destruct Hd as [Hd|Hd]; [lia|]. rewrite Hd in Hf. destruct (Nat.eqb_spec (t_mod t) P); [lia|]. cbn.
    by rewrite (take_S_r tail _ spec), ChainFlow.decode_snoc, Hf by done.
  - intros Hlt. rewrite (proj2 (Nat.ltb_lt _ _) Hlt) in Hs. unfold ChainFlow.final.
    destruct Hd as [Hd|Hd]; rewrite Hd in *; cbn.
    + rewrite (drop_S pre spec _) by done. cbn. by rewrite Hf.
    + by rewrite (take_S_r pre _ spec), ChainFlow.decode_snoc, Hf by done.
Qed.

Lemma run_relay now x t c :
  tree x c → task_ok t → t_mod t ≠ P →
  ∃ ts es, moves x t x ts es
    ∧ outcome x ts es c (run_task (process env) wire_ret malloc_ok now t c).
Proof.
  intros Ht Hok Hi. pose proof Hok as (Hm & Hd & Hne & _). pose proof Ht as (Hl & _ & _ & Ho & Hc).
  destruct (lookup_lt_is_Some_2 (modules c) (t_mod t)) as [md Hmd]; [rewrite (proj1 Hl); lia|].
  destruct (relay_spec x _ _ md Hl Hi Hmd) as (spec & (y & ie & Hx' & _ & Hp & _) & (Hn & ievs & Hx) & Hs).
  rewrite Hx in Hx'. injection Hx' as <- <-.
  specialize (Hp (t_dir t) (t_src t) (t_data t) (t_asize t) Hd Hne).
  assert (∀ x', x' = ctx md →
    tree x (set_ctx (t_mod t) x' (c{{modules ::= alter (λ md : Mod, md{{last_activity := now}}) (t_mod t)}}))) as Ht1.
  { intros x' ->. split; [|apply Ht]. apply lanes_alter.
    - intros md1 H1. change (alter (λ md : Mod, md{{last_activity := now}}) (t_mod t) (modules c) !! t_mod t = Some md1) in H1.
      rewrite list_lookup_alter_eq, Hmd in H1. injection H1 as <-. by destruct md.
    - apply lanes_alter; [by intros []|done]. }
  specialize (Ht1 _ eq_refl). unfold run_task. rewrite Hc, Hmd, Hn.
  destruct (f spec (t_dir t) (t_data t)) as [d'|] eqn:Hf.
  - destruct Hp as (Hne' & bufs & a' & r & Hev & Hbufs). rewrite Hev. set (c1 := set_ctx _ _ _) in *.
    destruct (ChainFlow.run_buffer_evs wire_ret malloc_ok (t_mod t) md (t_src t)
                [MWrite (1 - t_dir t) d' a'] bufs Hbufs 0 c1) as (c2 & -> & Hc2).
    cbn [run_events].
    assert (owner c2 = true) as Ho2.
    { unfold ChainFlow.core in Hc2. injection Hc2 as _ _ _ -> _ _ _. apply Ht1. }
    assert (∃ ts es, moves x t x ts es
      ∧ ChainFlow.core (write_packet wire_ret (t_mod t) md (t_src t) (1 - t_dir t) d' a' c2).1
        = grown c2 ts es) as (ts & es & Hmv & Hcore).
    { destruct t as [tm td ta tsrc tdir]. cbn [t_mod t_dir t_data t_src t_asize] in *.
      destruct (Nat.ltb_spec tm P); [by eapply front_moves|]. eapply lane_moves; try done. lia. }
    exists ts, es. split; [done|].
    destruct (write_packet _ _ _ _ _ _ _ _) as [c3 rr]. apply (outcome_core _ _ _ _ c1); [done..|].
    rewrite core_finish. by eapply core_same.
  - destruct Hp as (evs & r & Hev & Hevs). rewrite Hev. set (c1 := set_ctx _ _ _) in *.
    destruct (ChainFlow.run_buffer_evs wire_ret malloc_ok (t_mod t) md (t_src t) [] evs Hevs 0 c1) as (c2 & Hrun & Hc2).
    rewrite app_nil_r in Hrun. rewrite Hrun. cbn [run_events].
    exists [], []. split; [by eapply refused_moves|].
    apply (outcome_core _ _ _ _ c1); [done..|]. rewrite core_finish. eapply core_same; [exact Hc2|].
    unfold grown. by rewrite !app_nil_r.
Qed.

Lemma outgoing_range x evs :
  Split.num_outputs x = Split.num_outputs x0 → Forall (Split.outgoing x) evs →
  Forall in_range (evs ++ [Split.EvFreeInput]).
Proof.
  intros Hn Hf. apply Forall_app. split; [|by repeat constructor].
  eapply Forall_impl; [exact Hf|]. intros []; cbn; try done. lia.
Qed.

Lemma incoming_range evs : 0 <= Split.num_outputs x0 → Forall Split.incoming evs → Forall in_range evs.
Proof. intros Hn Hf. eapply Forall_impl; [exact Hf|]. intros []; cbn; try done. lia. Qed.

(** What the invariant says of split's state. *)
Definition split_ok (x : Split.SplitContext) : Prop :=
  Split.sizes_ok x ∧ Split.num_outputs x = Split.num_outputs x0 ∧ Split.chunk_idx x = 0 ∧ Split.expects x.

(** Split handles a task. *)
Lemma run_split_calls now x x' t c evs :
  tree x c → t_mod t = P → Forall in_range evs →
  Split.process env x (t_dir t) (Some (t_data t)) = Some (0, x', evs) →
  outcome x' (omap (to_task (t_src t)) evs) [] c (run_task (process env) wire_ret malloc_ok now t c).
Proof.
  intros Ht Hm Hr Hrun. pose proof Ht as (Hl & _ & _ & Ho & Hc).
  pose proof Hl as (_ & _ & (md & Hmd & Hnear & Hx) & _). rewrite Nat.sub_diag, app_nil_r in Hnear.
  unfold run_task. rewrite Hc, Hm, Hmd, Hx. cbn [process fst snd fmap option_fmap option_map default].
  rewrite Hrun. set (c1 := set_ctx _ _ _).
  pose proof (split_calls (t_src t) (t_asize t) md evs Hnear Hr 0 c1 Ho) as Hcore.
  destruct (run_events _ _ _ _ _ _ _ _) as [c2 last]. cbn [fst Z.ltb Z.compare] in *.
  apply (outcome_core _ _ _ _ c1); [|done|done|exact Hcore].
  split; [|apply Ht]. apply (lanes_ctx x), lanes_alter; [by intros []|done].
Qed.

Lemma at_split_here t : t_mod t = P → at_split t = Some (t_data t).
Proof. unfold at_split. intros ->. by rewrite drop_ge. Qed.

Lemma chunk_in_here t : t_mod t = P → t_dir t = 1 → chunk_in t = Some (t_data t).
Proof. intros Hm Hd. unfold chunk_in. by rewrite Hm, Hd, Nat.leb_refl, Nat.eqb_refl. Qed.

Lemma run_split now x t c :
  tree x c → task_ok t → t_mod t = P → split_ok x →
  ∃ x' ts es, moves x t x' ts es
    ∧ outcome x' ts es c (run_task (process env) wire_ret malloc_ok now t c).
Proof.
  intros Ht (_ & Hd & Hne & Hlen & Hch) Hm (Hsz & Hnum & Hidx & Hb & _). rewrite (at_split_here t Hm) in Hlen.
  destruct Hd as [Hd|Hd].
  - destruct (Split.process_split_spec env Hmem x (t_data t) Hsz Hidx Hne ltac:(by apply Hlen; [|lia|]))
      as (x' & evs & _ & Hrun & _ & _ & _ & _ & Hout & _).
    pose proof (run_split_calls now x x' t c _ Ht Hm (outgoing_range x evs Hnum Hout)) as Ho.
    unfold Split.process in Ho. rewrite Hd, Hrun, omap_app in Ho.
    cbn in Ho. rewrite app_nil_r in Ho. eexists x', _, _. split; [by eapply move_split|by apply Ho].
  - destruct (Hch (t_data t) (chunk_in_here t Hm Hd)) as [_ Hfit].
    destruct (Split.process_merge_any env Hmem x (t_data t) Hb Hfit) as (x' & evs & Hrun & _ & _ & Hin & _).
    assert (0 <= Split.num_outputs x0) as Hpos by (destruct Hsz as (_ & _ & ?); lia).
    pose proof (run_split_calls now x x' t c evs Ht Hm (incoming_range evs Hpos Hin)) as Ho.
    unfold Split.process in Ho. rewrite Hd, Hrun in Ho.
    eexists x', _, _. split; [by apply move_merge|by apply Ho].
Qed.

(** What split makes of a packet of the application, in one place. *)
Lemma cut x t x' evs :
  Split.process_split env x (Some (t_data t)) = (0, x', evs ++ [Split.EvFreeInput]) →
  t_mod t = P → t_dir t = 0 → task_ok t → split_ok x →
  ∃ q, concat q = t_data t ∧ Forall (λ p : bytes, p ≠ []) q ∧ Z.of_nat (length q) <= 65536
    ∧ Split.writes evs = Split.chunks_of (Split.pkt_seq x) 0 q
    ∧ Split.pkt_seq x' = u32 (Split.pkt_seq x + 1) ∧ Split.same_cfg x x' ∧ split_ok x'.
Proof.
  intros Hrun Hm Hd (_ & _ & Hne & Hlen & _) (Hsz & Hnum & Hidx & Hexp). rewrite (at_split_here t Hm) in Hlen.
  destruct (Split.process_split_spec env Hmem x (t_data t) Hsz Hidx Hne ltac:(by apply Hlen; [|lia|]))
    as (x2 & evs2 & q & Hrun2 & Hcat & Hq & Hl & Hw & _ & Hs & Hi & Hcfg).
  rewrite Hrun in Hrun2. injection Hrun2 as <- Hev. apply app_inj_tail in Hev as [<- _].
  exists q. split_and!; try done. destruct Hcfg as (E1 & E2 & E3 & E6 & E4 & E5).
  unfold split_ok, Split.sizes_ok, Split.expects, Split.bounded, Split.nonempty in *. rewrite E1, E2, E3, E4, E5, E6. done.
Qed.

(** And of a chunk of the wire. *)
Lemma joined x t x' evs :
  Split.process_merge env x (Some (t_data t)) = Some (0, x', evs) →
  t_mod t = P → t_dir t = 1 → task_ok t → split_ok x →
  Split.same_sender x x' ∧ split_ok x' ∧ Forall (λ d : bytes, d ≠ []) (Split.writes evs)
  ∧ (length (Split.writes evs) + size (Split.pending x') <= S (size (Split.pending x)))%nat.
Proof.
  intros Hrun Hm Hd (_ & _ & _ & _ & Hch) (Hsz & Hnum & Hidx & Hb & Hne).
  destruct (Hch (t_data t) (chunk_in_here t Hm Hd)) as [Hlen Hfit].
  destruct (Split.process_merge_any env Hmem x (t_data t) Hb Hfit) as (x2 & evs2 & Hrun2 & Hb' & Hs & _ & Hsl).
  rewrite Hrun in Hrun2. injection Hrun2 as <- <-. destruct (Hsl Hlen Hne) as (Hsize & Hne' & Hw).
  split_and!; try done. destruct Hs as (E1 & E2 & E3 & _ & E4).
  unfold split_ok, Split.sizes_ok, Split.expects in *. rewrite E1, E2, E3, E4. done.
Qed.

(** The invariant after a task: chunks and packets are not empty. *)
Lemma to_task_ok src evs :
  Forall in_range evs → Forall (λ d : bytes, d ≠ []) (Split.writes evs) →
  Forall task_ok (omap (to_task src) evs).
Proof.
  induction 1 as [|[| dst d| |] evs He _ IH]; intros Hne; [by constructor|by apply IH| |by apply IH..].
  change (Split.writes (Split.EvWrite dst d :: evs)) with (d :: Split.writes evs) in Hne.
  apply Forall_cons in Hne as [Hd Hne]. cbn [omap list_omap to_task]. constructor; [|by apply IH].
  cbn in He. unfold task_ok. destruct (Z.eqb_spec dst 0); cbn [t_mod t_dir t_data].
  - split_and!; [lia|by right|done|done|]. intros d'. unfold chunk_in. cbn [t_mod t_dir].
    destruct (Nat.leb_spec P (P - 1)); [lia|done].
  - split_and!; [nia|by left|done| |done]. intros _ Hle. exfalso. nia.
Qed.

Lemma moves_ok x t x' ts es :
  moves x t x' ts es → task_ok t → split_ok x → Forall task_ok ts ∧ split_ok x'.
Proof.
  intros Hm Ht Hx. pose proof Hx as ((_ & _ & Hpos) & Hnum & _).
  destruct Hm as [| | | | | |x' evs Hm Hd Hrun Hout|x' evs Hm Hd Hrun Hin];
    try (split; [by apply Forall_singleton|done]); try (by split; [constructor|]).
  - destruct (cut x t x' evs Hrun Hm Hd Ht Hx) as (q & _ & _ & _ & Hw & _ & _ & Hx'). split; [|done].
    apply to_task_ok.
    + pose proof (outgoing_range x evs Hnum Hout) as Hr. by apply Forall_app in Hr as [? _].
    + rewrite Hw. apply Forall_forall. intros d (j & p & _ & ->)%Split.elem_of_chunks_of. done.
  - destruct (joined x t x' evs Hrun Hm Hd Ht Hx) as (_ & Hx' & Hne & _). split; [|done].
    apply to_task_ok; [|done]. apply incoming_range; [lia|done].
Qed.

Definition ok (x : Split.SplitContext) (c : Chain) : Prop :=
  tree x c ∧ Forall task_ok (queue c) ∧ split_ok x.

Lemma work_moves now x t rest c :
  ok x c → queue c = t :: rest →
  let c' := work (process env) wire_ret malloc_ok now c in
  ∃ x' ts es, moves x t x' ts es ∧ ok x' c' ∧ queue c' = rest ++ ts ∧ exits c' = exits c ++ es.
Proof.
  intros (Ht & Hq & Hx) E. cbv zeta. unfold work. rewrite E. rewrite E in Hq.
  apply Forall_cons in Hq as [Hok Hrest].
  assert (tree x (c{{queue := rest}})) as Ht1 by exact Ht.
  set (c1 := c{{queue := rest}}) in *.
  assert (∃ x' ts es, moves x t x' ts es
    ∧ outcome x' ts es c1 (run_task (process env) wire_ret malloc_ok now t c1)) as (x' & ts & es & Hm & Ho).
  { destruct (decide (t_mod t = P)) as [Em|Em]; [by apply run_split|].
    destruct (run_relay now x t c1 Ht1 Hok Em) as (ts & es & ? & ?). eauto. }
  exists x', ts, es. destruct (moves_ok _ _ _ _ _ Hm Hok Hx) as [Hts Hx'].
  destruct Ho as (Ht' & Hq' & He'). split_and!; try done.
  split_and!; try done. rewrite Hq'. by apply Forall_app.
Qed.

(** ** Where the packets are *)

Definition front (q : list task) : list task := filter (λ t, (t_mod t < P)%nat) q.

(** The packets in the modules in front of split, in the order they will leave them; and
    those that split will see, in order. *)
Definition stream (dir : Z) (q : list task) : list bytes := flight dir P (front q).
Definition upstream (q : list task) : list bytes := omap waiting q ++ stream 0 q.

Lemma stream_far dir q t : (P <= t_mod t)%nat →
  stream dir (t :: q) = stream dir q ∧ stream dir (q ++ [t]) = stream dir q.
Proof.
  intros Ht. unfold stream, front. rewrite filter_app, !filter_cons_False by lia.
  by rewrite filter_nil, app_nil_r.
Qed.

Lemma stream_other dir q t : t_dir t ≠ dir →
  stream dir (t :: q) = stream dir q ∧ stream dir (q ++ [t]) = stream dir q.
Proof.
  intros Ht. destruct (decide (t_mod t < P)%nat); [|apply stream_far; lia].
  unfold stream, front. rewrite filter_app, !filter_cons_True by done. rewrite filter_nil.
  apply (ChainFlow.flight_other wire_ret malloc_ok f pre). by left.
Qed.

(** The packet closest to the exit is the first, one that enters at the far end the last. *)
Lemma stream_first q t : (t_mod t < P)%nat → rank t = 0%nat →
  stream (t_dir t) (t :: q) = option_list (final t) ++ stream (t_dir t) q.
Proof.
  intros Ht Hr. unfold stream, front. rewrite filter_cons_True by done.
  by apply (ChainFlow.flight_cons f pre).
Qed.
Lemma stream_last q t : (t_mod t < P)%nat → S (rank t) = P →
  stream (t_dir t) (q ++ [t]) = stream (t_dir t) q ++ option_list (final t).
Proof.
  intros Ht Hr. unfold stream, front. rewrite filter_app, filter_cons_True by done. rewrite filter_nil.
  rewrite <- Hr. by apply (ChainFlow.flight_snoc wire_ret malloc_ok f pre).
Qed.
(** A packet that is refused was not going to arrive. *)
Lemma stream_lost dir q t : ((t_mod t < P)%nat → final t = None) → stream dir (t :: q) = stream dir q.
Proof.
  intros Hf. destruct (decide (t_mod t < P)%nat); [|apply stream_far; lia].
  unfold stream, front. rewrite filter_cons_True by done. apply ChainFlow.flight_lost. auto.
Qed.
Lemma stream_move dir q t t' :
  (t_mod t < P)%nat → (t_mod t' < P)%nat → t_dir t' = t_dir t → rank t = S (rank t') → final t' = final t →
  stream dir (q ++ [t']) = stream dir (t :: q).
Proof.
  intros Ht Ht' Hd Hr Hf. destruct (decide (t_dir t = dir)) as [E|E].
  - unfold stream, front. rewrite filter_app, !filter_cons_True by done. rewrite filter_nil.
    apply (ChainFlow.flight_move wire_ret malloc_ok f pre); try done; [congruence|].
    unfold ChainFlow.rank. case_match; lia.
  - rewrite (proj1 (stream_other dir q t E)). apply stream_other. congruence.
Qed.

(** What a task is counted as. *)
Lemma kind_far t : (P < t_mod t)%nat → waiting t = None.
Proof. intros H. unfold waiting. destruct (Nat.eqb_spec (t_mod t) P); [lia|]. by rewrite andb_false_r. Qed.
Lemma kind_front t : (t_mod t < P)%nat → waiting t = None ∧ chunk_out t = None ∧ chunk_in t = None.
Proof.
  intros H. unfold waiting, chunk_out, chunk_in.
  destruct (Nat.eqb_spec (t_mod t) P), (Nat.ltb_spec P (t_mod t)), (Nat.leb_spec P (t_mod t)); try lia.
  by rewrite !andb_false_r.
Qed.
Lemma kind_out t : t_mod t = P → t_dir t = 0 →
  waiting t = Some (t_data t) ∧ chunk_out t = None ∧ chunk_in t = None.
Proof.
  unfold waiting, chunk_out, chunk_in. intros -> ->. by rewrite Nat.eqb_refl, Nat.ltb_irrefl.
Qed.
Lemma kind_in t : t_mod t = P → t_dir t = 1 →
  waiting t = None ∧ chunk_out t = None ∧ chunk_in t = Some (t_data t).
Proof.
  unfold waiting, chunk_out, chunk_in. intros -> ->. by rewrite Nat.eqb_refl, Nat.leb_refl.
Qed.

(** The tasks queued by split, for a lane and for the module in front. *)
Lemma kind_lane k d a src :
  waiting (mkTask (S P + k * T) d a src 0) = None
  ∧ chunk_out (mkTask (S P + k * T) d a src 0) = encode tail d
  ∧ chunk_in (mkTask (S P + k * T) d a src 0) = None
  ∧ weight (mkTask (S P + k * T) d a src 0) = T.
Proof.
  assert (P < S P + k * T)%nat as H by lia. unfold chunk_out, chunk_in, weight.
  cbn [t_mod t_dir t_data Z.eqb negb andb]. rewrite (proj2 (Nat.ltb_lt _ _) H).
  replace (place (S P + k * T)) with 0%nat.
  - rewrite drop_0. split_and!; [by apply kind_far|done|done|lia].
  - symmetry. rewrite <- (Nat.add_0_r (S P + k * T)). by apply place_at.
Qed.

Lemma lane_tasks x src evs q : Forall (Split.outgoing x) evs →
  let ts := omap (to_task src) evs in
  omap waiting ts = [] ∧ omap chunk_out ts = omap (encode tail) (Split.writes evs) ∧ omap chunk_in ts = []
  ∧ sum_list_with weight ts = (length (Split.writes evs) * T)%nat ∧ (∀ dir, stream dir (q ++ ts) = stream dir q).
Proof.
  intros Hout. cbv zeta. revert q. induction Hout as [|[| dst d| |] evs He _ IH]; intros q;
    [by split_and!; try done; intros; rewrite app_nil_r|exact (IH q)| |done..].
  rewrite (omap_cons_opt (to_task src)). cbn [to_task option_list app]. cbn in He. destruct (Z.eqb_spec dst 0); [lia|].
  set (t := mkTask _ _ _ _ _). destruct (kind_lane (Z.to_nat dst - 1) d (Z.of_nat (length d)) src) as (K1 & K2 & K3 & K4).
  fold t in K1, K2, K3, K4. destruct (IH (q ++ [t])) as (I1 & I2 & I3 & I4 & I5).
  change (Split.writes (Split.EvWrite dst d :: evs)) with (d :: Split.writes evs).
  change (option_list (Some t) ++ ?l) with (t :: l). rewrite !omap_cons_opt, I1, I2, I3, K1, K2, K3. cbn [sum_list_with]. rewrite I4, K4.
  split_and!; try done. intros dir. replace (q ++ t :: omap (to_task src) evs) with ((q ++ [t]) ++ omap (to_task src) evs)
    by (by rewrite <- app_assoc).
  rewrite I5. apply stream_far. etransitivity; [apply Nat.le_succ_diag_r|apply Nat.le_add_r].
Qed.

Lemma front_tasks src evs q : Forall Split.incoming evs →
  let ts := omap (to_task src) evs in
  omap waiting ts = [] ∧ omap chunk_out ts = [] ∧ omap chunk_in ts = []
  ∧ sum_list_with weight ts = (length (Split.writes evs) * P)%nat
  ∧ stream 0 (q ++ ts) = stream 0 q ∧ stream 1 (q ++ ts) = stream 1 q ++ omap (decode pre) (Split.writes evs).
Proof.
  intros Hin. cbv zeta. revert q. induction Hin as [|[| dst d| |] evs He _ IH]; intros q;
    [by rewrite !app_nil_r|exact (IH q)| |exact (IH q)..].
  rewrite (omap_cons_opt (to_task src)). cbn [to_task]. cbn in He. subst dst. cbn [Z.eqb].
  set (t := mkTask _ _ _ _ _). destruct (kind_front t ltac:(subst t; cbn; lia)) as (K1 & K2 & K3).
  destruct (IH (q ++ [t])) as (I1 & I2 & I3 & I4 & I5 & I6).
  change (Split.writes (Split.EvWrite 0 d :: evs)) with (d :: Split.writes evs).
  change (option_list (Some t) ++ ?l) with (t :: l).
  assert (q ++ t :: omap (to_task src) evs = (q ++ [t]) ++ omap (to_task src) evs) as -> by (by rewrite <- app_assoc).
  rewrite !omap_cons_opt, I1, I2, I3, K1, K2, K3. cbn [sum_list_with]. rewrite I4, I5, I6. split_and!; try done.
  - unfold weight at 1. cbn [t_mod t_dir t Z.eqb]. destruct (Nat.ltb_spec P (P - 1)); cbn [length]; lia.
  - by apply stream_other.
  - pose proof (stream_last q t ltac:(subst t; cbn; lia)) as Hl. change (t_dir t) with 1 in Hl.
    rewrite Hl by (subst t; unfold ChainFlow.rank; cbn; lia). rewrite <- app_assoc. do 2 f_equal.
    unfold ChainFlow.final. cbn. by rewrite take_ge by lia.
Qed.

(** *** What the application sent *)

Definition on_wire (es : list (Z * bytes)) : list bytes := (filter (λ e, e.1 ≠ 0) es).*2.
Definition to_user (es : list (Z * bytes)) : list bytes := (filter (λ e, e.1 = 0) es).*2.

Definition pieces_ok (pss : list (list bytes)) : Prop :=
  Forall (λ q : list bytes, (0 < length q)%nat ∧ Z.of_nat (length q) <= 65536) pss.

(** The packets [sent] are, encoded by the modules in front, the ones split has cut, into
    [pss], and the ones it will see; the chunks of [pss], encoded by the lanes, are on the
    wire or on their way there. *)
Definition sender (x : Split.SplitContext) (q : list task) (es : list (Z * bytes)) (sent : list bytes) : Prop :=
  ∃ pss, map (@concat Z) pss ++ upstream q = omap (encode pre) sent ∧ pieces_ok pss
    ∧ Split.pkt_seq x = Z.of_nat (length pss)
    ∧ on_wire es ++ omap chunk_out q ≡ₚ omap (encode tail) (Split.wire_of 0 pss).

Lemma wire_of_snoc pss q : ∀ n,
  Split.wire_of n (pss ++ [q]) = Split.wire_of n pss ++ Split.chunks_of (n + Z.of_nat (length pss)) 0 q.
Proof.
  induction pss as [|p pss IH]; intros n; cbn [Split.wire_of app length].
  - by rewrite Z.add_0_r, app_nil_r.
  - rewrite IH, <- app_assoc. do 3 f_equal. lia.
Qed.

Lemma on_wire_app es es' : on_wire (es ++ es') = on_wire es ++ on_wire es'.
Proof. unfold on_wire. by rewrite filter_app, fmap_app. Qed.
Lemma to_user_app es es' : to_user (es ++ es') = to_user es ++ to_user es'.
Proof. unfold to_user. by rewrite filter_app, fmap_app. Qed.
Lemma exit_wire k d : on_wire [(Z.of_nat (S k), d)] = [d] ∧ to_user [(Z.of_nat (S k), d)] = [].
Proof.
  unfold on_wire, to_user. rewrite filter_cons_True, filter_cons_False by (cbn; lia). done.
Qed.

Lemma exit_user d : on_wire [(0, d)] = [] ∧ to_user [(0, d)] = [d].
Proof. unfold on_wire, to_user. rewrite filter_cons_False, filter_cons_True by (cbn; lia). done. Qed.

(** Moving a task does not change what is in flight. *)
Lemma swap_last {B} (g : task → option B) t t' rest :
  g t' = g t → omap g (rest ++ [t']) ≡ₚ omap g (t :: rest).
Proof. intros E. rewrite omap_snoc_opt, omap_cons_opt, E. apply Permutation_app_comm. Qed.

Lemma upstream_moves x t rest x' ts es :
  moves x t x' ts es →
  upstream (t :: rest)
  = (if decide (t_mod t = P ∧ t_dir t = 0) then [t_data t] else []) ++ upstream (rest ++ ts).
Proof.
  unfold upstream. intros Hm. rewrite omap_cons_opt.
  destruct Hm as [t' Hm Hm' _ _ Hw _ _|Hne Ho Hi Hf|k d Hm _ _ _|t' Hm Hm' Hd Hr Hf _ _|t' Hd Hm Hr Hw Hm' Hd' _ _|d Hd Hm Hr Hf
                  |x' evs Hm Hd Hrun Hout|x' evs Hm Hd Hrun Hin].
  - rewrite decide_False by lia. rewrite omap_snoc_opt, Hw, kind_far, app_nil_r by done. cbn [app option_list].
    rewrite (proj1 (stream_far 0 rest t ltac:(lia))), (proj2 (stream_far 0 rest t' Hm')). done.
  - rewrite decide_False by lia. rewrite app_nil_r, stream_lost by done.
    replace (waiting t) with (@None bytes); [done|]. unfold waiting.
    destruct (Nat.eqb_spec (t_mod t) P); [done|]. by rewrite andb_false_r.
  - rewrite decide_False by lia. rewrite kind_far, app_nil_r by done.
    by rewrite (proj1 (stream_far 0 rest t ltac:(lia))).
  - rewrite decide_False by lia. rewrite omap_snoc_opt, (proj1 (kind_front t Hm)), (proj1 (kind_front t' Hm')), app_nil_r.
    cbn [app option_list]. by rewrite (stream_move 0 rest t t').
  - rewrite decide_False by lia. rewrite omap_snoc_opt, Hw, (proj1 (kind_front t Hm)).
    pose proof (stream_first rest t Hm Hr) as Hs. rewrite Hd in Hs. rewrite Hs.
    rewrite (proj2 (stream_far 0 rest t' ltac:(lia))). cbn. by rewrite <- app_assoc.
  - rewrite decide_False by lia. rewrite (proj1 (kind_front t Hm)), app_nil_r.
    by rewrite (proj1 (stream_other 0 rest t ltac:(lia))).
  - rewrite decide_True by done. destruct (lane_tasks x (t_src t) evs rest Hout) as (L1 & _ & _ & _ & L5).
    rewrite omap_app, L1, L5, app_nil_r, (proj1 (kind_out t Hm Hd)).
    by rewrite (proj1 (stream_far 0 rest t ltac:(lia))).
  - rewrite decide_False by lia. destruct (front_tasks (t_src t) evs rest Hin) as (L1 & _ & _ & _ & L5 & _).
    rewrite omap_app, L1, L5, app_nil_r, (proj1 (kind_in t Hm Hd)).
    by rewrite (proj1 (stream_far 0 rest t ltac:(lia))).
Qed.

Lemma sender_moves x t rest es sent x' ts es' :
  sender x (t :: rest) es sent → moves x t x' ts es' → task_ok t → split_ok x →
  Z.of_nat (length sent) <= 16384 → sender x' (rest ++ ts) (es ++ es') sent.
Proof.
  intros (pss & Hsent & Hps & Hseq & Hperm) Hm Ht Hx Hb.
  rewrite (upstream_moves _ _ rest _ _ _ Hm) in Hsent.
  destruct Hm as [t' Hm Hm' Ho _ _ _ _|Hne Ho Hi Hf|k d Hm Ho _ _|t' Hm Hm' Hd Hr Hf _ _|t' Hd Hm Hr Hw Hm' Hd' _ _|d Hd Hm Hr Hf
                  |x' evs Hm Hd Hrun Hout|x' evs Hm Hd Hrun Hin];
    try (rewrite decide_False in Hsent by lia).
  - exists pss. rewrite app_nil_r. split_and!; try done. by rewrite (swap_last chunk_out t).
  - exists pss. rewrite app_nil_r in Hsent |- *. rewrite omap_cons_opt, Ho in Hperm. by rewrite app_nil_r.
  - exists pss. rewrite on_wire_app, app_nil_r. rewrite omap_cons_opt, Ho in Hperm. rewrite app_nil_r in Hsent. split_and!; try done.
    rewrite (proj1 (exit_wire k d)), <- app_assoc. exact Hperm.
  - exists pss. rewrite app_nil_r. split_and!; try done. rewrite (swap_last chunk_out t); [done|].
    by rewrite (proj1 (proj2 (kind_front t Hm))), (proj1 (proj2 (kind_front t' Hm'))).
  - exists pss. rewrite app_nil_r. split_and!; try done. rewrite (swap_last chunk_out t); [done|].
    by rewrite (proj1 (proj2 (kind_front t Hm))), (proj1 (proj2 (kind_out t' Hm' Hd'))).
  - exists pss. rewrite on_wire_app. rewrite omap_cons_opt, (proj1 (proj2 (kind_front t Hm))) in Hperm.
    rewrite (proj1 (exit_user _)), !app_nil_r. rewrite app_nil_r in Hsent. done.
  - rewrite decide_True in Hsent by done. rewrite omap_cons_opt, (proj1 (proj2 (kind_out t Hm Hd))) in Hperm.
    destruct (cut x t x' evs Hrun Hm Hd Ht Hx) as (q & Hcat & Hqne & Hql & Hwr & Hseq' & _).
    destruct (lane_tasks x (t_src t) evs rest Hout) as (_ & L2 & _).
    exists (pss ++ [q]). rewrite omap_app, L2, map_app, length_app, wire_of_snoc, omap_app, app_nil_r.
    rewrite Hwr, Hseq, Hseq'. split_and!.
    + rewrite <- Hsent, <- app_assoc. cbn. by rewrite Hcat.
    + apply Forall_app. split; [done|]. apply Forall_singleton. split; [|done].
      destruct Ht as (_ & _ & Hne & _). destruct q; [by destruct Hne|cbn; lia].
    + apply (f_equal length) in Hsent. rewrite length_app, length_map in Hsent.
      pose proof (length_omap (encode pre) sent). rewrite Hseq. cbn. zlia.
    + rewrite <- Hperm, <- app_assoc. done.
  - rewrite omap_cons_opt, (proj1 (proj2 (kind_in t Hm Hd))) in Hperm.
    destruct (joined x t x' evs Hrun Hm Hd Ht Hx) as ((_ & _ & _ & H4 & _) & _).
    destruct (front_tasks (t_src t) evs rest Hin) as (_ & L2 & _).
    exists pss. rewrite app_nil_r, omap_app, L2, app_nil_r, H4. done.
Qed.

(** *** What came from the peer *)

(** The peer's split has cut its packets into [pss]. Of the chunks received, [got], split
    has merged the slots [ks] into the packets [out], and the others are on their way to
    it; [out], decoded by the modules in front, has left or is on its way. *)
Definition receiver (pss : list (list bytes)) (x : Split.SplitContext) (q : list task)
    (es : list (Z * bytes)) (got : list bytes) : Prop :=
  ∃ ks out, Split.inv 0 pss ks x out
    ∧ to_user es ++ stream 1 q = omap (decode pre) out
    ∧ Split.pending x !! Split.exp_key x = None
    ∧ Forall (λ k, is_Some (Split.slot_at 0 pss k)) ks
    ∧ Forall (λ d, d ∈ Split.wire_of 0 pss) (omap chunk_in q)
    ∧ map (Split.chunk_at 0 pss) ks ++ omap chunk_in q ≡ₚ omap (decode tail) got.

(** The packets for the application; [evs] are the calls of split when it merges. *)
Lemma downstream_moves x t rest x' ts es es' :
  moves x t x' ts es' →
  (t_mod t ≠ P ∨ t_dir t = 0 →
     to_user (es ++ es') ++ stream 1 (rest ++ ts) = to_user es ++ stream 1 (t :: rest)
     ∧ omap chunk_in (rest ++ ts) ≡ₚ omap chunk_in (t :: rest)).
Proof.
  intros Hm Hne. rewrite to_user_app.
  destruct Hm as [t' Hm Hm' _ Hi _ _ _|Hne' Ho Hi Hf|k d Hm _ Hi _|t' Hm Hm' Hd Hr Hf _ _|t' Hd Hm Hr Hw Hm' Hd' _ _|d Hd Hm Hr Hf
                  |x' evs Hm Hd Hrun Hout|x' evs Hm Hd Hrun Hin].
  - rewrite (proj1 (stream_far 1 rest t ltac:(lia))), (proj2 (stream_far 1 rest t' Hm')), app_nil_r.
    split; [done|by apply swap_last].
  - rewrite stream_lost by done. rewrite omap_cons_opt, Hi, !app_nil_r. done.
  - rewrite (proj1 (stream_far 1 rest t ltac:(lia))), (proj2 (exit_wire k d)), omap_cons_opt, Hi, !app_nil_r. done.
  - rewrite (stream_move 1 rest t t'), app_nil_r by done. split; [done|]. apply swap_last.
    by rewrite (proj2 (proj2 (kind_front t Hm))), (proj2 (proj2 (kind_front t' Hm'))).
  - rewrite (proj1 (stream_other 1 rest t ltac:(lia))), (proj2 (stream_far 1 rest t' ltac:(lia))), app_nil_r.
    split; [done|]. apply swap_last.
    by rewrite (proj2 (proj2 (kind_front t Hm))), (proj2 (proj2 (kind_out t' Hm' Hd'))).
  - pose proof (stream_first rest t Hm Hr) as Hs. rewrite Hd in Hs.
    rewrite Hs, Hf, (proj2 (exit_user _)), omap_cons_opt, (proj2 (proj2 (kind_front t Hm))), app_nil_r.
    split; [by rewrite <- app_assoc|done].
  - destruct (lane_tasks x (t_src t) evs rest Hout) as (_ & _ & L3 & _ & L5).
    rewrite omap_app, L3, L5, omap_cons_opt, (proj2 (proj2 (kind_out t Hm Hd))), !app_nil_r.
    by rewrite (proj1 (stream_far 1 rest t ltac:(lia))).
  - destruct Hne; [done|lia].
Qed.

Lemma receiver_split pss x x' q es got :
  Split.same_cfg x x' → receiver pss x q es got → receiver pss x' q es got.
Proof.
  intros Hsame (ks & out & Hinv & Ho & Hpend & Hrest). exists ks, out.
  split; [by eapply Split.inv_same|]. split; [done|]. split; [|done].
  destruct Hsame as (_ & _ & _ & Hp & He & Hc). unfold Split.exp_key in *. by rewrite Hp, He, Hc.
Qed.

(** All a receiver needs from the other cases. *)
Lemma receiver_same pss x q q' es es' got :
  receiver pss x q es got →
  to_user es' ++ stream 1 q' = to_user es ++ stream 1 q ∧ omap chunk_in q' ≡ₚ omap chunk_in q →
  receiver pss x q' es' got.
Proof.
  intros (ks & out & Hinv & Ho & Hpend & Hks & Hall & Hperm) [Hs Hi]. exists ks, out.
  rewrite Hs. split_and!; try done; by rewrite Hi.
Qed.

Lemma receiver_moves pss x t rest es got x' ts es' :
  Split.batch_ok 0 pss →
  receiver pss x (t :: rest) es got → moves x t x' ts es' → task_ok t → split_ok x →
  receiver pss x' (rest ++ ts) (es ++ es') got.
Proof.
  intros Hb Hr Hm Ht Hx. pose proof (downstream_moves x t rest x' ts es es' Hm) as Hd.
  destruct Hm as [t' Hm|Hm|k d Hm|t' Hm|t' Hdir Hm|d Hdir Hm|x' evs Hm Hdir Hrun Hout|x' evs Hm Hdir Hrun Hin];
    try (eapply receiver_same; [exact Hr|apply Hd; left; lia]).
  - destruct (cut x t x' evs Hrun Hm Hdir Ht Hx) as (_ & _ & _ & _ & _ & _ & Hsame & _).
    eapply receiver_split; [exact Hsame|]. eapply receiver_same; [exact Hr|]. apply Hd. by right.
  - clear Hd. destruct Hr as (ks & out & Hinv & Ho & Hpend & Hks & Hall & Hperm).
    rewrite omap_cons_opt, (proj2 (proj2 (kind_in t Hm Hdir))) in Hall, Hperm.
    cbn [option_list app] in Hall, Hperm. apply Forall_cons in Hall as [Hw Hall].
    apply (Split.elem_of_wire 0 pss _ Hb) in Hw as (k & [v Hv] & Hk).
    destruct (Split.process_merge_spec env Hmem 0 pss Hb ks x _ k v Hinv Hpend Hv)
      as (x2 & evs2 & Hrun2 & Hinv2 & Hpend2).
    rewrite <- Hk, Hrun in Hrun2. injection Hrun2 as <- <-.
    destruct (front_tasks (t_src t) evs rest Hin) as (_ & _ & L3 & _ & _ & L6).
    rewrite (proj1 (stream_far 1 rest t ltac:(lia))) in Ho.
    exists (k :: ks), (out ++ Split.writes evs).
    rewrite app_nil_r, !omap_app, L3, L6, app_nil_r, <- Ho, app_assoc.
    split_and!; try done; [by constructor; [eexists|]|].
    rewrite <- Hperm. cbn. rewrite <- Hk. apply Permutation_middle.
Qed.

(** ** Every packet leaves *)

(** The work left: tasks, and for each slot of split the packet it may complete. *)
Definition effort (x : Split.SplitContext) (q : list task) : nat :=
  sum_list_with weight q + size (Split.pending x) * P.

Lemma pieces_count (q : list bytes) :
  Forall (λ p : bytes, p ≠ []) q → (length q <= length (concat q))%nat.
Proof.
  induction 1 as [|p q Hp _ IH]; cbn; [lia|]. rewrite length_app. destruct p; [done|]. cbn. lia.
Qed.

Lemma weight_pos t : (0 < weight t)%nat.
Proof.
  unfold weight, place. pose proof (Nat.mod_upper_bound (t_mod t - S P) T ltac:(lia)). repeat case_match; lia.
Qed.

Lemma moves_effort x t rest x' ts es :
  moves x t x' ts es → task_ok t → split_ok x →
  (effort x' (rest ++ ts) < effort x (t :: rest))%nat.
Proof.
  intros Hm Ht Hx. unfold effort. rewrite sum_list_with_app. cbn [sum_list_with].
  destruct Hm as [t' Hm Hm' _ _ _ Hw _|Hne Ho Hi Hf|k d Hm _ _ _|t' Hm Hm' Hd Hr Hf Hw _|t' Hd Hm Hr _ Hm' Hd' Hw _|d Hd Hm Hr Hf
                  |x' evs Hm Hd Hrun Hout|x' evs Hm Hd Hrun Hin];
    cbn [sum_list_with]; try lia; try (pose proof (weight_pos t); lia).
  - destruct (cut x t x' evs Hrun Hm Hd Ht Hx) as (q & Hcat & Hqne & _ & Hwr & _ & (_ & _ & _ & -> & _) & _).
    destruct (lane_tasks x (t_src t) evs rest Hout) as (_ & _ & _ & -> & _).
    rewrite Hwr, Split.length_chunks_of. unfold weight at 2. rewrite (at_split_here t Hm), Hm, Hd, Nat.ltb_irrefl.
    cbn [Z.eqb]. pose proof (pieces_count q Hqne) as Hq. rewrite Hcat in Hq. cbn [from_option]. nia.
  - destruct (joined x t x' evs Hrun Hm Hd Ht Hx) as (_ & _ & _ & Hsl).
    destruct (front_tasks (t_src t) evs rest Hin) as (_ & _ & _ & -> & _).
    unfold weight at 2. rewrite Hm, Hd, Nat.ltb_irrefl. cbn [Z.eqb]. nia.
Qed.

(** ** Uses of the chain *)

#[local] Abbreviation run_op := (run_op (process env) wire_ret malloc_ok).
#[local] Abbreviation pushes := ChainFlow.pushes.

(** No cancellation; packets are not empty; those of the application fit the [int] split
    computes with when they reach it; those of the wire come from a connection of the
    tunnel and when they reach split have more than a header, and do not announce a 65537th
    chunk of their packet (split never does; without this a call may not return,
    [Split.merge_never_returns]). *)
Definition valid_op (o : op) : Prop :=
  match o with
  | OpPush _ d src dir =>
      d ≠ []
      ∧ (dir = 0 ∧ (∀ e, encode pre d = Some e → Z.of_nat (length e) < 2 ^ 31)
         ∨ dir = 1 ∧ 1 <= src <= Split.num_outputs x0
           ∧ ∀ e, decode tail d = Some e → chunk_fits e)
  | OpCancel => False
  | _ => True
  end.

(** The task a push queues. *)
Definition pushed (a : Z) (d : bytes) (src dir : Z) : task :=
  mkTask (if dir =? 0 then 0%nat else (P + Z.to_nat src * T)%nat) d a src dir.

Lemma pushed_out a d src q :
  upstream (q ++ [pushed a d src 0]) = upstream q ++ option_list (encode pre d)
  ∧ stream 1 (q ++ [pushed a d src 0]) = stream 1 q
  ∧ chunk_out (pushed a d src 0) = None ∧ chunk_in (pushed a d src 0) = None.
Proof.
  set (t := pushed a d src 0). destruct (kind_front t ltac:(done)) as (K1 & K2 & K3). split_and!; try done.
  - unfold upstream. rewrite omap_snoc_opt, K1, app_nil_r.
    pose proof (stream_last q t HP ltac:(unfold ChainFlow.rank; cbn; lia)) as Hl.
    change (t_dir t) with 0 in Hl. rewrite Hl. by rewrite app_assoc.
  - by apply stream_other.
Qed.

Lemma pushed_in a d src q : 1 <= src →
  upstream (q ++ [pushed a d src 1]) = upstream q ∧ stream 1 (q ++ [pushed a d src 1]) = stream 1 q
  ∧ chunk_out (pushed a d src 1) = None ∧ chunk_in (pushed a d src 1) = decode tail d.
Proof.
  intros Hs. set (t := pushed a d src 1).
  assert (t_mod t = (S P + (Z.to_nat src - 1) * T + (T - 1))%nat) as Hm by (subst t; cbn [pushed t_mod Z.eqb]; nia).
  assert (P < t_mod t)%nat as Hlt by (rewrite Hm; lia).
  split_and!; try done.
  - unfold upstream. rewrite omap_snoc_opt, kind_far, app_nil_r by done.
    by rewrite (proj2 (stream_far 0 q t ltac:(lia))).
  - apply stream_far. lia.
  - unfold chunk_in. rewrite (proj2 (Nat.leb_le _ _)), (proj2 (Nat.eqb_neq _ _)) by lia. rewrite Hm, place_at by lia.
    cbn. by rewrite take_ge by lia.
Qed.

Lemma push_ok x a d src dir c :
  ok x c → valid_op (OpPush a d src dir) →
  let c' := push_packet a d src dir c in
  ok x c' ∧ queue c' = queue c ++ [pushed a d src dir] ∧ exits c' = exits c.
Proof.
  intros (Ht & Hq & Hx) (Hd & Hdir). pose proof Ht as (Hl & He & Hw & Ho & Hc).
  assert (push_packet a d src dir c = enqueue_module (t_mod (pushed a d src dir)) d a src dir c) as ->.
  { unfold push_packet. rewrite Hc, He, Ho, Hw. cbn [negb pushed t_mod].
    destruct Hdir as [[-> _]|(-> & Hs & _)]; [done|]. cbn [Z.eqb].
    assert (length (entries N) = S N) as Hlen by (unfold entries; cbn; by rewrite length_fmap, length_seq).
    rewrite Hlen. destruct (Z.ltb_spec src 0), (Z.leb_spec (Z.of_nat (S N)) src); try lia. cbn [orb].
    destruct (Z.to_nat src) as [|p] eqn:Ep; [lia|].
    assert (entries N !! S p = Some (Some (P + S p * T)%nat)) as ->; [|done].
    unfold entries. change ((None :: ?l) !! S p) with (l !! p).
    rewrite list_lookup_fmap, lookup_seq_lt by lia. done. }
  pose proof (core_enqueue (t_mod (pushed a d src dir)) d a src dir c Ho) as Hcore.
  cbv zeta. set (c' := enqueue_module _ _ _ _ _ _) in *.
  destruct (outcome_core x [pushed a d src dir] [] c c c' Ht eq_refl eq_refl Hcore) as (Ht' & Hq' & He').
  rewrite app_nil_r in He'. split_and!; try done. split; [done|]. split; [|done].
  rewrite Hq'. apply Forall_app. split; [done|]. apply Forall_singleton.
  destruct Hdir as [[-> Hlen]|(-> & Hs & Hlen)].
  - split_and!; [cbn; lia|by left|done|done|]. intros d'. by rewrite (proj2 (proj2 (proj2 (pushed_out a d src [])))).
  - split_and!; [cbn; nia|by right|done|done|]. intros d'.
    rewrite (proj2 (proj2 (proj2 (pushed_in a d src [] ltac:(lia))))). apply Hlen.
Qed.

(** No module does anything on a heartbeat. *)
Lemma quiet x c m md : ok x c → modules c !! m = Some md →
  ∃ r, process env (mod_name md) (ctx md) (-1) 0 None = (ctx md, [], r).
Proof.
  intros ((Hl & _) & _) Hm. destruct (decide (m = P)) as [->|Hne].
  - destruct Hl as (_ & _ & (m0 & Hm0 & _ & Hc0) & _). rewrite Hm in Hm0. injection Hm0 as <-.
    rewrite Hc0. cbn. by eexists.
  - destruct (relay_spec x _ m md Hl Hne Hm) as (spec & (y & ie & Hy & _ & _ & r & Hr) & (Hn & ievs & Hx') & _).
    rewrite Hx' in Hy. injection Hy as -> _. exists r. by rewrite Hn.
Qed.

Lemma tick_ok now ms m x c :
  ok x c → let c' := tick_module (process env) wire_ret malloc_ok now ms m c in
  ok x c' ∧ queue c' = queue c ∧ exits c' = exits c.
Proof.
  intros Hok. pose proof Hok as (Ht & Hq & Hx). pose proof Ht as (Hl & Hrest). cbv zeta. unfold tick_module.
  destruct (modules c !! m) as [md|] eqn:Hm; [|by split].
  destruct (heartbeat_due now ms md) as [due md'] eqn:Hdue.
  assert (alike md md') as Ha.
  { unfold heartbeat_due in Hdue. repeat case_match; injection Hdue as <- <-; by destruct md. }
  set (c1 := c{{modules ::= <[m := md']>}}).
  assert (lanes x N (<[m := md']> (modules c))) as Hl1.
  { eapply lanes_alike; [apply length_insert| |exact Hl]. intros i md1 Hi.
    apply list_lookup_insert_Some in Hi as [(<- & <- & _)|[_ Hi]]; [by exists md|by exists md1]. }
  assert (ok x c1 ∧ queue c1 = queue c ∧ exits c1 = exits c) as H1 by (by split_and!).
  destruct due; [|done].
  destruct (quiet x c m md Hok Hm) as (r & ->).
  cbn [run_events fst]. destruct H1 as ((Ht1 & H1) & H2). split; [|done]. split; [|done].
  split; [|apply Ht1]. apply lanes_alter; [|exact Hl1]. intros md1 Hm1.
  apply list_lookup_insert_Some in Hm1 as [(_ & <- & _)|[Hne _]]; [|done].
  destruct Ha as ((_ & Hc & _) & _). split; [|by destruct md']. split_and!; [by destruct md'| |by destruct md'].
  destruct md'. cbn in *. by rewrite Hc.
Qed.

(** A property of split's state, the queue, what has left and the history of uses that
    every task and every push keeps. *)
Definition kept (K : Split.SplitContext → list task → list (Z * bytes) → list op → Prop) : Prop :=
  (∀ x t rest es h x' ts es',
     K x (t :: rest) es h → moves x t x' ts es' → task_ok t → split_ok x →
     K x' (rest ++ ts) (es ++ es') h)
  ∧ (∀ x q es h a d src dir,
       K x q es h → valid_op (OpPush a d src dir) →
       K x (q ++ [pushed a d src dir]) es (h ++ [OpPush a d src dir]))
  ∧ (∀ x q es h o, K x q es h → (∀ a d src dir, o ≠ OpPush a d src dir) → K x q es (h ++ [o])).

Definition total (h : list op) : nat :=
  sum_list_with (λ o, match o with OpPush a d src dir => weight (pushed a d src dir) | _ => 0%nat end) h.

Section kept.
Context (K : Split.SplitContext → list task → list (Z * bytes) → list op → Prop) (HK : kept K).

Definition holds (h : list op) (c : Chain) : Prop := ∃ x, ok x c ∧ K x (queue c) (exits c) h.

Lemma work_holds now h c : holds h c → holds h (work (process env) wire_ret malloc_ok now c).
Proof.
  intros (x & Hok & Hp). destruct (queue c) as [|t rest] eqn:E.
  { unfold work. rewrite E. exists x. by rewrite E. }
  destruct (work_moves now x t rest c Hok E) as (x' & ts & es & Hm & Hok' & Hq & He).
  exists x'. split; [done|]. rewrite Hq, He. destruct Hok as (_ & Ht & Hx).
  rewrite E in Ht. apply Forall_inv in Ht. by eapply (proj1 HK).
Qed.

Lemma run_op_holds h c o : holds h c → valid_op o → holds (h ++ [o]) (run_op c o).
Proof.
  intros Hh Ho. destruct HK as (HKm & HKp & HKo).
  assert (∀ c', holds h c' → (∀ a d src dir, o ≠ OpPush a d src dir) → holds (h ++ [o]) c') as Hother.
  { intros c' (x & ? & ?) ?. exists x. auto. }
  destruct o as [a d s dir|k|k|now|now ms|]; cbn [Chain.run_op]; [|apply Hother; [|done]..|done].
  - destruct Hh as (x & Hok & Hp). destruct (push_ok x a d s dir c Hok Ho) as (Hok' & Hq & He).
    exists x. rewrite Hq, He. auto.
  - unfold alloc_buffer. case_match; exact Hh.
  - exact Hh.
  - by apply work_holds.
  - unfold check_module_heartbeats. generalize (seq 0 (length (modules c))). intros l. clear -Hh Hpre Htail HP HT.
    revert c Hh. induction l as [|m l IH]; intros c Hh; [done|]. cbn [foldl]. apply IH.
    destruct Hh as (x & Hok & Hp). destruct (tick_ok now ms m x c Hok) as (Hok' & Hq & He).
    exists x. by rewrite Hq, He.
Qed.

Lemma run_ops_holds ops : ∀ h c,
  holds h c → Forall valid_op ops → holds (h ++ ops) (foldl run_op c ops).
Proof.
  induction ops as [|o ops IH]; intros h c Hh Ho; cbn [foldl]; [by rewrite app_nil_r|].
  apply Forall_cons in Ho as [Ho Hos]. replace (h ++ o :: ops) with ((h ++ [o]) ++ ops) by (by rewrite <- app_assoc).
  apply IH; [by apply run_op_holds|done].
Qed.

Lemma start_holds now : K x0 [] [] [] → holds [] (chain_new init now cfg).
Proof.
  intros H0. destruct (chain_new_lanes now) as (l & -> & Hl).
  destruct (SplitConfig.chain_init_wf _ _ _ Hstart) as (_ & Hsz & Hx).
  exists x0. split; [|done]. split_and!; [by split_and!|done|]. unfold split_ok, Split.expects, Split.bounded, Split.nonempty.
  rewrite Hx. cbn. split_and!; try done.
Qed.

End kept.

(** The bound of the work left. *)
Lemma effort_kept : kept (λ x q _ h, (effort x q <= total h)%nat).
Proof.
  split_and!.
  - intros x t rest es h x' ts es' Hb Hm Ht Hx.
    pose proof (moves_effort x t rest x' ts es' Hm Ht Hx). lia.
  - intros x q es h a d src dir Hb _. unfold effort, total in *. rewrite !sum_list_with_app. cbn. lia.
  - intros x q es h o Hb _. unfold total in *. rewrite sum_list_with_app. lia.
Qed.

Lemma drain_holds K now k h : kept K → ∀ c x,
  ok x c → K x (queue c) (exits c) h → (effort x (queue c) <= k)%nat →
  queue (drain (process env) wire_ret malloc_ok k now c) = []
  ∧ holds K h (drain (process env) wire_ret malloc_ok k now c).
Proof.
  intros HK. induction k as [|k IH]; intros c x Hok Hp Hk; cbn [drain].
  - destruct (queue c) as [|t q] eqn:E; [split; [done|]; exists x; by rewrite E|].
    pose proof (weight_pos t). unfold effort in Hk. cbn [sum_list_with] in Hk. lia.
  - destruct (queue c) as [|t rest] eqn:E; [split; [done|]; exists x; by rewrite E|].
    destruct (work_moves now x t rest c Hok E) as (x' & ts & es & Hm & Hok' & Hq & He).
    destruct Hok as (_ & Ht & Hx). rewrite E in Ht. apply Forall_inv in Ht.
    pose proof (moves_effort x t rest x' ts es Hm Ht Hx).
    apply (IH _ x'); [done|rewrite Hq, He; by eapply (proj1 HK)|rewrite Hq; lia].
Qed.

(** The uses, and then the tasks they cause. *)
Definition settle (ops : list op) (c : Chain) : Chain :=
  drain (process env) wire_ret malloc_ok (total ops) 0 c.

Lemma settle_holds K now ops : kept K → K x0 [] [] [] → Forall valid_op ops →
  let c := settle ops (foldl run_op (chain_new init now cfg) ops) in queue c = [] ∧ holds K ops c.
Proof.
  intros HK H0 Ho c. set (c0 := foldl run_op _ _) in c.
  assert (kept (λ x q es h, K x q es h ∧ (effort x q <= total h)%nat)) as HK'.
  { destruct HK as (K1 & K2 & K3), effort_kept as (E1 & E2 & E3). split_and!.
    - intros x t rest es h x' ts es' [] **. split; [by eapply K1|by eapply (E1 x t rest es)].
    - intros x q es h a d src dir [] **. split; [by apply K2|by apply (E2 x q es)].
    - intros x q es h o [] **. split; [by apply K3|by apply (E3 x q es)]. }
  destruct (run_ops_holds _ HK' ops [] (chain_new init now cfg)) as (x & Hok & Hk & He); [|done|].
  - apply start_holds. split; [done|]. unfold effort.
    destruct (SplitConfig.chain_init_wf _ _ _ Hstart) as (_ & _ & ->). cbn. by rewrite map_size_empty.
  - by apply (drain_holds K 0 (total ops) ops HK c0 x).
Qed.

(** ** The two directions *)

Lemma pushes_snoc dir h o : pushes dir (h ++ [o]) = pushes dir h ++ pushes dir [o].
Proof. unfold ChainFlow.pushes. by rewrite omap_app. Qed.

Lemma pushes_other dir o : (∀ a d src dir', o ≠ OpPush a d src dir') → pushes dir [o] = [].
Proof. destruct o as [a d s dir'| | | | |]; try done. intros H. by destruct (H a d s dir'). Qed.

(** Packets leave for the application or on a connection of the tunnel, and account for the
    packets sent. *)
Definition sends (x : Split.SplitContext) (q : list task) (es : list (Z * bytes)) (h : list op) : Prop :=
  Forall (λ e, 0 <= e.1 <= Split.num_outputs x0) es
  ∧ (Z.of_nat (length (pushes 0 h)) <= 16384 → sender x q es (pushes 0 h)).

Lemma moves_ports x t x' ts es :
  moves x t x' ts es → Forall (λ e, 0 <= e.1 <= Split.num_outputs x0) es.
Proof.
  destruct (SplitConfig.chain_init_wf _ _ _ Hstart) as (_ & (_ & _ & Hn) & _).
  destruct 1; try done; apply Forall_singleton; cbn; lia.
Qed.

Lemma sends_kept : kept sends.
Proof.
  split_and!.
  - intros x t rest es h x' ts es' [Hp Hs] Hm Ht Hx. split.
    + apply Forall_app. split; [done|]. by eapply moves_ports.
    + intros Hb. eapply sender_moves; [by apply Hs|done..].
  - intros x q es h a d src dir [Hp Hs] (_ & Ho). split; [done|]. rewrite pushes_snoc, length_app. intros Hb.
    destruct Hs as (pss & Hsent & Hps & Hseq & Hperm); [lia|]. exists pss. rewrite omap_snoc_opt, omap_app.
    destruct Ho as [[-> _]|(-> & Hs & _)].
    + destruct (pushed_out a d src q) as (-> & _ & -> & _). rewrite app_assoc, Hsent, app_nil_r.
      change (pushes 0 [OpPush a d src 0]) with [d]. rewrite (omap_cons_opt _ d), app_nil_r. done.
    + destruct (pushed_in a d src q ltac:(lia)) as (-> & _ & -> & _). rewrite Hsent, !app_nil_r. done.
  - intros x q es h o [Hp Hs] Ho. split; [done|]. by rewrite pushes_snoc, pushes_other, app_nil_r.
Qed.

Definition receives (pss : list (list bytes)) (x : Split.SplitContext) (q : list task)
    (es : list (Z * bytes)) (h : list op) : Prop :=
  Forall (λ w, w ∈ Split.wire_of 0 pss) (omap (decode tail) (pushes 1 h)) → receiver pss x q es (pushes 1 h).

Lemma receives_kept pss : Split.batch_ok 0 pss → kept (receives pss).
Proof.
  intros Hb. split_and!.
  - intros x t rest es h x' ts es' Hs Hm Ht Hx Hall. eapply receiver_moves; [done|by apply Hs|done..].
  - intros x q es h a d src dir Hs (_ & Ho) Hall. rewrite pushes_snoc in Hall |- *. rewrite omap_app in Hall.
    apply Forall_app in Hall as [Hall Hnew].
    destruct (Hs Hall) as (ks & out & Hinv & Hout & Hpend & Hks & Hin & Hperm).
    exists ks, out. rewrite omap_snoc_opt, omap_app.
    destruct Ho as [[-> _]|(-> & Hsrc & _)].
    + destruct (pushed_out a d src q) as (_ & -> & _ & ->). cbn. by rewrite !app_nil_r.
    + destruct (pushed_in a d src q ltac:(lia)) as (_ & -> & _ & ->).
      change (pushes 1 [OpPush a d src 1]) with [d] in Hnew |- *. rewrite (omap_cons_opt _ d) in Hnew |- *.
      rewrite app_nil_r in Hnew |- *. split_and!; try done.
      * apply Forall_app. by split.
      * rewrite (assoc_L (++)). by rewrite Hperm.
  - intros x q es h o Hs Ho. unfold receives. by rewrite pushes_snoc, pushes_other, app_nil_r.
Qed.

(** Nothing is on its way: what has left for the wire. *)
Lemma sends_start : sends x0 [] [] [].
Proof.
  split; [done|]. intros _. exists []. split_and!; try done; [|by constructor|].
  - unfold upstream, stream, front. cbn. by rewrite ChainFlow.flight_nil.
  - by destruct (SplitConfig.chain_init_wf _ _ _ Hstart) as (_ & _ & ->).
Qed.

Lemma sends_end x es h : sends x [] es h → Z.of_nat (length (pushes 0 h)) <= 16384 →
  Forall (λ e, 0 <= e.1 <= Split.num_outputs x0) es
  ∧ ∃ pss, Split.batch_ok 0 pss ∧ map (@concat Z) pss = omap (encode pre) (pushes 0 h)
      ∧ on_wire es ≡ₚ omap (encode tail) (Split.wire_of 0 pss).
Proof.
  intros [Hp Hs] Hb. split; [done|]. destruct (Hs Hb) as (pss & Hsent & Hps & _ & Hperm).
  unfold upstream, stream, front in Hsent. cbn in Hsent, Hperm.
  rewrite ChainFlow.flight_nil, app_nil_r in Hsent. rewrite app_nil_r in Hperm.
  exists pss. split_and!; try done.
  assert (length pss <= length (pushes 0 h))%nat as Hl.
  { apply (f_equal length) in Hsent. rewrite length_map in Hsent. rewrite Hsent. apply length_omap. }
  split_and!; try done; lia.
Qed.

(** The same for the application, once every chunk of the peer has come. *)
Lemma receives_start pss : Split.batch_ok 0 pss → receives pss x0 [] [] [].
Proof.
  intros Hb _. exists [], []. destruct (SplitConfig.chain_init_wf _ _ _ Hstart) as (_ & _ & Hx).
  split_and!; try done; [apply Split.inv_start; [done|by rewrite Hx..]| |by rewrite Hx].
  unfold stream, front. cbn. by rewrite ChainFlow.flight_nil.
Qed.

Lemma receives_end pss x es h : receives pss x [] es h → Split.batch_ok 0 pss →
  (∀ w, w ∈ Split.wire_of 0 pss ↔ w ∈ omap (decode tail) (pushes 1 h)) →
  to_user es = omap (decode pre) (map (@concat Z) pss).
Proof.
  intros Hr Hb Hw. destruct Hr as (ks & out & Hinv & Hout & Hpend & Hks & _ & Hperm).
  { apply Forall_forall. intros d Hd. by apply Hw. }
  unfold stream, front in Hout. cbn in Hperm, Hout.
  rewrite ChainFlow.flight_nil, app_nil_r in Hout. rewrite app_nil_r in Hperm. rewrite Hout. f_equal.
  apply (Split.inv_complete 0 pss Hb _ _ _ Hinv Hpend). intros k v Hk.
  apply (Split.wire_seen 0 pss ks k v Hb Hks); [|done]. intros w Hin. rewrite Hperm. by apply Hw.
Qed.

(** What has left for the wire in the end. *)
Lemma settled_sends now ops :
  Forall valid_op ops → Z.of_nat (length (pushes 0 ops)) <= 16384 →
  let c := settle ops (foldl run_op (chain_new init now cfg) ops) in
  queue c = [] ∧ Forall (λ e, 0 <= e.1 <= Split.num_outputs x0) (exits c)
  ∧ ∃ pss, Split.batch_ok 0 pss ∧ map (@concat Z) pss = omap (encode pre) (pushes 0 ops)
      ∧ on_wire (exits c) ≡ₚ omap (encode tail) (Split.wire_of 0 pss).
Proof.
  intros Ho Hb c. destruct (settle_holds sends now ops sends_kept sends_start Ho) as (Hq & x & _ & Hs).
  fold c in Hq, Hs. rewrite Hq in Hs. split; [done|]. by eapply sends_end.
Qed.

(** What has left for the application, once every chunk of the peer has come. *)
Lemma settled_receives now ops pss :
  Forall valid_op ops → Split.batch_ok 0 pss →
  (∀ w, w ∈ Split.wire_of 0 pss ↔ w ∈ omap (decode tail) (pushes 1 ops)) →
  let c := settle ops (foldl run_op (chain_new init now cfg) ops) in
  queue c = [] ∧ to_user (exits c) = omap (decode pre) (map (@concat Z) pss).
Proof.
  intros Ho Hb Hw c.
  destruct (settle_holds (receives pss) now ops (receives_kept pss Hb) (receives_start pss Hb) Ho) as (Hq & x & _ & Hr).
  fold c in Hq, Hr. rewrite Hq in Hr. split; [done|]. by eapply receives_end.
Qed.

End tunnel.

(** ** Two endpoints *)

(** A configured chain starts and ends with a copy module. *)
Lemma parse_chain_ends text pre ps tail :
  Config.modules (Config.parse_chain text) = pre ++ mkSpec s_split ps :: tail → pre ≠ [] ∧ tail ≠ [].
Proof.
  unfold Config.parse_chain. destruct (Config.split_blocks _ _ _) as [|first rest]; [by destruct pre|].
  destruct (match find _ first 0 with None => _ | Some _ => _ end) as [addr pw].
  destruct (Config.parse_hostport addr [] 0) as [[ok h] p]. destruct ok; cbn [Config.modules]; [|by destruct pre].
  rewrite reverse_cons, reverse_app. cbn [reverse rev_append app]. intros H. split; intros ->.
  - discriminate.
  - apply (f_equal last) in H. rewrite app_comm_cons, !last_snoc in H. discriminate.
Qed.

Section endpoints.
Context {Y : Type} (tinit : ModuleSpec → option (Y * list init_ev)).
Context (tprocess : bytes → Y → Z → Z → option (bytes * Z) → Y * list mod_ev * mod_ret).
Context (f : ModuleSpec → Z → bytes → option bytes).
Context (pre : list ModuleSpec) (ps : bytes) (tail : list ModuleSpec).

(** What an endpoint brings along: its generator and what [malloc] answers to split; what
    its [wire_write] answers, which may be -1; what [malloc] answers to the chain. *)
Record Endpoint := mkEndpoint {
  e_env : Split.Env;
  e_wire : Z → bytes → Z;
  e_malloc : Z → Z → bool
}.

(** Memory does not run out, and [wire_write] takes every packet. (When it refuses one the
    copy module at the end of the chain returns its -1, and the chain frees the packet a
    second time.) *)
Definition healthy (e : Endpoint) : Prop :=
  (∀ k, Split.malloc_ok (e_env e) k = true) ∧ (∀ n k, e_malloc e n k = true) ∧ (∀ dst d, 0 <= e_wire e dst d).

(** The chain of an endpoint after some uses and the tasks they caused. *)
Definition settled (e : Endpoint) (now : Z) (ops : list op) : Chain :=
  settle tprocess (e_env e) (e_wire e) (e_malloc e) f pre tail ops
    (foldl (run_op (process tprocess (e_env e)) (e_wire e) (e_malloc e))
           (chain_new (init tinit) now (pre ++ mkSpec s_split ps :: tail)) ops).

(** The other modules of the tunnel: each turns one packet into one packet or refuses it;
    it accepts what the application sends, and its second direction undoes the first. *)
Definition invertible (spec : ModuleSpec) : Prop :=
  name spec ≠ s_split ∧ ChainFlow.relays tinit tprocess f spec ∧ ChainFlow.inverts f spec.

Lemma decodes specs d :
  Forall invertible specs → ChainFlow.packet d →
  ∃ e, ChainFlow.encode f specs d = Some e ∧ ChainFlow.packet e ∧ ChainFlow.decode f specs e = Some d.
Proof. intros Hinv. apply ChainFlow.encode_decode. eapply Forall_impl; [exact Hinv|]. by intros spec (_ & _ & ?). Qed.

Lemma hdr_bytes_ok h : bytes_ok (Split.hdr_bytes h).
Proof. unfold Split.hdr_bytes. repeat apply Forall_cons_2; [..|done]; rewrite land_ff; zlia. Qed.

(** A chunk is made of bytes when the packets cut are. *)
Lemma wire_packet n pss w :
  Forall bytes_ok (map (@concat Z) pss) → w ∈ Split.wire_of n pss → ChainFlow.packet w.
Proof.
  intros Hb (j & q & Hq & (i & p & Hp & ->)%Split.elem_of_chunks_of)%Split.elem_of_wire_of. split; [done|].
  apply Forall_app. split; [apply hdr_bytes_ok|].
  rewrite Forall_map in Hb. pose proof (Forall_lookup_1 _ _ _ _ Hb Hq) as Hc. cbn in Hc.
  rewrite Forall_concat in Hc. by eapply Forall_lookup_1.
Qed.

(** What one side has put on the wire is what the other needs to hand the packets over. *)
Lemma chunks_meet (esA : list (Z * bytes)) (sent got : list bytes) (pss : list (list bytes)) :
  Forall invertible (pre ++ tail) → Forall ChainFlow.packet sent →
  map (@concat Z) pss = omap (ChainFlow.encode f pre) sent →
  on_wire esA ≡ₚ omap (ChainFlow.encode f tail) (Split.wire_of 0 pss) →
  (∀ d, d ∈ on_wire esA → d ∈ got) →
  (∀ d, d ∈ got → d ∈ on_wire esA ∨ ChainFlow.decode f tail d = None) →
  (∀ w, w ∈ Split.wire_of 0 pss ↔ w ∈ omap (ChainFlow.decode f tail) got)
  ∧ omap (ChainFlow.decode f pre) (map (@concat Z) pss) = sent.
Proof.
  intros [Hip Hit]%Forall_app Hsent Hcat Hperm Hall Honly. split.
  - assert (∀ w, w ∈ Split.wire_of 0 pss → ChainFlow.packet w) as Hpkt.
    { intros w. apply wire_packet. rewrite Hcat. apply Forall_forall. intros e (d & Hd & He)%list_elem_of_omap.
      rewrite Forall_forall in Hsent. destruct (decodes pre d Hip (Hsent d Hd)) as (e' & E & [_ ?] & _). congruence. }
    intros w. rewrite list_elem_of_omap. split.
    + intros Hw. destruct (decodes tail w Hit (Hpkt w Hw)) as (e & E & _ & Hd). exists e.
      split; [|done]. apply Hall. rewrite Hperm. apply list_elem_of_omap. eauto.
    + intros (d & [Hd|Hd]%Honly & Hdec); [|congruence]. rewrite Hperm in Hd.
      apply list_elem_of_omap in Hd as (w' & Hw & E).
      destruct (decodes tail w' Hit (Hpkt w' Hw)) as (e & E' & _ & Hd). congruence.
  - rewrite Hcat, omap_omap. apply omap_id. eapply Forall_impl; [exact Hsent|]. intros d Hd.
    destruct (decodes pre d Hip Hd) as (e & -> & _ & E). exact E.
Qed.

(** The modules, lifted to a chain with split in it. *)
Lemma invertible_relays env l :
  Forall invertible l → Forall (ChainFlow.relays (init tinit) (process tprocess env) f) l.
Proof. intros Hl. eapply Forall_impl; [exact Hl|]. intros spec (? & ? & _). by apply relays_lift. Qed.

Lemma tunnel_delivers (text : bytes) (x0 : Split.SplitContext) (ievs : list init_ev)
    (A B : Endpoint) (now now' : Z) (ops ops' : list op) (HA : healthy A) (HB : healthy B)
    (Htext : Config.modules (Config.parse_chain text) = pre ++ mkSpec s_split ps :: tail)
    (Hstart : SplitConfig.chain_init ps = Some (x0, ievs))
    (Hinv : Forall invertible (pre ++ tail))
    (Hops : Forall (valid_op f pre tail x0) ops) (Hops' : Forall (valid_op f pre tail x0) ops')
    (Hsent : Forall ChainFlow.packet (ChainFlow.pushes 0 ops))
    (Hcount : Z.of_nat (length (ChainFlow.pushes 0 ops)) <= 16384)
    (Hall : ∀ d, d ∈ on_wire (exits (settled A now ops)) → d ∈ ChainFlow.pushes 1 ops')
    (Honly : ∀ d, d ∈ ChainFlow.pushes 1 ops' →
               d ∈ on_wire (exits (settled A now ops)) ∨ ChainFlow.decode f tail d = None) :
  queue (settled A now ops) = []
  ∧ Forall (λ e, 0 <= e.1 <= Split.num_outputs x0) (exits (settled A now ops))
  ∧ (∃ pss, map (@concat Z) pss = omap (ChainFlow.encode f pre) (ChainFlow.pushes 0 ops)
       ∧ on_wire (exits (settled A now ops)) ≡ₚ omap (ChainFlow.encode f tail) (Split.wire_of 0 pss))
  ∧ queue (settled B now' ops') = []
  ∧ to_user (exits (settled B now' ops')) = ChainFlow.pushes 0 ops.
Proof.
  destruct (parse_chain_ends _ _ _ _ Htext) as [Hp Ht].
  assert (0 < length pre)%nat as HP by (destruct pre; cbn; [done|lia]).
  assert (0 < length tail)%nat as HT by (destruct tail; cbn; [done|lia]).
  pose proof Hinv as [Hip Hit]%Forall_app.
  destruct (settled_sends tinit tprocess (e_env A) (e_wire A) (e_malloc A) f pre ps tail x0 ievs
              (proj1 HA) Hstart (invertible_relays _ _ Hip) (invertible_relays _ _ Hit) HP HT now ops Hops Hcount)
    as (Hq & Hports & pss & Hb & Hcat & Hperm).
  destruct (chunks_meet _ _ _ pss Hinv Hsent Hcat Hperm Hall Honly) as [Hmeet Hback].
  destruct (settled_receives tinit tprocess (e_env B) (e_wire B) (e_malloc B) f pre ps tail x0 ievs
              (proj1 HB) Hstart (invertible_relays _ _ Hip) (invertible_relays _ _ Hit) HP HT now' ops' pss Hops' Hb Hmeet) as (Hq' & Hout).
  split_and!; [exact Hq|exact Hports|by exists pss; split|exact Hq'|]. etransitivity; [exact Hout|exact Hback].
Qed.

(** [C3] A tunnel over several connections delivers the first 16384 packets of a direction.
    Two endpoints have the same chain, read from a configuration text and just built, in
    which one module is split, with any parameters, and the others turn a packet into a
    packet, or refuse it, and are invertible. The first is given at most 16384 packets of
    its application over its whole life, each of at least one byte and below 2 GB at split,
    interleaved in any way with worker steps, chunks from the other side, heartbeats and
    buffer traffic. Then its workers empty the queue, and what it has handed to [wire_write]
    for the wire is for the connections 1..n of split's outputs. If the second endpoint
    is given all of these chunks, in any order, on any of its connections, with any
    repetitions, among packets that the modules behind split refuse (corrupted ones, say),
    and interleaved with its own traffic, then its workers empty the queue and its
    application has been handed exactly the packets of the first, in order. Neither chain is
    cancelled, memory does not run out and [wire_write] takes every packet. (Beyond the 16384
    packets the order is no longer free: [Split.merge_window_exceeded].) *)
Theorem split_tunnel_delivers (text : bytes) (x0 : Split.SplitContext) (ievs : list init_ev)
    (A B : Endpoint) (now now' : Z) (ops ops' : list op) (HA : healthy A) (HB : healthy B)
    (Htext : Config.modules (Config.parse_chain text) = pre ++ mkSpec s_split ps :: tail)
    (Hstart : SplitConfig.chain_init ps = Some (x0, ievs))
    (Hinv : Forall invertible (pre ++ tail))
    (Hops : Forall (valid_op f pre tail x0) ops) (Hops' : Forall (valid_op f pre tail x0) ops')
    (Hsent : Forall ChainFlow.packet (ChainFlow.pushes 0 ops))
    (Hcount : Z.of_nat (length (ChainFlow.pushes 0 ops)) <= 16384)
    (Hall : ∀ d, d ∈ on_wire (exits (settled A now ops)) → d ∈ ChainFlow.pushes 1 ops')
    (Honly : ∀ d, d ∈ ChainFlow.pushes 1 ops' →
               d ∈ on_wire (exits (settled A now ops)) ∨ ChainFlow.decode f tail d = None) :
  queue (settled A now ops) = []
  ∧ Forall (λ e, 0 <= e.1 <= Split.num_outputs x0) (exits (settled A now ops))
  ∧ queue (settled B now' ops') = []
  ∧ to_user (exits (settled B now' ops')) = ChainFlow.pushes 0 ops.
Proof.
  destruct (tunnel_delivers text x0 ievs A B now now' ops ops' HA HB Htext Hstart Hinv Hops Hops' Hsent Hcount Hall Honly)
    as (? & ? & _ & ? & ?). by split_and!.
Qed.

End endpoints.

(** Three outputs, chunks of 64 bytes; the chunks reach the second endpoint in reverse, on a
    connection other than those they left on. *)
Definition demo_text : bytes := lit "h:1,pw;copy|m:c;split|n:3,s:64".
Definition demo_params : bytes := lit "n:3,s:64".
Definition demo_pre : list ModuleSpec := [Config.copy_spec].
Definition demo_tail : list ModuleSpec := [mkSpec Copy.s_copy (lit "m:c"); Config.copy_spec].
Definition demo_endpoint : Endpoint := mkEndpoint (Split.mkEnv (λ _, 0) (λ _, true)) (λ _ _, 0) (λ _ _, true).
Definition demo_ops : list op :=
  [OpPush 200 (repeat 7 200) 0 0; OpWork 0; OpWork 0; OpPush 3 [1; 2; 3] 0 0; OpTick 5000 1000; OpWork 9].
Definition demo_settled (now : Z) (ops : list op) :=
  settled Copy.init Copy.process (λ _ _ d, Some d) demo_pre demo_params demo_tail demo_endpoint now ops.
Definition demo_sent : list bytes := on_wire (exits (demo_settled 0 demo_ops)).
Definition demo_ops' : list op := map (λ d, OpPush 9 d 2 1) (reverse demo_sent).

Lemma demo_pushes (l : list bytes) : ChainFlow.pushes 1 (map (λ d, OpPush 9 d 2 1) l) = l.
Proof. unfold ChainFlow.pushes. induction l as [|d l IH]; cbn; [done|]. by f_equal. Qed.

Lemma demo_valid (l : list bytes) :
  Forall chunk_fits l →
  Forall (valid_op (λ _ _ d, Some d) demo_pre demo_tail (Split.new_ctx 3 64 64)) (map (λ d, OpPush 9 d 2 1) l).
Proof.
  induction 1 as [|d l Hd _ IH]; constructor; [|done]. split; [intros ->; destruct Hd as [Hd _]; cbn in Hd; lia|].
  right. split_and!; [done..|]. by intros e [= <-].
Qed.

Lemma repeat_bytes b n : is_byte b → bytes_ok (repeat b n).
Proof. intros Hb. apply Forall_forall. by intros x ->%list_elem_of_In%repeat_spec. Qed.

Lemma demo_packets : Forall ChainFlow.packet (ChainFlow.pushes 0 demo_ops).
Proof.
  repeat apply Forall_cons_2; [..|done]; (split; [done|]).
  - apply repeat_bytes. unfold is_byte. lia.
  - repeat constructor; unfold is_byte; lia.
Qed.

Definition chunk_fitsb (d : bytes) : bool := (Split.HEADER_SIZE <? length d)%nat && bool_decide (Split.last_fits d).

Lemma chunk_fitsb_ok d : chunk_fitsb d = true → chunk_fits d.
Proof. intros [Hl%Nat.ltb_lt Hd%bool_decide_eq_true_1]%andb_prop. by split. Qed.

Lemma chunks_fit (l : list bytes) : forallb chunk_fitsb l = true → Forall chunk_fits l.
Proof. rewrite forallb_forall. intros H. apply List.Forall_forall. intros d Hd. by apply chunk_fitsb_ok, H. Qed.

Lemma demo_healthy : healthy demo_endpoint.
Proof. by split_and!. Qed.

Lemma demo_sent_fit : Forall chunk_fits demo_sent.
Proof. apply chunks_fit. vm_compute. reflexivity. Qed.

Lemma split_tunnel_delivers_witness :
  length demo_sent = 5%nat ∧ to_user (exits (demo_settled 7 demo_ops')) = [repeat 7 200; [1; 2; 3]].
Proof.
  split; [vm_compute; reflexivity|].
  apply (split_tunnel_delivers Copy.init Copy.process (λ _ _ d, Some d) demo_pre demo_params demo_tail demo_text
           (Split.new_ctx 3 64 64) [IOutputs 2] demo_endpoint demo_endpoint 0 7 demo_ops demo_ops' demo_healthy demo_healthy).
  - vm_compute. reflexivity.
  - reflexivity.
  - repeat constructor; try done; by apply ChainFlow.copy_relays || apply ChainFlow.copy_inverts.
  - repeat apply Forall_cons_2; try done; by split; [|left; split; [done|intros e [= <-]]].
  - apply demo_valid, Forall_reverse, demo_sent_fit.
  - apply demo_packets.
  - done.
  - intros d. unfold demo_ops'. rewrite demo_pushes. intros Hd. rewrite elem_of_reverse. exact Hd.
  - intros d. unfold demo_ops'. rewrite demo_pushes. rewrite elem_of_reverse. unfold demo_sent, demo_settled. intros Hd. left. exact Hd.
Defined.

End SplitChain.
