(* ===== verification/Base64.v ===== *)
(** * The [base64] module (modules/base64/base64.c)

    It encodes packets on their way to the wire and decodes them on their way back. The
    codec, [libbase64], is a parameter; what the module relies on are the laws of
    [Base64Lib], and [rfc4648] below is one codec that has them. *)

From S2P Require Import Prelude Text ChainApi Config Chain Copy Split SplitConfig ChainFlow SplitChain.
Local Open Scope Z_scope.

Module Base64.

(** ** The module *)

Record b64_ctx := mkCtx { trace : bool; node_id : Z }.

Definition s_trace : bytes := [116; 114; 97; 99; 101].

(** [init]: [node] is what [get_node_id] answers, if the chain has it. *)
Definition b64_init (node : option Z) (config : option bytes) : b64_ctx :=
  mkCtx (match config with
         | Some cfg => bool_decide (is_Some (strstr s_trace (c_str cfg)))
         | None => false
         end)
        (default (-1) node).

(** [(len + 2) / 3 * 4] in [size_t]. *)
Definition encoded_size (len : Z) : Z := u64 (u64 (len + 2) / 3 * 4).

Section module.
(** [base64_encode(src, len, out, &outlen, 0)]: what it writes. [base64_decode]: what it
    returns and what it writes; the module lets it work in place. *)
Context (base64_encode : bytes → bytes).
Context (base64_decode : bytes → Z * bytes).
(** Whether the chain has the memory a module asks for. *)
Context (mallocs : Z → bool).

Definition b64_process (x : b64_ctx) (dir trigger_idx : Z) (data : option (bytes * Z))
    : b64_ctx * list Chain.mod_ev * Chain.mod_ret :=
  match data with
  | None => (x, [], Chain.RetConst (-1))
  | Some ([], _) => (x, [], Chain.RetConst (-1))
  | Some (d, a) =>
      let len := Z.of_nat (length d) in
      let write_dst := if dir =? 0 then 1 else 0 in
      if dir =? 0 then
        let elen := encoded_size len in
        if negb (mallocs elen) then (x, [], Chain.RetConst (-1)) else
        (x, [Chain.MMalloc elen; Chain.MFree a; Chain.MWrite write_dst (base64_encode d) elen],
         Chain.RetLastWrite)
      else
        if negb (mallocs len) then (x, [], Chain.RetConst (-1)) else
        let '(ok, out) := base64_decode d in
        if ok =? 0 then (x, [Chain.MMalloc len; Chain.MFree len], Chain.RetConst (-1)) else
        (x, [Chain.MMalloc len; Chain.MFree a; Chain.MWrite write_dst out len], Chain.RetLastWrite)
  end.
End module.

(** ** What libbase64 promises *)

Class Base64Lib (base64_encode : bytes → bytes) (base64_decode : bytes → Z * bytes) : Prop := {
  (** four characters for every three bytes begun *)
  encode_length d : Z.of_nat (length (base64_encode d)) = (Z.of_nat (length d) + 2) / 3 * 4;
  encode_bytes d : bytes_ok d → bytes_ok (base64_encode d);
  (** [1] for success; the output takes at most 3/4 of the size of the input *)
  decode_encode d : bytes_ok d → base64_decode (base64_encode d) = (1, d);
  decode_length d : 4 * Z.of_nat (length (base64_decode d).2) <= 3 * Z.of_nat (length d);
  decode_something d : d ≠ [] → (base64_decode d).1 ≠ 0 → (base64_decode d).2 ≠ []
}.

Section codec.
Context (base64_encode : bytes → bytes) (base64_decode : bytes → Z * bytes).
Context {Hlib : Base64Lib base64_encode base64_decode}.
#[local] Abbreviation process := (b64_process base64_encode base64_decode).

Lemma encoded_size_exact len : 0 <= len < 3 * 2 ^ 62 - 2 → encoded_size len = (len + 2) / 3 * 4.
Proof. intros H. unfold encoded_size, u64. rewrite (Z.mod_small (len + 2)) by lia. apply Z.mod_small. zlia. Qed.

(** The outcome of a call: the packet is refused, with nothing allocated in the end; or the
    packet is replaced by one in a buffer of its own, which it fits into. *)
Inductive outcome (dir a : Z) : list Chain.mod_ev → Chain.mod_ret → Prop :=
| refused : outcome dir a [] (Chain.RetConst (-1))
| refused_late k : outcome dir a [Chain.MMalloc k; Chain.MFree k] (Chain.RetConst (-1))
| replaced out k :
    out ≠ [] → Z.of_nat (length out) <= k →
    outcome dir a [Chain.MMalloc k; Chain.MFree a; Chain.MWrite (if dir =? 0 then 1 else 0) out k]
            Chain.RetLastWrite.

Lemma b64_encode_nonempty d : d ≠ [] → base64_encode d ≠ [].
Proof.
  intros Hd E. pose proof (encode_length d) as H. rewrite E in H. destruct d; [done|]. cbn [length] in H. zlia.
Qed.

Lemma base64_buffers_outcome (mallocs : Z → bool) x dir trigger d a :
  Z.of_nat (length d) < 3 * 2 ^ 62 - 2 →
  let '(x', evs, r) := process mallocs x dir trigger (Some (d, a)) in
  x' = x ∧ outcome dir a evs r.
Proof.
  intros Hlen. unfold b64_process. destruct d as [|b d]; [split; [done|constructor]|]. set (l := b :: d) in *.
  destruct (dir =? 0) eqn:Hdir.
  - destruct (mallocs _); (split; [done|]); [|constructor]. cbn [negb].
    pose proof (replaced dir a (base64_encode l) (encoded_size (Z.of_nat (length l)))) as H.
    rewrite Hdir in H. apply H; [by apply b64_encode_nonempty|].
    rewrite encode_length, encoded_size_exact by lia. lia.
  - destruct (mallocs _); cbn [negb]; [|split; [done|constructor]].
    pose proof (decode_length l) as Hl. pose proof (decode_something l ltac:(done)) as Hs.
    destruct (base64_decode l) as [ok out]. cbn [fst snd] in Hl, Hs.
    destruct (Z.eqb_spec ok 0) as [|Hok]; (split; [done|]); [constructor|].
    pose proof (replaced dir a out (Z.of_nat (length l))) as H. rewrite Hdir in H. apply H; [auto|lia].
Qed.

(** [C20] The base64 module never writes outside a buffer and never loses one. Whatever it is
    given, and whether or not memory can be had, a call refuses the packet, having released
    all it allocated and leaving the packet to its caller; or it releases the packet and
    passes on one in a new buffer, which holds all that the codec has written into it. *)
Theorem base64_buffers (mallocs : Z → bool) x dir trigger d a
    (Hlen : Z.of_nat (length d) < 3 * 2 ^ 62 - 2) :
  let '(x', evs, r) := process mallocs x dir trigger (Some (d, a)) in
  x' = x ∧ outcome dir a evs r.
Proof. by apply base64_buffers_outcome. Qed.

(** ** In a chain, beside the copy module *)

Definition s_base64 : bytes := [98; 97; 115; 101; 54; 52].

Definition init (spec : ModuleSpec) : option ((Copy.ctx + b64_ctx) * list Chain.init_ev) :=
  if bool_decide (name spec = s_base64) then Some (inr (b64_init (Some 0) (Some (params spec))), [])
  else '(x, evs) ← Copy.init spec; Some (inl x, evs).

Definition chain_process (nm : bytes) (x : Copy.ctx + b64_ctx) (dir src : Z) (data : option (bytes * Z))
    : (Copy.ctx + b64_ctx) * list Chain.mod_ev * Chain.mod_ret :=
  match x with
  | inl x => let '(x', evs, r) := Copy.process nm x dir src data in (inl x', evs, r)
  | inr x => let '(x', evs, r) := process (λ _, true) x dir src data in (inr x', evs, r)
  end.

(** What the modules do to a packet. *)
Definition effect (spec : ModuleSpec) (dir : Z) (d : bytes) : option bytes :=
  if bool_decide (name spec = s_base64) then
    if dir =? 0 then Some (base64_encode d)
    else let '(ok, out) := base64_decode d in if ok =? 0 then None else Some out
  else Some d.

Lemma base64_relays spec :
  name spec = s_base64 ∨ name spec = Copy.s_copy → ChainFlow.relays init chain_process effect spec.
Proof.
  unfold ChainFlow.relays, init, effect. destruct (decide (name spec = s_base64)) as [E|E].
  - intros _. rewrite bool_decide_true by done. eexists (inr _), []. split_and!; [done|done| |by eexists].
    intros dir src d a Hdir Hd. cbn [chain_process]. destruct d as [|b d]; [done|]. unfold b64_process.
    set (l := b :: d) in *. destruct Hdir as [-> | ->]; cbn [Z.eqb negb].
    + split; [by apply b64_encode_nonempty|]. eexists [_; _], _, _. split; [reflexivity|by repeat constructor].
    + pose proof (decode_something l Hd) as Hs. destruct (base64_decode l) as [ok out]. cbn [fst snd] in Hs.
      destruct (Z.eqb_spec ok 0).
      * eexists [_; _], _. split; [reflexivity|by repeat constructor].
      * split; [auto|]. eexists [_; _], _, _. split; [reflexivity|by repeat constructor].
  - intros [?|Hc]; [done|]. rewrite bool_decide_false by done.
    destruct (ChainFlow.copy_relays spec Hc) as (x & ievs & -> & He & Hp & r & Hb).
    exists (inl x), ievs. split_and!; [done|done| |exists r; unfold chain_process; by rewrite Hb].
    intros dir src d a Hdir Hd. destruct (Hp dir src d a Hdir Hd) as (Hne & pre & a' & r' & Hev & Hpre).
    split; [done|]. exists pre, a', r'. unfold chain_process. by rewrite Hev.
Qed.

Lemma base64_inverts spec : ChainFlow.inverts effect spec.
Proof.
  unfold effect. intros d [Hne Hd]. case_bool_decide; [|by exists d]. cbn [Z.eqb].
  exists (base64_encode d). split_and!; [done| |by rewrite decode_encode].
  split; [by apply b64_encode_nonempty|by apply encode_bytes].
Qed.

(** [C19] A tunnel of copy, split and base64 modules delivers the first 16384 packets of a
    direction, whatever codec keeps the promises of libbase64. Two endpoints have the chain
    of a configuration text, just built, in which one module is split and the others are
    base64 or copy, in any number and order, with any parameters. The first is given at most
    16384 packets over its life. What it sends on its connections are the chunks of the
    packets as encoded in front of split, encoded by the modules behind it. If the second is
    given all of these, in any order, on any connections, with repetitions, and with packets
    in between that a base64 module behind split refuses, then its application is handed
    exactly the packets of the first, in order. As in [SplitChain.split_tunnel_delivers],
    the chains are not cancelled, memory does not run out and [wire_write] takes every
    packet. *)
Theorem base64_tunnel (text ps : bytes) (pre tail : list ModuleSpec)
    (x0 : Split.SplitContext) (ievs : list Chain.init_ev)
    (A B : SplitChain.Endpoint) (now now' : Z) (ops ops' : list Chain.op)
    (HA : SplitChain.healthy A) (HB : SplitChain.healthy B)
    (sent := Chain.exits (SplitChain.settled init chain_process effect pre ps tail A now ops))
    (got := Chain.exits (SplitChain.settled init chain_process effect pre ps tail B now' ops'))
    (Htext : Config.modules (Config.parse_chain text) = pre ++ mkSpec SplitChain.s_split ps :: tail)
    (Hnames : Forall (λ spec, name spec = s_base64 ∨ name spec = Copy.s_copy) (pre ++ tail))
    (Hstart : SplitConfig.chain_init ps = Some (x0, ievs))
    (Hops : Forall (SplitChain.valid_op effect pre tail x0) ops)
    (Hops' : Forall (SplitChain.valid_op effect pre tail x0) ops')
    (Hsent : Forall ChainFlow.packet (ChainFlow.pushes 0 ops))
    (Hcount : Z.of_nat (length (ChainFlow.pushes 0 ops)) <= 16384)
    (Hall : ∀ d, d ∈ SplitChain.on_wire sent → d ∈ ChainFlow.pushes 1 ops')
    (Honly : ∀ d, d ∈ ChainFlow.pushes 1 ops' →
               d ∈ SplitChain.on_wire sent ∨ ChainFlow.decode effect tail d = None) :
  (∃ pss, map (@concat Z) pss = omap (ChainFlow.encode effect pre) (ChainFlow.pushes 0 ops)
     ∧ SplitChain.on_wire sent ≡ₚ omap (ChainFlow.encode effect tail) (Split.wire_of 0 pss))
  ∧ SplitChain.to_user got = ChainFlow.pushes 0 ops.
Proof.
  assert (Forall (SplitChain.invertible init chain_process effect) (pre ++ tail)) as Hinv.
  { eapply Forall_impl; [exact Hnames|]. intros spec Hn.
    split_and!; [|by apply base64_relays|apply base64_inverts]. destruct Hn as [-> | ->]; done. }
  destruct (SplitChain.tunnel_delivers init chain_process effect pre ps tail text x0 ievs A B now now' ops ops'
              HA HB Htext Hstart Hinv Hops Hops' Hsent Hcount Hall Honly) as (_ & _ & Hp & _ & Hgot).
  by split.
Qed.

End codec.

(** ** A codec: RFC 4648 *)

(** The character of a sextet, and back. *)
Definition symbol (v : Z) : Z :=
  if v <? 26 then v + 65 else if v <? 52 then v + 71 else if v <? 62 then v - 4
  else if v =? 62 then 43 else 47.
Definition value (c : Z) : option Z :=
  if (65 <=? c) && (c <=? 90) then Some (c - 65)
  else if (97 <=? c) && (c <=? 122) then Some (c - 71)
  else if (48 <=? c) && (c <=? 57) then Some (c + 4)
  else if c =? 43 then Some 62 else if c =? 47 then Some 63 else None.

Fixpoint rfc_encode (l : bytes) : bytes :=
  match l with
  | [] => []
  | [a] => [symbol (a / 4); symbol (a mod 4 * 16); 61; 61]
  | [a; b] => [symbol (a / 4); symbol (a mod 4 * 16 + b / 16); symbol (b mod 16 * 4); 61]
  | a :: b :: c :: rest =>
      symbol (a / 4) :: symbol (a mod 4 * 16 + b / 16) :: symbol (b mod 16 * 4 + c / 64)
      :: symbol (c mod 64) :: rfc_encode rest
  end.

(** A group of four; only the last may be padded. *)
Definition group (w x y z : Z) (last : bool) : option bytes :=
  w ← value w; x ← value x;
  match value y, value z with
  | Some y, Some z => Some [w * 4 + x / 16; x mod 16 * 16 + y / 4; y mod 4 * 64 + z]
  | Some y, None => if last && (z =? 61) then Some [w * 4 + x / 16; x mod 16 * 16 + y / 4] else None
  | None, _ => if last && (y =? 61) && (z =? 61) then Some [w * 4 + x / 16] else None
  end.

Fixpoint rfc_groups (l : bytes) : option bytes :=
  match l with
  | [] => Some []
  | w :: x :: y :: z :: rest =>
      g ← group w x y z (bool_decide (rest = [])); r ← rfc_groups rest; Some (g ++ r)
  | _ => None
  end.

Definition rfc_decode (l : bytes) : Z * bytes :=
  match rfc_groups l with Some o => (1, o) | None => (0, []) end.

Example rfc_ex :
  rfc_encode (lit "light work.") = lit "bGlnaHQgd29yay4="
  ∧ rfc_decode (lit "bGlnaHQgd29y") = (1, lit "light wor") ∧ rfc_decode (lit "bGln=HQg") = (0, []).
Proof. by vm_compute. Qed.

Lemma value_symbol v : 0 <= v < 64 → value (symbol v) = Some v ∧ is_byte (symbol v).
Proof.
  intros H. unfold symbol, value, is_byte.
  repeat match goal with |- context [?a <? ?b] => destruct (Z.ltb_spec a b)
                       | |- context [?a <=? ?b] => destruct (Z.leb_spec a b)
                       | |- context [?a =? ?b] => destruct (Z.eqb_spec a b) end;
    cbn [andb]; try lia; split; try lia; f_equal; lia.
Qed.

Lemma value_of v : 0 <= v < 64 → value (symbol v) = Some v.
Proof. apply value_symbol. Qed.
Lemma value_pad : value 61 = None.
Proof. done. Qed.

(** Lists by groups of three and of four. *)
Lemma list3_ind (P : bytes → Prop) :
  P [] → (∀ a, P [a]) → (∀ a b, P [a; b]) → (∀ a b c l, P l → P (a :: b :: c :: l)) → ∀ l, P l.
Proof. intros H0 H1 H2 H3. fix IH 1. intros [|a [|b [|c l]]]; [done|apply H1|apply H2|apply H3, IH]. Qed.
Lemma list4_ind (P : bytes → Prop) :
  (∀ l, (length l < 4)%nat → P l) → (∀ w x y z l, P l → P (w :: x :: y :: z :: l)) → ∀ l, P l.
Proof.
  intros H0 H4. fix IH 1. intros [|w [|x [|y [|z l]]]]; [..|apply H4, IH]; apply H0; cbn; lia.
Qed.

Lemma group_length w x y z last g : group w x y z last = Some g → (1 <= length g <= 3)%nat.
Proof.
  unfold group. destruct (value w); [|done]. destruct (value x); [|done]. cbn.
  destruct (value y), (value z); repeat case_match; intros [= <-]; cbn; lia.
Qed.

#[export] Instance rfc4648 : Base64Lib rfc_encode rfc_decode.
Proof.
  split.
  - induction d as [|a|a b|a b c l IH] using list3_ind; [done..|]. cbn [rfc_encode length]. zlia.
  - induction d as [|a|a b|a b c l IH] using list3_ind; [done|..]; intros Hd;
      repeat apply Forall_cons in Hd as [? Hd]; cbn [rfc_encode]; repeat apply Forall_cons_2; auto;
      (apply value_symbol; zlia) || (unfold is_byte; lia).
  - intros d Hd. unfold rfc_decode. enough (rfc_groups (rfc_encode d) = Some d) as -> by done. revert Hd.
    induction d as [|a|a b|a b c l IH] using list3_ind; [done|..]; intros Hd;
      repeat apply Forall_cons in Hd as [? Hd]; cbn [rfc_encode rfc_groups]; unfold group;
      rewrite ?value_pad, !value_of by zlia; cbn [mbind option_bind andb Z.eqb Pos.eqb].
    + cbn. f_equal. f_equal. zlia.
    + cbn. f_equal. f_equal; [zlia|]. f_equal. zlia.
    + rewrite IH by done. cbn. f_equal. f_equal; [zlia|]. f_equal; [zlia|]. f_equal. zlia.
  - intros d. unfold rfc_decode. enough (∀ o, rfc_groups d = Some o → 4 * Z.of_nat (length o) <= 3 * Z.of_nat (length d)).
    { destruct (rfc_groups d); cbn; [auto|lia]. }
    induction d as [l Hl|w x y z l IH] using list4_ind.
    + intros o. destruct l as [|? [|? [|? [|]]]]; cbn in Hl |- *; try done; [by intros [= <-]|lia].
    + intros o. cbn [rfc_groups]. destruct (group _ _ _ _ _) as [g|] eqn:Eg; [|done].
      destruct (rfc_groups l) as [r|]; [|done]. intros [= <-]. specialize (IH r eq_refl).
      apply group_length in Eg. rewrite length_app. cbn [length]. lia.
  - intros d Hd. unfold rfc_decode. destruct (rfc_groups d) as [o|] eqn:E; [|done]. intros _. cbn.
    destruct d as [|w [|x [|y [|z l]]]]; try done. cbn [rfc_groups] in E.
    destruct (group _ _ _ _ _) as [g|] eqn:Eg; [|done]. destruct (rfc_groups l); [|done].
    apply group_length in Eg. injection E as <-. destruct g; cbn in Eg |- *; [lia|done].
Qed.

(** ** Examples *)

Lemma base64_buffers_witness :
  outcome 0 9 [Chain.MMalloc 4; Chain.MFree 9; Chain.MWrite 1 (lit "aGk=") 4] Chain.RetLastWrite
  ∧ outcome 1 9 [Chain.MMalloc 2; Chain.MFree 2] (Chain.RetConst (-1)).
Proof.
  split.
  - exact (proj2 (base64_buffers rfc_encode rfc_decode (λ _, true) (mkCtx false 0) 0 0 (lit "hi") 9 eq_refl)).
  - exact (proj2 (base64_buffers rfc_encode rfc_decode (λ _, true) (mkCtx false 0) 1 0 (lit "hi") 9 eq_refl)).
Defined.

(** base64 behind split and in front of it (the text lists the modules from the wire); three
    connections; the chunks arrive in reverse on one of them, after a packet that is not
    base64. *)
Definition demo_text : bytes := lit "h:1,pw;base64|trace;split|n:3,s:64;base64".
Definition demo_params : bytes := lit "n:3,s:64".
Definition demo_x0 : Split.SplitContext := Split.new_ctx 3 64 64.
Definition demo_pre : list ModuleSpec := [Config.copy_spec; mkSpec s_base64 []].
Definition demo_tail : list ModuleSpec := [mkSpec s_base64 (lit "trace"); Config.copy_spec].
Definition demo_effect := effect rfc_encode rfc_decode.
Definition demo_ops : list Chain.op :=
  [Chain.OpPush 200 (repeat 7 200) 0 0; Chain.OpWork 0; Chain.OpWork 0; Chain.OpPush 3 [1; 2; 3] 0 0;
   Chain.OpTick 5000 1000; Chain.OpWork 9].
Definition demo_settled (now : Z) (ops : list Chain.op) :=
  SplitChain.settled init (chain_process rfc_encode rfc_decode) demo_effect demo_pre demo_params demo_tail
    SplitChain.demo_endpoint now ops.
Definition demo_sent : list bytes := SplitChain.on_wire (Chain.exits (demo_settled 0 demo_ops)).
Definition demo_got : list bytes := lit "?!" :: reverse demo_sent.
Definition demo_ops' : list Chain.op := map (λ d, Chain.OpPush 9 d 2 1) demo_got.

Definition good_chunk (d : bytes) : bool :=
  negb (bool_decide (d = []))
  && match ChainFlow.decode demo_effect demo_tail d with
     | Some e => SplitChain.chunk_fitsb e
     | None => true
     end.

Lemma b64_demo_valid (l : list bytes) :
  forallb good_chunk l = true →
  Forall (SplitChain.valid_op demo_effect demo_pre demo_tail demo_x0) (map (λ d, Chain.OpPush 9 d 2 1) l).
Proof.
  induction l as [|d l IH]; [by constructor|]. cbn [forallb map]. intros [Hd Hl]%andb_prop.
  constructor; [|by apply IH]. unfold good_chunk in Hd. apply andb_prop in Hd as [Hne Hd].
  split; [intros ->; done|]. right. split_and!; [done..|]. intros e He. rewrite He in Hd. by apply SplitChain.chunk_fitsb_ok.
Qed.

Lemma demo_invertible :
  Forall (SplitChain.invertible init (chain_process rfc_encode rfc_decode) demo_effect) (demo_pre ++ demo_tail).
Proof.
  repeat apply Forall_cons_2; [..|done]; (split_and!; [done|apply (base64_relays rfc_encode rfc_decode); (by left) || by right|apply (base64_inverts rfc_encode rfc_decode)]).
Qed.

Lemma b64_got_good : forallb good_chunk demo_got = true.
Proof. vm_compute. reflexivity. Qed.

Lemma base64_tunnel_witness :
  length demo_sent = 6%nat
  ∧ SplitChain.to_user (Chain.exits (demo_settled 7 demo_ops')) = [repeat 7 200; [1; 2; 3]].
Proof.
  split; [vm_compute; reflexivity|].
  apply (base64_tunnel rfc_encode rfc_decode demo_text demo_params demo_pre demo_tail demo_x0 [Chain.IOutputs 2]
           SplitChain.demo_endpoint SplitChain.demo_endpoint 0 7 demo_ops demo_ops'
           SplitChain.demo_healthy SplitChain.demo_healthy).
  - vm_compute. reflexivity.
  - repeat apply Forall_cons_2; try done; (by left) || by right.
  - reflexivity.
  - repeat apply Forall_cons_2; try done; by split; [|left; split; [done|intros e [= <-]]].
  - apply b64_demo_valid, b64_got_good.
  - apply SplitChain.demo_packets.
  - done.
  - intros d. unfold demo_ops', demo_got. rewrite SplitChain.demo_pushes. intros Hd. right.
    rewrite elem_of_reverse. exact Hd.
  - intros d. unfold demo_ops', demo_got. rewrite SplitChain.demo_pushes, elem_of_cons, elem_of_reverse.
    unfold demo_sent, demo_settled. intros [Hd|Hd]; [right; subst d; vm_compute; reflexivity|left; exact Hd].
Defined.

End Base64.
