(* ===== verification/ChainGraph.v ===== *)
(** * The module graph of a chain

    The constructor links the instances of the main chain and of the sub-chains of
    additional outputs by raw pointers, indices here. Every pointer it leaves is to an
    instance that exists, every wire port has the instance that serves it, and no use of
    the chain follows a null pointer. *)

From coqutil Require Import Datatypes.RecordSetters.
From S2P Require Import Prelude ChainApi Chain Copy.
Import DoubleBraceUpdate.
Local Open Scope Z_scope.

Module ChainGraph.
Import Chain.

Section graph.
Context {X : Type}.
Context (init : ModuleSpec → option (X * list init_ev)).
Context (process : bytes → X → Z → Z → option (bytes * Z) → X * list mod_ev * mod_ret).
Context (wire_ret : Z → bytes → Z).
Context (malloc_ok : Z → Z → bool).

#[local] Abbreviation Mod := (@Chain.Module X).
#[local] Abbreviation Build := (@Chain.Build X).
#[local] Abbreviation Chain := (@Chain.Chain X).

(** ** Well-formed graphs *)

Definition ptr_ok (k : nat) (p : option nat) : Prop :=
  match p with None => True | Some i => (i < k)%nat end.

Definition near_ok (l : list Mod) : Prop := Forall (λ md, Forall (ptr_ok (length l)) (near md)) l.
Definition reqs_ok (b : Build) : Prop :=
  Forall (λ e, (e.1 < length (build b))%nat) (requested b).
Definition graph_ok (b : Build) : Prop := near_ok (build b) ∧ reqs_ok b.

Definition wires (l : list Mod) : list Z := wire_dst <$> l.

(** Port [p] is served by an instance that writes to it. *)
Definition ports_ok (l : list Mod) (entries : list (option nat)) : Prop :=
  ∀ p, (1 <= p < length entries)%nat →
    ∃ m, entries !! p = Some (Some m) ∧ wires l !! m = Some (Z.of_nat p).

Lemma ptr_ok_mono k k' p : (k <= k')%nat → ptr_ok k p → ptr_ok k' p.
Proof. destruct p; cbn; lia. Qed.

Lemma near_ok_alter l g i :
  near_ok l → (∀ md, Forall (ptr_ok (length l)) (near md) → Forall (ptr_ok (length l)) (near (g md))) →
  near_ok (alter g i l).
Proof.
  unfold near_ok. intros Hl Hg. rewrite length_alter. apply Forall_alter; [done|]. intros; auto.
Qed.

Lemma near_ok_set_near l m i p :
  near_ok l → ptr_ok (length l) p → near_ok (set_near m i p l).
Proof.
  intros Hl Hp. apply near_ok_alter; [done|]. intros [? ? nr] Hm. cbn in *.
  by apply Forall_insert.
Qed.

Lemma near_ok_wire_dst l m port : near_ok l → near_ok (set_wire_dst m port l).
Proof. intros Hl. apply near_ok_alter; [done|]. by intros []. Qed.

Lemma wires_set_near l m i p : wires (set_near m i p l) = wires l.
Proof.
  unfold wires, set_near. apply list_eq. intros j. rewrite !list_lookup_fmap.
  destruct (decide (m = j)) as [<-|]; [|by rewrite list_lookup_alter_ne].
  rewrite list_lookup_alter_eq. by destruct (l !! m) as [[]|].
Qed.

Lemma length_set_near (l : list Mod) m i p : length (set_near m i p l) = length l.
Proof. apply length_alter. Qed.
Lemma length_set_wire_dst (l : list Mod) m p : length (set_wire_dst m p l) = length l.
Proof. apply length_alter. Qed.

Lemma wires_set_wire_dst (l : list Mod) m p :
  (m < length l)%nat → wires (set_wire_dst m p l) !! m = Some p.
Proof.
  intros Hm. unfold wires, set_wire_dst. rewrite list_lookup_fmap, list_lookup_alter_eq.
  by destruct (lookup_lt_is_Some_2 l m Hm) as [[] ->].
Qed.

(** ** Construction keeps it *)

Lemma request_outputs_ok m count (r : list (nat * Z)) k :
  (m < k)%nat → Forall (λ e, (e.1 < k)%nat) r → Forall (λ e, (e.1 < k)%nat) (request_outputs m count r).
Proof.
  intros Hm Hr. unfold request_outputs. case_match; [done|]. apply Forall_app. split; [|by constructor].
  rewrite Forall_forall in *. intros e [_ He]%list_elem_of_filter. auto.
Qed.

Lemma run_init_ok m k evs : ∀ (st : Mod * list (nat * Z)),
  (m < k)%nat → Forall (λ e, (e.1 < k)%nat) st.2 →
  let st' := foldl (run_init m) st evs in
  Forall (λ e, (e.1 < k)%nat) st'.2 ∧ near st'.1 = near st.1 ∧ wire_dst st'.1 = wire_dst st.1.
Proof.
  induction evs as [|[c|i] evs IH]; intros [md r] Hm Hr; cbn [foldl run_init]; [done| |].
  - apply (IH (md, request_outputs m c r)); [done|]. by apply request_outputs_ok.
  - destruct (IH (request_heartbeat i md, r) Hm Hr) as (H1 & H2 & H3). by destruct md.
Qed.

Lemma create_one_ok now spec cidx b b' :
  graph_ok b → create_one init now spec cidx b = Some b' →
  graph_ok b' ∧ ∃ md, build b' = build b ++ [md].
Proof.
  intros [Hn Hr] H. unfold create_one in H. destruct (init spec) as [[x evs]|]; [|done]. cbn in H.
  pose proof (run_init_ok (length (build b)) (S (length (build b))) evs
    (mkMod (name spec) (next_id b) [None; None] (-1) cidx x 0 now, requested b)) as Hi.
  destruct (foldl _ _ _) as [md req]. injection H as <-. cbn in Hi.
  destruct Hi as (Hreq & Hnear & _); [lia|eapply Forall_impl; [exact Hr|]; intros; cbn in *; lia|].
  split; [|by exists md]. split; unfold near_ok, reqs_ok; cbn; rewrite length_app, Nat.add_1_r; [|done].
  apply Forall_app. split.
  - eapply Forall_impl; [exact Hn|]. intros md' H'. eapply Forall_impl; [exact H'|].
    intros p. apply ptr_ok_mono. lia.
  - constructor; [|done]. rewrite Hnear. by repeat constructor.
Qed.

Lemma create_main_ok now specs : ∀ i b b',
  graph_ok b → create_main init now specs i b = Some b' →
  graph_ok b' ∧ length (build b') = (length (build b) + length specs)%nat.
Proof.
  induction specs as [|s specs IH]; intros i b b' Hb H; cbn [create_main] in H.
  { injection H as <-. cbn. by rewrite Nat.add_0_r. }
  destruct (create_one init now s i b) as [b1|] eqn:E; [|done]. cbn in H.
  destruct (create_one_ok _ _ _ _ _ Hb E) as [Hb1 [md Hl]].
  destruct (IH _ _ _ Hb1 H) as [Hb' ->]. rewrite Hl, length_app. cbn. split; [done|lia].
Qed.

Lemma link_main_near l : near_ok (link_main l).
Proof.
  unfold near_ok, link_main. rewrite length_imap. apply Forall_lookup_2. intros i md Hi.
  rewrite list_lookup_imap in Hi. destruct (l !! i) as [[]|] eqn:E; [|done]. injection Hi as <-.
  apply lookup_lt_Some in E.
  change (Forall (ptr_ok (length l)) [if (i =? 0)%nat then None else Some (i - 1)%nat;
            if (i + 1 <? length l)%nat then Some (i + 1)%nat else None]).
  rewrite !Forall_cons. split_and!; [| |by apply Forall_nil];
    destruct (Nat.eqb_spec i 0), (Nat.ltb_spec (i + 1) (length l)); unfold ptr_ok; try done; lia.
Qed.

(** The instances of a sub-chain are new ones; the ports of the old ones stay. *)
Lemma create_sub_ok now mod_ specs : ∀ prev b b' last,
  graph_ok b → (prev < length (build b))%nat →
  create_sub init now mod_ prev specs b = Some (b', last) →
  graph_ok b' ∧ wires (build b) `prefix_of` wires (build b')
  ∧ (length (build b) <= length (build b'))%nat ∧ (prev <= last < length (build b'))%nat
  ∧ (specs ≠ [] → (length (build b) <= last)%nat).
Proof.
  induction specs as [|[ri spec] specs IH]; intros prev b b' last Hb Hp H; cbn [create_sub] in H.
  { injection H as <- <-. split_and!; done || lia. }
  destruct (create_one init now spec ri b) as [b1|] eqn:E; [|done].
  destruct (create_one_ok _ _ _ _ _ Hb E) as [[Hn1 Hr1] [md Hl]].
  assert (length (build b1) = S (length (build b))) as Hlen by (rewrite Hl, length_app; cbn; lia).
  cbn [mbind option_bind] in H.
  set (l1 := set_near (length (build b)) 0 (Some prev) (build b1)) in H.
  set (l2 := if (prev =? mod_)%nat then l1 else set_near prev 1 (Some (length (build b))) l1) in H.
  assert (near_ok l2 ∧ wires l2 = wires (build b1) ∧ length l2 = length (build b1)) as (Hn2 & Hw2 & Hl2).
  { assert (near_ok l1) as Hn by (apply near_ok_set_near; cbn; [done|lia]).
    assert (wires l1 = wires (build b1)) as Hw1 by apply wires_set_near.
    assert (length l1 = length (build b1)) as Hl1 by apply length_set_near.
    subst l2. case_match; [done|]. rewrite wires_set_near, length_set_near. split_and!; try done.
    apply near_ok_set_near; [done|]. cbn. lia. }
  assert (wires (build b) `prefix_of` wires l2) as Hpre.
  { rewrite Hw2, Hl. unfold wires. rewrite fmap_app. by eexists. }
  apply IH in H as ((Hn' & Hr') & Hw' & Hle & Hlast & Hfirst); cbn in *; unfold constant in *.
  - split_and!; [by split| |lia|lia|lia|lia].
    etransitivity; [exact Hpre|exact Hw'].
  - split; [done|]. unfold reqs_ok. cbn. unfold constant. by rewrite Hl2.
  - unfold constant. lia.
Qed.

(** The state of phase 2. *)
Definition phase_ok (st : Build * list (option nat) * nat) : Prop :=
  let '(b, entries, port) := st in
  graph_ok b ∧ length entries = port ∧ ports_ok (build b) entries ∧ (2 <= port)%nat.

Lemma ports_ok_extend l l' entries port m :
  ports_ok l entries → length entries = port → (1 <= port)%nat →
  wires l `prefix_of` wires l' → (length l <= m < length l')%nat →
  ports_ok (set_wire_dst m (Z.of_nat port) l') (entries ++ [Some m]).
Proof.
  intros Hp Hlen Hport [k Hk] Hm p Hp'. rewrite length_app in Hp'. cbn in Hp'.
  assert (∀ j, wires (set_wire_dst m (Z.of_nat port) l') !! j =
               if decide (m = j) then (λ _, Z.of_nat port) <$> l' !! m else wires l' !! j) as Hw.
  { intros j. unfold wires, set_wire_dst. rewrite !list_lookup_fmap, list_lookup_alter.
    case_decide; [|done]. by destruct (l' !! m) as [[]|]. }
  destruct (decide (p = port)) as [->|Hne].
  - exists m. rewrite Hw, decide_True by done. rewrite lookup_app_r, <- Hlen, Nat.sub_diag by lia.
    split; [done|]. destruct (lookup_lt_is_Some_2 l' m) as [md ->]; [lia|done].
  - destruct (Hp p) as (m' & He & Hm'); [lia|]. exists m'.
    rewrite lookup_app_l, Hw by lia. split; [done|].
    pose proof (lookup_lt_Some _ _ _ Hm') as Hlt. unfold wires in Hlt. rewrite length_fmap in Hlt.
    rewrite decide_False by lia. rewrite Hk. by apply lookup_app_l_Some.
Qed.

(** Only the number of instances matters for requests. *)
Lemma reqs_ok_build (b : Build) l :
  length l = length (build b) → reqs_ok b → reqs_ok (b{{build := l}}).
Proof. unfold reqs_ok. cbn. unfold constant. by intros ->. Qed.

Lemma create_outputs_ok now cfg mod_ mc n : ∀ k b entries port st',
  phase_ok (b, entries, port) → (mod_ < length (build b))%nat → (S mc < length cfg)%nat →
  create_outputs init now cfg mod_ mc k n (b, entries, port) = Some st' →
  phase_ok st' ∧ (length (build b) <= length (build st'.1.1))%nat.
Proof.
  induction n as [|n IH]; intros k b entries port st' Hst Hm Hmc H; cbn [create_outputs] in H.
  { injection H as <-. done. }
  destruct Hst as (Hb & Hlen & Hp & Hport).
  destruct (create_sub init now mod_ mod_ (tail_specs cfg mc) b) as [[b1 last]|] eqn:E; [|done].
  cbn [mbind option_bind] in H.
  apply create_sub_ok in E as ((Hn1 & Hr1) & Hw1 & Hle & Hlast & Hnew); [|done..].
  assert (length (build b) <= last)%nat as Hnew'.
  { apply Hnew. unfold tail_specs. intros Hnil. apply (f_equal length) in Hnil.
    rewrite length_drop, length_imap in Hnil. cbn in Hnil. lia. }
  set (l1 := set_wire_dst last (Z.of_nat port) (build b1)) in H.
  set (l2 := set_near mod_ (1 + k) (Some (length (build b))) l1) in H.
  assert (length l2 = length (build b1)) as Hl2
    by (subst l2 l1; by rewrite length_set_near, length_set_wire_dst).
  replace (<[port:=Some last]> (entries ++ replicate (S port - length entries) None))
    with (entries ++ [Some last]) in H.
  2:{ rewrite Hlen. replace (S port - port)%nat with 1%nat by lia.
      rewrite insert_app_r_alt, Hlen, Nat.sub_diag by lia. done. }
  apply IH in H as [Hst' Hlen'].
  - split; [done|]. cbn in Hlen'. unfold constant in Hlen'. lia.
  - split; [split|].
    + change (near_ok l2). apply near_ok_set_near; [by apply near_ok_wire_dst|].
      unfold l1. rewrite length_set_wire_dst. cbn. lia.
    + by apply reqs_ok_build.
    + split_and!; [rewrite length_app; cbn; lia| |lia]. change (ports_ok l2 (entries ++ [Some last])).
      unfold ports_ok, l2. rewrite wires_set_near. by apply (ports_ok_extend (build b)); try lia.
  - change (mod_ < length l2)%nat. lia.
  - done.
Qed.

Lemma serve_request_ok now cfg b entries port req st' :
  phase_ok (b, entries, port) → (req.1 < length (build b))%nat →
  serve_request init now cfg (b, entries, port) req = Some st' →
  phase_ok st' ∧ (length (build b) <= length (build st'.1.1))%nat.
Proof.
  intros Hst Hm H. destruct req as [m count]. unfold serve_request in H.
  destruct (build b !! m) as [x|]; [|by injection H as <-].
  destruct (Nat.leb_spec (length cfg) (S (cfg_idx x))); [by injection H as <-|].
  set (l := alter _ m (build b)) in H.
  assert (length l = length (build b)) as Hl by apply length_alter.
  apply create_outputs_ok in H; [|clear H|change (m < length l)%nat; cbn in *; lia|done].
  { destruct H as [? H]. split; [done|]. cbn in H. unfold constant in H. lia. }
  destruct Hst as ((Hn & Hr) & Hlen & Hp & Hport). split_and!; [split| | |].
  - change (near_ok l). apply near_ok_alter; [done|]. intros [? ? nr] Hnr. cbn in *.
    apply Forall_app. split; [done|]. by apply Forall_replicate.
  - by apply reqs_ok_build.
  - done.
  - change (ports_ok l entries). unfold ports_ok.
    replace (wires l) with (wires (build b)); [done|]. unfold wires, l. apply list_eq. intros j.
    rewrite !list_lookup_fmap, list_lookup_alter. case_decide; [subst|done].
    by destruct (build b !! j) as [[]|].
  - done.
Qed.

Lemma serve_all_ok now cfg reqs : ∀ b entries port st',
  phase_ok (b, entries, port) → Forall (λ e, (e.1 < length (build b))%nat) reqs →
  serve_all init now cfg reqs (b, entries, port) = Some st' →
  phase_ok st' ∧ (length (build b) <= length (build st'.1.1))%nat.
Proof.
  induction reqs as [|r reqs IH]; intros b entries port st' Hst Hr H; cbn [serve_all] in H.
  { by injection H as <-. }
  apply Forall_cons in Hr as [Hr Hrs].
  destruct (serve_request _ _ _ _ _) as [[[b1 e1] p1]|] eqn:E; [|done].
  destruct (serve_request_ok _ _ _ _ _ _ _ Hst Hr E) as [Hst1 Hle]. cbn in Hle, H.
  apply IH in H as [? ?]; [split; [done|lia]|done|].
  eapply Forall_impl; [exact Hrs|]. cbn. intros. lia.
Qed.

Lemma phase2_ok now cfg k : ∀ b entries port st',
  phase_ok (b, entries, port) → phase2 init k now cfg (b, entries, port) = Some st' →
  phase_ok st' ∧ (length (build b) <= length (build st'.1.1))%nat.
Proof.
  induction k as [|k IH]; intros b entries port st' Hst H; cbn [phase2] in H.
  { by injection H as <-. }
  destruct (requested b) as [|r reqs] eqn:Er; [by injection H as <-|].
  destruct Hst as ((Hn & Hr) & Hst). unfold reqs_ok in Hr. rewrite Er in Hr.
  destruct (serve_all _ _ _ _ _) as [[[b1 e1] p1]|] eqn:E; [|done].
  apply serve_all_ok in E as [Hst1 Hle]; [|split; [split; [exact Hn|by constructor]|exact Hst]|exact Hr].
  change (length (build b) <= length (build b1))%nat in Hle.
  apply IH in H as [? ?]; [|done]. split; [done|lia].
Qed.

(** A chain whose construction went through. *)
Definition linked (c : Chain) : Prop :=
  near_ok (modules c) ∧ ports_ok (modules c) (wire_entries c)
  ∧ (entry_ext c = true → (0 < length (modules c))%nat)
  ∧ ((0 < length (modules c))%nat → (2 <= length (wire_entries c))%nat).

Lemma chain_new_linked now cfg :
  let c := chain_new init now cfg in modules c ≠ [] ∨ entry_ext c = false → linked c.
Proof.
  intros c. unfold c, chain_new. destruct (create_main init now cfg 0 (mkBuild [] [] 0)) as [b|] eqn:E.
  2:{ intros _. split_and!; [by constructor|intros p; cbn; lia|done|cbn; lia]. }
  apply create_main_ok in E as ((Hn & Hr) & Hlen); [|by split; constructor]. cbn in Hlen.
  destruct (build b) as [|md l] eqn:Eb.
  { intros _. split_and!; [by constructor|intros p; cbn; lia|done|cbn; lia]. }
  assert (0 < length (build b))%nat as Hpos by (rewrite Eb; cbn; lia).
  rewrite <- Eb in *. clear md l Eb. set (last := (length (build b) - 1)%nat).
  set (l := set_wire_dst last 1 (set_wire_dst 0 0 (link_main (build b)))).
  assert (length l = length (build b)) as Hl.
  { unfold l, link_main. by rewrite !length_set_wire_dst, length_imap. }
  destruct (phase2 _ _ _ _ _) as [[[b' e'] p']|] eqn:E; [|cbn; by intros [|]].
  intros Hne. cbn [modules fresh entry_ext wire_entries] in *.
  apply phase2_ok in E as [((Hn' & _) & Hlen' & Hp' & Hge) Hle].
  - split_and!; [done|done| |cbn in *; lia]. intros _. destruct Hne as [Hne|Hne]; [|done].
    cbn. destruct (build b'); [done|cbn; lia].
  - split_and!; [split| | |]; [|by apply reqs_ok_build|done| |done].
    + change (near_ok l). apply near_ok_wire_dst, near_ok_wire_dst, link_main_near.
    + change (ports_ok l [None; Some last]). intros p Hp. replace p with 1%nat by (cbn in *; lia).
      exists last. split; [done|]. apply wires_set_wire_dst.
      rewrite length_set_wire_dst. unfold link_main. rewrite length_imap. lia.
Qed.

(** ** Running it *)

Definition safe (c : Chain) : Prop :=
  linked c ∧ Forall (λ t, (t_mod t < length (modules c))%nat) (queue c) ∧ crashed c = false.

(** Packets of the wire come from connections 1, 2, ... *)
Definition port_op (o : op) : Prop :=
  match o with OpPush _ _ src dir => dir = 0 ∨ src ≠ 0 | _ => True end.

Lemma safe_enqueue m d a s dir c :
  safe c → (m < length (modules c))%nat → safe (enqueue_module m d a s dir c).
Proof.
  intros (Hl & Hq & Hc) Hm. unfold enqueue_module. case_match; [done|].
  split_and!; [exact Hl| |exact Hc]. apply Forall_app. split; [exact Hq|by constructor].
Qed.

Lemma safe_modules g i c :
  (∀ md, near (g md) = near md ∧ wire_dst (g md) = wire_dst md) → safe c →
  safe (c{{modules ::= alter g i}}).
Proof.
  intros Hg ((Hn & Hp & He & Hge) & Hq & Hc). destruct c as [l]. unfold safe, linked. cbn in *.
  assert (wires (alter g i l) = wires l) as Hw.
  { unfold wires. apply list_eq. intros j. rewrite !list_lookup_fmap, list_lookup_alter.
    case_decide; [subst|done]. destruct (l !! j) as [md|]; [|done]. cbn. f_equal. apply Hg. }
  rewrite length_alter. split_and!; try done.
  - apply near_ok_alter; [done|]. intros md. by rewrite (proj1 (Hg md)).
  - unfold ports_ok. by rewrite Hw.
Qed.

Lemma safe_write m md src dst d a c :
  safe c → Forall (ptr_ok (length (modules c))) (near md) →
  safe (write_packet wire_ret m md src dst d a c).1.
Proof.
  intros Hc Hn. unfold write_packet.
  destruct (if dst <? 0 then None else near md !! Z.to_nat dst) as [[p|]|] eqn:E; cbn [fst]; try done.
  apply safe_enqueue; [done|]. case_match; [done|].
  exact (Forall_lookup_1 _ _ _ _ Hn E).
Qed.

Lemma run_events_safe m md evs : ∀ src last c,
  safe c → Forall (ptr_ok (length (modules c))) (near md) →
  safe (run_events wire_ret malloc_ok m md src evs last c).1.
Proof.
  induction evs as [|[k|k|s|i|dst d a] evs IH]; intros src last c Hc Hn; cbn [run_events]; try done.
  - unfold alloc_buffer. case_match; by apply IH.
  - by apply IH.
  - by apply IH.
  - apply IH; [by apply safe_modules; [intros []|]|]. cbn. by rewrite length_alter.
  - pose proof (safe_write m md src dst d a c Hc Hn) as Hw.
    assert (modules (write_packet wire_ret m md src dst d a c).1 = modules c) as Hm.
    { unfold write_packet, enqueue_module. by repeat case_match. }
    destruct (write_packet _ _ _ _ _ _ _ _) as [c' r]. cbn [fst] in *. apply IH; [done|by rewrite Hm].
Qed.

Lemma safe_near c i md :
  safe c → modules c !! i = Some md → Forall (ptr_ok (length (modules c))) (near md).
Proof. intros ((Hn & _) & _) Hi. exact (Forall_lookup_1 _ _ _ _ Hn Hi). Qed.

Lemma run_task_safe now t c :
  safe c → (t_mod t < length (modules c))%nat →
  safe (run_task process wire_ret malloc_ok now t c).
Proof.
  intros Hc Ht. unfold run_task. destruct (cancelled c); [done|].
  destruct (lookup_lt_is_Some_2 _ _ Ht) as [md Hmd]. rewrite Hmd.
  destruct (process _ _ _ _ _) as [[x' evs] r]. set (c1 := set_ctx _ _ _).
  assert (safe c1) as H1.
  { apply safe_modules; [by intros []|]. apply safe_modules; [by intros []|done]. }
  assert (length (modules c1) = length (modules c)) as Hl1.
  { unfold c1, set_ctx. cbn. by rewrite !length_alter. }
  pose proof (run_events_safe (t_mod t) md evs (t_src t) 0 c1 H1) as H2. rewrite Hl1 in H2.
  specialize (H2 (safe_near _ _ _ Hc Hmd)).
  destruct (run_events _ _ _ _ _ _ _ _) as [c2 last]. cbn [fst] in H2. by case_match.
Qed.

(** The time stamp of a heartbeat. *)
Lemma stamp_safe now ms m (md md' : Mod) due c :
  safe c → modules c !! m = Some md → heartbeat_due now ms md = (due, md') →
  let c1 := c{{modules ::= <[m := md']>}} in safe c1 ∧ length (modules c1) = length (modules c).
Proof.
  intros Hc Hm Hdue c1. assert (near md' = near md ∧ wire_dst md' = wire_dst md) as [Hn Hw].
  { unfold heartbeat_due in Hdue. repeat case_match; injection Hdue as <- <-; by destruct md. }
  destruct Hc as ((Hnr & Hp & He & Hge) & Hq & Hcr). unfold c1. destruct c as [l]. cbn in *.
  rewrite length_insert. split; [|done]. unfold safe, linked. cbn. rewrite length_insert.
  split_and!; try done.
  - unfold near_ok. rewrite length_insert. apply Forall_insert; [done|]. rewrite Hn.
    exact (Forall_lookup_1 _ _ _ _ Hnr Hm).
  - unfold ports_ok, wires. rewrite list_fmap_insert, Hw, list_insert_id; [done|].
    by rewrite list_lookup_fmap, Hm.
Qed.

Lemma tick_safe now ms m c : safe c → safe (tick_module process wire_ret malloc_ok now ms m c).
Proof.
  intros Hc. unfold tick_module. destruct (modules c !! m) as [md|] eqn:Hm; [|done].
  destruct (heartbeat_due now ms md) as [due md'] eqn:Hdue.
  destruct (stamp_safe now ms m md md' due c Hc Hm Hdue) as [H1 Hl1].
  set (c1 := c{{modules ::= <[m := md']>}}) in *.
  destruct due; [|done]. destruct (process _ _ _ _ _) as [[x' evs] r].
  apply run_events_safe; [by apply safe_modules; [intros []|]|].
  unfold set_ctx. cbn -[c1]. rewrite length_alter. setoid_rewrite Hl1. by eapply safe_near.
Qed.

Lemma run_op_safe c o : safe c → port_op o → safe (run_op process wire_ret malloc_ok c o).
Proof.
  intros Hc Ho. destruct o as [a d s dir|k|k|now|now ms|]; cbn [run_op]; try done.
  - pose proof Hc as ((_ & Hp & He & _) & _). unfold push_packet. destruct (cancelled c); [done|].
    destruct (entry_ext c); [|done]. destruct (owner c); [|done]. cbn [negb].
    destruct (Z.eqb_spec dir 0); [apply safe_enqueue; auto|].
    destruct (Z.ltb_spec s 0), (Z.leb_spec (Z.of_nat (length (wire_entries c))) s); try done. cbn [orb].
    destruct (Hp (Z.to_nat s)) as (m & -> & Hm); [destruct Ho; lia|].
    apply safe_enqueue; [done|]. apply lookup_lt_Some in Hm. unfold wires in Hm.
    by rewrite length_fmap in Hm.
  - unfold alloc_buffer. by case_match.
  - unfold work. destruct (queue c) as [|t rest] eqn:E; [done|]. destruct Hc as (Hl & Hq & Hc).
    rewrite E in Hq. apply Forall_cons in Hq as [Ht Hq]. by apply run_task_safe.
  - unfold check_module_heartbeats. generalize (seq 0 (length (modules c))). intros l.
    revert c Hc. induction l as [|m l IH]; intros c Hc; [done|]. cbn [foldl]. by apply IH, tick_safe.
Qed.

Lemma chain_new_fresh now cfg :
  let c := chain_new init now cfg in queue c = [] ∧ crashed c = false.
Proof. unfold chain_new. by repeat case_match. Qed.

(** No null or dangling module pointer: once a chain is built, whatever its modules
    do and however pushes, workers, heartbeats and a cancellation interleave, every task
    and every link leads to an instance of the chain. (Packets of the wire carry the
    number of their connection, which is never 0.) *)
Theorem chain_pointers_valid now cfg ops
    (Hbuilt : modules (chain_new init now cfg) ≠ [] ∨ entry_ext (chain_new init now cfg) = false)
    (Hports : Forall port_op ops) :
  let c := foldl (run_op process wire_ret malloc_ok) (chain_new init now cfg) ops in
  crashed c = false ∧ Forall (λ t, is_Some (modules c !! t_mod t)) (queue c).
Proof.
  assert (safe (chain_new init now cfg)) as H0.
  { destruct (chain_new_fresh now cfg) as [Hq Hc]. split; [by apply chain_new_linked|].
    rewrite Hq. by split. }
  assert (∀ c, safe c → safe (foldl (run_op process wire_ret malloc_ok) c ops)) as H.
  { clear H0 Hbuilt. induction Hports as [|o ops Ho _ IH]; intros c Hc; [done|].
    cbn. by apply IH, run_op_safe. }
  destruct (H _ H0) as (_ & Hq & Hc). split; [done|]. eapply Forall_impl; [exact Hq|].
  intros t. apply lookup_lt_is_Some_2.
Qed.

(** Every data connection the peer is told to open ([total_extra_outputs] of them
    besides the first) is served: port [p] has an entry module, and that module writes to
    port [p]. *)
Theorem wire_ports_served now cfg (p : nat)
    (Hbuilt : modules (chain_new init now cfg) ≠ [])
    (Hp : 1 <= Z.of_nat p <= 1 + total_extra_outputs (chain_new init now cfg)) :
  let c := chain_new init now cfg in
  ∃ m md, wire_entries c !! p = Some (Some m) ∧ modules c !! m = Some md
          ∧ wire_dst md = Z.of_nat p.
Proof.
  intros c. assert (linked c) as (_ & Hports & _ & Hge) by (apply chain_new_linked; by left).
  destruct (Hports p) as (m & He & Hw).
  { revert Hp. fold c in Hbuilt |- *. unfold total_extra_outputs.
    destruct (modules c); [done|]. specialize (Hge ltac:(cbn; lia)).
    destruct (Nat.ltb_spec (length (wire_entries c)) 2); lia. }
  unfold wires in Hw. rewrite list_lookup_fmap in Hw. destruct (modules c !! m) as [md|] eqn:E; [|done].
  cbn in Hw. injection Hw as Hw. by exists m, md.
Qed.

End graph.

(** A module that asks for two more outputs, and one that asks for none. *)
Definition fan_init (spec : ModuleSpec) : option (unit * list init_ev) :=
  Some (tt, if bool_decide (name spec = [115]) then [IOutputs 2] else []).
Definition fan_process (nm : bytes) (x : unit) (dir src : Z) (data : option (bytes * Z))
    : unit * list mod_ev * mod_ret :=
  match data with
  | None => (x, [], RetConst 0)
  | Some (d, a) => (x, [MWrite (if dir =? 0 then 2 else 0) d a], RetLastWrite)
  end.
Definition fan_cfg : list ModuleSpec := [mkSpec [115] []; mkSpec [99] []].
Definition fan_ops : list op := [OpPush 1 [7] 0 0; OpWork 0; OpPush 1 [8] 3 1; OpWork 0; OpWork 0].

Lemma chain_pointers_valid_witness :
  let c := foldl (run_op fan_process (λ _ _, 0) (λ _ _, true)) (chain_new fan_init 0 fan_cfg) fan_ops in
  crashed c = false ∧ Forall (λ t, is_Some (modules c !! t_mod t)) (queue c).
Proof.
  apply (chain_pointers_valid fan_init).
  - by left.
  - repeat constructor; cbn; lia.
Defined.

Lemma wire_ports_served_witness :
  let c := chain_new fan_init 0 fan_cfg in
  total_extra_outputs c = 2
  ∧ ∃ m md, wire_entries c !! 3%nat = Some (Some m) ∧ modules c !! m = Some md ∧ wire_dst md = 3.
Proof.
  split; [vm_compute; reflexivity|]. apply (wire_ports_served fan_init 0 fan_cfg 3).
  - done.
  - vm_compute. split; discriminate.
Defined.

End ChainGraph.
