(* ===== verification/Workers.v ===== *)
(** * Several workers on one chain (core/chain.cpp)

    [Chain] runs a task as one step. Here the function of a [WorkTask] is what the code
    has: the lock [nogap_mutex_] of the direction, the test of [_cancelled], the lock
    [dir_mutex] of the module, which overlaps it, and the calls of the module one by one;
    any number of workers, the heartbeats of the event loop and the operations of the
    endpoint interleave. A mutex is held by the thread that is between taking and
    releasing it. *)

From coqutil Require Import Datatypes.RecordSetters.
From S2P Require Import Prelude ChainApi Chain Copy ChainGraph.
Import DoubleBraceUpdate.
Local Open Scope Z_scope.

Module Workers.
Import Chain.

Section workers.
Context {X : Type}.
Context (init : ModuleSpec → option (X * list init_ev)).
Context (process : bytes → X → Z → Z → option (bytes * Z) → X * list mod_ev * mod_ret).
Context (wire_ret : Z → bytes → Z).
Context (malloc_ok : Z → Z → bool).

#[local] Abbreviation Mod := (@Chain.Module X).
#[local] Abbreviation Chain := (@Chain.Chain X).

(** ** Threads *)

(** Where a worker is in the function of its task. *)
Inductive pc :=
| Idle                       (* in the pool *)
| Entered (t : task)         (* about to take [nogap_mutex_[dir]] *)
| InGap (t : task)           (* holds it, about to test [_cancelled] *)
| Dropping (t : task)        (* has released it, the chain is cancelled *)
| AtModule (t : task)        (* holds it, about to take [dir_mutex[dir]] of the module *)
| Both (t : task)            (* holds both, about to release [nogap_mutex_] *)
| Before (t : task)          (* holds [dir_mutex], about to call [process_fn] *)
| Inside (t : task) (md : Mod) (src last : Z) (evs : list mod_ev) (r : mod_ret).
                             (* holds [dir_mutex], in [process_fn]: the calls left *)

(** The event loop in [check_module_heartbeats]. *)
Inductive beat_pc :=
| BIdle
| BDue (m : nat)             (* about to take [dir_mutex[0]] *)
| BOne (m : nat)             (* holds it, about to take [dir_mutex[1]] *)
| BBoth (m : nat)            (* holds both, about to call [process_fn] *)
| BIn (m : nat) (md : Mod) (src last : Z) (evs : list mod_ev).

(** [passed] and [called] are the history: tasks in the order in which they found the
    chain not cancelled, and in the order in which [process_fn] was called for them. *)
Record State := mkState {
  chain : Chain;
  workers : list pc;
  beat : beat_pc;
  passed : list task;
  called : list task
}.

Definition start (count : nat) (c : Chain) : State := mkState c (replicate count Idle) BIdle [] [].

(** ** The mutexes *)

Definition holds_gap (d : Z) (p : pc) : bool :=
  match p with InGap t | AtModule t | Both t => t_dir t =? d | _ => false end.

Definition holds_mod (m : nat) (d : Z) (p : pc) : bool :=
  match p with
  | Both t | Before t | Inside t _ _ _ _ _ => (t_mod t =? m)%nat && (t_dir t =? d)
  | _ => false
  end.

Definition beat_holds (m : nat) (d : Z) (b : beat_pc) : bool :=
  match b with
  | BOne m' => (m' =? m)%nat && (d =? 0)
  | BBoth m' | BIn m' _ _ _ _ => (m' =? m)%nat && ((d =? 0) || (d =? 1))
  | _ => false
  end.

Definition gap_free (d : Z) (s : State) : bool := negb (existsb (holds_gap d) (workers s)).
Definition mod_free (m : nat) (d : Z) (s : State) : bool :=
  negb (existsb (holds_mod m d) (workers s) || beat_holds m d (beat s)).

(** ** Steps *)

Definition set_pc (i : nat) (p : pc) (s : State) : State := s{{workers ::= <[i := p]>}}.
Definition upd (f : Chain → Chain) (s : State) : State := s{{chain ::= f}}.

(** One call of a module: the source index and the result of the last write with it. *)
Definition event (m : nat) (md : Mod) (src last : Z) (e : mod_ev) (c : Chain) : Chain * Z * Z :=
  match e with
  | MSetSrc src' => (c, src', last)
  | _ => let '(c', last') := run_events wire_ret malloc_ok m md src [e] last c in (c', src, last')
  end.

Definition touch (now : Z) (m : nat) (c : Chain) : Chain :=
  c{{modules ::= alter (λ md, md{{last_activity := now}}) m}}.

(** The end of the task's function. *)
Definition finish (t : task) (last : Z) (r : mod_ret) (c : Chain) : Chain :=
  let ret := match r with RetConst z => z | RetLastWrite => last end in
  task_done (if ret <? 0 then free_buffer (t_asize t) c else c).

Definition worker_step (now : Z) (i : nat) (s : State) : option State :=
  match workers s !! i with
  | Some Idle =>
      match queue (chain s) with
      | t :: rest => Some (set_pc i (Entered t) (upd (λ c, c{{queue := rest}}) s))
      | [] => None
      end
  | Some (Entered t) => if gap_free (t_dir t) s then Some (set_pc i (InGap t) s) else None
  | Some (InGap t) =>
      if cancelled (chain s) then Some (set_pc i (Dropping t) s) else
      match modules (chain s) !! t_mod t with
      | None => Some (set_pc i Idle (upd (λ c, task_done (c{{crashed := true}})) s))
      | Some _ => Some (set_pc i (AtModule t) (upd (touch now (t_mod t)) s{{passed ::= λ l, l ++ [t] }}))
      end
  | Some (Dropping t) =>
      Some (set_pc i Idle (upd (λ c, task_done (free_buffer (t_asize t) c)) s))
  | Some (AtModule t) =>
      if mod_free (t_mod t) (t_dir t) s then Some (set_pc i (Both t) s) else None
  | Some (Both t) => Some (set_pc i (Before t) s)
  | Some (Before t) =>
      match modules (chain s) !! t_mod t with
      | None => Some (set_pc i Idle (upd (λ c, task_done (c{{crashed := true}})) s))
      | Some md =>
          let '(x', evs, r) :=
            process (mod_name md) (ctx md) (t_dir t) (t_src t) (Some (t_data t, t_asize t)) in
          Some (set_pc i (Inside t md (t_src t) 0 evs r)
                  (upd (set_ctx (t_mod t) x') s{{called ::= λ l, l ++ [t] }}))
      end
  | Some (Inside t md src last [] r) => Some (set_pc i Idle (upd (finish t last r) s))
  | Some (Inside t md src last (e :: evs) r) =>
      let '(c', src', last') := event (t_mod t) md src last e (chain s) in
      Some (set_pc i (Inside t md src' last' evs r) (upd (λ _, c') s))
  | None => None
  end.

(** The event loop looks at module [m] and calls it when its heartbeat is due. *)
Definition beat_begin (now system_ms : Z) (m : nat) (s : State) : option State :=
  match beat s, modules (chain s) !! m with
  | BIdle, Some md =>
      let '(due, md') := heartbeat_due now system_ms md in
      Some (upd (λ c, c{{modules ::= <[m := md']>}}) s{{beat := if due : bool then BDue m else BIdle}})
  | _, _ => None
  end.

Definition beat_step (s : State) : option State :=
  match beat s with
  | BIdle => None
  | BDue m => if mod_free m 0 s then Some (s{{beat := BOne m}}) else None
  | BOne m => if mod_free m 1 s then Some (s{{beat := BBoth m}}) else None
  | BBoth m =>
      match modules (chain s) !! m with
      | None => Some (upd (λ c, c{{crashed := true}}) s{{beat := BIdle}})
      | Some md =>
          let '(x', evs, _) := process (mod_name md) (ctx md) (-1) 0 None in
          Some (upd (set_ctx m x') s{{beat := BIn m md 0 0 evs}})
      end
  | BIn m md src last [] => Some (s{{beat := BIdle}})
  | BIn m md src last (e :: evs) =>
      let '(c', src', last') := event m md src last e (chain s) in
      Some (upd (λ _, c') s{{beat := BIn m md src' last' evs}})
  end.

(** The operations of the endpoint, which [Chain] has as steps of their own too. *)
Definition endpoint_op (o : op) : bool :=
  match o with OpPush _ _ _ _ | OpAlloc _ | OpFree _ | OpCancel => true | _ => false end.

Inductive label :=
| LWorker (now : Z) (i : nat)
| LBeat (now system_ms : Z) (m : nat)
| LBeatGo
| LOp (o : op).

Definition exec (l : label) (s : State) : option State :=
  match l with
  | LWorker now i => worker_step now i s
  | LBeat now ms m => beat_begin now ms m s
  | LBeatGo => beat_step s
  | LOp o => if endpoint_op o
             then Some (upd (λ c, run_op process wire_ret malloc_ok c o) s) else None
  end.

Fixpoint run (ls : list label) (s : State) : option State :=
  match ls with
  | [] => Some s
  | l :: rest => s' ← exec l s; run rest s'
  end.

Inductive reachable (now : Z) (cfg : list ModuleSpec) (count : nat) : State → Prop :=
| reach_start : reachable now cfg count (start count (chain_new init now cfg))
| reach_step l s s' : reachable now cfg count s → exec l s = Some s' → reachable now cfg count s'.

(** ** Tasks finish *)

(** A step of a thread that is in a task or a heartbeat; taking a task is not one. *)
Definition is_idle (p : pc) : bool := match p with Idle => true | _ => false end.

Definition finishing (s' s : State) : Prop :=
  (∃ now i p, workers s !! i = Some p ∧ is_idle p = false ∧ worker_step now i s = Some s')
  ∨ beat_step s = Some s'.

(** What is left of the function, and of the calls of the module it is in. *)
Definition phase (p : pc) : nat :=
  match p with
  | Idle => 0 | Inside _ _ _ _ _ _ => 1 | Dropping _ => 1 | Before _ => 2 | Both _ => 3
  | AtModule _ => 4 | InGap _ => 5 | Entered _ => 6
  end.
Definition beat_phase (b : beat_pc) : nat :=
  match b with BIdle => 0 | BIn _ _ _ _ _ => 1 | BBoth _ => 2 | BOne _ => 3 | BDue _ => 4 end.
Definition calls (p : pc) : nat := match p with Inside _ _ _ _ evs _ => length evs | _ => 0 end.
Definition beat_calls (b : beat_pc) : nat := match b with BIn _ _ _ _ evs => length evs | _ => 0 end.

Definition phases (s : State) : nat := (sum_list_with phase (workers s) + beat_phase (beat s))%nat.
Definition calls_left (s : State) : nat := (sum_list_with calls (workers s) + beat_calls (beat s))%nat.

Lemma finishing_measure s' s : finishing s' s →
  (phases s' < phases s)%nat ∨ phases s' = phases s ∧ (calls_left s' < calls_left s)%nat.
Proof.
  destruct s as [c ws b pa ca]. unfold phases, calls_left. intros [(now & i & p & Hi & Hp & E)|E].
  - cbn in Hi. pose proof (λ q, sum_insert phase ws i p q Hi) as Hph.
    pose proof (λ q, sum_insert calls ws i p q Hi) as Hca.
    unfold worker_step in E. cbn in E. rewrite Hi in E.
    destruct p as [|t|t|t|t|t|t|t md src last [|e evs] r]; [done|..]; cbn in E; repeat case_match; simplify_eq;
      cbn -[sum_list_with insert];
      match goal with |- context [<[i := ?q]> ws] => specialize (Hph q); specialize (Hca q) end;
      cbn -[sum_list_with insert] in *; lia.
  - unfold beat_step in E. cbn in E.
    destruct b as [|m|m|m|m md src last [|e evs]]; [done|..]; repeat case_match; simplify_eq;
      cbn -[sum_list_with] in *; lia.
Qed.

Lemma finishing_wf s : Acc finishing s.
Proof.
  remember (phases s) as a eqn:Ha. revert s Ha.
  induction a as [a IHa] using lt_wf_ind. intros s Ha.
  remember (calls_left s) as b eqn:Hb. revert s Ha Hb.
  induction b as [b IHb] using lt_wf_ind. intros s -> ->.
  constructor. intros s' [Hlt|[Heq Hlt]]%finishing_measure.
  - by apply (IHa (phases s')).
  - by apply (IHb (calls_left s')).
Qed.

Lemma existsb_none {A} (f : A → bool) (l : list A) :
  (∀ i a, l !! i = Some a → f a = false) → existsb f l = false.
Proof.
  intros Hf. destruct (existsb f l) eqn:E; [|done]. apply existsb_exists in E as (a & Ha & Hfa).
  apply list_elem_of_In, list_elem_of_lookup in Ha as [i Hi]. by rewrite (Hf i a Hi) in Hfa.
Qed.

(** Threads that cannot move are not in a task. *)
Lemma none_finishing s : (∀ s', ¬ finishing s' s) →
  Forall (λ p, p = Idle) (workers s) ∧ beat s = BIdle.
Proof.
  intros Hno.
  assert (∀ i p, workers s !! i = Some p → is_idle p = false → worker_step 0 i s = None) as Hw.
  { intros i p Hi Hp. destruct (worker_step 0 i s) as [s'|] eqn:E; [|done].
    exfalso. apply (Hno s'). left. by exists 0, i, p. }
  assert (beat_step s = None) as Hb.
  { destruct (beat_step s) as [s'|] eqn:E; [|done]. exfalso. apply (Hno s'). by right. }
  destruct s as [c ws b pa ca]. cbn in *.
  assert (∀ m d, existsb (holds_mod m d) ws = false) as Hmod.
  { intros m d. apply existsb_none. intros i p Hi. pose proof (Hw i p Hi) as E.
    unfold worker_step in E. cbn in E. rewrite Hi in E.
    destruct p as [|t|t|t|t|t|t|t md src last [|e evs] r]; try done; cbn in *;
      specialize (E eq_refl); by repeat case_match. }
  assert (beat_holds 0 0 BIdle = false ∧ b = BIdle) as [_ ->].
  { split; [done|]. unfold beat_step, mod_free in Hb. cbn in Hb.
    destruct b as [|m|m|m|m md src last [|e evs]]; try done; cbn in Hb; rewrite ?Hmod in Hb; cbn in Hb.
    all: try destruct (m =? m)%nat; repeat case_match; done. }
  assert (∀ d, existsb (holds_gap d) ws = false) as Hgap.
  { intros d. apply existsb_none. intros i p Hi. pose proof (Hw i p Hi) as E.
    unfold worker_step, mod_free in E. cbn in E. rewrite Hi in E.
    destruct p as [|t|t|t|t|t|t|t md src last evs r]; try done; cbn in *; specialize (E eq_refl).
    all: rewrite ?Hmod in E; by repeat case_match. }
  split; [|done]. apply Forall_lookup. intros i p Hi. pose proof (Hw i p Hi) as E.
  unfold worker_step, mod_free, gap_free in E. cbn in E. rewrite Hi in E.
  destruct p as [|t|t|t|t|t|t|t md src last [|e evs] r]; try done; cbn in *; specialize (E eq_refl);
    rewrite ?Hmod, ?Hgap in E; by repeat case_match.
Qed.

(** [C24] Workers never deadlock: whatever mutexes they and the heartbeats hold, and however
    they are scheduled, the threads that are in a task come to its end after finitely many
    steps, and when none of them can move, none is in a task. *)
Theorem workers_never_deadlock (s : State) :
  Acc finishing s
  ∧ ∀ s', rtc (λ a b, finishing b a) s s' → (∀ s'', ¬ finishing s'' s') →
      Forall (λ p, p = Idle) (workers s') ∧ beat s' = BIdle.
Proof. split; [apply finishing_wf|]. intros s' _. apply none_finishing. Qed.

(** ** Accounting *)

Definition weight (p : pc) : nat := if is_idle p then 0 else 1.
Definition busy (s : State) : nat := sum_list_with weight (workers s).
Definition counts (s : State) : Prop := balance (Z.of_nat (busy s)) (chain s).

Lemma event_counted k m md src last e c : balance k c → balance k (event m md src last e c).1.1.
Proof.
  intros Hc. unfold event. pose proof (run_events_counted wire_ret malloc_ok k m md [e] src last c Hc) as Hr.
  destruct e; try done; by destruct (run_events _ _ _ _ _ _ _ _).
Qed.

Lemma finish_counted k t last r c : balance (k + 1) c → balance k (finish t last r c).
Proof. intros Hc. unfold finish. apply task_done_counted. by case_match. Qed.

Lemma counts_set c' ws i p q b pa ca : ws !! i = Some p →
  (∀ k, k + Z.of_nat (weight p) = Z.of_nat (sum_list_with weight ws) + Z.of_nat (weight q) → balance k c') →
  counts (mkState c' (<[i := q]> ws) b pa ca).
Proof.
  intros Hi Hk. apply Hk. pose proof (sum_insert weight ws i p q Hi). unfold busy.
  cbn [workers]. lia.
Qed.

Lemma worker_step_counts now i s s' : counts s → worker_step now i s = Some s' → counts s'.
Proof.
  destruct s as [c ws b pa ca]. unfold worker_step. cbn [workers chain]. intros Hc E.
  destruct (ws !! i) as [p|] eqn:Hi; [|done]. change (balance (Z.of_nat (sum_list_with weight ws)) c) in Hc.
  destruct p as [|t|t|t|t|t|t|t md src last [|e evs] r]; cbn beta iota in E; repeat case_match; simplify_eq;
    (eapply counts_set; [exact Hi|intros k Hk; cbn in Hk]).
  { unfold balance in *. destruct c; cbn in *. subst. unfold constant. cbn. lia. }
  all: set (n := Z.of_nat (sum_list_with weight ws)) in *.
  all: first [ replace k with n by lia; exact Hc
             | apply (task_done_counted k); replace (k + 1) with n by lia; exact Hc
             | apply (finish_counted k); replace (k + 1) with n by lia; exact Hc
             | replace k with n by lia;
               match goal with H : event ?m ?md ?sr ?la ?e ?c = _ |- _ =>
                 pose proof (event_counted n m md sr la e c Hc) as He; rewrite H in He; exact He end ].
Qed.

Lemma beat_counts l s s' : (∀ now i, l ≠ LWorker now i) → counts s → exec l s = Some s' → counts s'.
Proof.
  intros Hl Hc. destruct s as [c ws b pa ca]. destruct l as [now i|now ms m| |o]; cbn; [by destruct (Hl now i)|..].
  - unfold beat_begin. cbn. intros E. repeat case_match; simplify_eq; exact Hc.
  - unfold beat_step. cbn. intros E. repeat case_match; simplify_eq; try exact Hc.
    match goal with H : event ?m ?md ?sr ?la ?e ?c = _ |- _ =>
      pose proof (event_counted _ m md sr la e c Hc) as He; rewrite H in He; exact He end.
  - intros E. destruct o as [a d sr dir|k|k| | |]; cbn in E; simplify_eq; try exact Hc.
    + apply push_packet_counted. exact Hc.
    + apply alloc_counted. exact Hc.
Qed.

Lemma reachable_counts now cfg count s : reachable now cfg count s → counts s.
Proof.
  induction 1 as [|l s s' _ IH E].
  - unfold counts, busy. cbn. pose proof (chain_new_counted init now cfg) as Hc. unfold balance in *. rewrite Hc.
    assert (sum_list_with weight (replicate count Idle) = 0%nat) as -> by (by induction count). done.
  - destruct l as [now' i|?|?|?]; [by eapply worker_step_counts|..]; by eapply beat_counts in E.
Qed.

Lemma busy_none ws : sum_list_with weight ws = 0%nat ↔ Forall (λ p, p = Idle) ws.
Proof.
  induction ws as [|p ws IH]; cbn; [split; done|]. rewrite Forall_cons, <- IH. unfold weight at 1.
  destruct p; cbn; naive_solver lia.
Qed.

(** [is_drained] with any number of workers: in every state they can reach with the
    endpoint and its heartbeats, the count in flight is zero exactly when no task is queued
    and no worker is in one. ([wait_drain] and the disconnections wait for that.) *)
Theorem drained_iff_at_rest (now : Z) (cfg : list ModuleSpec) (count : nat) (s : State) :
  reachable now cfg count s →
  is_drained (chain s) = true ↔ queue (chain s) = [] ∧ Forall (λ p, p = Idle) (workers s).
Proof.
  intros Hc%reachable_counts. unfold counts, balance, busy in Hc. unfold is_drained.
  rewrite Z.eqb_eq, Hc, <- busy_none. destruct (queue (chain s)); cbn; [|naive_solver lia].
  split; [|by intros [_ ->]]. intros Hn. split; [done|lia].
Qed.

(** ** Module pointers *)

Abbreviation size c := (length (modules c)).

Lemma event_size m md src last e c : size (event m md src last e c).1.1 = size c.
Proof.
  unfold event. destruct e; cbn; try done.
  - unfold alloc_buffer. by case_match.
  - by rewrite length_alter.
  - unfold write_packet, enqueue_module. repeat case_match; simplify_eq; done.
Qed.

Lemma finish_size t last r (c : Chain) : size (finish t last r c) = size c.
Proof. unfold finish. by case_match. Qed.

Lemma push_size a d src dir (c : Chain) : size (push_packet a d src dir c) = size c.
Proof. unfold push_packet, enqueue_module. by repeat case_match. Qed.

(** The task and the pointers a thread has at hand. *)
Definition pc_ok (n : nat) (p : pc) : Prop :=
  match p with
  | Idle => True
  | Entered t | InGap t | Dropping t | AtModule t | Both t | Before t => (t_mod t < n)%nat
  | Inside t md _ _ _ _ => (t_mod t < n)%nat ∧ Forall (ChainGraph.ptr_ok n) (near md)
  end.
Definition beat_ok (n : nat) (b : beat_pc) : Prop :=
  match b with
  | BIdle => True
  | BDue m | BOne m | BBoth m => (m < n)%nat
  | BIn m md _ _ _ => (m < n)%nat ∧ Forall (ChainGraph.ptr_ok n) (near md)
  end.

Definition sound (s : State) : Prop :=
  ChainGraph.safe (chain s) ∧ Forall (pc_ok (size (chain s))) (workers s)
  ∧ beat_ok (size (chain s)) (beat s).

Lemma event_safe m md src last e c :
  ChainGraph.safe c → Forall (ChainGraph.ptr_ok (size c)) (near md) →
  ChainGraph.safe (event m md src last e c).1.1.
Proof.
  intros Hc Hn. unfold event.
  pose proof (ChainGraph.run_events_safe wire_ret malloc_ok m md [e] src last c Hc Hn) as Hr.
  destruct e; try done; by destruct (run_events _ _ _ _ _ _ _ _).
Qed.

(** A worker moves to [p] while the chain becomes [c']. *)
Lemma sound_set c ws b pa ca c' pa' ca' i p :
  sound (mkState c ws b pa ca) → ChainGraph.safe c' → size c' = size c → pc_ok (size c) p →
  sound (mkState c' (<[i := p]> ws) b pa' ca').
Proof.
  intros (_ & Hw & Hb) Hc' Hl Hp. unfold sound. cbn in *. rewrite Hl. split_and!; [done| |done].
  by apply Forall_insert.
Qed.

Lemma sound_beat c ws b pa ca c' b' :
  sound (mkState c ws b pa ca) → ChainGraph.safe c' → size c' = size c → beat_ok (size c) b' →
  sound (mkState c' ws b' pa ca).
Proof. intros (_ & Hw & _) Hc' Hl Hb. unfold sound. cbn in *. rewrite Hl. by split_and!. Qed.

Lemma worker_step_sound now i s s' : sound s → worker_step now i s = Some s' → sound s'.
Proof.
  destruct s as [c ws b pa ca]. unfold worker_step. cbn [workers chain]. intros Hs E.
  destruct (ws !! i) as [p|] eqn:Hi; [|done]. pose proof Hs as (Hc & Hw & _). cbn in Hc, Hw.
  pose proof (Forall_lookup_1 _ _ _ _ Hw Hi) as Hp.
  destruct p as [|t|t|t|t|t|t|t md src last [|e evs] r]; cbn beta iota in E; repeat case_match; simplify_eq;
    try (eapply sound_set; [exact Hs|exact Hc|done|exact Hp]).
  - destruct Hc as (Hl & Hq & Hx).
    match goal with H : queue c = _ |- _ => rewrite H in Hq; apply Forall_cons in Hq as [Ht Hq] end.
    eapply sound_set; [exact Hs|by split_and!|done|exact Ht].
  - eapply sound_set; [exact Hs|by apply ChainGraph.safe_modules; [intros []|]|apply length_alter|exact Hp].
  - exfalso. match goal with H : modules c !! _ = None |- _ => apply lookup_ge_None in H end. cbn in Hp. lia.
  - eapply sound_set; [exact Hs|exact Hc|done|done].
  - eapply sound_set; [exact Hs|by apply ChainGraph.safe_modules; [intros []|]|apply length_alter|].
    split; [exact Hp|]. by eapply ChainGraph.safe_near.
  - exfalso. match goal with H : modules c !! _ = None |- _ => apply lookup_ge_None in H end. cbn in Hp. lia.
  - eapply sound_set; [exact Hs| |apply finish_size|done]. change (ChainGraph.safe (finish t last r c)). unfold finish. by case_match.
  - match goal with H : event ?m ?md ?sr ?la ?e ?c = _ |- _ =>
      pose proof (event_size m md sr la e c) as Hl; pose proof (event_safe m md sr la e c Hc (proj2 Hp)) as He;
      rewrite H in Hl, He end.
    eapply sound_set; [exact Hs|exact He|exact Hl|exact Hp].
Qed.

Lemma beat_step_sound s s' : sound s → beat_step s = Some s' → sound s'.
Proof.
  destruct s as [c ws b pa ca]. unfold beat_step. cbn [workers chain beat]. intros Hs E.
  pose proof Hs as (Hc & _ & Hb). cbn in Hc, Hb.
  destruct b as [|m|m|m|m md src last [|e evs]]; cbn beta iota in E; repeat case_match; simplify_eq;
    try (eapply sound_beat; [exact Hs|exact Hc|done|exact Hb || done]).
  - eapply sound_beat; [exact Hs|by apply ChainGraph.safe_modules; [intros []|]|apply length_alter|].
    split; [exact Hb|]. by eapply ChainGraph.safe_near.
  - exfalso. match goal with H : modules c !! _ = None |- _ => apply lookup_ge_None in H end. cbn in Hb. lia.
  - match goal with H : event ?m ?md ?sr ?la ?e ?c = _ |- _ =>
      pose proof (event_size m md sr la e c) as Hl; pose proof (event_safe m md sr la e c Hc (proj2 Hb)) as He;
      rewrite H in Hl, He end.
    eapply sound_beat; [exact Hs|exact He|exact Hl|exact Hb].
Qed.

Definition port_label (l : label) : Prop := match l with LOp o => ChainGraph.port_op o | _ => True end.

Lemma exec_sound l s s' : sound s → exec l s = Some s' → port_label l → sound s'.
Proof.
  intros Hs E Hl. destruct l as [now i|now ms m| |o]; cbn [exec] in E;
    [by eapply worker_step_sound| |by eapply beat_step_sound|];
    destruct s as [c ws b pa ca]; pose proof Hs as (Hc & Hw & Hb); cbn [workers chain beat] in Hc, Hw, Hb.
  - unfold beat_begin in E. cbn [beat chain] in E. destruct b; try done.
    destruct (modules c !! m) as [md|] eqn:Hm; [|done].
    destruct (heartbeat_due now ms md) as [due md'] eqn:Hdue. injection E as <-.
    destruct (ChainGraph.stamp_safe now ms m md md' due c Hc Hm Hdue) as [Hc' Hl'].
    eapply sound_beat; [exact Hs|exact Hc'|exact Hl'|]. destruct due; [by apply lookup_lt_Some in Hm|done].
  - destruct (endpoint_op o) eqn:Eo; [|done]. injection E as <-.
    eapply sound_beat; [exact Hs|by apply ChainGraph.run_op_safe| |exact Hb].
    destruct o; try done; [apply push_size|]. unfold run_op, alloc_buffer. by case_match.
Qed.

Lemma run_sound ls : ∀ s s', sound s → Forall port_label ls → run ls s = Some s' → sound s'.
Proof.
  induction ls as [|l ls IH]; intros s s' Hs Hl; cbn [run]; [by intros [= <-]|].
  apply Forall_cons in Hl as [Hl Hls]. intros (s1 & E & Hr)%bind_Some. eapply IH, Hr; [|done].
  by eapply exec_sound.
Qed.

Lemma start_sound now cfg count :
  modules (chain_new init now cfg) ≠ [] ∨ entry_ext (chain_new init now cfg) = false →
  sound (start count (chain_new init now cfg)).
Proof.
  intros Hbuilt. destruct (ChainGraph.chain_new_fresh init now cfg) as [Hq Hc]. split_and!; [split| |done].
  - by apply ChainGraph.chain_new_linked.
  - cbn [chain start]. rewrite Hq. by split.
  - apply Forall_replicate. done.
Qed.

(** [C25] No null or dangling module pointer with any number of workers: once a chain is
    built, however the steps of workers, heartbeats and the endpoint interleave, no thread
    follows a pointer that leads to no instance, and every task, queued or taken, is for an
    instance of the chain. *)
Theorem workers_pointers_valid (now : Z) (cfg : list ModuleSpec) (count : nat) (ls : list label) (s : State)
    (Hbuilt : modules (chain_new init now cfg) ≠ [] ∨ entry_ext (chain_new init now cfg) = false)
    (Hports : Forall port_label ls)
    (Hrun : run ls (start count (chain_new init now cfg)) = Some s) :
  crashed (chain s) = false
  ∧ Forall (λ t, is_Some (modules (chain s) !! t_mod t)) (queue (chain s))
  ∧ Forall (pc_ok (length (modules (chain s)))) (workers s).
Proof.
  apply run_sound in Hrun as ((Hl & Hq & Hc) & Hw & _); [|by apply start_sound|done].
  split_and!; [done| |done]. eapply Forall_impl; [exact Hq|]. intros t. apply lookup_lt_is_Some_2.
Qed.

(** ** Mutual exclusion and order *)

(** At most one thread satisfies [f]. *)
Definition unique (f : pc → bool) (ws : list pc) : Prop :=
  ∀ i j p q, ws !! i = Some p → ws !! j = Some q → f p = true → f q = true → i = j.

Lemma unique_set f ws i p0 p :
  unique f ws → ws !! i = Some p0 → (f p = true → f p0 = true ∨ existsb f ws = false) →
  unique f (<[i := p]> ws).
Proof.
  intros Hu Hi Hf j k q r Hj Hk Hq Hr.
  assert (∀ j q, j ≠ i → ws !! j = Some q → f q = true → f p = true → False) as Hne.
  { intros j' q' Hn Hj' Hq' Hp. destruct (Hf Hp) as [Hp0|He].
    - by apply Hn, (Hu j' i q' p0).
    - assert (existsb f ws = true) as Ht; [|congruence]. apply existsb_exists. exists q'. split; [|done].
      apply list_elem_of_In. by eapply list_elem_of_lookup_2. }
  apply list_lookup_insert_Some in Hj as [(-> & -> & _)|[Hn Hj]], Hk as [(-> & -> & _)|[Hn' Hk]];
    [done| | |by eapply Hu]; exfalso; eauto using not_eq_sym.
Qed.

Record exclusive (s : State) : Prop := {
  x_gap : ∀ d, unique (holds_gap d) (workers s);
  x_mod : ∀ m d, unique (holds_mod m d) (workers s);
  x_beat : ∀ m d, beat_holds m d (beat s) = true → existsb (holds_mod m d) (workers s) = false
}.

Lemma existsb_set f (ws : list pc) i p0 p :
  ws !! i = Some p0 → existsb f ws = false → f p = false → existsb f (<[i := p]> ws) = false.
Proof.
  intros Hi Hf Hp. apply existsb_none. intros j q [(-> & -> & _)|[Hn Hj]]%list_lookup_insert_Some; [done|].
  destruct (f q) eqn:E; [|done]. rewrite <- Hf. symmetry. apply existsb_exists. exists q. split; [|done].
  apply list_elem_of_In. by eapply list_elem_of_lookup_2.
Qed.

(** A worker that keeps, releases, or takes a free mutex. *)
Lemma exclusive_set c ws b pa ca c' pa' ca' i p0 p :
  exclusive (mkState c ws b pa ca) → ws !! i = Some p0 →
  (∀ d, holds_gap d p = true → holds_gap d p0 = true ∨ existsb (holds_gap d) ws = false) →
  (∀ m d, holds_mod m d p = true → holds_mod m d p0 = true
     ∨ existsb (holds_mod m d) ws = false ∧ beat_holds m d b = false) →
  exclusive (mkState c' (<[i := p]> ws) b pa' ca').
Proof.
  intros [Hg Hm Hb] Hi H1 H2. cbn in *. constructor; cbn.
  - intros d. apply (unique_set _ _ _ p0); [apply Hg|exact Hi|apply H1].
  - intros m d. apply (unique_set _ _ _ p0); [apply Hm|exact Hi|].
    intros Hp. destruct (H2 m d Hp) as [|[? _]]; auto.
  - intros m d Hd. pose proof (Hb m d Hd) as He. apply (existsb_set _ _ _ _ _ Hi He).
    destruct (holds_mod m d p) eqn:E; [|done]. destruct (H2 m d E) as [Hp0|[_ Hn]]; [|congruence].
    assert (existsb (holds_mod m d) ws = true) as Ht; [|congruence]. apply existsb_exists. exists p0.
    split; [|done]. apply list_elem_of_In. by eapply list_elem_of_lookup_2.
Qed.

Lemma worker_step_exclusive now i s s' : exclusive s → worker_step now i s = Some s' → exclusive s'.
Proof.
  destruct s as [c ws b pa ca]. unfold worker_step, gap_free, mod_free. cbn [workers chain beat]. intros Hx E.
  destruct (ws !! i) as [p|] eqn:Hi; [|done].
  destruct p as [|t|t|t|t|t|t|t md src last [|e evs] r]; cbn beta iota in E; repeat case_match; simplify_eq;
    (eapply exclusive_set; [exact Hx|exact Hi|..]); cbn; auto; try done.
  - intros d <-%Z.eqb_eq. right. by apply negb_true_iff.
  - intros m d [<-%Nat.eqb_eq <-%Z.eqb_eq]%andb_prop. right. by apply orb_false_iff, negb_true_iff.
Qed.

Lemma exec_exclusive l s s' : exclusive s → exec l s = Some s' → exclusive s'.
Proof.
  intros Hx. destruct l as [now i|now ms m| |o]; cbn; [by apply worker_step_exclusive|..].
  - destruct s as [c ws b pa ca], Hx. unfold beat_begin. cbn in *. intros E.
    repeat case_match; simplify_eq; constructor; cbn; try done; by repeat case_match.
  - destruct s as [c ws b pa ca], Hx as [Hg Hm Hb]. unfold beat_step, mod_free. cbn in *. intros E.
    destruct b as [|m|m|m|m md src last [|e evs]]; cbn in *; repeat case_match; simplify_eq;
      (constructor; [done|done|]); cbn; try done.
    + intros m' d [<-%Nat.eqb_eq ->%Z.eqb_eq]%andb_prop. 
      match goal with H : negb _ = true |- _ => apply negb_true_iff, orb_false_iff in H as [? _] end. done.
    + intros m' d [<-%Nat.eqb_eq [->%Z.eqb_eq| ->%Z.eqb_eq]%orb_prop]%andb_prop.
      * apply Hb. by rewrite Nat.eqb_refl.
      * match goal with H : negb _ = true |- _ => apply negb_true_iff, orb_false_iff in H as [? _] end. done.
  - destruct (endpoint_op o); [|done]. intros [= <-]. by destruct Hx.
Qed.

Lemma start_exclusive count c : exclusive (start count c).
Proof.
  constructor; cbn; [| |done].
  - intros d i j p q [-> _]%lookup_replicate _. done.
  - intros m d i j p q [-> _]%lookup_replicate _. done.
Qed.

Lemma reachable_exclusive now cfg count s : reachable now cfg count s → exclusive s.
Proof. induction 1; [apply start_exclusive|by eapply exec_exclusive]. Qed.

(** The tasks for direction [d] of module [m], and those of a worker that has passed the
    test of [_cancelled] and not called the module yet. *)
Definition key (m : nat) (d : Z) (t : task) : Prop := t_mod t = m ∧ t_dir t = d.
#[local] Instance key_dec m d t : Decision (key m d t).
Proof. unfold key. apply _. Defined.

Definition pick (m : nat) (d : Z) (t : task) : option task := if decide (key m d t) then Some t else None.
Definition before_of (m : nat) (d : Z) (p : pc) : option task :=
  match p with Before t => pick m d t | _ => None end.
Definition gap_of (m : nat) (d : Z) (p : pc) : option task :=
  match p with AtModule t | Both t => pick m d t | _ => None end.

Definition ordered (s : State) : Prop :=
  ∀ m d, filter (key m d) (passed s)
         = filter (key m d) (called s) ++ omap (before_of m d) (workers s) ++ omap (gap_of m d) (workers s).

Lemma filter_key_snoc m d l t : filter (key m d) (l ++ [t]) = filter (key m d) l ++ option_list (pick m d t).
Proof. rewrite filter_app. unfold pick. cbn. by case_decide. Qed.

Lemma pick_Some m d t u : pick m d t = Some u → key m d t.
Proof. unfold pick. by case_decide. Qed.

Lemma pick_None m d t : ¬ key m d t → pick m d t = None.
Proof. unfold pick. by case_decide. Qed.

Lemma pick_self t : pick (t_mod t) (t_dir t) t = Some t.
Proof. unfold pick, key. by rewrite decide_True. Qed.

Lemma before_holds m d p t : before_of m d p = Some t → holds_mod m d p = true.
Proof. destruct p; try done. intros [<- <-]%pick_Some. cbn. by rewrite Nat.eqb_refl, Z.eqb_refl. Qed.

Lemma gap_holds m d p t : gap_of m d p = Some t → holds_gap d p = true.
Proof. destruct p; try done; intros [<- <-]%pick_Some; apply Z.eqb_refl. Qed.

(** The only thread that holds a mutex decides, before its step and after it. *)
Lemma omap_unique (g : pc → option task) f ws i p :
  unique f ws → (∀ q t, g q = Some t → f q = true) → ws !! i = Some p → f p = true →
  omap g ws = option_list (g p) ∧ ∀ q, omap g (<[i := q]> ws) = option_list (g q).
Proof.
  intros Hu Hg Hi Hp.
  assert (∀ j q, j ≠ i → ws !! j = Some q → g q = None) as Hn.
  { intros j q Hne Hj. destruct (g q) as [t|] eqn:E; [|done]. destruct Hne.
    by apply (Hu j i q p Hj Hi); [eapply Hg|]. }
  split; [by apply omap_single with i|]. intros q. apply omap_single with i.
  - eapply list_lookup_insert_eq, lookup_lt_Some, Hi.
  - intros j r Hne. rewrite list_lookup_insert_ne by done. by apply Hn.
Qed.

Lemma omap_insert_same {A B} (g : A → option B) (ws : list A) i p q :
  ws !! i = Some p → g q = g p → omap g (<[i := q]> ws) = omap g ws.
Proof.
  intros Hi E. rewrite insert_take_drop by (by eapply lookup_lt_Some).
  rewrite <- (take_drop_middle ws i p Hi) at 3. by rewrite !omap_app, !omap_cons_opt, E.
Qed.

Lemma worker_step_ordered now i s s' :
  sound s → exclusive s → ordered s → worker_step now i s = Some s' → ordered s'.
Proof.
  destruct s as [c ws b pa ca]. unfold worker_step. cbn [workers chain]. intros (_ & Hs & _) Hx Ho E m d.
  destruct (ws !! i) as [p|] eqn:Hi; [|done]. specialize (Ho m d). cbn [passed called workers] in Ho.
  pose proof (x_gap _ Hx d) as Hg. pose proof (x_mod _ Hx m d) as Hm. cbn [workers] in Hg, Hm.
  assert (∀ q, before_of m d q = before_of m d p → gap_of m d q = gap_of m d p →
    filter (key m d) pa = filter (key m d) ca ++ omap (before_of m d) (<[i := q]> ws)
      ++ omap (gap_of m d) (<[i := q]> ws)) as Hsame.
  { intros q E1 E2. by rewrite !(omap_insert_same _ _ i p q). }
  pose proof (λ p, omap_unique _ _ _ i p Hg (gap_holds m d)) as Ug.
  pose proof (λ p, omap_unique _ _ _ i p Hm (before_holds m d)) as Ub. clear Hg Hm Hx.
  destruct p as [|t|t|t|t|t|t|t md src last [|e evs] r]; cbn beta iota in E; repeat case_match; simplify_eq;
    try (cbn [passed called workers set_pc upd]; by apply Hsame).
  4: { exfalso. pose proof (Forall_lookup_1 _ _ _ _ Hs Hi) as Hp. cbn in Hp.
       match goal with H : modules c !! _ = None |- _ => apply lookup_ge_None in H end. lia. }
  all: destruct (decide (key m d t)) as [[<- <-]|Hk]; cbn -[insert omap filter];
    [|rewrite ?filter_key_snoc, ?(pick_None m d t Hk), ?app_nil_r; apply Hsame; cbn; by rewrite ?pick_None].
  all: match type of Hi with _ = Some ?p => specialize (Ug p Hi); specialize (Ub p Hi) end; cbn in Ug, Ub;
    rewrite ?Nat.eqb_refl, ?Z.eqb_refl in Ug; rewrite ?Nat.eqb_refl, ?Z.eqb_refl in Ub; cbn in Ug, Ub;
    rewrite ?pick_self in Ug; rewrite ?pick_self in Ub; rewrite ?filter_key_snoc, Ho, ?pick_self.
  - destruct (Ug eq_refl) as [-> U]. rewrite U, (omap_insert_same (before_of _ _) _ i (InGap t)) by done.
    cbn. by rewrite pick_self, app_nil_r, <- app_assoc.
  - destruct (Ug eq_refl) as [-> U], (Ub eq_refl) as [-> U']. rewrite U, U'. cbn. by rewrite pick_self.
  - destruct (Ub eq_refl) as [-> U]. rewrite U, (omap_insert_same (gap_of _ _) _ i (Before t)) by done.
    cbn. by rewrite <- app_assoc.
Qed.

Lemma exec_ordered l s s' :
  sound s → exclusive s → ordered s → exec l s = Some s' → ordered s'.
Proof.
  intros Hs Hx Ho. destruct l as [now i|now ms m| |o]; cbn [exec]; [by apply worker_step_ordered|..].
  - unfold beat_begin. intros E. repeat case_match; simplify_eq; exact Ho.
  - unfold beat_step. intros E. repeat case_match; simplify_eq; exact Ho.
  - intros E. case_match; simplify_eq. exact Ho.
Qed.

Lemma run_ordered ls : ∀ s s', sound s → exclusive s → ordered s → Forall port_label ls →
  run ls s = Some s' → ordered s'.
Proof.
  induction ls as [|l ls IH]; intros s s' Hs Hx Ho Hl; cbn [run]; [by intros [= <-]|].
  apply Forall_cons in Hl as [Hl Hls]. intros (s1 & E & Hr)%bind_Some.
  eapply IH, Hr; [by eapply exec_sound|by eapply exec_exclusive|by eapply exec_ordered|done].
Qed.

Lemma start_ordered count c : ordered (start count c).
Proof.
  intros m d. cbn. assert (∀ g : pc → option task, g Idle = None → omap g (replicate count Idle) = []) as Hg.
  { intros g E. induction count; cbn; [done|]. by rewrite E. }
  by rewrite !Hg.
Qed.

(** The two overlapping locks keep the order: however many workers there are, a module
    is called for the packets of a direction in the order in which their tasks passed
    [nogap_mutex_], none left out and none overtaken. *)
Theorem calls_in_lock_order (now : Z) (cfg : list ModuleSpec) (count : nat) (ls : list label) (s : State)
    (m : nat) (d : Z)
    (Hbuilt : modules (chain_new init now cfg) ≠ [] ∨ entry_ext (chain_new init now cfg) = false)
    (Hports : Forall port_label ls)
    (Hrun : run ls (start count (chain_new init now cfg)) = Some s) :
  filter (key m d) (called s) `prefix_of` filter (key m d) (passed s).
Proof.
  apply run_ordered in Hrun; [|by apply start_sound|apply start_exclusive|apply start_ordered|done].
  rewrite (Hrun m d). by eexists.
Qed.

(** ** One worker *)

Lemma run_events_ext m (x x' : Mod) evs : near x = near x' → wire_dst x = wire_dst x' →
  ∀ src last c, run_events wire_ret malloc_ok m x src evs last c = run_events wire_ret malloc_ok m x' src evs last c.
Proof.
  intros Hn Hw. induction evs as [|[k|k|s|i|dst d a] evs IH]; intros src last c; cbn [run_events]; auto.
  unfold write_packet. rewrite Hn, Hw. repeat case_match; simplify_eq; apply IH.
Qed.

Lemma run_app l1 l2 s : run (l1 ++ l2) s = run l1 s ≫= run l2.
Proof. revert s. induction l1 as [|l l1 IH]; intros s; cbn; [done|]. destruct (exec l s); cbn; [apply IH|done]. Qed.

Lemma inside_event now t md r pa ca e evs src last c :
  let ev := event (t_mod t) md src last e c in
  exec (LWorker now 0) (mkState c [Inside t md src last (e :: evs) r] BIdle pa ca)
  = Some (mkState ev.1.1 [Inside t md ev.1.2 ev.2 evs r] BIdle pa ca).
Proof. cbn. by destruct (event _ _ _ _ _ _) as [[]]. Qed.

(** The calls of the module, one by one, are [run_events]. *)
Lemma inside_run now t md r pa ca evs : ∀ src last c,
  let res := run_events wire_ret malloc_ok (t_mod t) md src evs last c in
  run (replicate (S (length evs)) (LWorker now 0)) (mkState c [Inside t md src last evs r] BIdle pa ca)
  = Some (mkState (finish t res.2 r res.1) [Idle] BIdle pa ca).
Proof.
  induction evs as [|e evs IH]; intros src last c; [done|]. cbn [length]. rewrite replicate_S.
  cbn [run]. rewrite inside_event. unfold mbind, option_bind. rewrite IH. f_equal.
  unfold event. destruct e; cbn [run_events fst snd]; try done. by destruct (write_packet _ _ _ _ _ _ _ _).
Qed.

(** A single worker never waits. *)
Section single.
Context (now : Z) (pa ca : list task).

Abbreviation go := (exec (LWorker now 0)).

Lemma go_take c t rest : queue c = t :: rest →
  go (mkState c [Idle] BIdle pa ca) = Some (mkState (c{{queue := rest}}) [Entered t] BIdle pa ca).
Proof. intros E. unfold exec, worker_step. cbn [workers lookup list_lookup chain]. by rewrite E. Qed.

Lemma go_gap c t : go (mkState c [Entered t] BIdle pa ca) = Some (mkState c [InGap t] BIdle pa ca).
Proof. done. Qed.

Lemma go_drop c t : cancelled c = true →
  go (mkState c [InGap t] BIdle pa ca) = Some (mkState c [Dropping t] BIdle pa ca).
Proof. intros E. unfold exec, worker_step. cbn [workers lookup list_lookup chain]. by rewrite E. Qed.

Lemma go_crash c t : cancelled c = false → modules c !! t_mod t = None →
  go (mkState c [InGap t] BIdle pa ca) = Some (mkState (task_done (c{{crashed := true}})) [Idle] BIdle pa ca).
Proof. intros E E'. unfold exec, worker_step. cbn [workers lookup list_lookup chain]. by rewrite E, E'. Qed.

Lemma go_pass c t md : cancelled c = false → modules c !! t_mod t = Some md →
  go (mkState c [InGap t] BIdle pa ca)
  = Some (mkState (touch now (t_mod t) c) [AtModule t] BIdle (pa ++ [t]) ca).
Proof. intros E E'. unfold exec, worker_step. cbn [workers lookup list_lookup chain]. by rewrite E, E'. Qed.

Lemma go_lock c t : go (mkState c [AtModule t] BIdle pa ca) = Some (mkState c [Both t] BIdle pa ca).
Proof. done. Qed.

Lemma go_release c t : go (mkState c [Both t] BIdle pa ca) = Some (mkState c [Before t] BIdle pa ca).
Proof. done. Qed.

Lemma go_call c t md x' evs r : modules c !! t_mod t = Some md →
  process (mod_name md) (ctx md) (t_dir t) (t_src t) (Some (t_data t, t_asize t)) = (x', evs, r) →
  go (mkState c [Before t] BIdle pa ca)
  = Some (mkState (set_ctx (t_mod t) x' c) [Inside t md (t_src t) 0 evs r] BIdle pa (ca ++ [t])).
Proof.
  intros E E'. unfold exec, worker_step. cbn [workers lookup list_lookup chain]. by rewrite E, E'.
Qed.

End single.

(** With one worker, a task is the single step that [Chain] takes it for: nobody else
    moving, the worker goes through the locks, the calls of the module and the end of the
    function without ever waiting, and leaves the chain [Chain.work] describes. *)
Theorem one_worker_is_work (now : Z) (c : Chain) (pa ca : list task) :
  queue c ≠ [] →
  ∃ n pa' ca', run (replicate n (LWorker now 0)) (mkState c [Idle] BIdle pa ca)
               = Some (mkState (work process wire_ret malloc_ok now c) [Idle] BIdle pa' ca').
Proof.
  intros Hq. destruct (queue c) as [|t rest] eqn:Eq; [done|]. clear Hq. unfold work. rewrite Eq.
  set (c0 := c{{queue := rest}}).
  assert (∀ n, run (replicate (2 + n) (LWorker now 0)) (mkState c [Idle] BIdle pa ca)
    = run (replicate n (LWorker now 0)) (mkState c0 [InGap t] BIdle pa ca)) as Hstart.
  { intros n. cbn [Nat.add replicate run]. by rewrite (go_take now pa ca c t rest Eq). }
  unfold run_task. destruct (cancelled c0) eqn:Ec.
  { exists (2 + 2)%nat, pa, ca. rewrite Hstart. cbn [replicate run]. by rewrite go_drop. }
  destruct (modules c0 !! t_mod t) as [md|] eqn:Em.
  2:{ exists (2 + 1)%nat, pa, ca. rewrite Hstart. cbn [replicate run]. by rewrite go_crash. }
  destruct (process _ _ _ _ _) as [[x' evs] r] eqn:Ep.
  exists (2 + (3 + S (S (length evs))))%nat, (pa ++ [t]), (ca ++ [t]).
  rewrite Hstart. cbn [Nat.add]. rewrite !replicate_S. do 4 (cbn [run];
    rewrite ?(go_pass _ _ _ _ _ md), ?go_lock, ?go_release by done; unfold mbind, option_bind).
  erewrite (go_call _ _ _ _ _ (md{{last_activity := now}})); [| |exact Ep].
  2:{ change (alter (λ md, md{{last_activity := now}}) (t_mod t) (modules c0) !! t_mod t
              = Some (md{{last_activity := now}})).
      by rewrite list_lookup_alter, decide_True, Em. }
  etransitivity; [apply inside_run|]. unfold finish.
  rewrite (run_events_ext _ (md{{last_activity := now}}) md) by done.
  change (c0{{modules ::= alter (λ md0, md0{{last_activity := now}}) (t_mod t)}}) with (touch now (t_mod t) c0).
  by destruct (run_events _ _ _ _ _ _ _ _).
Qed.

End workers.

(** ** A chain of one copy module *)

Abbreviation copy_chain := (chain_new Copy.init 0 [mkSpec Copy.s_copy []]).
Abbreviation copy_run := (run Copy.process (λ _ _, 0) (λ _ _, true)).

(** Two packets of the application; the workers take one each, and the second worker is at
    the lock first. *)
Definition overtaking : list label :=
  [LOp (OpPush 1 [7] 0 0); LOp (OpPush 1 [8] 0 0); LWorker 0 0; LWorker 0 1]
  ++ replicate 7 (LWorker 0 1) ++ replicate 7 (LWorker 0 0).

(** With two workers packets leave the chain in another order than they entered it: the
    locks keep the order in which they are taken, and nothing keeps the order between the
    pool's queue and the lock. *)
Theorem two_workers_swap_packets :
  ∃ s, copy_run overtaking (start 2 copy_chain) = Some s
       ∧ exits (chain s) = [(1, [8]); (1, [7])] ∧ queue (chain s) = [] ∧ workers s = [Idle; Idle].
Proof. eexists. split; [vm_compute; reflexivity|]. by vm_compute. Qed.

Lemma copy_chain_built : modules copy_chain ≠ [].
Proof. by vm_compute. Qed.

Lemma drained_iff_at_rest_witness :
  is_drained (chain (start 3 copy_chain)) = true
  ↔ queue (chain (start 3 copy_chain)) = [] ∧ Forall (λ p, p = Idle) (workers (start 3 copy_chain)).
Proof.
  apply (drained_iff_at_rest Copy.init Copy.process (λ _ _, 0) (λ _ _, true) 0 [mkSpec Copy.s_copy []] 3).
  apply reach_start.
Defined.

Lemma workers_pointers_valid_witness :
  match copy_run overtaking (start 2 copy_chain) with
  | Some s => crashed (chain s) = false
              ∧ Forall (λ t, is_Some (modules (chain s) !! t_mod t)) (queue (chain s))
              ∧ Forall (pc_ok (length (modules (chain s)))) (workers s)
  | None => False
  end.
Proof.
  destruct (copy_run overtaking (start 2 copy_chain)) as [s|] eqn:E; [|vm_compute in E; discriminate].
  apply (workers_pointers_valid Copy.init Copy.process (λ _ _, 0) (λ _ _, true) 0 [mkSpec Copy.s_copy []]
           2 overtaking s (or_introl copy_chain_built)); [|exact E].
  repeat constructor.
Defined.

Lemma calls_in_lock_order_witness :
  match copy_run overtaking (start 2 copy_chain) with
  | Some s => filter (key 0 0) (called s) `prefix_of` filter (key 0 0) (passed s)
  | None => False
  end.
Proof.
  destruct (copy_run overtaking (start 2 copy_chain)) as [s|] eqn:E; [|vm_compute in E; discriminate].
  apply (calls_in_lock_order Copy.init Copy.process (λ _ _, 0) (λ _ _, true) 0 [mkSpec Copy.s_copy []]
           2 overtaking s 0 0 (or_introl copy_chain_built)); [|exact E].
  repeat constructor.
Defined.

(** One packet, served by the only worker. *)
Lemma one_worker_is_work_witness :
  let c := push_packet 1 [7] 0 0 copy_chain in
  ∃ n pa' ca', run Copy.process (λ _ _, 0) (λ _ _, true) (replicate n (LWorker 3 0)) (mkState c [Idle] BIdle [] [])
               = Some (mkState (work Copy.process (λ _ _, 0) (λ _ _, true) 3 c) [Idle] BIdle pa' ca').
Proof. intros c. apply (one_worker_is_work Copy.process (λ _ _, 0) (λ _ _, true) 3 c [] []). done. Defined.

End Workers.
