(* ===== verification/Network.v ===== *)
(** * What the threads of a chain compute

    [Workers] has the threads of a chain step by step. Here is what they implement: a
    network of modules, in which packets wait for a module and a direction, and a module
    takes one, makes all its calls at once and puts the results where they go next. There
    are no locks, buffers, counters and threads in it. One worker implements the network
    with queues that are first in first out, for each module and direction; any number of
    workers implements the network that takes packets in any order. *)

From coqutil Require Import Datatypes.RecordSetters.
From S2P Require Import Prelude ChainApi Chain Copy ChainGraph Workers.
Import DoubleBraceUpdate.
Local Open Scope Z_scope.

Module Network.
Import Chain Workers.

(** ** Queues up to the order between different modules *)

(** Tasks for different modules, or for different directions of one. *)
Definition apart (t u : task) : Prop := ¬ (t_mod t = t_mod u ∧ t_dir t = t_dir u).

#[global] Instance apart_dec t u : Decision (apart t u).
Proof. unfold apart. apply _. Defined.

Definition alike (q q' : list task) : Prop := ∀ m d, filter (key m d) q = filter (key m d) q'.
Infix "≈" := alike (at level 70, no associativity).

#[global] Instance alike_equiv : Equivalence alike.
Proof.
  split; [by intros q m d|by intros q q' H m d|]. intros q1 q2 q3 H1 H2 m d. by rewrite H1, H2.
Qed.

#[global] Instance app_alike : Proper (alike ==> alike ==> alike) (++).
Proof. intros q1 q1' H1 q2 q2' H2 m d. by rewrite !filter_app, H1, H2. Qed.

#[global] Instance cons_alike t : Proper (alike ==> alike) (cons t).
Proof. intros q q' H m d. rewrite !filter_cons, H. done. Qed.

Lemma filter_apart t l : Forall (apart t) l → filter (key (t_mod t) (t_dir t)) l = [].
Proof.
  induction 1 as [|u l Hu _ IH]; [done|]. rewrite filter_cons_False; [done|]. unfold key. intros [E E'].
  by apply Hu.
Qed.

(** A task passes those of other modules. *)
Lemma alike_move t l q : Forall (apart t) l → t :: l ++ q ≈ l ++ t :: q.
Proof.
  intros Hl m d. rewrite filter_app, !filter_cons, filter_app. case_decide as E; [|done].
  destruct E as [<- <-]. by rewrite filter_apart.
Qed.

(** The task at the head of a queue is the first of its module in any queue alike. *)
Lemma alike_head t q q' : t :: q ≈ q' → ∃ l1 l2, q' = l1 ++ t :: l2 ∧ Forall (apart t) l1 ∧ q ≈ l1 ++ l2.
Proof.
  intros H. assert (∃ l1 l2, q' = l1 ++ t :: l2 ∧ Forall (apart t) l1) as (l1 & l2 & -> & Hl1).
  { specialize (H (t_mod t) (t_dir t)). rewrite filter_cons_True in H by done.
    induction q' as [|u q' IH]; [done|]. destruct (decide (apart t u)) as [Hu|Hu].
    - rewrite filter_cons_False in H by (intros [E E']; by apply Hu).
      destruct (IH H) as (l1 & l2 & -> & Hl1). exists (u :: l1), l2. split; [done|by constructor].
    - rewrite filter_cons_True in H; [|unfold apart in Hu; apply dec_stable in Hu as [-> ->]; done].
      injection H as -> _. by exists [], q'. }
  exists l1, l2. split_and!; [done..|]. rewrite <- (alike_move t l1 l2 Hl1) in H.
  intros m d. specialize (H m d). rewrite !filter_cons in H. case_decide; [by injection H|done].
Qed.

Lemma alike_nil q : [] ≈ q → q = [].
Proof.
  intros H. destruct q as [|t q]; [done|]. specialize (H (t_mod t) (t_dir t)).
  by rewrite filter_cons_True in H.
Qed.

#[global] Instance alike_perm : subrelation alike Permutation.
Proof.
  intros q. induction q as [|t q IH]; intros q' H; [by rewrite (alike_nil _ H)|].
  destruct (alike_head t q q' H) as (l1 & l2 & -> & _ & Hq). rewrite <- Permutation_middle. f_equiv. by apply IH.
Qed.

Section network.
Context {X : Type}.
Context (process : bytes → X → Z → Z → option (bytes * Z) → X * list mod_ev * mod_ret).

#[local] Abbreviation Mod := (@Chain.Module X).
#[local] Abbreviation Chain := (@Chain.Chain X).

(** ** The network *)

(** What the calls of a module put: tasks for its neighbours, and packets that leave. *)
Fixpoint emits (md : Mod) (src : Z) (evs : list mod_ev) : list task * list (Z * bytes) :=
  match evs with
  | [] => ([], [])
  | MSetSrc src' :: rest => emits md src' rest
  | MWrite dst d a :: rest =>
      let '(ts, es) := emits md src rest in
      match (if dst <? 0 then None else near md !! Z.to_nat dst) with
      | Some (Some n) => (mkTask n d a src (if dst =? 0 then 1 else 0) :: ts, es)
      | _ => (ts, ((if dst =? 0 then 0 else wire_dst md), d) :: es)
      end
  | _ :: rest => emits md src rest
  end.

(** The state: the modules, the entries for packets, the packets that wait and those that
    have left. *)
Record Net := mkNet {
  nodes : list Mod;
  entry : bool;
  ports : list (option nat);
  waiting : list task;
  gone : list (Z * bytes)
}.

Definition put (out : list task * list (Z * bytes)) (n : Net) : Net :=
  n{{waiting ::= λ q, q ++ out.1; gone ::= λ l, l ++ out.2}}.

(** The module of task [t] handles it. *)
Definition fire (t : task) (n : Net) : Net :=
  match nodes n !! t_mod t with
  | None => n
  | Some md =>
      let '(x', evs, _) :=
        process (mod_name md) (ctx md) (t_dir t) (t_src t) (Some (t_data t, t_asize t)) in
      put (emits md (t_src t) evs) (n{{nodes ::= alter (λ md, md{{ctx := x'}}) (t_mod t)}})
  end.

(** The heartbeat of module [m]. *)
Definition pulse (m : nat) (n : Net) : Net :=
  match nodes n !! m with
  | None => n
  | Some md =>
      let '(x', evs, _) := process (mod_name md) (ctx md) (-1) 0 None in
      put (emits md 0 evs) (n{{nodes ::= alter (λ md, md{{ctx := x'}}) m}})
  end.

(** A packet of the endpoint. *)
Definition arrive (a : Z) (d : bytes) (src dir : Z) (n : Net) : Net :=
  if negb (entry n) then n{{gone ::= λ l, l ++ [(if dir =? 0 then 1 else 0, d)] }}
  else if dir =? 0 then n{{waiting ::= λ q, q ++ [mkTask 0 d a src dir] }}
  else if (src <? 0) || (Z.of_nat (length (ports n)) <=? src) then n
  else match ports n !! Z.to_nat src with
       | Some (Some m) => n{{waiting ::= λ q, q ++ [mkTask m d a src dir] }}
       | _ => n
       end.

(** Steps, with the packets that enter. In the ordered network a module takes the packet of
    a direction that waits longest. *)
Inductive net_step (fifo : bool) : list op → Net → Net → Prop :=
| net_arrive a d src dir n : net_step fifo [OpPush a d src dir] n (arrive a d src dir n)
| net_fire t l1 l2 n :
    waiting n = l1 ++ t :: l2 → (fifo = true → Forall (apart t) l1) →
    net_step fifo [] n (fire t (n{{waiting := l1 ++ l2}}))
| net_pulse m n : net_step fifo [] n (pulse m n).

Inductive net_run (fifo : bool) : list op → Net → Net → Prop :=
| net_done n : net_run fifo [] n n
| net_next h1 h2 n1 n2 n3 : net_run fifo h1 n1 n2 → net_step fifo h2 n2 n3 → net_run fifo (h1 ++ h2) n1 n3.

Lemma net_run_then fifo h h2 n1 n2 n3 :
  net_run fifo h n1 n2 → net_step fifo h2 n2 n3 → net_run fifo (h ++ h2) n1 n3.
Proof. apply net_next. Qed.

Lemma net_run_quiet fifo h n1 n2 n3 :
  net_run fifo h n1 n2 → net_step fifo [] n2 n3 → net_run fifo h n1 n3.
Proof. intros H1 H2. rewrite <- (app_nil_r h). by eapply net_next. Qed.

(** ** A chain as a network *)

(** The parts of a module that do not follow the clock. *)
Definition still (md : Mod) : Mod := md{{last_activity := 0; heartbeat_interval_sec := 0}}.

Definition view (c : Chain) : Net :=
  mkNet (still <$> modules c) (entry_ext c) (wire_entries c) (queue c) (exits c).

Definition usable (c : Chain) : Prop := owner c = true ∧ cancelled c = false.

Context (wire_ret : Z → bytes → Z).
Context (malloc_ok : Z → Z → bool).

Lemma still_alter g h m (l : list Mod) :
  (∀ md, still (g md) = h (still md)) → still <$> alter g m l = alter h m (still <$> l).
Proof.
  intros H. apply list_eq. intros j. rewrite list_lookup_fmap, !list_lookup_alter, !list_lookup_fmap.
  case_decide; [subst|done]. destruct (l !! j); [|done]. exact (f_equal Some (H _)).
Qed.

Lemma still_same g m (l : list Mod) :
  (∀ md, still (g md) = still md) → still <$> alter g m l = still <$> l.
Proof.
  intros H. apply list_eq. intros j. rewrite !list_lookup_fmap, list_lookup_alter.
  case_decide; [subst|done]. destruct (l !! j); [|done]. exact (f_equal Some (H _)).
Qed.

Lemma emits_still md src evs : emits (still md) src evs = emits md src evs.
Proof. revert src. induction evs as [|[k|k|s|i|dst d a] evs IH]; intros src; cbn; rewrite ?IH; by destruct md. Qed.

Lemma put_nil n : put ([], []) n = n.
Proof. destruct n. unfold put. cbn. by rewrite !app_nil_r. Qed.

Lemma put_put o1 o2 n : put o2 (put o1 n) = put (o1.1 ++ o2.1, o1.2 ++ o2.2) n.
Proof. destruct n. unfold put. cbn. by rewrite !app_assoc. Qed.

Lemma emits_cons md src e evs :
  emits md src (e :: evs)
  = let out := emits md src [e] in
    let rest := emits md (match e with MSetSrc s => s | _ => src end) evs in
    (out.1 ++ rest.1, out.2 ++ rest.2).
Proof.
  destruct e; cbn; try (by destruct (emits _ _ evs)). destruct (emits md src evs).
  by destruct (if dst <? 0 then None else _) as [[|]|].
Qed.

Lemma emits_nil (wr : Z → bytes → Z) (mo : Z → Z → bool) m md src last e evs c :
  emits md src (e :: evs) = ([], []) → emits md (event wr mo m md src last e c).1.2 evs = ([], []).
Proof.
  intros Hn. rewrite emits_cons in Hn. injection Hn as H1 H2. apply app_nil in H1 as [_ H1]. apply app_nil in H2 as [_ H2].
  assert ((event wr mo m md src last e c).1.2 = match e with MSetSrc s => s | _ => src end) as ->.
  { unfold event. destruct e; cbn; try done. by destruct (write_packet _ _ _ _ _ _ _ _). }
  destruct (emits _ _ evs). cbn in *. by subst.
Qed.

Lemma write_view m md src dst d a c : usable c →
  let c' := (write_packet wire_ret m md src dst d a c).1 in
  usable c' ∧ view c' = put (emits md src [MWrite dst d a]) (view c).
Proof.
  intros [Ho Hc]. unfold write_packet. cbn [emits].
  destruct (if dst <? 0 then None else near md !! Z.to_nat dst) as [[n|]|]; cbn [fst].
  1: unfold enqueue_module; rewrite Ho.
  all: destruct c; unfold usable, view, put; cbn in *; by rewrite ?app_nil_r.
Qed.

(** One call of a module. *)
Lemma event_view m md src last e c : usable c →
  let r := event wire_ret malloc_ok m md src last e c in
  usable r.1.1 ∧ ∀ evs, put (emits md r.1.2 evs) (view r.1.1) = put (emits md src (e :: evs)) (view c).
Proof.
  intros Hu. unfold event. destruct e as [k|k|s|i|dst d a]; cbn [run_events fst snd].
  - unfold alloc_buffer. case_match; by split.
  - by split.
  - by split.
  - split; [done|]. intros evs. cbn [emits]. f_equal. unfold view. cbn. f_equal. by apply still_same.
  - destruct (write_view m md src dst d a c Hu) as [Hu' Hv].
    destruct (write_packet _ _ _ _ _ _ _ _) as [c' r]. cbn [fst snd] in *. split; [done|].
    intros evs. by rewrite Hv, put_put, (emits_cons md src (MWrite dst d a) evs).
Qed.

(** All of them. *)
Lemma events_view m md evs : ∀ src last c, usable c →
  let c' := (run_events wire_ret malloc_ok m md src evs last c).1 in
  usable c' ∧ view c' = put (emits md src evs) (view c).
Proof.
  induction evs as [|e evs IH]; intros src last c Hu; [by rewrite put_nil|].
  pose proof (event_view m md src last e c Hu) as [Hu' Hv]. rewrite <- Hv. unfold event in *.
  destruct e as [k|k|s|i|dst d a]; cbn [run_events fst snd] in *; try (by apply IH).
  destruct (write_packet _ _ _ _ _ _ _ _) as [c' r]. by apply IH.
Qed.

Lemma set_ctx_view m x c : usable c →
  usable (set_ctx m x c) ∧ view (set_ctx m x c) = (view c){{nodes ::= alter (λ md, md{{ctx := x}}) m}}.
Proof. intros Hu. split; [done|]. unfold view. cbn. f_equal. by apply still_alter. Qed.

Lemma touch_view now m c : usable c → usable (touch now m c) ∧ view (touch now m c) = view c.
Proof. intros Hu. split; [done|]. unfold view. cbn. f_equal. by apply still_same. Qed.

(** A task of [Chain] is a step of the network. *)
Lemma run_task_view now t c : usable c →
  let c' := run_task process wire_ret malloc_ok now t c in usable c' ∧ view c' = fire t (view c).
Proof.
  intros Hu. unfold run_task, fire. rewrite (proj2 Hu). cbn [view nodes]. rewrite list_lookup_fmap.
  destruct (modules c !! t_mod t) as [md|] eqn:Em; [|done]. cbn [fmap option_fmap option_map].
  change (mod_name (still md)) with (mod_name md). change (ctx (still md)) with (ctx md).
  destruct (process _ _ _ _ _) as [[x' evs] r]. rewrite emits_still.
  change (c{{modules ::= alter _ _}}) with (touch now (t_mod t) c).
  destruct (touch_view now (t_mod t) c Hu) as [Hu1 Hv1].
  destruct (set_ctx_view (t_mod t) x' _ Hu1) as [Hu2 Hv2].
  destruct (events_view (t_mod t) md evs (t_src t) 0 _ Hu2) as [Hu3 Hv3].
  destruct (run_events _ _ _ _ _ _ _ _) as [c3 last]. cbn [fst] in *. rewrite <- Hv1, <- Hv2, <- Hv3.
  by case_match.
Qed.

Lemma push_view a d src dir c : usable c →
  let c' := push_packet a d src dir c in usable c' ∧ view c' = arrive a d src dir (view c).
Proof.
  intros [Ho Hc]. unfold push_packet, arrive, enqueue_module. rewrite Ho, Hc. cbn [view entry ports negb].
  by repeat case_match.
Qed.

(** ** Threads as a network *)

#[local] Abbreviation State := (@Workers.State X).
#[local] Abbreviation pc := (@Workers.pc X).
#[local] Abbreviation worker_step := (worker_step process wire_ret malloc_ok).
#[local] Abbreviation exec := (exec process wire_ret malloc_ok).
#[local] Abbreviation run := (run process wire_ret malloc_ok).

(** A task that a worker has taken waits until the module is called; from then on its
    results are there, those of the calls that are left too. *)
Definition held (p : pc) : list task :=
  match p with Entered t | InGap t | AtModule t | Both t | Before t => [t] | _ => [] end.
Definition results (p : pc) : list task * list (Z * bytes) :=
  match p with Inside _ md src _ evs _ => emits md src evs | _ => ([], []) end.
Definition beat_results (b : @beat_pc X) : list task * list (Z * bytes) :=
  match b with BIn _ md src _ evs => emits md src evs | _ => ([], []) end.

(** A chain and one worker of it. *)
Definition with_worker (p : pc) (c : Chain) : Net :=
  put (results p) ((view c){{waiting ::= λ q, held p ++ q}}).

(** The module a worker is in, and its links. *)
Definition inside (p : pc) : option (nat * list (option nat)) :=
  match p with Inside t md _ _ _ _ => Some (t_mod t, near md) | _ => None end.

(** A worker at [p] that moves changes nothing of the network, or calls the module of the
    task it holds. *)
Definition moves (p : pc) (c : Chain) (p' : pc) (c' : Chain) : Prop :=
  with_worker p' c' = with_worker p c ∧ (inside p' = inside p ∨ inside p' = None)
    ∧ length (held p') = (length (held p) + if is_idle p then 1 else 0)%nat
  ∨ ∃ t, held p = [t] ∧ results p = ([], []) ∧ with_worker p' c' = fire t (view c)
         ∧ (inside p' = None
            ∨ ∃ md, modules c !! t_mod t = Some md ∧ inside p' = Some (t_mod t, near md)).

Lemma with_idle c : with_worker Idle c = view c.
Proof. by destruct c; unfold with_worker; rewrite put_nil. Qed.

Lemma with_held p t c : held p = [t] → results p = ([], []) →
  with_worker p c = (view c){{waiting := t :: queue c}}.
Proof. intros Hp Hr. unfold with_worker. rewrite Hr, put_nil, Hp. done. Qed.

Lemma finish_view t last r c : usable c → usable (finish t last r c) ∧ view (finish t last r c) = view c.
Proof. intros Hu. unfold finish. by case_match. Qed.

Lemma worker_moves now i s s' : usable (chain s) → worker_step now i s = Some s' →
  ∃ p p', workers s !! i = Some p ∧ workers s' = <[i := p']> (workers s) ∧ beat s' = beat s
    ∧ usable (chain s') ∧ moves p (chain s) p' (chain s').
Proof.
  destruct s as [c ws b pa ca]. cbn [chain workers beat]. intros Hu E. unfold Workers.worker_step in E.
  cbn [workers chain] in E. destruct (ws !! i) as [p|] eqn:Hi; [|done]. exists p.
  destruct p as [|t|t|t|t|t|t|t md src last [|e evs] r]; cbn beta iota in E.
  - destruct (queue c) as [|t rest] eqn:Eq; [done|]. injection E as <-. exists (Entered t).
    split_and!; try done. left. split_and!; [|by right|done].
    rewrite with_idle. unfold with_worker, view, put. cbn. by rewrite !app_nil_r, Eq.
  - case_match; [|done]. injection E as <-. exists (InGap t). split_and!; try done. left. by split_and!; [|left|].
  - rewrite (proj2 Hu) in E. destruct (modules c !! t_mod t) as [md|] eqn:Em; injection E as <-.
    + exists (AtModule t). destruct (touch_view now (t_mod t) c Hu) as [Hu' Hv]. split_and!; try done. left.
      split_and!; [|by left|done]. unfold with_worker. by setoid_rewrite Hv.
    + exists Idle. split_and!; try done. right. exists t. split_and!; try done; [|by left]. rewrite with_idle.
      unfold fire. cbn [view nodes]. by rewrite list_lookup_fmap, Em.
  - injection E as <-. exists Idle. split_and!; try done. left. split_and!; [|by right|done].
    rewrite with_idle. unfold with_worker. cbn [results]. by rewrite put_nil.
  - case_match; [|done]. injection E as <-. exists (Both t). split_and!; try done. left. by split_and!; [|left|].
  - injection E as <-. exists (Before t). split_and!; try done. left. by split_and!; [|left|].
  - destruct (modules c !! t_mod t) as [md|] eqn:Em.
    + destruct (process _ _ _ _ _) as [[x' evs] r] eqn:Ep. injection E as <-.
      exists (Inside t md (t_src t) 0 evs r). destruct (set_ctx_view (t_mod t) x' c Hu) as [Hu' Hv].
      split_and!; try done. right. exists t. split_and!; try done; [|right; by exists md].
      unfold with_worker. cbn [results held app].
      unfold fire. cbn [view nodes]. rewrite list_lookup_fmap, Em. cbn [fmap option_fmap option_map].
      change (mod_name (still md)) with (mod_name md). change (ctx (still md)) with (ctx md). rewrite Ep, emits_still.
      by rewrite <- Hv.
    + injection E as <-. exists Idle. split_and!; try done. right. exists t. split_and!; try done; [|by left].
      rewrite with_idle. unfold fire. cbn [view nodes]. by rewrite list_lookup_fmap, Em.
  - injection E as <-. exists Idle. destruct (finish_view t last r c Hu) as [Hu' Hv]. split_and!; try done.
    left. split_and!; [|by right|done]. rewrite with_idle. etransitivity; [exact Hv|]. unfold with_worker. cbn [results].
    by rewrite put_nil.
  - destruct (event_view (t_mod t) md src last e c Hu) as [Hu' Hv].
    destruct (event _ _ _ _ _ _ _ _) as [[c' src'] last']. injection E as <-. cbn [fst snd] in *.
    exists (Inside t md src' last' evs r). split_and!; try done. left. split_and!; [apply Hv|by left|done].
Qed.

(** The heartbeats, the same way. *)
Lemma beat_moves l s s' :
  (∀ now i, l ≠ LWorker now i) → (∀ o, l ≠ LOp o) → usable (chain s) → exec l s = Some s' →
  workers s' = workers s ∧ usable (chain s')
  ∧ (put (beat_results (beat s')) (view (chain s')) = put (beat_results (beat s)) (view (chain s))
     ∧ (beat_results (beat s) = ([], []) → beat_results (beat s') = ([], []))
     ∨ ∃ m md, beat_results (beat s) = ([], []) ∧ modules (chain s) !! m = Some md
            ∧ beat_results (beat s') = emits md 0 (process (mod_name md) (ctx md) (-1) 0 None).1.2
            ∧ put (beat_results (beat s')) (view (chain s')) = pulse m (view (chain s))).
Proof.
  intros Hw Ho Hu E. destruct s as [c ws b pa ca]. destruct l as [now i|now ms m| |o]; cbn [exec chain beat] in *;
    [by destruct (Hw now i)| | |by destruct (Ho o)].
  - unfold beat_begin in E. cbn [beat chain] in E. destruct b; try done.
    destruct (modules c !! m) as [md|] eqn:Em; [|done].
    destruct (heartbeat_due now ms md) as [due md'] eqn:Ed. injection E as <-. split_and!; [done..|]. left.
    assert (still md' = still md) as Hs.
    { unfold heartbeat_due in Ed. repeat case_match; injection Ed as <- <-; by destruct md. }
    replace (beat_results _) with (@nil task, @nil (Z * bytes)) by (by destruct due). split; [|done]. f_equal.
    unfold view. cbn. f_equal. rewrite list_fmap_insert, Hs. apply list_insert_id. by rewrite list_lookup_fmap, Em.
  - unfold beat_step in E. cbn [beat chain] in E. destruct b as [|m|m|m|m md src last [|e evs]]; try done.
    1, 2: case_match; [|done]; injection E as <-; split_and!; try done; left; by split.
    + destruct (modules c !! m) as [md|] eqn:Em.
      * destruct (process _ _ _ _ _) as [[x' evs] r] eqn:Ep. injection E as <-.
        destruct (set_ctx_view m x' c Hu) as [Hu' Hv]. split_and!; [done..|]. right. exists m, md. rewrite Ep.
        split_and!; [done..|]. unfold pulse. cbn [view nodes]. rewrite list_lookup_fmap, Em. cbn [fmap option_fmap option_map].
        change (mod_name (still md)) with (mod_name md). change (ctx (still md)) with (ctx md).
        rewrite Ep, emits_still. by rewrite <- Hv.
      * injection E as <-. split_and!; try done. left. by split.
    + injection E as <-. split_and!; try done. left. by split.
    + destruct (event_view m md src last e c Hu) as [Hu' Hv].
      destruct (event _ _ _ _ _ _ _ _) as [[c' src'] last'] eqn:Eev. injection E as <-. cbn [fst snd] in *.
      split_and!; [done..|]. left. split; [apply Hv|]. cbn [beat beat_results].
      intros Hn%(emits_nil wire_ret malloc_ok m md src last e evs c). by rewrite Eev in Hn.
Qed.

(** What a task does depends on the modules only. *)
Lemma fire_put t (l : list Mod) : ∃ l' out, ∀ n, nodes n = l → fire t n = put out (n{{nodes := l'}}).
Proof.
  unfold fire. destruct (l !! t_mod t) as [md|] eqn:Em.
  - destruct (process (mod_name md) (ctx md) (t_dir t) (t_src t) (Some (t_data t, t_asize t))) as [[x' evs] r] eqn:Ep.
    exists (alter (λ md, md{{ctx := x'}}) (t_mod t) l), (emits md (t_src t) evs).
    intros [? e po w g] <-. cbn [nodes] in *. by rewrite Em, Ep.
  - exists l, ([], []). intros [? e po w g] <-. cbn [nodes] in *. by rewrite Em, put_nil.
Qed.

Lemma pulse_put m (l : list Mod) : ∃ l' out, ∀ n, nodes n = l → pulse m n = put out (n{{nodes := l'}}).
Proof.
  unfold pulse. destruct (l !! m) as [md|] eqn:Em.
  - destruct (process (mod_name md) (ctx md) (-1) 0 None) as [[x' evs] r] eqn:Ep.
    exists (alter (λ md, md{{ctx := x'}}) m l), (emits md 0 evs). intros [? e po w g] <-. cbn [nodes] in *. by rewrite Em, Ep.
  - exists l, ([], []). intros [? e po w g] <-. cbn [nodes] in *. by rewrite Em, put_nil.
Qed.

(** A task of the endpoint. *)
Definition enters (po : list (option nat)) (t : task) : Prop :=
  t_dir t = 0 ∧ t_mod t = 0%nat ∨ t_dir t ≠ 0 ∧ Some (t_mod t) ∈ po.

Lemma arrive_put a d src dir (en : bool) (po : list (option nat)) : ∃ out,
  (∀ n, entry n = en → ports n = po → arrive a d src dir n = put out n)
  ∧ (en = true → out.2 = [] ∧ (out.1 = [] ∨ ∃ t, out.1 = [t] ∧ enters po t)).
Proof.
  assert (∀ n l es, n{{waiting ::= λ q, q ++ l}} = put (l, []) n ∧ n{{gone ::= λ q, q ++ es}} = put ([], es) n) as Hp.
  { intros [] l es. unfold put. cbn. by rewrite !app_nil_r. }
  unfold arrive. destruct en; cbn [negb].
  2:{ eexists. split; [|done]. intros n He _. rewrite He. apply (Hp n []). }
  destruct (Z.eqb_spec dir 0) as [->|Hdir].
  { eexists. split; [intros n He _; rewrite He; apply (Hp n _ [])|]. split; [done|]. right. eexists. split; [done|]. by left. }
  destruct ((src <? 0) || (Z.of_nat (length po) <=? src)) eqn:Er.
  { exists ([], []). split; [|by auto]. intros n He Ho. by rewrite He, Ho, Er, put_nil. }
  destruct (po !! Z.to_nat src) as [[m|]|] eqn:Em.
  { eexists. split; [intros n He Ho; rewrite He, Ho, Er, Em; apply (Hp n _ [])|]. split; [done|]. right.
    eexists. split; [done|]. right. split; [done|]. by eapply list_elem_of_lookup_2. }
  all: exists ([], []); split; [|by auto]; intros n He Ho; by rewrite He, Ho, Er, Em, put_nil.
Qed.

(** ** Any number of workers *)

(** The state of all threads, with the packets in no particular order. *)
Record bag (s : State) (n : Net) : Prop := {
  b_static : nodes n = still <$> modules (chain s) ∧ entry n = entry_ext (chain s)
             ∧ ports n = wire_entries (chain s);
  b_waiting : waiting n ≡ₚ (workers s ≫= held) ++ queue (chain s)
                ++ (workers s ≫= λ p, (results p).1) ++ (beat_results (beat s)).1;
  b_gone : gone n ≡ₚ exits (chain s) ++ (workers s ≫= λ p, (results p).2) ++ (beat_results (beat s)).2
}.

Lemma bind_delete {A B} (f : A → list B) l i a : l !! i = Some a → (l ≫= f) ≡ₚ f a ++ (delete i l ≫= f).
Proof.
  intros Hi. rewrite delete_take_drop. rewrite <- (take_drop_middle l i a Hi) at 1.
  rewrite !bind_app. cbn. rewrite !(assoc_L (++)). f_equiv. apply Permutation_app_comm.
Qed.

Lemma delete_insert_list {A} (l : list A) i a : delete i (<[i := a]> l) = delete i l.
Proof.
  revert i. induction l as [|b l IH]; intros [|i]; [done..|]. exact (f_equal (cons b) (IH i)).
Qed.

(** The packets of one worker, and those of the other threads. *)
Definition others (i : nat) (s : State) : list task * list (Z * bytes) :=
  let ws := delete i (workers s) in
  ((ws ≫= held) ++ (ws ≫= λ p, (results p).1) ++ (beat_results (beat s)).1,
   (ws ≫= λ p, (results p).2) ++ (beat_results (beat s)).2).

Lemma bag_worker i p s n : workers s !! i = Some p →
  bag s n ↔ (nodes n = still <$> modules (chain s) ∧ entry n = entry_ext (chain s)
               ∧ ports n = wire_entries (chain s))
            ∧ waiting n ≡ₚ waiting (with_worker p (chain s)) ++ (others i s).1
            ∧ gone n ≡ₚ gone (with_worker p (chain s)) ++ (others i s).2.
Proof.
  intros Hi. unfold others, with_worker, put, view. cbn.
  assert (∀ q : list task, (workers s ≫= held) ++ q ++ (workers s ≫= λ p, (results p).1) ++ (beat_results (beat s)).1
    ≡ₚ ((held p ++ q) ++ (results p).1) ++ (delete i (workers s) ≫= held)
        ++ (delete i (workers s) ≫= λ p, (results p).1) ++ (beat_results (beat s)).1) as Hw.
  { intros q. rewrite !(bind_delete _ _ i p Hi). solve_Permutation. }
  assert (∀ q, q ++ (workers s ≫= λ p, (results p).2) ++ (beat_results (beat s)).2
    ≡ₚ (q ++ (results p).2) ++ (delete i (workers s) ≫= λ p, (results p).2) ++ (beat_results (beat s)).2) as Hg.
  { intros q. rewrite !(bind_delete _ _ i p Hi). solve_Permutation. }
  split.
  - intros [H1 H2 H3]. rewrite Hw in H2. rewrite Hg in H3. exact (conj H1 (conj H2 H3)).
  - intros (H1 & H2 & H3). split; [done| |]; by rewrite ?Hw, ?Hg.
Qed.

(** The packets that enter in a run. *)
Definition entering (ls : list label) : list op :=
  omap (λ l, match l with LOp (OpPush a d src dir) => Some (OpPush a d src dir) | _ => None end) ls.

(** The runs that are considered: nobody cancels the chain. *)
Definition working (l : label) : Prop := l ≠ LOp OpCancel.

Lemma bag_worker_step now i s s' n : usable (chain s) → worker_step now i s = Some s' → bag s n →
  usable (chain s') ∧ ∃ p p', workers s !! i = Some p ∧ workers s' = <[i := p']> (workers s)
    ∧ (bag s' n ∧ length (held p') = (length (held p) + if is_idle p then 1 else 0)%nat
       ∨ is_idle p = false
         ∧ ∃ t l1 l2, waiting n = l1 ++ t :: l2 ∧ bag s' (fire t (n{{waiting := l1 ++ l2}}))).
Proof.
  intros Hu E Hb. destruct (worker_moves now i s s' Hu E) as (p & p' & Hi & Hws & Hbeat & Hu' & Hm).
  assert (workers s' !! i = Some p') as Hi'.
  { rewrite Hws. eapply list_lookup_insert_eq, lookup_lt_Some, Hi. }
  assert (others i s' = others i s) as Ho.
  { unfold others. by rewrite Hws, Hbeat, delete_insert_list. }
  pose proof (proj1 (bag_worker i p s n Hi) Hb) as ((N1 & N2 & N3) & Hw & Hg). split; [done|].
  exists p, p'. split; [done|]. split; [done|].
  setoid_rewrite (bag_worker i p' s' _ Hi'). rewrite Ho. clear Hb Ho.
  destruct Hm as [(Hm & _ & Hlen)|(t & Hh & Hr & Hm & _)].
  - left. split; [|done]. rewrite Hm. split; [|done]. injection Hm as V1 V2 V3 _ _. by rewrite V1, V2, V3.
  - right. split; [by destruct p|]. rewrite (with_held p t _ Hh Hr) in Hw. rewrite Hm.
    destruct (fire_put t (nodes n)) as (l' & out & Hf).
    assert (fire t (view (chain s)) = put out ((view (chain s)){{nodes := l'}})) as Hv by (by apply Hf).
    assert (t ∈ waiting n) as [k1 [k2 Hk]]%list_elem_of_split by (rewrite Hw; by left).
    exists t, k1, k2. split; [done|].
    rewrite Hk, <- Permutation_middle in Hw. apply (Permutation_cons_inv (l := k1 ++ k2)) in Hw.
    rewrite (with_held p t _ Hh Hr) in Hg.
    rewrite (Hf (n{{waiting := k1 ++ k2}})) by done. rewrite Hv in Hm |- *.
    injection Hm as V1 V2 V3 _ _. unfold put. cbn in *. unfold constant in *.
    rewrite V1, V2, V3. split; [done|]. split.
    + rewrite Hw. solve_Permutation.
    + rewrite Hg. solve_Permutation.
Qed.

(** The packets of the event loop, and those of the workers. *)
Lemma bag_beat s n :
  bag s n ↔ (nodes n = still <$> modules (chain s) ∧ entry n = entry_ext (chain s)
               ∧ ports n = wire_entries (chain s))
            ∧ waiting n ≡ₚ waiting (put (beat_results (beat s)) (view (chain s)))
                ++ (workers s ≫= held) ++ (workers s ≫= λ p, (results p).1)
            ∧ gone n ≡ₚ gone (put (beat_results (beat s)) (view (chain s))) ++ (workers s ≫= λ p, (results p).2).
Proof.
  unfold put, view. cbn. split.
  - intros [H1 H2 H3]. split; [exact H1|]. rewrite H2, H3. split; solve_Permutation.
  - intros (H1 & H2 & H3). split; [exact H1|rewrite H2; solve_Permutation|rewrite H3; solve_Permutation].
Qed.

Lemma bag_beat_step l s s' n :
  (∀ now i, l ≠ LWorker now i) → (∀ o, l ≠ LOp o) → usable (chain s) → exec l s = Some s' → bag s n →
  usable (chain s') ∧ ∃ n', (n' = n ∨ ∃ m, n' = pulse m n) ∧ bag s' n'.
Proof.
  intros Hl Ho Hu E Hb. destruct (beat_moves l s s' Hl Ho Hu E) as (Hws & Hu' & Hm).
  apply bag_beat in Hb as ((N1 & N2 & N3) & Hw & Hg). split; [done|]. setoid_rewrite bag_beat. rewrite Hws.
  destruct Hm as [[Hm _]|(m & md & Hr & _ & _ & Hm)].
  - exists n. split; [by left|]. rewrite Hm. split; [|done]. injection Hm as V1 V2 V3 _ _. by rewrite V1, V2, V3.
  - rewrite Hr, put_nil in Hw, Hg. exists (pulse m n). split; [right; by exists m|]. rewrite Hm.
    destruct (pulse_put m (nodes n)) as (l' & out & Hf).
    assert (pulse m (view (chain s)) = put out ((view (chain s)){{nodes := l'}})) as Hv by (by apply Hf).
    rewrite (Hf n eq_refl). rewrite Hv in Hm |- *. injection Hm as V1 V2 V3 _ _. unfold put. cbn in *.
    unfold constant in *. rewrite V1, V2, V3. split; [done|]. rewrite Hw, Hg. split; solve_Permutation.
Qed.

Lemma op_view o c : endpoint_op o = true → o ≠ OpCancel → usable c →
  let c' := run_op process wire_ret malloc_ok c o in
  usable c' ∧ match o with OpPush a d src dir => view c' = arrive a d src dir (view c) | _ => view c' = view c end.
Proof.
  intros Ho Hc Hu. destruct o as [a d src dir|k|k| | |]; try done; cbn [run_op].
  - by apply push_view.
  - unfold alloc_buffer. by case_match.
Qed.

Lemma bag_op o s n : o ≠ OpCancel → usable (chain s) → bag s n → ∀ s', exec (LOp o) s = Some s' →
  usable (chain s') ∧ ∃ n', (n' = n ∧ entering [LOp o] = [] ∨ net_step false (entering [LOp o]) n n') ∧ bag s' n'.
Proof.
  intros Hc Hu [(N1 & N2 & N3) Hw Hg] s'. unfold Workers.exec. destruct (endpoint_op o) eqn:Ho; [|done]. intros [= <-].
  destruct (op_view o (chain s) Ho Hc Hu) as [Hu' Hv]. split; [exact Hu'|].
  set (c' := run_op _ _ _ _ _) in Hv.
  assert (∀ n', nodes n' = nodes (view c') → entry n' = entry (view c') → ports n' = ports (view c') →
    waiting n' ≡ₚ (workers s ≫= held) ++ waiting (view c')
                ++ (workers s ≫= λ p, (results p).1) ++ (beat_results (beat s)).1 →
    gone n' ≡ₚ gone (view c') ++ (workers s ≫= λ p, (results p).2) ++ (beat_results (beat s)).2 →
    bag (upd (λ c, run_op process wire_ret malloc_ok c o) s) n') as Hbag by (by intros; split).
  destruct o as [a d src dir|k|k| | |]; try done; rewrite Hv in Hbag.
  2, 3: exists n; split; [by left|by apply Hbag].
  exists (arrive a d src dir n). split; [right; apply net_arrive|].
  destruct (arrive_put a d src dir (entry n) (ports n)) as (out & Hf & _).
  rewrite (Hf (view (chain s))) in Hbag by done. rewrite (Hf n) by done. apply Hbag; try done.
  - cbn. rewrite Hw. solve_Permutation.
  - cbn. rewrite Hg. solve_Permutation.
Qed.

Lemma bag_exec l s s' n : working l → usable (chain s) → exec l s = Some s' → bag s n →
  usable (chain s') ∧ ∃ n', (n' = n ∧ entering [l] = [] ∨ net_step false (entering [l]) n n') ∧ bag s' n'.
Proof.
  intros Hl Hu E Hb. destruct l as [now i|now ms m| |o].
  4: apply (bag_op o s n); try done; intros ->; by apply Hl.
  { destruct (bag_worker_step now i s s' n Hu E Hb) as (Hu1 & p & p' & _ & _ & Hs). split; [done|].
    destruct Hs as [[Hs _]|(_ & t & l1 & l2 & Hw & Hs)]; [by exists n; auto|].
    exists (fire t (n{{waiting := l1 ++ l2}})). split; [right|done]. by apply net_fire. }
  1: destruct (bag_beat_step (LBeat now ms m) s s' n) as (Hu1 & n1 & Hs & Hb1); try done.
  2: destruct (bag_beat_step LBeatGo s s' n) as (Hu1 & n1 & Hs & Hb1); try done.
  all: split; [done|]; exists n1; split; [|done]; destruct Hs as [-> |[m' ->]]; [by auto|right; apply net_pulse].
Qed.

(** A simulation, one step after the other. *)
Lemma simulate (fifo : bool) (W : label → Prop) (R : State → Net → Prop) :
  (∀ l s s' n, W l → usable (chain s) → exec l s = Some s' → R s n →
     usable (chain s') ∧ ∃ n', (n' = n ∧ entering [l] = [] ∨ net_step fifo (entering [l]) n n') ∧ R s' n') →
  ∀ ls s s' n, Forall W ls → usable (chain s) → run ls s = Some s' → R s n →
  ∃ n', net_run fifo (entering ls) n n' ∧ R s' n'.
Proof.
  intros HR ls s s' n0 Hls Hu E Hb.
  assert (∃ n', net_run fifo ([] ++ entering ls) n0 n' ∧ R s' n') as H; [|exact H].
  assert (net_run fifo [] n0 n0) as Hn by constructor. revert Hn Hb. generalize (@nil op) as h, n0 at 2 3 as n.
  revert s Hu E. induction Hls as [|l ls Hl _ IH]; intros s Hu E h n Hn Hb; cbn [Workers.run] in E.
  { injection E as <-. exists n. by rewrite app_nil_r. }
  apply bind_Some in E as (s1 & E1 & E). destruct (HR l s s1 n Hl Hu E1 Hb) as (Hu1 & n1 & Hs & Hb1).
  change (entering (l :: ls)) with (entering ([l] ++ ls)). unfold entering. rewrite omap_app.
  fold (entering [l]) (entering ls). rewrite (assoc_L (++)). apply (IH s1 Hu1 E _ n1); [|done].
  destruct Hs as [[-> ->]|Hs]; [by rewrite app_nil_r|by eapply net_next].
Qed.

Lemma bag_start count c : bag (start count c) (view c).
Proof.
  assert (∀ A (g : pc → list A), g Idle = [] → (replicate count Idle ≫= g) = []) as Hn.
  { intros A g Hg. induction count as [|k IH]; [done|]. cbn. by rewrite Hg, IH. }
  split; [done| |]; cbn; rewrite !Hn by done; by rewrite ?app_nil_r.
Qed.

(** All threads are at rest. *)
Definition at_rest (s : State) : Prop :=
  queue (chain s) = [] ∧ Forall (λ p, p = Idle) (workers s) ∧ beat s = BIdle.

Definition restb (s : State) : bool :=
  match queue (chain s), beat s with [], BIdle => forallb is_idle (workers s) | _, _ => false end.

Lemma restb_ok s : restb s = true → at_rest s.
Proof.
  unfold restb, at_rest. destruct (queue (chain s)), (beat s); try done. intros H. split_and!; try done.
  apply List.Forall_forall. intros p Hp. rewrite forallb_forall in H. specialize (H p Hp). by destruct p.
Qed.

Lemma bag_at_rest s n : bag s n → at_rest s → waiting n = [] ∧ gone n ≡ₚ exits (chain s).
Proof.
  intros [_ Hw Hg] (Hq & Hi & Hb). rewrite Hq, Hb in Hw. rewrite Hb in Hg.
  assert (∀ A (g : pc → list A), g Idle = [] → (workers s ≫= g) = []) as Hn.
  { intros A g Hg'. induction Hi as [|p ws -> _ IH]; [done|]. cbn. by rewrite Hg', IH. }
  rewrite !Hn in Hw by done. rewrite !Hn in Hg by done. cbn in *. rewrite app_nil_r in Hg.
  split; [by apply Permutation_nil|done].
Qed.

(** [C16] However many workers there are and however they, the heartbeats and the endpoint
    interleave, call by call, the chain computes what its modules compute: there is a run of
    the network of the modules, in which each takes the packets that wait for it one at a
    time and makes all its calls at once, with the same packets entering, such that when the
    threads are at rest nothing waits and the packets that have left are those of the
    network. Nothing is lost, duplicated or made up by the threads; modules may have state
    and any number of outputs. *)
Theorem workers_refine_network (count : nat) (ls : list label) (c : Chain) (s : State)
    (Husable : usable c) (Hls : Forall working ls) (Hrun : run ls (start count c) = Some s) :
  ∃ n, net_run false (entering ls) (view c) n
    ∧ nodes n = still <$> modules (chain s)
    ∧ (at_rest s → waiting n = [] ∧ gone n ≡ₚ exits (chain s)).
Proof.
  destruct (simulate false working bag bag_exec ls (start count c) s (view c)) as (n & Hn & Hb); try done;
    [apply bag_start|].
  exists n. split; [done|]. split; [apply Hb|]. by apply bag_at_rest.
Qed.

(** ** One worker *)

(** The links of a module lead to other queues than those of the packets that enter:
    towards the application no link leads to an entry of the wire, towards the wire none
    leads to the first module. *)
Definition clear (po : list (option nat)) (nr : list (option nat)) : Prop :=
  ∀ k j, nr !! k = Some (Some j) → match k with O => Some j ∉ po | S _ => j ≠ 0%nat end.
Definition separate (l : list Mod) (po : list (option nat)) : Prop := Forall (clear po) (near <$> l).

(** A heartbeat of the module sends nothing. *)
Definition silent (md : Mod) : Prop :=
  emits md 0 (process (mod_name md) (ctx md) (-1) 0 None).1.2 = ([], []).

Lemma emits_apart po (md : Mod) t evs : clear po (near md) → enters po t →
  ∀ src, Forall (apart t) (emits md src evs).1.
Proof.
  intros Hc Ht. induction evs as [|[k|k|s|i|dst d a] evs IH]; intros src; cbn [emits]; try done.
  specialize (IH src). destruct (emits md src evs) as [ts es]. cbn [fst] in IH.
  destruct (if dst <? 0 then None else near md !! Z.to_nat dst) as [[j|]|] eqn:E; cbn [fst]; try done.
  constructor; [|done]. destruct (Z.ltb_spec dst 0); [done|]. apply Hc in E. unfold apart. cbn.
  intros [Hm Hd]. destruct Ht as [[H0 H1]|[H0 H1]], (Z.eqb_spec dst 0) as [->|]; cbn in E; try congruence.
  destruct (Z.to_nat dst) eqn:?; [lia|congruence].
Qed.

Lemma alike_swap q t r : Forall (apart t) r → q ++ [t] ++ r ≈ q ++ r ++ [t].
Proof. intros Hr. f_equiv. cbn [app]. rewrite <- (app_nil_r r) at 1. by apply alike_move. Qed.

(** The state of the threads, with the queues in order. *)
Record one (s : State) (n : Net) : Prop := {
  o_static : nodes n = still <$> modules (chain s) ∧ entry n = entry_ext (chain s)
             ∧ ports n = wire_entries (chain s);
  o_entry : entry n = true;
  o_links : separate (nodes n) (ports n);
  o_beat : beat_results (beat s) = ([], []);
  o_worker : ∃ p, workers s = [p]
    ∧ (∀ i nr, inside p = Some (i, nr) → (near <$> nodes n) !! i = Some nr)
    ∧ waiting (with_worker p (chain s)) ≈ waiting n ∧ gone n = gone (with_worker p (chain s))
}.

Lemma links_ctx x m (l : list Mod) : near <$> alter (λ md, md{{ctx := x}}) m l = near <$> l.
Proof.
  apply list_eq. intros j. rewrite !list_lookup_fmap, list_lookup_alter. case_decide; [subst|done].
  by destruct (l !! j).
Qed.

Lemma fire_links t n : near <$> nodes (fire t n) = near <$> nodes n ∧ entry (fire t n) = entry n
  ∧ ports (fire t n) = ports n.
Proof.
  unfold fire. destruct (nodes n !! t_mod t) as [md|]; [|done]. destruct (process _ _ _ _ _) as [[x' evs] r].
  split; [|done]. apply links_ctx.
Qed.

Lemma pulse_links m n : near <$> nodes (pulse m n) = near <$> nodes n ∧ entry (pulse m n) = entry n
  ∧ ports (pulse m n) = ports n.
Proof.
  unfold pulse. destruct (nodes n !! m) as [md|]; [|done]. destruct (process _ _ _ _ _) as [[x' evs] r].
  split; [|done]. apply links_ctx.
Qed.

Lemma one_worker_step now i s s' n : usable (chain s) → worker_step now i s = Some s' → one s n →
  usable (chain s') ∧ ∃ n', (n' = n ∨ net_step true [] n n') ∧ one s' n'.
Proof.
  intros Hu E [(N1 & N2 & N3) He Hl Hb (p & Hp & Hin & Hw & Hg)].
  destruct (worker_moves now i s s' Hu E) as (p0 & p' & Hi & Hws & Hbeat & Hu' & Hm). split; [done|].
  rewrite Hp in Hi. destruct i as [|[|]]; [|done..]. injection Hi as <-. rewrite Hp in Hws. cbn in Hws.
  destruct Hm as [(Hm & Hs & _)|(t & Hh & Hr & Hm & Hs)].
  - exists n. split; [by left|]. split; [|done|done|by rewrite Hbeat|].
    + injection Hm as V1 V2 V3 _ _. by rewrite V1, V2, V3.
    + exists p'. rewrite Hm. split_and!; try done. destruct Hs as [-> | ->]; done.
  - rewrite (with_held p t _ Hh Hr) in Hw, Hg.
    destruct (alike_head t (queue (chain s)) (waiting n) Hw) as (l1 & l2 & E1 & Hl1 & Hq).
    exists (fire t (n{{waiting := l1 ++ l2}})). split; [right; by apply net_fire|].
    destruct (fire_put t (nodes n)) as (l' & out & Hf).
    assert (fire t (view (chain s)) = put out ((view (chain s)){{nodes := l'}})) as Hv by (by apply Hf).
    destruct (fire_links t (n{{waiting := l1 ++ l2}})) as (Hln & Hle & Hlp).
    rewrite (Hf (n{{waiting := l1 ++ l2}})) in * by done. rewrite Hv in Hm.
    split; [|by rewrite Hle| |by rewrite Hbeat|].
    + injection Hm as V1 V2 V3 _ _. cbn in *. unfold constant in *. by rewrite V1, V2, V3.
    + unfold separate. by rewrite Hln, Hlp.
    + exists p'. split; [done|]. split; [|rewrite Hm; unfold put; cbn in *; unfold constant in *; split; [by rewrite Hq|exact (f_equal (λ l, l ++ out.2) Hg)]].
      intros i nr Hi. rewrite Hln. destruct Hs as [Hs|(md & Hmd & Hs)]; rewrite Hs in Hi; [done|]. injection Hi as <- <-.
      change (nodes (n{{waiting := l1 ++ l2}})) with (nodes n).
      by rewrite N1, !list_lookup_fmap, Hmd.
Qed.

Lemma pulse_silent m n : Forall silent (nodes n) → waiting (pulse m n) = waiting n ∧ gone (pulse m n) = gone n.
Proof.
  intros Hs. unfold pulse. destruct (nodes n !! m) as [md|] eqn:Em; [|done].
  pose proof (Forall_lookup_1 _ _ _ _ Hs Em) as Hm. unfold silent in Hm.
  destruct (process _ _ _ _ _) as [[x' evs] r]. cbn [fst snd] in Hm. rewrite Hm. destruct n. cbn. by rewrite !app_nil_r.
Qed.

Lemma one_beat_step l s s' n : Forall silent (nodes n) →
  (∀ now i, l ≠ LWorker now i) → (∀ o, l ≠ LOp o) → usable (chain s) → exec l s = Some s' → one s n →
  usable (chain s') ∧ ∃ n', (n' = n ∨ net_step true [] n n') ∧ one s' n'.
Proof.
  intros Hs Hlw Hlo Hu E [(N1 & N2 & N3) He Hl Hb (p & Hp & Hin & Hw & Hg)].
  destruct (beat_moves l s s' Hlw Hlo Hu E) as (Hws & Hu' & Hm). split; [done|].
  destruct Hm as [[Hm Hr]|(m & md & _ & Hmd & Hr & Hm)].
  - rewrite (Hr Hb), Hb, !put_nil in Hm. exists n. split; [by left|].
    split; [|done|done|by apply Hr|].
    + injection Hm as V1 V2 V3 _ _. by rewrite V1, V2, V3.
    + exists p. unfold with_worker. by rewrite Hws, Hm.
  - assert (silent (still md)) as Hsi.
    { rewrite N1 in Hs. rewrite Forall_fmap in Hs. exact (Forall_lookup_1 _ _ _ _ Hs Hmd). }
    unfold silent in Hsi. rewrite emits_still in Hsi. setoid_rewrite Hsi in Hr. rewrite Hr, put_nil in Hm.
    exists (pulse m n). split; [right; apply net_pulse|].
    destruct (pulse_put m (nodes n)) as (l' & out & Hf).
    destruct (pulse_links m n) as (Hln & Hle & Hlp), (pulse_silent m n Hs) as [Hpw Hpg].
    destruct (pulse_silent m (view (chain s))) as [Hvw Hvg]; [by rewrite N1 in Hs|].
    split; [|by rewrite Hle| |done|].
    + rewrite (Hf (view (chain s))) in Hm by done. rewrite (Hf n) by done. injection Hm as V1 V2 V3 _ _.
      cbn in *. unfold constant in *. by rewrite V1, V2, V3.
    + unfold separate. by rewrite Hln, Hlp.
    + exists p. rewrite Hws, Hln, Hpw, Hpg. split_and!; try done.
      * unfold with_worker, put in *. cbn in *. change (queue (chain s')) with (waiting (view (chain s'))).
        rewrite Hm, Hvw. exact Hw.
      * unfold with_worker, put in *. cbn in *. change (exits (chain s')) with (gone (view (chain s'))).
        rewrite Hm, Hvg. exact Hg.
Qed.

Lemma one_op o s s' n : o ≠ OpCancel → usable (chain s) → exec (LOp o) s = Some s' → one s n →
  usable (chain s') ∧ ∃ n', (n' = n ∧ entering [LOp o] = [] ∨ net_step true (entering [LOp o]) n n') ∧ one s' n'.
Proof.
  intros Hc Hu E [(N1 & N2 & N3) He Hl Hb (p & Hp & Hin & Hw & Hg)]. unfold Workers.exec in E.
  destruct (endpoint_op o) eqn:Ho; [|done]. injection E as <-.
  destruct (op_view o (chain s) Ho Hc Hu) as [Hu' Hv]. split; [exact Hu'|]. set (c' := run_op _ _ _ _ _) in Hv.
  assert (∀ n', nodes n' = nodes n → entry n' = entry n → ports n' = ports n → 
    nodes (view c') = nodes (view (chain s)) → entry (view c') = entry (view (chain s)) →
    ports (view c') = ports (view (chain s)) →
    (held p ++ waiting (view c')) ++ (results p).1 ≈ waiting n' → gone n' = gone (view c') ++ (results p).2 →
    one (upd (λ c, run_op process wire_ret malloc_ok c o) s) n') as Hone.
  { intros n' E1 E2 E3 V1 V2 V3 E4 E5. split; [|congruence|unfold separate in *; congruence|done|].
    - rewrite E1, E2, E3, N1, N2, N3. split_and!; [by symmetry in V1|by symmetry in V2|by symmetry in V3].
    - exists p. rewrite E1. by split_and!. }
  destruct o as [a d src dir|k|k| | |]; try done.
  2, 3: exists n; split; [by left|by apply Hone; rewrite ?Hv].
  exists (arrive a d src dir n). split; [right; apply net_arrive|].
  destruct (arrive_put a d src dir (entry n) (ports n)) as (out & Hf & Hout).
  rewrite (Hf (view (chain s))) in Hv by done. rewrite (Hf n) by done.
  destruct (Hout He) as [Ho2 Ho1]. rewrite Hv in Hone. apply Hone; try done.
  - cbn in *. destruct Ho1 as [-> |(t & -> & Ht)]; [by rewrite !app_nil_r|].
    assert (Forall (apart t) (results p).1) as Hr.
    { destruct p as [|u|u|u|u|u|u|u md sr la evs r]; try by constructor. cbn [results].
      apply (emits_apart (ports n)); [|done]. specialize (Hin _ _ eq_refl).
      exact (Forall_lookup_1 _ _ _ _ Hl Hin). }
    rewrite <- (app_assoc (held p)), <- (app_assoc (queue (chain s))) , (alike_swap (queue (chain s)) t _ Hr).
    rewrite !(assoc_L (++)). by rewrite Hw.
  - change (gone n ++ out.2 = (exits (chain s) ++ out.2) ++ (results p).2). by rewrite Ho2, !app_nil_r.
Qed.

Lemma one_exec l s s' n : Forall silent (nodes n) →
  working l → usable (chain s) → exec l s = Some s' → one s n →
  usable (chain s') ∧ ∃ n', (n' = n ∧ entering [l] = [] ∨ net_step true (entering [l]) n n') ∧ one s' n'.
Proof.
  intros Hs Hl Hu E Hb. destruct l as [now i|now ms m| |o].
  4: apply (one_op o s); try done; intros ->; by apply Hl.
  1: destruct (one_worker_step now i s s' n Hu E Hb) as (Hu1 & n1 & H1 & Hb1).
  2: destruct (one_beat_step (LBeat now ms m) s s' n) as (Hu1 & n1 & H1 & Hb1); try done.
  3: destruct (one_beat_step LBeatGo s s' n) as (Hu1 & n1 & H1 & Hb1); try done.
  all: split; [done|]; exists n1; split; [|done]; destruct H1; by auto.
Qed.

(** The runs with packets that satisfy [ok]. *)
Definition entering_ok (ok : op → Prop) (l : label) : Prop := working l ∧ Forall ok (entering [l]).

Lemma one_run (ok : op → Prop) ls c s :
  usable c → entry_ext c = true → separate (modules c) (wire_entries c) →
  (∀ h n, Forall ok h → net_run true h (view c) n → Forall silent (nodes n)) →
  Forall (entering_ok ok) ls → run ls (start 1 c) = Some s →
  ∃ n h, net_run true h (view c) n ∧ Forall ok h ∧ h = entering ls ∧ one s n.
Proof.
  intros Hu He Hsep Hsil Hls E.
  pose (R := λ (s : State) n, one s n ∧ ∃ h, net_run true h (view c) n ∧ Forall ok h).
  destruct (simulate true (entering_ok ok) R) with ls (start 1 c) s (view c) as (n & Hn & Ho & _); try done.
  - intros l s1 s2 n [Hl Hok] Hu1 E1 [Ho (h & Hh & Hokh)].
    destruct (one_exec l s1 s2 n) as (Hu2 & n' & Hstep & Ho'); try done; [by eapply Hsil|]. split; [done|].
    exists n'. split; [done|]. split; [done|]. destruct Hstep as [[-> _]|Hstep]; [by exists h|].
    exists (h ++ entering [l]). split; [by eapply net_next|by apply Forall_app].
  - split; [|exists []; split; [constructor|done]].
    split; [done|done| |done|]; [|by exists Idle; rewrite with_idle].
    unfold separate in *. cbn. rewrite <- list_fmap_compose. exact Hsep.
  - exists n, (entering ls). split_and!; try done. clear -Hls.
    induction Hls as [|l ls [_ Hl] _ IH]; [done|].
    change (entering (l :: ls)) with (entering ([l] ++ ls)). unfold entering. rewrite omap_app. by apply Forall_app.
Qed.

Lemma one_at_rest s n : one s n → at_rest s → waiting n = [] ∧ gone n = exits (chain s).
Proof.
  intros [_ _ _ _ (p & Hp & _ & Hw & Hg)] (Hq & Hi & _). rewrite Hp in Hi. apply Forall_singleton in Hi as ->.
  rewrite with_idle in Hw, Hg. cbn in Hw, Hg. rewrite Hq in Hw. split; [by apply alike_nil|done].
Qed.

(** ** Properties of a chain, carried over to the network *)

Definition same (fifo : bool) (q q' : list task) : Prop := if fifo then q ≈ q' else q ≡ₚ q'.

Lemma same_refl fifo q : same fifo q q.
Proof. by destruct fifo. Qed.

Lemma same_app fifo q q' r : same fifo q q' → same fifo (q ++ r) (q' ++ r).
Proof. destruct fifo; cbn; by intros ->. Qed.

(** A chain, run by [Chain], in the state of the network. *)
Record follows (fifo : bool) (c : Chain) (n : Net) : Prop := {
  f_usable : usable c;
  f_static : nodes n = still <$> modules c ∧ entry n = entry_ext c ∧ ports n = wire_entries c;
  f_waiting : same fifo (queue c) (waiting n);
  f_gone : exits c = gone n
}.

Lemma follows_view fifo c : usable c → follows fifo c (view c).
Proof. intros Hu. split; [done|done|apply same_refl|done]. Qed.

(** [J] is a property of chains and of the packets pushed so far. *)
Class Carried (fifo : bool) (ok : op → Prop) (J : list op → Chain → Prop) : Prop := {
  carried_same h c q : J h c → same fifo (queue c) q → J h (c{{queue := q}});
  carried_work h c : J h c → J h (work process wire_ret malloc_ok 0 c);
  carried_push h c a d src dir :
    J h c → ok (OpPush a d src dir) → J (h ++ [OpPush a d src dir]) (push_packet a d src dir c);
  carried_quiet h c m md : J h c → modules c !! m = Some md →
    ∃ r, process (mod_name md) (ctx md) (-1) 0 None = (ctx md, [], r)
}.

Lemma pulse_quiet m n :
  (∀ md, nodes n !! m = Some md → ∃ r, process (mod_name md) (ctx md) (-1) 0 None = (ctx md, [], r)) →
  pulse m n = n.
Proof.
  intros Hq. unfold pulse. destruct (nodes n !! m) as [md|] eqn:Em; [|done].
  destruct (Hq md eq_refl) as [r ->]. cbn [emits]. rewrite put_nil. destruct n as [l e po w g]. cbn in *. f_equal.
  apply list_eq. intros j. rewrite list_lookup_alter. case_decide; [subst|done]. rewrite Em. by destruct md.
Qed.

Section carried.
Context (fifo : bool) (ok : op → Prop) (J : list op → Chain → Prop) (HJ : Carried fifo ok J).

Lemma quiet_nodes h c n m md : follows fifo c n → J h c → nodes n !! m = Some md →
  ∃ r, process (mod_name md) (ctx md) (-1) 0 None = (ctx md, [], r).
Proof.
  intros [_ (N1 & _ & _) _ _] Hh Hm. rewrite N1, list_lookup_fmap in Hm.
  destruct (modules c !! m) as [md'|] eqn:Em; [|done]. injection Hm as <-.
  exact (@carried_quiet _ _ _ HJ h c m md' Hh Em).
Qed.

Lemma carried_arrive h c n a d src dir : ok (OpPush a d src dir) → follows fifo c n → J h c →
  follows fifo (push_packet a d src dir c) (arrive a d src dir n)
  ∧ J (h ++ [OpPush a d src dir]) (push_packet a d src dir c).
Proof.
  intros Hok [Hu (N1 & N2 & N3) Hw Hg] Hh. split; [|exact (@carried_push _ _ _ HJ h c a d src dir Hh Hok)].
  destruct (push_view a d src dir c Hu) as [Hu' Hv].
  destruct (arrive_put a d src dir (entry n) (ports n)) as (out & Ha & _).
  rewrite (Ha (view c)) in Hv by done. rewrite (Ha n) by done. injection Hv as V1 V2 V3 V4 V5.
  split; [done| | |].
  - unfold put. cbn in *. by rewrite V1, V2, V3.
  - rewrite V4. by apply (same_app fifo (queue c) (waiting n)).
  - rewrite V5. exact (f_equal (λ l, l ++ out.2) Hg).
Qed.

(** A task that the network takes, brought to the head of the queue. *)
Lemma carried_fire h c n t l1 l2 :
  waiting n = l1 ++ t :: l2 → (fifo = true → Forall (apart t) l1) → follows fifo c n → J h c →
  same fifo (queue c) (t :: l1 ++ l2)
  ∧ follows fifo (work process wire_ret malloc_ok 0 (c{{queue := t :: l1 ++ l2}})) (fire t (n{{waiting := l1 ++ l2}}))
  ∧ J h (c{{queue := t :: l1 ++ l2}})
  ∧ J h (work process wire_ret malloc_ok 0 (c{{queue := t :: l1 ++ l2}})).
Proof.
  intros Hn Hl1 [Hu (N1 & N2 & N3) Hw Hg] Hh. assert (same fifo (queue c) (t :: l1 ++ l2)) as Hq.
  { rewrite Hn in Hw. destruct fifo; cbn in *.
    - rewrite Hw. symmetry. by apply alike_move, Hl1.
    - rewrite Hw. symmetry. apply Permutation_middle. }
  assert (J h (c{{queue := t :: l1 ++ l2}})) as H1 by (by apply (@carried_same _ _ _ HJ)).
  split; [done|]. split; [|split; [done|by apply (@carried_work _ _ _ HJ)]].
  change (work process wire_ret malloc_ok 0 (c{{queue := t :: l1 ++ l2}}))
    with (run_task process wire_ret malloc_ok 0 t (c{{queue := l1 ++ l2}})).
  assert (view (c{{queue := l1 ++ l2}}) = (view c){{waiting := l1 ++ l2}}) as Hc by done.
  assert (usable (c{{queue := l1 ++ l2}})) as [Hu' Hv]%(run_task_view 0 t) by exact Hu. revert Hu' Hv.
  generalize (run_task process wire_ret malloc_ok 0 t (c{{queue := l1 ++ l2}})). intros c2 Hu' Hv.
  destruct (fire_put t (nodes n)) as (l' & out & Ha).
  rewrite Hc, (Ha ((view c){{waiting := l1 ++ l2}})) in Hv by done. rewrite (Ha (n{{waiting := l1 ++ l2}})) by done.
  injection Hv as V1 V2 V3 V4 V5. unfold put. cbn in *. unfold constant in *.
  split; [exact Hu'|cbn; by rewrite V1, V2, V3|rewrite V4; apply same_refl|].
  rewrite V5. exact (f_equal (λ l, l ++ out.2) Hg).
Qed.

Lemma carried_pulse h c n m : follows fifo c n → J h c → pulse m n = n.
Proof. intros Hf Hh. apply pulse_quiet. intros md Hm. by eapply quiet_nodes. Qed.

Lemma carried_step h h2 n n' c :
  net_step fifo h2 n n' → Forall ok h2 → follows fifo c n → J h c → ∃ c', follows fifo c' n' ∧ J (h ++ h2) c'.
Proof.
  intros Hs Hok Hf Hh. destruct Hs as [a d src dir n|t l1 l2 n Hn Hl1|m n].
  - apply Forall_inv in Hok. eexists. by apply carried_arrive.
  - destruct (carried_fire h c n t l1 l2 Hn Hl1 Hf Hh) as (_ & ? & _ & ?). eexists. by rewrite app_nil_r.
  - exists c. by rewrite app_nil_r, (carried_pulse h c n m).
Qed.

Lemma carried_run h n c0 : net_run fifo h (view c0) n → Forall ok h → usable c0 → J [] c0 →
  ∃ c, follows fifo c n ∧ J h c.
Proof.
  intros Hn Hok Hu H0. remember (view c0) as n0 eqn:E0. induction Hn as [n|h1 h2 n1 n2 n3 _ IH Hs].
  { subst. exists c0. split; [by apply follows_view|done]. }
  apply Forall_app in Hok as [Hok1 Hok2]. destruct (IH E0 Hok1) as (c & Hf & Hh).
  destruct (carried_step _ _ _ _ _ Hs Hok2 Hf Hh) as (c' & ? & ?). eauto.
Qed.

Lemma carried_silent h n c0 : net_run fifo h (view c0) n → Forall ok h → usable c0 → J [] c0 →
  Forall silent (nodes n).
Proof.
  intros Hn Hok Hu H0. destruct (carried_run h n c0 Hn Hok Hu H0) as (c & Hf & Hh).
  apply Forall_lookup_2. intros m md Hm. destruct (quiet_nodes h c n m md Hf Hh Hm) as [r Hr].
  unfold silent. by rewrite Hr.
Qed.

End carried.

(** ** The threads come to rest *)

(** A step of a thread that has something to do. *)
Definition busy (s' s : State) : Prop :=
  (∃ now i, worker_step now i s = Some s') ∨ beat_step process wire_ret malloc_ok s = Some s'.

Lemma length_bind {A B} (f : A → list B) l : length (l ≫= f) = sum_list_with (length ∘ f) l.
Proof. induction l as [|a l IH]; [done|]. cbn. by rewrite length_app, IH. Qed.

(** The packets that no worker holds. *)
Definition untaken (s : State) (n : Net) : nat := (length (waiting n) - sum_list_with (length ∘ held) (workers s))%nat.

Lemma held_waits s n : bag s n → (sum_list_with (length ∘ held) (workers s) <= length (waiting n))%nat.
Proof. intros [_ Hw _]. apply Permutation_length in Hw. rewrite Hw, !length_app, length_bind. lia. Qed.

Lemma exec_workers l s s' : exec l s = Some s' → length (workers s') = length (workers s).
Proof.
  destruct s as [c ws b pa ca], l as [now i|now ms m| |o]; unfold Workers.exec.
  - unfold Workers.worker_step. cbn [workers chain]. intros E. repeat case_match; simplify_eq;
      cbn; by rewrite ?length_insert.
  - unfold beat_begin. intros E. by repeat case_match; simplify_eq.
  - unfold beat_step. intros E. by repeat case_match; simplify_eq.
  - intros E. case_match; by simplify_eq.
Qed.

Lemma run_workers ls s s' : run ls s = Some s' → length (workers s') = length (workers s).
Proof.
  revert s. induction ls as [|l ls IH]; intros s; cbn [Workers.run]; [by intros [= <-]|].
  intros (s1 & E & Hr)%bind_Some. rewrite (IH _ Hr). by eapply exec_workers.
Qed.

Section rest.
Context (ok : op → Prop) (J : list op → Chain → Prop) (HJ : Carried false ok J).
(** The work left in a chain. *)
Context (E : Chain → nat).
Context (HEsame : ∀ c q, queue c ≡ₚ q → E (c{{queue := q}}) = E c).
Context (HEwork : ∀ h c, J h c → queue c ≠ [] → (E (work process wire_ret malloc_ok 0 c) < E c)%nat).

Lemma busy_wf s : ∀ h c n, usable (chain s) → bag s n → follows false c n → J h c → Acc busy s.
Proof.
  intros h c n. remember (E c) as e eqn:He. revert s c n He. induction e as [e IHe] using lt_wf_ind.
  intros s c n He. remember (untaken s n) as u eqn:Hun. revert s Hun. induction u as [u IHu] using lt_wf_ind.
  intros s. induction (finishing_wf process wire_ret malloc_ok s) as [s _ IHs]. intros Hun Hu Hb Hf Hh.
  constructor. intros s' [(now & i & Hs)|Hs].
  - destruct (bag_worker_step now i s s' n Hu Hs Hb) as (Hu' & p & p' & Hp & Hws & Hm).
    pose proof (held_waits s n Hb) as Hle.
    destruct Hm as [[Hb' Hlen]|(Hidle & t & l1 & l2 & Hw & Hb')].
    + pose proof (held_waits s' n Hb') as Hle'. pose proof (sum_insert (length ∘ held) _ i p p' Hp) as Hsum.
      rewrite <- Hws in Hsum. cbn in Hsum. destruct (is_idle p) eqn:Hidle.
      * eapply (IHu (untaken s' n)); try done. subst u. unfold untaken. lia.
      * apply IHs; try done; [left; by exists now, i, p|]. subst u. unfold untaken. lia.
    + destruct (carried_fire false ok J HJ h c n t l1 l2 Hw ltac:(discriminate) Hf Hh) as (Hq & Hf' & H1 & Hh').
      refine (IHe _ _ s' _ _ eq_refl Hu' Hb' Hf' Hh'). subst e. rewrite <- (HEsame c _ Hq). by apply (HEwork h).
  - destruct (bag_beat_step LBeatGo s s' n ltac:(intros; discriminate) ltac:(intros; discriminate) Hu Hs Hb)
      as (Hu' & n' & Hn' & Hb').
    assert (n' = n) as -> by (destruct Hn' as [-> |[m ->]]; [done|by eapply (carried_pulse false ok J HJ)]).
    refine (IHs s' (or_intror Hs) _ Hu' Hb' Hf Hh). subst u. unfold untaken.
    by destruct (beat_moves LBeatGo s s' ltac:(intros; discriminate) ltac:(intros; discriminate) Hu Hs) as (-> & _).
Qed.

(** When no thread can move, all are at rest. *)
Lemma stuck_at_rest s : workers s ≠ [] → (∀ s', ¬ busy s' s) → at_rest s.
Proof.
  intros Hne Hno. destruct (none_finishing process wire_ret malloc_ok s) as [Hi Hb].
  { intros s' [(now & i & p & _ & _ & H)|H]; apply (Hno s'); [left; by exists now, i|by right]. }
  split_and!; [|done|done]. destruct (queue (chain s)) as [|t rest] eqn:Eq; [done|].
  destruct (workers s) as [|p ws] eqn:Ew; [done|]. apply Forall_cons in Hi as [-> _].
  exfalso. eapply Hno. left. exists 0, 0%nat. unfold Workers.worker_step. rewrite Ew. cbn. by rewrite Eq.
Qed.

End rest.
End network.

(** Two workers that swap two packets: the network hands them over in some order. *)
Lemma workers_refine_network_witness :
  match copy_run overtaking (start 2 copy_chain) with
  | Some s => ∃ n, net_run Copy.process false (entering overtaking) (view copy_chain) n
                ∧ nodes n = still <$> modules (chain s)
                ∧ (at_rest s → waiting n = [] ∧ gone n ≡ₚ exits (chain s))
  | None => False
  end.
Proof.
  destruct (copy_run overtaking (start 2 copy_chain)) as [s|] eqn:E; [|vm_compute in E; discriminate].
  apply (workers_refine_network Copy.process (λ _ _, 0) (λ _ _, true) 2 overtaking copy_chain s); [done| |exact E].
  by repeat constructor.
Defined.

End Network.
