(* ===== verification/ChainLinks.v ===== *)
(** * Where the links of a chain lead

    Every link of the graph that the constructor builds leads along the configuration:
    [near[0]] to an instance of an earlier block, the other links to one of a later block.
    So no link leads to where the packets of the endpoint enter, which is what the theorem
    about one worker asks for. *)

From coqutil Require Import Datatypes.RecordSetters.
From S2P Require Import Prelude ChainApi Chain Copy ChainGraph Workers Network.
Import DoubleBraceUpdate.

Module ChainLinks.
Import Chain.

(** The links of the instances, and their places in the configuration. *)
Abbreviation shape := (list (list (option nat) * nat)).

Definition leads (k x y : nat) : Prop := match k with O => (y < x)%nat | S _ => (x < y)%nat end.

Definition rises (L : shape) : Prop :=
  ∀ i nr x, L !! i = Some (nr, x) → ∀ k j, nr !! k = Some (Some j) → ∃ y, L.*2 !! j = Some y ∧ leads k x y.

Definition link (m k : nat) (p : option nat) (L : shape) : shape := alter (λ e, (<[k := p]> e.1, e.2)) m L.

Lemma link_places m k p L : (link m k p L).*2 = L.*2.
Proof.
  apply list_eq. intros j. rewrite !list_lookup_fmap. unfold link. rewrite list_lookup_alter.
  case_decide; [subst|done]. by destruct (L !! j).
Qed.

Lemma rises_snoc L x : rises L → rises (L ++ [([None; None], x)]).
Proof.
  intros HL i nr y Hi k j Hk. apply lookup_snoc_Some in Hi as [[_ Hi]|[_ Hi]].
  - destruct (HL i nr y Hi k j Hk) as (z & Hz & Hlt). exists z. split; [|done].
    rewrite fmap_app. by apply lookup_app_l_Some.
  - injection Hi as <- <-. destruct k as [|[|]]; done.
Qed.

Lemma rises_link L m k j x y :
  rises L → L.*2 !! m = Some x → L.*2 !! j = Some y → leads k x y → rises (link m k (Some j) L).
Proof.
  intros HL Hm Hj Hlt i nr z Hi k' j' Hk. rewrite link_places. unfold link in Hi. rewrite list_lookup_alter in Hi.
  rewrite list_lookup_fmap in Hm.
  case_decide as E; [subst|by eapply HL]. destruct (L !! i) as [[nr0 x0]|] eqn:El; [|done].
  injection Hm as <-. injection Hi as <- <-. destruct (decide (k = k')) as [<-|Hne].
  - apply list_lookup_insert_Some in Hk as [(_ & [= <-] & _)|[? _]]; [eauto|done].
  - rewrite list_lookup_insert_ne in Hk by done. by eapply HL.
Qed.

Section links.
Context {X : Type}.
Context (init : ModuleSpec → option (X * list init_ev)).
#[local] Abbreviation Mod := (@Chain.Module X).
#[local] Abbreviation Build := (@Chain.Build X).

Definition shape_of (l : list Mod) : shape := (λ md, (near md, cfg_idx md)) <$> l.

Lemma shape_alter g h m (l : list Mod) :
  (∀ md, (near (g md), cfg_idx (g md)) = h (near md, cfg_idx md)) →
  shape_of (alter g m l) = alter h m (shape_of l).
Proof.
  intros H. apply list_eq. intros j. unfold shape_of. rewrite list_lookup_fmap, !list_lookup_alter, !list_lookup_fmap.
  case_decide; [subst|done]. destruct (l !! j); [|done]. exact (f_equal Some (H _)).
Qed.

Lemma shape_set_near m k p (l : list Mod) : shape_of (set_near m k p l) = link m k p (shape_of l).
Proof. by apply shape_alter. Qed.

Lemma shape_wire_dst m p (l : list Mod) : shape_of (set_wire_dst m p l) = shape_of l.
Proof.
  apply list_eq. intros j. unfold shape_of, set_wire_dst. rewrite !list_lookup_fmap, list_lookup_alter.
  case_decide; [subst|done]. by destruct (l !! j).
Qed.

Lemma shape_lookup (l : list Mod) i : (shape_of l).*2 !! i = cfg_idx <$> l !! i.
Proof. unfold shape_of. rewrite !list_lookup_fmap. by destruct (l !! i). Qed.

Lemma shape_length (l : list Mod) : length (shape_of l) = length l.
Proof. apply length_fmap. Qed.

Lemma run_init_shape m evs : ∀ (st : Mod * list (nat * Z)),
  near (foldl (run_init m) st evs).1 = near st.1 ∧ cfg_idx (foldl (run_init m) st evs).1 = cfg_idx st.1.
Proof.
  induction evs as [|[c|i] evs IH]; intros [md r]; cbn [foldl]; [done| |].
  - apply (IH (md, request_outputs m c r)).
  - exact (IH (request_heartbeat i md, r)).
Qed.

Lemma create_one_shape now spec cidx b b' : create_one init now spec cidx b = Some b' →
  shape_of (build b') = shape_of (build b) ++ [([None; None], cidx)].
Proof.
  unfold create_one. intros ([x evs] & _ & E)%bind_Some.
  pose proof (run_init_shape (length (build b)) evs
    (mkMod (name spec) (next_id b) [None; None] (-1) cidx x 0 now, requested b)) as [Hn Hi].
  destruct (foldl _ _ _) as [md req]. injection E as <-. cbn in *. unfold shape_of. by rewrite fmap_app, <- Hn, <- Hi.
Qed.

Lemma create_main_places now specs : ∀ i b b', create_main init now specs i b = Some b' →
  (shape_of (build b')).*2 = (shape_of (build b)).*2 ++ seq i (length specs).
Proof.
  induction specs as [|s specs IH]; intros i b b' E; cbn [create_main] in E.
  { injection E as <-. by rewrite app_nil_r. }
  apply bind_Some in E as (b1 & E1 & E). rewrite (IH _ _ _ E), (create_one_shape _ _ _ _ _ E1), fmap_app, <- app_assoc.
  done.
Qed.

(** The main chain: instance [i] is of block [i]. *)
Lemma link_main_rises (l : list Mod) : (shape_of l).*2 = seq 0 (length l) →
  rises (shape_of (link_main l)) ∧ (shape_of (link_main l)).*2 = seq 0 (length l).
Proof.
  intros Hl. assert ((shape_of (link_main l)).*2 = (shape_of l).*2) as Hp.
  { apply list_eq. intros j. rewrite !shape_lookup. unfold link_main. rewrite list_lookup_imap. by destruct (l !! j) as [[]|]. }
  rewrite Hp. split; [|done]. intros i nr x Hi k j Hk. rewrite Hp, Hl.
  assert ((shape_of (link_main l)).*2 !! i = Some x) as Hx by (by rewrite list_lookup_fmap, Hi).
  rewrite Hp, Hl in Hx. apply lookup_seq in Hx as [-> Hi'].
  unfold shape_of, link_main in Hi. rewrite list_lookup_fmap, list_lookup_imap in Hi.
  destruct (l !! i) as [md|]; [|done]. injection Hi as <- _.
  assert (j < length l ∧ leads k i j)%nat as [Hj Hlt]; [|exists j; split; [by apply lookup_seq|done]].
  destruct k as [|[|]]; cbn -[Nat.ltb Nat.eqb Nat.add] in Hk; [destruct (Nat.eqb_spec i 0)| |done];
    [done| |destruct (Nat.ltb_spec (i + 1) (length l)); [|done]]; injection Hk as <-; cbn; lia.
Qed.

(** The instances of a sub-chain: each is of a later block than the one before it. *)
Definition increasing (x : nat) (specs : list (nat * ModuleSpec)) : Prop :=
  ∀ i e, specs !! i = Some e → e.1 = (S x + i)%nat.

(** What [create_sub] keeps of the instances that were there. *)
Lemma create_sub_rises now mod_ specs : ∀ prev x b b' last,
  rises (shape_of (build b)) → (shape_of (build b)).*2 !! prev = Some x → increasing x specs →
  create_sub init now mod_ prev specs b = Some (b', last) →
  rises (shape_of (build b')) ∧ (shape_of (build b)).*2 `prefix_of` (shape_of (build b')).*2
  ∧ (shape_of (build b')).*2 !! last = Some (x + length specs)%nat
  ∧ (specs ≠ [] → (shape_of (build b')).*2 !! length (build b) = Some (S x)).
Proof.
  induction specs as [|[ri spec] specs IH]; intros prev x b b' last Hb Hp Hi E; cbn [create_sub] in E.
  { injection E as <- <-. rewrite Nat.add_0_r. by split_and!. }
  apply bind_Some in E as (b1 & E1 & E). apply create_one_shape in E1.
  assert (ri = S x) as -> by (rewrite <- (Nat.add_0_r (S x)); exact (Hi 0%nat _ eq_refl)).
  set (mp := length (build b)) in *.
  set (l1 := set_near mp 0 (Some prev) (build b1)) in E.
  set (l2 := if (prev =? mod_)%nat then l1 else set_near prev 1 (Some mp) l1) in E.
  assert ((shape_of (build b1)).*2 = (shape_of (build b)).*2 ++ [S x]) as Hp1 by (by rewrite E1, fmap_app).
  assert ((shape_of (build b1)).*2 !! prev = Some x) as Hx1 by (rewrite Hp1; by apply lookup_app_l_Some).
  assert ((shape_of (build b1)).*2 !! mp = Some (S x)) as Hm1.
  { rewrite Hp1, lookup_app_r; rewrite length_fmap, shape_length; [|done]. by rewrite Nat.sub_diag. }
  assert (rises (shape_of l2) ∧ (shape_of l2).*2 = (shape_of (build b)).*2 ++ [S x]) as [Hr2 Hs2].
  { assert (rises (shape_of l1)) as Hr1.
    { unfold l1. rewrite shape_set_near. apply (rises_link _ _ _ _ (S x) x); try done; [|cbn; lia].
      rewrite E1. by apply rises_snoc. }
    assert ((shape_of l1).*2 = (shape_of (build b1)).*2) as Hs1 by (unfold l1; by rewrite shape_set_near, link_places).
    unfold l2. case_match; [by rewrite Hs1|]. rewrite shape_set_near, link_places, Hs1. split; [|done].
    apply (rises_link _ _ _ _ x (S x)); rewrite ?Hs1; try done. cbn. lia. }
  destruct (IH mp (S x) (b1{{build := l2}}) b' last) as (Hr & Hpre & Hlast & _); try done.
  { change (build (b1{{build := l2}})) with l2. by rewrite Hs2, <- Hp1. }
  { intros i e He. specialize (Hi (S i) e He). rewrite Hi. lia. }
  change (build (b1{{build := l2}})) with l2 in Hpre. rewrite Hs2 in Hpre.
  split_and!; [done| | |].
  - etransitivity; [|exact Hpre]. by eexists.
  - cbn [length]. by rewrite <- Nat.add_succ_comm.
  - intros _. destruct Hpre as [k ->]. rewrite <- app_assoc, lookup_app_r; rewrite length_fmap, shape_length; [|done].
    by rewrite Nat.sub_diag.
Qed.

Lemma tail_specs_increasing cfg mc : increasing mc (tail_specs cfg mc).
Proof.
  intros i e He. unfold tail_specs in He. rewrite lookup_drop, list_lookup_imap in He.
  destruct (cfg !! (S mc + i)%nat); [|done]. by injection He as <-.
Qed.

Lemma tail_specs_length cfg mc : length (tail_specs cfg mc) = (length cfg - S mc)%nat.
Proof. unfold tail_specs. by rewrite length_drop, length_imap. Qed.

(** The state of phase 2: the entries of the wire are of the last block. *)
Definition along (cfg : list ModuleSpec) (st : Build * list (option nat) * nat) : Prop :=
  let L := shape_of (build st.1.1) in
  rises L ∧ L.*2 !! 0%nat = Some 0%nat ∧ Forall (λ x, (x < length cfg)%nat) L.*2
  ∧ (∀ j, Some j ∈ st.1.2 → ∃ x, L.*2 !! j = Some x ∧ S x = length cfg).

Lemma create_sub_new now mod_ specs : ∀ prev b b' last,
  create_sub init now mod_ prev specs b = Some (b', last) →
  (shape_of (build b')).*2 = (shape_of (build b)).*2 ++ specs.*1.
Proof.
  induction specs as [|[ri spec] specs IH]; intros prev b b' last E; cbn [create_sub] in E.
  { injection E as <- <-. by rewrite app_nil_r. }
  apply bind_Some in E as (b1 & E1 & E). apply create_one_shape in E1.
  set (l1 := set_near (length (build b)) 0 (Some prev) (build b1)) in E.
  set (l2 := if (prev =? mod_)%nat then l1 else set_near prev 1 (Some (length (build b))) l1) in E.
  rewrite (IH _ _ _ _ E). change (build (b1{{build := l2}})) with l2.
  assert ((shape_of l2).*2 = (shape_of (build b1)).*2) as ->.
  { unfold l2, l1. case_match; by rewrite ?shape_set_near, ?link_places. }
  by rewrite E1, fmap_app, <- app_assoc.
Qed.

Lemma create_outputs_along now cfg mod_ mc n : ∀ k b entries port st',
  along cfg (b, entries, port) → (shape_of (build b)).*2 !! mod_ = Some mc → (S mc < length cfg)%nat →
  create_outputs init now cfg mod_ mc k n (b, entries, port) = Some st' → along cfg st'
  ∧ (shape_of (build b)).*2 `prefix_of` (shape_of (build st'.1.1)).*2.
Proof.
  induction n as [|n IH]; intros k b entries port st' Hst Hm Hmc E; cbn [create_outputs] in E.
  { by injection E as <-. }
  destruct Hst as (Hr & H0 & Hlt & He). cbn [fst snd] in *. apply bind_Some in E as ([b1 last] & E1 & E).
  pose proof (create_sub_new _ _ _ _ _ _ _ E1) as Hnew.
  assert (tail_specs cfg mc ≠ []) as Hne.
  { intros H. apply (f_equal length) in H. rewrite tail_specs_length in H. cbn in H. lia. }
  destruct (create_sub_rises now mod_ _ mod_ mc b b1 last Hr Hm (tail_specs_increasing cfg mc) E1)
    as (Hr1 & Hpre & Hlast & Hhead). specialize (Hhead Hne). rewrite tail_specs_length in Hlast.
  set (l1 := set_wire_dst last (Z.of_nat port) (build b1)) in E.
  set (l2 := set_near mod_ (1 + k) (Some (length (build b))) l1) in E.
  assert (shape_of l2 = link mod_ (1 + k) (Some (length (build b))) (shape_of (build b1))) as Hl2.
  { unfold l2, l1. by rewrite shape_set_near, shape_wire_dst. }
  assert ((shape_of (build b1)).*2 !! mod_ = Some mc) as Hm1 by (destruct Hpre as [? ->]; by apply lookup_app_l_Some).
  apply IH in E as [Hst' Hpre'].
  3: by change (build (b1{{build := l2}})) with l2; rewrite Hl2, link_places. 3: done.
  - split; [done|]. change (build (b1{{build := l2}})) with l2 in Hpre'. rewrite Hl2, link_places in Hpre'.
    by etransitivity.
  - unfold along. cbn [fst snd]. change (build (b1{{build := l2}})) with l2. rewrite Hl2, link_places. split_and!.
    + by apply (rises_link _ _ _ _ mc (S mc)); try done; cbn; lia.
    + destruct Hpre as [? ->]. by apply lookup_app_l_Some.
    + rewrite Hnew. apply Forall_app. split; [done|]. apply Forall_fmap, Forall_lookup_2. intros i e Hi.
      pose proof (tail_specs_increasing cfg mc i e Hi) as Hx. apply lookup_lt_Some in Hi.
      rewrite tail_specs_length in Hi. cbn. lia.
    + intros j Hj. apply list_elem_of_lookup in Hj as [i Hi].
      apply list_lookup_insert_Some in Hi as [(_ & [= <-] & _)|[_ Hi]].
      * exists (mc + (length cfg - S mc))%nat. split; [done|lia].
      * apply list_elem_of_lookup_2, elem_of_app in Hi as [Hi|Hi]; [|by apply elem_of_replicate in Hi as [? _]].
        destruct (He j Hi) as (x & Hx & Hs). exists x. split; [|done]. destruct Hpre as [? ->]. by apply lookup_app_l_Some.
Qed.

Lemma serve_request_along now cfg st req st' :
  along cfg st → serve_request init now cfg st req = Some st' → along cfg st'.
Proof.
  destruct st as [[b entries] port], req as [m count]. intros Hst E. unfold serve_request in E.
  destruct (build b !! m) as [x|] eqn:Em; [|by injection E as <-].
  destruct (Nat.leb_spec (length cfg) (S (cfg_idx x))); [by injection E as <-|].
  set (l := alter _ m (build b)) in E.
  assert ((shape_of l).*2 = (shape_of (build b)).*2) as Hp.
  { apply list_eq. intros j. rewrite !shape_lookup. unfold l. rewrite list_lookup_alter. case_decide; [subst|done].
    by destruct (build b !! j) as [[]|]. }
  eapply create_outputs_along in E as [? _]; [done| |change (build (b{{build := l}})) with l; by rewrite Hp, shape_lookup, Em|done].
  destruct Hst as (Hr & H0 & Hlt & He). unfold along. cbn [fst snd] in *. change (build (b{{build := l}})) with l.
  rewrite Hp. split_and!; try done. intros i nr y Hi k j Hk. rewrite Hp.
  unfold shape_of in Hi. rewrite list_lookup_fmap in Hi. unfold l in Hi. rewrite list_lookup_alter in Hi.
  assert (∃ md, build b !! i = Some md ∧ near md !! k = Some (Some j) ∧ cfg_idx md = y) as (md & Ei & Hk' & <-).
  { case_decide as Ed; [subst i; rewrite Em in Hi; exists x; split; [done|]|
      destruct (build b !! i) as [md|]; [|done]; exists md; split; [done|]]; injection Hi as <- <-; [|done]. split; [|done].
    apply lookup_app_Some in Hk as [Hk|[_ Hk]]; [done|]. by apply lookup_replicate in Hk as [? _]. }
  by apply (Hr i (near md) (cfg_idx md)); [unfold shape_of; rewrite list_lookup_fmap, Ei|].
Qed.

Lemma serve_all_along now cfg reqs : ∀ st st',
  along cfg st → serve_all init now cfg reqs st = Some st' → along cfg st'.
Proof.
  induction reqs as [|r reqs IH]; intros st st' Hst E; cbn [serve_all] in E; [by injection E as <-|].
  apply bind_Some in E as (st1 & E1 & E). eapply IH, E. by eapply serve_request_along.
Qed.

Lemma phase2_along now cfg k : ∀ st st',
  along cfg st → phase2 init k now cfg st = Some st' → along cfg st'.
Proof.
  induction k as [|k IH]; intros [[b entries] port] st' Hst E; cbn [phase2] in E; [by injection E as <-|].
  destruct (requested b) as [|r reqs] eqn:Er; [by injection E as <-|].
  apply bind_Some in E as (st1 & E1 & E). eapply IH, E. eapply serve_all_along, E1. exact Hst.
Qed.

(** The graph of every configuration keeps the packets that enter apart from those on the
    way. *)
Lemma chain_new_separate now cfg :
  let c := chain_new init now cfg in Network.separate (modules c) (wire_entries c).
Proof.
  unfold chain_new. destruct (create_main init now cfg 0 (mkBuild [] [] 0)) as [b|] eqn:E; [|by constructor].
  apply create_main_places in E as Hp. cbn in Hp.
  destruct (build b) as [|md0 l0] eqn:Eb; [by constructor|]. rewrite <- Eb in *.
  assert (length (build b) = length cfg) as Hlen.
  { apply (f_equal length) in Hp. by rewrite length_fmap, shape_length, length_seq in Hp. }
  assert (0 < length cfg)%nat as Hpos by (rewrite <- Hlen, Eb; cbn; lia).
  rewrite <- Hlen in Hp. destruct (link_main_rises _ Hp) as [Hr Hs]. rewrite Hlen in Hs.
  set (last := (length (build b) - 1)%nat).
  set (l := set_wire_dst last 1 (set_wire_dst 0 0 (link_main (build b)))).
  destruct (phase2 _ _ _ _ _) as [[[b' e'] p']|] eqn:E2; [|by constructor].
  apply phase2_along in E2 as (Hr' & H0 & Hlt & He).
  - cbn [fst snd modules fresh wire_entries] in *. unfold Network.separate. apply Forall_fmap, Forall_lookup_2.
    intros i md Hi k j Hk.
    destruct (Hr' i (near md) (cfg_idx md)) with k j as (y & Hy & Hle); [unfold shape_of; by rewrite list_lookup_fmap, Hi|done|].
    assert (cfg_idx md < length cfg)%nat.
    { refine (Forall_lookup_1 _ _ i _ Hlt _). by rewrite shape_lookup, Hi. }
    destruct k as [|k]; cbn in Hle; [|intros ->; rewrite H0 in Hy; injection Hy as <-; lia].
    intros (x & Hx & HS)%He. rewrite Hx in Hy. injection Hy as ->. lia.
  - unfold along. cbn [fst snd]. change (build (b{{build := l}})) with l. unfold l. rewrite !shape_wire_dst.
    rewrite Hs. split_and!; [done|by apply lookup_seq| |].
    + apply Forall_seq. lia.
    + intros j Hj. apply list_elem_of_lookup in Hj as [[|[|]] Hi]; try done. injection Hi as <-.
      exists last. split; [apply lookup_seq|]; unfold last; lia.
Qed.

End links.
End ChainLinks.
