(* ===== verification/Threads.v ===== *)
(** * Deliveries with the threads in between

    The theorems of [ChainFlow] and [SplitChain] take a task for one step. Here they are
    carried over, through [Network], to the threads of [Workers], where packets of the
    endpoint and heartbeats come between any two calls of a module. *)

From coqutil Require Import Datatypes.RecordSetters.
From S2P Require Import Prelude ChainApi Config Chain Copy Split SplitConfig ChainFlow SplitChain ChainGraph Workers Network ChainLinks.
Import DoubleBraceUpdate.
Local Open Scope Z_scope.

Module Threads.
Import Chain Workers Network.

Section threads.
Context {X : Type}.
Context (init : ModuleSpec → option (X * list init_ev)).
Context (process : bytes → X → Z → Z → option (bytes * Z) → X * list mod_ev * mod_ret).
Context (wire_ret : Z → bytes → Z).
Context (malloc_ok : Z → Z → bool).

#[local] Abbreviation Chain := (@Chain.Chain X).
#[local] Abbreviation State := (@Workers.State X).
#[local] Abbreviation run := (run process wire_ret malloc_ok).
#[local] Abbreviation busy := (busy process wire_ret malloc_ok).

Lemma chain_new_usable now cfg : usable (chain_new init now cfg).
Proof. unfold chain_new. by repeat case_match. Qed.

(** One worker, the default, is exact: whatever a configuration builds, if its modules
    send nothing on a heartbeat, the threads compute a run of the network in which the
    packets for each module and direction are taken in the order in which they came, and
    the packets that have left did so in the order of that run. *)
Theorem one_worker_refines_network (now : Z) (cfg : list ModuleSpec) (ok : op → Prop) (ls : list label) (s : State)
    (Hbuilt : entry_ext (chain_new init now cfg) = true)
    (Hsilent : ∀ h n, Forall ok h → net_run process true h (view (chain_new init now cfg)) n →
                 Forall (silent process) (nodes n))
    (Hls : Forall (entering_ok ok) ls)
    (Hrun : run ls (start 1 (chain_new init now cfg)) = Some s) :
  ∃ n, net_run process true (entering ls) (view (chain_new init now cfg)) n
    ∧ nodes n = still <$> modules (chain s)
    ∧ exits (chain s) `prefix_of` gone n
    ∧ (at_rest s → waiting n = [] ∧ gone n = exits (chain s)).
Proof.
  destruct (one_run process wire_ret malloc_ok ok ls (chain_new init now cfg) s) as (n & h & Hn & _ & -> & Ho);
    [apply chain_new_usable|done|apply ChainLinks.chain_new_separate|done|done|done|].
  exists n. split; [done|]. split; [apply Ho|]. split; [|by apply one_at_rest].
  destruct Ho as [_ _ _ _ (p & _ & _ & _ & ->)]. by eexists.
Qed.

(** ** Both ways a chain is run *)

Section both.
Context (ok : op → Prop).

Lemma busy_run s s' : rtc (λ a b, busy b a) s s' →
  ∃ ls, run ls s = Some s' ∧ Forall (entering_ok ok) ls ∧ entering ls = [].
Proof.
  induction 1 as [s|s s1 s' [(now & i & Hs)|Hs] _ (ls & Hr & Hl & He)]; [by exists []| |].
  - exists (LWorker now i :: ls). split_and!; [|by constructor|done]. cbn [Workers.run exec]. by rewrite Hs.
  - exists (LBeatGo :: ls). split_and!; [|by constructor|done]. cbn [Workers.run exec]. by rewrite Hs.
Qed.

Lemma entering_app l1 l2 : entering (l1 ++ l2) = entering l1 ++ entering l2.
Proof. unfold entering. by rewrite omap_app. Qed.

Lemma entering_all ls : Forall (entering_ok ok) ls → Forall ok (entering ls).
Proof.
  induction 1 as [|l ls [_ Hl] _ IH]; [done|]. change (l :: ls) with ([l] ++ ls). rewrite entering_app. by apply Forall_app.
Qed.

Lemma entering_working ls : Forall (entering_ok ok) ls → Forall working ls.
Proof. intros H. eapply Forall_impl; [exact H|]. by intros l [? _]. Qed.

Context (c0 : Chain) (Hu : usable c0).

(** What a property of the unordered network gives for any number of workers. *)
Lemma bag_holds J count ls s :
  Carried process wire_ret malloc_ok false ok J → J [] c0 →
  Forall (entering_ok ok) ls → run ls (start count c0) = Some s →
  usable (chain s) ∧ ∃ n c, bag s n ∧ follows false c n ∧ J (entering ls) c.
Proof.
  intros HJ H0 Hls Hr.
  destruct (simulate process wire_ret malloc_ok false working (λ s n, bag s n ∧ usable (chain s))) with ls (start count c0) s (view c0)
    as (n & Hn & Hb & Hus); try done.
  - intros l s1 s2 n Hl Hu1 E [Hb _].
    destruct (bag_exec process wire_ret malloc_ok l s1 s2 n Hl Hu1 E Hb) as (Hu2 & n' & Hs & Hb'). eauto 6.
  - by apply entering_working.
  - split; [apply bag_start|done].
  - split; [done|]. destruct (carried_run process wire_ret malloc_ok false ok J HJ (entering ls) n c0 Hn) as (c & Hf & Hh);
      [by apply entering_all|done|done|]. eauto 6.
Qed.

(** What a property of the ordered network gives for one. *)
Lemma one_holds J ls s :
  entry_ext c0 = true → separate (modules c0) (wire_entries c0) →
  Carried process wire_ret malloc_ok true ok J → J [] c0 →
  Forall (entering_ok ok) ls → run ls (start 1 c0) = Some s → at_rest s →
  ∃ c, J (entering ls) c ∧ queue c = [] ∧ exits c = exits (chain s).
Proof.
  intros He Hsep HJ H0 Hls Hr Hrest.
  destruct (one_run process wire_ret malloc_ok ok ls c0 s Hu He Hsep) as (n & h & Hn & Hok & -> & Ho); try done.
  { intros h n Hok Hn. by eapply (carried_silent process wire_ret malloc_ok true ok J HJ). }
  destruct (one_at_rest s n Ho Hrest) as [Hw Hg].
  destruct (carried_run process wire_ret malloc_ok true ok J HJ (entering ls) n c0 Hn Hok Hu H0) as (c & [_ _ Hq Hge] & Hh).
  exists c. split; [done|]. rewrite Hge. split; [|done]. cbn in Hq. rewrite Hw in Hq. symmetry in Hq. by apply alike_nil.
Qed.

(** A state from which no thread can move. *)
Lemma stuck_run count ls s s' : (0 < count)%nat →
  Forall (entering_ok ok) ls → run ls (start count c0) = Some s →
  rtc (λ a b, busy b a) s s' → (∀ s'', ¬ busy s'' s') →
  at_rest s' ∧ ∃ ls', run ls' (start count c0) = Some s' ∧ Forall (entering_ok ok) ls' ∧ entering ls' = entering ls.
Proof.
  intros Hc Hls Hr Hs Hstuck. destruct (busy_run s s' Hs) as (ls' & Hr' & Hl' & He').
  assert (run (ls ++ ls') (start count c0) = Some s') as Hrun by (rewrite run_app, Hr; exact Hr'). split.
  - apply (stuck_at_rest process wire_ret malloc_ok); [|done]. intros Hnil. apply run_workers in Hrun.
    rewrite Hnil in Hrun. cbn in Hrun. rewrite length_replicate in Hrun. lia.
  - exists (ls ++ ls'). split_and!; [done|by apply Forall_app|]. by rewrite entering_app, He', app_nil_r.
Qed.

End both.
End threads.

(** ** Modules in a line *)

Section line.
Context {X : Type}.
Context (init : ModuleSpec → option (X * list init_ev)).
Context (process : bytes → X → Z → Z → option (bytes * Z) → X * list mod_ev * mod_ret).
Context (wire_ret : Z → bytes → Z).
Context (malloc_ok : Z → Z → bool).
Context (f : ModuleSpec → Z → bytes → option bytes).
Context (cfg : list ModuleSpec).
Context (Hcfg : cfg ≠ []) (Hrelays : Forall (ChainFlow.relays init process f) cfg).

#[local] Abbreviation Chain := (@Chain.Chain X).
#[local] Abbreviation State := (@Workers.State X).
#[local] Abbreviation run := (run process wire_ret malloc_ok).
#[local] Abbreviation busy := (busy process wire_ret malloc_ok).
#[local] Abbreviation inv := (ChainFlow.inv init cfg).
#[local] Abbreviation stream := (ChainFlow.stream f cfg).
#[local] Abbreviation flight := (ChainFlow.flight f cfg).
#[local] Abbreviation whole := (ChainFlow.whole f cfg).

Lemma inv_queue c q : queue c ≡ₚ q → inv c → inv (c{{queue := q}}).
Proof. intros Hq [Hl Ht]. split; [exact Hl|]. change (Forall (ChainFlow.task_ok cfg) q). by rewrite <- Hq. Qed.

(** Packets at one place of the line are those of one module and direction. *)
Lemma at_rank_key dir r q : (r < length cfg)%nat → Forall (ChainFlow.task_ok cfg) q →
  ChainFlow.at_rank cfg dir r q = filter (key (if (dir =? 0)%Z then length cfg - 1 - r else r)%nat dir) q.
Proof.
  intros Hr Hq. unfold ChainFlow.at_rank. apply filter_ext_in. eapply Forall_impl; [exact Hq|].
  intros t (Hm & _). unfold key, ChainFlow.rank. split; intros [H1 H2].
  - subst dir. case_match; split; try done; lia.
  - subst dir. split; [done|]. case_match; lia.
Qed.

Lemma flight_alike dir q q' : Forall (ChainFlow.task_ok cfg) q → q ≈ q' → ∀ k, (k <= length cfg)%nat →
  flight dir k q = flight dir k q'.
Proof.
  intros Hq Heq k. assert (Forall (ChainFlow.task_ok cfg) q') as Hq' by (by rewrite <- Heq).
  induction k as [|k IH]; intros Hk; [done|]. cbn [ChainFlow.flight]. rewrite IH, !at_rank_key by (done || lia).
  by rewrite (Heq _ _).
Qed.

Lemma flight_perm dir q q' k : q ≡ₚ q' → flight dir k q ≡ₚ flight dir k q'.
Proof.
  intros Hq. induction k as [|k IH]; [done|]. cbn [ChainFlow.flight]. f_equiv; [done|]. unfold ChainFlow.at_rank.
  by rewrite Hq.
Qed.

Lemma line_quiet c m md : inv c → modules c !! m = Some md →
  ∃ r, process (mod_name md) (ctx md) (-1) 0 None = (ctx md, [], r).
Proof.
  intros [(_ & L2 & _) _] Hm. destruct (L2 _ _ Hm) as (spec & ievs & Hs & Hn & Hi & _).
  pose proof (Forall_lookup_1 _ _ _ _ Hrelays Hs) as (x & ie & Hi' & _ & _ & r & Hp).
  rewrite Hi in Hi'. injection Hi' as <- <-. exists r. by rewrite Hn.
Qed.

(** What will have left is what was pushed, in order. *)
Definition in_order (dir : Z) (h : list op) (c : Chain) : Prop :=
  inv c ∧ stream dir c = omap (whole dir) (ChainFlow.pushes dir h).
Definition in_some_order (dir : Z) (h : list op) (c : Chain) : Prop :=
  inv c ∧ stream dir c ≡ₚ omap (whole dir) (ChainFlow.pushes dir h).

Lemma push_order dir h c a d src dir' : inv c → ChainFlow.valid_op (OpPush a d src dir') →
  let c' := push_packet a d src dir' c in
  inv c' ∧ stream dir c' = stream dir c ++ omap (whole dir) (ChainFlow.pushes dir [OpPush a d src dir'])
  ∧ omap (whole dir) (ChainFlow.pushes dir (h ++ [OpPush a d src dir']))
    = omap (whole dir) (ChainFlow.pushes dir h) ++ omap (whole dir) (ChainFlow.pushes dir [OpPush a d src dir']).
Proof.
  intros Hc Ho. destruct (ChainFlow.run_op_stream init process wire_ret malloc_ok f cfg Hrelays Hcfg dir c _ Hc Ho)
    as [H1 H2]. split_and!; [exact H1|exact H2|]. unfold ChainFlow.pushes. by rewrite !omap_app.
Qed.

Lemma in_order_carried dir : Carried process wire_ret malloc_ok true ChainFlow.valid_op (in_order dir).
Proof.
  split.
  - intros h c q [Hc Hs] Hq. cbn in Hq. split; [apply inv_queue; [by rewrite Hq|done]|]. rewrite <- Hs.
    unfold ChainFlow.stream. f_equal. symmetry. by apply flight_alike; [apply Hc| |].
  - intros h c [Hc Hs].
    destruct (ChainFlow.work_stream init process wire_ret malloc_ok f cfg Hrelays 0 dir c Hc) as [H1 H2].
    split; [done|]. by rewrite H2.
  - intros h c a d src dir' [Hc Hs] Ho. destruct (push_order dir h c a d src dir' Hc Ho) as (H1 & H2 & H3).
    split; [done|]. by rewrite H2, H3, Hs.
  - intros h c m md [Hc _]. by apply line_quiet.
Qed.

Lemma in_some_order_carried dir : Carried process wire_ret malloc_ok false ChainFlow.valid_op (in_some_order dir).
Proof.
  split.
  - intros h c q [Hc Hs] Hq. cbn in Hq. split; [by apply inv_queue|]. rewrite <- Hs.
    unfold ChainFlow.stream. apply Permutation_app_head. symmetry. by apply flight_perm.
  - intros h c [Hc Hs].
    destruct (ChainFlow.work_stream init process wire_ret malloc_ok f cfg Hrelays 0 dir c Hc) as [H1 H2].
    split; [done|]. by rewrite H2.
  - intros h c a d src dir' [Hc Hs] Ho. destruct (push_order dir h c a d src dir' Hc Ho) as (H1 & H2 & H3).
    split; [done|]. by rewrite H2, H3, Hs.
  - intros h c m md [Hc _]. by apply line_quiet.
Qed.

Lemma line_start now dir :
  let c := chain_new init now cfg in entry_ext c = true ∧ in_order dir [] c ∧ in_some_order dir [] c.
Proof.
  intros c. destruct (ChainFlow.chain_new_line init process f cfg now Hcfg Hrelays) as (Hl & Hq & He). fold c in Hl, Hq, He.
  assert (inv c ∧ stream dir c = []) as [Hi Hs].
  { split; [split; [done|by rewrite Hq]|]. unfold ChainFlow.stream, ChainFlow.exits_at.
    by rewrite Hq, He, ChainFlow.flight_nil. }
  split; [apply Hl|]. unfold in_order, in_some_order. by rewrite Hs.
Qed.

(** [s'] is where the threads, from [s] on, have stopped when nothing more enters. *)
Definition stops (s s' : State) : Prop := rtc (λ a b, busy b a) s s' ∧ ∀ s'', ¬ busy s'' s'.

(** [C15] However many workers there are, a chain of modules that turn a packet into a packet
    or refuse it comes to an end and loses nothing. After any history of the threads, with
    packets of the endpoint and heartbeats between any two calls, and if then nothing more
    enters, the threads stop after finitely many steps however they are scheduled; they stop
    only when no task is left; and then the packets that have left are what the composition
    of the modules makes of the packets that entered, in each direction: in the same order
    if there is one worker, and in some order if there are more. *)
Theorem pool_delivers (now dir : Z) (count : nat) (ls : list label) (s : State)
    (Hcount : (0 < count)%nat)
    (Hls : Forall (entering_ok ChainFlow.valid_op) ls)
    (Hrun : run ls (start count (chain_new init now cfg)) = Some s) :
  Acc busy s
  ∧ ∀ s', stops s s' →
      at_rest s'
      ∧ ChainFlow.exits_at (1 - dir) (chain s') ≡ₚ omap (whole dir) (ChainFlow.pushes dir (entering ls))
      ∧ (count = 1%nat →
         ChainFlow.exits_at (1 - dir) (chain s') = omap (whole dir) (ChainFlow.pushes dir (entering ls))).
Proof.
  pose proof (chain_new_usable init now cfg) as Hu. destruct (line_start now dir) as (He & H1 & H2).
  pose proof (in_some_order_carried dir) as HJ.
  destruct (bag_holds process wire_ret malloc_ok _ _ Hu _ count ls s HJ H2 Hls Hrun) as (Hus & n & c & Hb & Hf & Hh).
  split.
  { apply (busy_wf process wire_ret malloc_ok ChainFlow.valid_op (in_some_order dir) HJ (λ c, ChainFlow.weight cfg (queue c)))
      with (entering ls) c n; try done.
    - intros c' q Hq. unfold ChainFlow.weight. change (queue (c'{{queue := q}})) with q. by rewrite Hq.
    - intros h c' [Hc _] Hne. destruct (queue c') as [|t rest] eqn:Eq; [done|]. rewrite <- Eq.
      by eapply (ChainFlow.work_weight init process wire_ret malloc_ok f cfg Hrelays). }
  intros s' [Hs' Hstuck].
  destruct (stuck_run process wire_ret malloc_ok ChainFlow.valid_op _ count ls s s' Hcount Hls Hrun Hs' Hstuck)
    as (Hrest & ls' & Hrun' & Hls' & Hent). split; [done|]. split.
  - destruct (bag_holds process wire_ret malloc_ok _ _ Hu _ count _ s' HJ H2 Hls' Hrun') as (_ & n' & c' & Hb' & Hf' & _ & Hs).
    destruct (bag_at_rest s' n' Hb' Hrest) as [Hw Hg]. rewrite Hent in Hs. rewrite <- Hs.
    destruct Hf' as [_ _ Hq Hge]. cbn in Hq. rewrite Hw in Hq. apply Permutation_nil_r in Hq.
    unfold ChainFlow.stream, ChainFlow.exits_at. rewrite Hq, ChainFlow.flight_nil, app_nil_r, Hge. by rewrite Hg.
  - intros ->. destruct (one_holds process wire_ret malloc_ok ChainFlow.valid_op _ Hu (in_order dir) ls' s') as (c' & (_ & Hs) & Hq & Hge);
      try done; [apply ChainLinks.chain_new_separate|apply in_order_carried|].
    rewrite Hent in Hs. rewrite <- Hs. unfold ChainFlow.stream, ChainFlow.exits_at. by rewrite Hq, ChainFlow.flight_nil, app_nil_r, Hge.
Qed.

End line.
(** ** Split among the modules *)

Section split.
Context {Y : Type}.
Context (tinit : ModuleSpec → option (Y * list init_ev)).
Context (tprocess : bytes → Y → Z → Z → option (bytes * Z) → Y * list mod_ev * mod_ret).
Context (env : Split.Env) (Hmem : ∀ k, Split.malloc_ok env k = true).
Context (wire_ret : Z → bytes → Z).
Context (malloc_ok : Z → Z → bool).
Context (f : ModuleSpec → Z → bytes → option bytes).
Context (pre : list ModuleSpec) (ps : bytes) (tail : list ModuleSpec).
Context (x0 : Split.SplitContext) (ievs0 : list init_ev).
Context (Hstart : SplitConfig.chain_init ps = Some (x0, ievs0)).

#[local] Abbreviation init := (SplitChain.init tinit).
#[local] Abbreviation process := (SplitChain.process tprocess env).
#[local] Abbreviation cfg := (pre ++ mkSpec SplitChain.s_split ps :: tail).

Context (Hpre : Forall (ChainFlow.relays init process f) pre).
Context (Htail : Forall (ChainFlow.relays init process f) tail).
Context (HP : (0 < length pre)%nat) (HT : (0 < length tail)%nat).

#[local] Abbreviation X := (Split.SplitContext + Y)%type.
#[local] Abbreviation Chain := (@Chain.Chain X).
#[local] Abbreviation State := (@Workers.State X).
#[local] Abbreviation run := (run process wire_ret malloc_ok).
#[local] Abbreviation busy := (busy process wire_ret malloc_ok).
#[local] Abbreviation task_ok := (SplitChain.task_ok f pre tail x0).
#[local] Abbreviation valid_op := (SplitChain.valid_op f pre tail x0).
#[local] Abbreviation kept := (SplitChain.kept env f pre tail x0).
#[local] Abbreviation holds := (SplitChain.holds tinit f pre tail x0).
#[local] Abbreviation ok := (SplitChain.ok tinit f pre tail x0).

(** A property of the queue that does not depend on the order between modules, or on any
    order. *)
Definition respects (fifo : bool) (K : Split.SplitContext → list task → list (Z * bytes) → list op → Prop) : Prop :=
  ∀ x q q' es h, Forall task_ok q → same fifo q q' → K x q es h → K x q' es h.

Lemma same_perm fifo q q' : same fifo q q' → q ≡ₚ q'.
Proof. destruct fifo; cbn; [by intros ->|done]. Qed.

Lemma holds_carried fifo K : kept K → respects fifo K → Carried process wire_ret malloc_ok fifo valid_op (holds K).
Proof.
  intros HK HR. split.
  - intros h c q (x & (Ht & Hq & Hx) & Hk) Hs. exists x. pose proof (same_perm _ _ _ Hs) as Hp. split.
    + split; [exact Ht|]. split; [|exact Hx]. change (Forall task_ok q). by rewrite <- Hp.
    + change (K x q (exits c) h). by eapply HR.
  - intros h c Hh. by apply (SplitChain.work_holds tinit tprocess env wire_ret malloc_ok f pre tail x0 Hmem Hpre Htail HP HT K HK).
  - intros h c a d src dir Hh Ho.
    exact (SplitChain.run_op_holds tinit tprocess env wire_ret malloc_ok f pre tail x0 Hmem Hpre Htail HP HT K HK h c _ Hh Ho).
  - intros h c m md (x & Hok & _) Hm.
    by apply (SplitChain.quiet tinit tprocess env f pre tail x0 Hpre Htail HP HT x c m).
Qed.

(** *** Where the packets are *)

Lemma waiting_alike q q' : q ≈ q' → omap (SplitChain.waiting pre) q = omap (SplitChain.waiting pre) q'.
Proof.
  assert (∀ l : list task, omap (SplitChain.waiting pre) l = map t_data (filter (key (length pre) 0) l)) as Hw.
  { induction l as [|t l IH]; [done|]. rewrite omap_cons_opt, IH, filter_cons. unfold SplitChain.waiting, key.
    destruct (Z.eqb_spec (t_dir t) 0), (Nat.eqb_spec (t_mod t) (length pre)); cbn;
      (rewrite decide_True by done) || (rewrite decide_False by naive_solver); done. }
  intros H. by rewrite !Hw, (H _ _).
Qed.

Lemma stream_alike dir q q' : Forall task_ok q → q ≈ q' →
  SplitChain.stream f pre dir q = SplitChain.stream f pre dir q'.
Proof.
  intros Hq H. unfold SplitChain.stream. apply flight_alike; [| |done].
  - apply Forall_forall. intros t [Hm Ht]%list_elem_of_filter. rewrite Forall_forall in Hq.
    destruct (Hq t Ht) as (_ & Hd & Hne & _). by split_and!.
  - intros m d. unfold SplitChain.front. rewrite !list_filter_filter.
    assert (∀ l : list task, filter (λ t, key m d t ∧ (t_mod t < length pre)%nat) l
      = filter (λ t, (t_mod t < length pre)%nat) (filter (key m d) l)) as Hf.
    { intros l. rewrite list_filter_filter. apply list_filter_iff. intros t. tauto. }
    by rewrite !Hf, (H m d).
Qed.

Lemma sends_respect : respects true (SplitChain.sends f pre tail x0).
Proof.
  intros x q q' es h Hq Heq [Hp Hs]. cbn in Heq. split; [done|]. intros Hb.
  destruct (Hs Hb) as (pss & H1 & H2 & H3 & H4). exists pss. split_and!; try done.
  - unfold SplitChain.upstream in *. by rewrite <- (waiting_alike _ _ Heq), <- (stream_alike 0 _ _ Hq Heq).
  - by rewrite <- Heq.
Qed.

Lemma receives_respect pss : respects true (SplitChain.receives f pre tail pss).
Proof.
  intros x q q' es h Hq Heq Hr Hall. cbn in Heq. destruct (Hr Hall) as (ks & out & H1 & H2 & H3 & H4 & H5 & H6).
  exists ks, out. rewrite <- (stream_alike 1 _ _ Hq Heq), <- Heq. by split_and!.
Qed.

(** *** The work left *)

(** The state of split, where the constructor put it. *)
Definition split_state (c : Chain) : Split.SplitContext :=
  match modules c !! length pre with
  | Some md => match ctx md with inl x => x | inr _ => x0 end
  | None => x0
  end.

Lemma split_state_ok x c : ok x c → split_state c = x.
Proof.
  intros ((Hl & _) & _). destruct Hl as (_ & _ & (md & Hm & _ & Hx) & _). unfold split_state. by rewrite Hm, Hx.
Qed.

Definition any (_ : Split.SplitContext) (_ : list task) (_ : list (Z * bytes)) (_ : list op) : Prop := True.

(** The threads come to rest, however many workers there are. *)
Lemma split_rests now count ls s : (0 < count)%nat → Forall (entering_ok valid_op) ls →
  run ls (start count (chain_new init now cfg)) = Some s →
  Acc busy s ∧ ∀ s', rtc (λ a b, busy b a) s s' → (∀ s'', ¬ busy s'' s') → at_rest s'.
Proof.
  intros Hc Hls Hr. pose proof (chain_new_usable init now cfg) as Hu.
  assert (Carried process wire_ret malloc_ok false valid_op (holds any)) as HJ by (by apply holds_carried).
  assert (holds any [] (chain_new init now cfg)) as H0.
  { by apply (SplitChain.start_holds tinit tprocess env f pre ps tail x0 ievs0 Hstart Hpre Htail HP HT any now). }
  split.
  - destruct (bag_holds process wire_ret malloc_ok _ _ Hu _ count ls s HJ H0 Hls Hr) as (Hus & n & c & Hb & Hf & Hh).
    apply (busy_wf process wire_ret malloc_ok valid_op (holds any) HJ
             (λ c, SplitChain.effort f pre tail (split_state c) (queue c))) with (entering ls) c n; try done.
    + intros c' q Hq. unfold SplitChain.effort. change (queue (c'{{queue := q}})) with q.
      change (split_state (c'{{queue := q}})) with (split_state c'). by rewrite Hq.
    + intros h c' (x & Hok & _) Hne. destruct (queue c') as [|t rest] eqn:Eq; [done|].
      destruct (SplitChain.work_moves tinit tprocess env wire_ret malloc_ok f pre tail x0 Hmem Hpre Htail HP HT 0 x t rest c' Hok Eq)
        as (x' & ts & es & Hm & Hok' & Hq & _).
      rewrite (split_state_ok x c' Hok), (split_state_ok x' _ Hok'), Hq.
      destruct Hok as (_ & Ht & Hx). rewrite Eq in Ht. apply Forall_inv in Ht.
      by apply (SplitChain.moves_effort env wire_ret malloc_ok f pre tail x0 Hmem HP HT) with es.
  - intros s' Hs Hstuck. by apply (stuck_run process wire_ret malloc_ok valid_op _ count ls s s' Hc Hls Hr Hs Hstuck).
Qed.

(** What one worker leaves behind. *)
Lemma split_rest_holds K now ls s : kept K → respects true K → K x0 [] [] [] →
  Forall (entering_ok valid_op) ls → run ls (start 1 (chain_new init now cfg)) = Some s → at_rest s →
  ∃ x, K x [] (exits (chain s)) (entering ls).
Proof.
  intros HK HR H0 Hls Hr Hrest.
  assert (holds K [] (chain_new init now cfg)) as Hh0.
  { by apply (SplitChain.start_holds tinit tprocess env f pre ps tail x0 ievs0 Hstart Hpre Htail HP HT K now). }
  destruct (one_holds process wire_ret malloc_ok valid_op _ (chain_new_usable init now cfg) (holds K) ls s)
    as (c & (x & Hok & Hk) & Hq & He); try done.
  - destruct Hh0 as (x & ((_ & He & _) & _) & _). exact He.
  - apply ChainLinks.chain_new_separate.
  - by apply holds_carried.
  - exists x. by rewrite Hq, He in Hk.
Qed.

End split.

(** ** Two endpoints with their threads *)

Section endpoints.
Context {Y : Type} (tinit : ModuleSpec → option (Y * list init_ev)).
Context (tprocess : bytes → Y → Z → Z → option (bytes * Z) → Y * list mod_ev * mod_ret).
Context (f : ModuleSpec → Z → bytes → option bytes).
Context (pre : list ModuleSpec) (ps : bytes) (tail : list ModuleSpec).

(** The threads of an endpoint with [count] workers. *)
Definition threads (e : SplitChain.Endpoint) (count : nat) (now : Z) (ls : list label) :=
  run (SplitChain.process tprocess (SplitChain.e_env e)) (SplitChain.e_wire e) (SplitChain.e_malloc e) ls
      (start count (chain_new (SplitChain.init tinit) now (pre ++ mkSpec SplitChain.s_split ps :: tail))).
Definition moving (e : SplitChain.Endpoint) :=
  busy (SplitChain.process tprocess (SplitChain.e_env e)) (SplitChain.e_wire e) (SplitChain.e_malloc e).

(** The modules of a configured tunnel. *)
Section configured.
Context (text : bytes) (x0 : Split.SplitContext) (ievs : list init_ev).
Context (Htext : Config.modules (Config.parse_chain text) = pre ++ mkSpec SplitChain.s_split ps :: tail).
Context (Hstart : SplitConfig.chain_init ps = Some (x0, ievs)).
Context (Hinv : Forall (SplitChain.invertible tinit tprocess f) (pre ++ tail)).

Lemma configured (env : Split.Env) :
  Forall (ChainFlow.relays (SplitChain.init tinit) (SplitChain.process tprocess env) f) pre
  ∧ Forall (ChainFlow.relays (SplitChain.init tinit) (SplitChain.process tprocess env) f) tail
  ∧ (0 < length pre)%nat ∧ (0 < length tail)%nat.
Proof.
  destruct (SplitChain.parse_chain_ends _ _ _ _ Htext) as [Hp Ht]. pose proof Hinv as [Hip Hit]%Forall_app.
  split_and!; [by apply SplitChain.invertible_relays..| |].
  - clear -Hp. destruct pre; [done|]. cbn. lia.
  - clear -Ht. destruct tail; [done|]. cbn. lia.
Qed.

(** [C17] The threads of an endpoint come to rest. Its chain is read from a configuration
    text, with split, with any parameters, among invertible modules that turn a packet into a
    packet or refuse it. However many workers there are, and after any history of threads, packets of
    the application, chunks of the peer and heartbeats, step by step, without a
    cancellation: if nothing more comes in, the threads stop after finitely many steps,
    however they are scheduled, and only when no task is queued or held by a worker. The
    chunks of the peer carry something and none of them announces a 65537th chunk of a
    packet (split never sends one that does; given such chunks a call of split may not
    return, [Split.merge_never_returns]); memory does not run out and [wire_write] takes
    every packet. *)
Theorem split_threads_rest (A : SplitChain.Endpoint) (count : nat) (now : Z) (ls : list label) (s : State)
    (HA : SplitChain.healthy A)
    (Hcount : (0 < count)%nat)
    (Hls : Forall (entering_ok (SplitChain.valid_op f pre tail x0)) ls)
    (Hs : threads A count now ls = Some s) :
  Acc (moving A) s
  ∧ ∀ s', rtc (λ a b, moving A b a) s s' → (∀ s'', ¬ moving A s'' s') → at_rest s'.
Proof.
  destruct (configured (SplitChain.e_env A)) as (H1 & H2 & HP & HT).
  exact (split_rests tinit tprocess (SplitChain.e_env A) (proj1 HA) (SplitChain.e_wire A) (SplitChain.e_malloc A) f pre ps tail
           x0 ievs Hstart H1 H2 HP HT now count ls s Hcount Hls Hs).
Qed.

(** [C14] A tunnel over several connections delivers the first 16384 packets of a direction,
    with the threads in between. As in [SplitChain.split_tunnel_delivers], from two chains
    that were just built and with at most 16384 packets of the application over the life of
    the first, but each endpoint is run by its event loop and its one worker, step by step:
    packets and chunks come in and heartbeats happen between any two calls of a module. When
    the threads are at rest, and if all the chunks that left the first endpoint have come in
    at the second, in any order, with repetitions, and with nothing else but packets that
    the modules behind split refuse, then the application there has been handed exactly the
    packets of the first, in order. Neither chain is cancelled, memory does not run out and
    [wire_write] takes every packet. *)
Theorem threads_deliver (A B : SplitChain.Endpoint) (now now' : Z) (ls ls' : list label) (s s' : State)
    (HA : SplitChain.healthy A) (HB : SplitChain.healthy B)
    (Hls : Forall (entering_ok (SplitChain.valid_op f pre tail x0)) ls)
    (Hls' : Forall (entering_ok (SplitChain.valid_op f pre tail x0)) ls')
    (Hs : threads A 1 now ls = Some s) (Hrest : at_rest s)
    (Hs' : threads B 1 now' ls' = Some s') (Hrest' : at_rest s')
    (Hsent : Forall ChainFlow.packet (ChainFlow.pushes 0 (entering ls)))
    (Hfew : Z.of_nat (length (ChainFlow.pushes 0 (entering ls))) <= 16384)
    (Hall : ∀ d, d ∈ SplitChain.on_wire (exits (chain s)) → d ∈ ChainFlow.pushes 1 (entering ls'))
    (Honly : ∀ d, d ∈ ChainFlow.pushes 1 (entering ls') →
               d ∈ SplitChain.on_wire (exits (chain s)) ∨ ChainFlow.decode f tail d = None) :
  Forall (λ e, 0 <= e.1 <= Split.num_outputs x0) (exits (chain s))
  ∧ SplitChain.to_user (exits (chain s')) = ChainFlow.pushes 0 (entering ls).
Proof.
  destruct (configured (SplitChain.e_env A)) as (A1 & A2 & HP & HT), (configured (SplitChain.e_env B)) as (B1 & B2 & _ & _).
  destruct (split_rest_holds tinit tprocess (SplitChain.e_env A) (proj1 HA) (SplitChain.e_wire A) (SplitChain.e_malloc A) f pre ps tail
              x0 ievs Hstart A1 A2 HP HT (SplitChain.sends f pre tail x0) now ls s) as (x & Hx); try done.
  { by apply (SplitChain.sends_kept _ (SplitChain.e_wire A) (SplitChain.e_malloc A) f pre ps tail x0 ievs (proj1 HA)). }
  { exact (sends_respect (SplitChain.e_wire A) (SplitChain.e_malloc A) f pre ps tail x0). }
  { by apply (SplitChain.sends_start f pre ps tail x0 ievs). }
  destruct (SplitChain.sends_end f pre tail x0 HP HT x _ _ Hx Hfew) as (Hports & pss & Hb & Hcat & Hperm).
  destruct (SplitChain.chunks_meet tinit tprocess f pre ps tail _ _ _ pss Hinv Hsent Hcat Hperm Hall Honly) as [Hmeet Hback].
  destruct (split_rest_holds tinit tprocess (SplitChain.e_env B) (proj1 HB) (SplitChain.e_wire B) (SplitChain.e_malloc B) f pre ps tail
              x0 ievs Hstart B1 B2 HP HT (SplitChain.receives f pre tail pss) now' ls' s') as (x' & Hx'); try done.
  { by apply (SplitChain.receives_kept _ (SplitChain.e_wire B) (SplitChain.e_malloc B) f pre tail x0 (proj1 HB)). }
  { exact (receives_respect (SplitChain.e_wire B) (SplitChain.e_malloc B) f pre ps tail x0 pss). }
  { by apply (SplitChain.receives_start f pre ps tail x0 ievs). }
  split; [done|]. rewrite (SplitChain.receives_end f pre tail pss x' _ _ Hx' Hb Hmeet). exact Hback.
Qed.

End configured.
End endpoints.
(** ** Witnesses *)

(** One worker and one copy module; the second packet comes while the first is handled. *)
Definition copy_labels : list label :=
  [LOp (OpPush 1 [7] 0 0)] ++ replicate 6 (LWorker 0 0) ++ [LOp (OpPush 1 [8] 0 0)] ++ replicate 10 (LWorker 0 0).

Lemma one_worker_refines_network_witness :
  match copy_run copy_labels (start 1 copy_chain) with
  | Some s => exits (chain s) = [(1, [7]); (1, [8])]
              ∧ ∃ n, net_run Copy.process true (entering copy_labels) (view copy_chain) n
                  ∧ nodes n = still <$> modules (chain s)
                  ∧ exits (chain s) `prefix_of` gone n
                  ∧ (at_rest s → waiting n = [] ∧ gone n = exits (chain s))
  | None => False
  end.
Proof.
  destruct (copy_run copy_labels (start 1 copy_chain)) as [s|] eqn:E; [|vm_compute in E; discriminate].
  split; [vm_compute in E; by injection E as <-|].
  apply (one_worker_refines_network Copy.init Copy.process (λ _ _, 0) (λ _ _, true) 0 [mkSpec Copy.s_copy []] (λ _, True)
           copy_labels s); [done| | |exact E].
  - intros h n _ _. by apply Forall_true.
  - by repeat constructor.
Defined.

Lemma pool_delivers_witness :
  match copy_run overtaking (start 2 copy_chain) with
  | Some s =>
      Acc (busy Copy.process (λ _ _, 0) (λ _ _, true)) s
      ∧ ∀ s', stops Copy.process (λ _ _, 0) (λ _ _, true) s s' →
          at_rest s'
          ∧ ChainFlow.exits_at (1 - 0) (chain s') ≡ₚ [[7]; [8]]
          ∧ (2%nat = 1%nat → ChainFlow.exits_at (1 - 0) (chain s') = [[7]; [8]])
  | None => False
  end.
Proof.
  destruct (copy_run overtaking (start 2 copy_chain)) as [s|] eqn:E; [|vm_compute in E; discriminate].
  apply (pool_delivers Copy.init Copy.process (λ _ _, 0) (λ _ _, true) (λ _ _ d, Some d) [mkSpec Copy.s_copy []]
           ltac:(done)) with (now := 0) (dir := 0) (count := 2%nat) (ls := overtaking); [|lia| |exact E].
  - apply Forall_singleton. by apply ChainFlow.copy_relays.
  - repeat constructor; done || (by left).
Defined.

(** Split with three outputs. The second packet comes while split writes the chunks of the
    first; the chunks reach the other endpoint in reverse, while it handles others. *)
Abbreviation demo_threads :=
  (threads Copy.init Copy.process SplitChain.demo_pre SplitChain.demo_params SplitChain.demo_tail SplitChain.demo_endpoint).
Definition demo_labels : list label :=
  [LOp (OpPush 200 (repeat 7 200) 0 0)] ++ replicate 18 (LWorker 0 0)
  ++ [LOp (OpPush 3 [1; 2; 3] 0 0)] ++ replicate 114 (LWorker 0 0).
Definition demo_chunks : list bytes :=
  match demo_threads 1 0 demo_labels with
  | Some s => SplitChain.on_wire (exits (chain s))
  | None => []
  end.
Definition demo_labels' : list label :=
  flat_map (λ d, LOp (OpPush 9 d 2 1) :: replicate 7 (LWorker 0 0)) (reverse demo_chunks)
  ++ replicate 125 (LWorker 0 0).

Lemma demo_entering (l : list bytes) k :
  entering (flat_map (λ d, LOp (OpPush 9 d 2 1) :: replicate 7 (LWorker 0 0)) l ++ replicate k (LWorker 0 0))
  = map (λ d, OpPush 9 d 2 1) l.
Proof.
  rewrite entering_app. assert (∀ j, entering (replicate j (LWorker 0 0)) = []) as Hj.
  { induction j; [done|]. cbn. done. }
  rewrite Hj, app_nil_r. induction l as [|d l IH]; [done|]. cbn [flat_map map]. rewrite entering_app, IH. done.
Qed.

Lemma demo_chunks_fit : Forall SplitChain.chunk_fits demo_chunks.
Proof. apply SplitChain.chunks_fit. vm_compute. reflexivity. Qed.

Lemma entering_ok_intro (ok : op → Prop) ls :
  Forall working ls → Forall ok (entering ls) → Forall (entering_ok ok) ls.
Proof.
  induction 1 as [|l ls Hl _ IH]; [done|]. change (l :: ls) with ([l] ++ ls). rewrite entering_app, !Forall_app.
  intros [H1 H2]. split; [by repeat constructor|auto].
Qed.

Lemma demo_working ls : Forall (λ l, match l with LOp OpCancel => False | _ => True end) ls → Forall working ls.
Proof. intros H. eapply Forall_impl; [exact H|]. by intros l Hl ->. Qed.

Lemma demo_labels_ok :
  Forall (entering_ok (SplitChain.valid_op (λ _ _ d, Some d) SplitChain.demo_pre SplitChain.demo_tail (Split.new_ctx 3 64 64)))
         demo_labels.
Proof.
  apply entering_ok_intro.
  - apply demo_working. unfold demo_labels. rewrite !Forall_app. split_and!; by repeat constructor.
  - change (entering demo_labels) with [OpPush 200 (repeat 7 200) 0 0; OpPush 3 [1; 2; 3] 0 0].
    repeat apply Forall_cons_2; try done; by split; [|left; split; [done|intros e [= <-]]].
Qed.

Lemma demo_labels_ok' :
  Forall (entering_ok (SplitChain.valid_op (λ _ _ d, Some d) SplitChain.demo_pre SplitChain.demo_tail (Split.new_ctx 3 64 64)))
         demo_labels'.
Proof.
  apply entering_ok_intro.
  - apply demo_working. unfold demo_labels'. apply Forall_app. split; [|by apply Forall_replicate].
    induction (reverse demo_chunks) as [|d l IH]; [done|]. cbn [flat_map]. apply Forall_app. split; [|done].
    by repeat constructor.
  - unfold demo_labels'. rewrite demo_entering. apply SplitChain.demo_valid, Forall_reverse, demo_chunks_fit.
Qed.

Lemma threads_demo_invertible :
  Forall (SplitChain.invertible Copy.init Copy.process (λ _ _ d, Some d)) (SplitChain.demo_pre ++ SplitChain.demo_tail).
Proof. repeat constructor; try done; by apply ChainFlow.copy_relays || apply ChainFlow.copy_inverts. Qed.

Lemma from_option_eq {A} (g : A → bool) o {a} : from_option g false o = true → o = Some a → g a = true.
Proof. by intros H ->. Qed.

Lemma demo_rests :
  from_option (λ s, restb s && (length (exits (chain s)) =? 5)%nat) false (demo_threads 1 0 demo_labels) = true.
Proof. vm_compute. reflexivity. Qed.
Lemma demo_rests' : from_option restb false (demo_threads 1 7 demo_labels') = true.
Proof. vm_compute. reflexivity. Qed.

(** Three workers, in the middle of the work. *)
Lemma split_threads_rest_witness :
  match demo_threads 3 0 (take 60 demo_labels) with
  | Some s =>
      let go := moving Copy.process SplitChain.demo_endpoint in
      Acc go s ∧ ∀ s', rtc (λ a b, go b a) s s' → (∀ s'', ¬ go s'' s') → at_rest s'
  | None => False
  end.
Proof.
  destruct (demo_threads 3 0 (take 60 demo_labels)) as [s|] eqn:E; [|vm_compute in E; discriminate].
  exact (split_threads_rest Copy.init Copy.process (λ _ _ d, Some d) SplitChain.demo_pre SplitChain.demo_params
           SplitChain.demo_tail SplitChain.demo_text (Split.new_ctx 3 64 64) [IOutputs 2]
           ltac:(vm_compute; reflexivity) ltac:(reflexivity) threads_demo_invertible
           SplitChain.demo_endpoint 3 0 (take 60 demo_labels) s SplitChain.demo_healthy (Nat.lt_0_succ 2)
           (Forall_take _ 60 _ demo_labels_ok) E).
Defined.

Lemma threads_deliver_witness :
  match demo_threads 1 0 demo_labels, demo_threads 1 7 demo_labels' with
  | Some s, Some s' =>
      length (exits (chain s)) = 5%nat
      ∧ Forall (λ e, 0 <= e.1 <= 3) (exits (chain s))
      ∧ SplitChain.to_user (exits (chain s')) = [repeat 7 200; [1; 2; 3]]
  | _, _ => False
  end.
Proof.
  destruct (demo_threads 1 0 demo_labels) as [s|] eqn:E; [|vm_compute in E; discriminate].
  destruct (demo_threads 1 7 demo_labels') as [s'|] eqn:E'; [|vm_compute in E'; discriminate].
  assert (SplitChain.on_wire (exits (chain s)) = demo_chunks) as Hch by (unfold demo_chunks; rewrite E; reflexivity).
  destruct (andb_prop _ _ (from_option_eq _ _ demo_rests E)) as [Hr%restb_ok Hl%Nat.eqb_eq].
  pose proof (restb_ok _ (from_option_eq _ _ demo_rests' E')) as Hr'.
  assert (ChainFlow.pushes 0 (entering demo_labels) = [repeat 7 200; [1; 2; 3]]) as Hp by (vm_compute; reflexivity).
  assert (ChainFlow.pushes 1 (entering demo_labels') = reverse demo_chunks) as Hp'.
  { unfold demo_labels'. rewrite demo_entering, SplitChain.demo_pushes. reflexivity. }
  split; [exact Hl|]. rewrite <- Hp.
  apply (threads_deliver Copy.init Copy.process (λ _ _ d, Some d) SplitChain.demo_pre SplitChain.demo_params
           SplitChain.demo_tail SplitChain.demo_text (Split.new_ctx 3 64 64) [IOutputs 2]
           ltac:(vm_compute; reflexivity) ltac:(reflexivity) threads_demo_invertible
           SplitChain.demo_endpoint SplitChain.demo_endpoint 0 7 demo_labels demo_labels' s s'
           SplitChain.demo_healthy SplitChain.demo_healthy demo_labels_ok demo_labels_ok' E Hr E' Hr').
  - rewrite Hp. apply SplitChain.demo_packets.
  - rewrite Hp. vm_compute. discriminate.
  - intros d. rewrite Hch, Hp', elem_of_reverse. exact (λ H, H).
  - intros d. rewrite Hch, Hp', elem_of_reverse. exact (λ H, or_introl H).
Defined.

End Threads.
