(* ===== verification/Pressure.v ===== *)
(** * The back-pressure flags between threads (core/chain.cpp)

    The event loop allocates the buffers of a chain, workers allocate and free them, and
    each of them then runs [check_backpressure]. [Chain] takes that for one step. Here it
    is what the code has: the counter is added to, the sum is loaded, and for each
    direction the flag is loaded and perhaps stored, all of them separate atomic
    operations. *)

From coqutil Require Import Datatypes.RecordSetters.
From S2P Require Import Prelude ChainApi Chain.
Import DoubleBraceUpdate.
Local Open Scope Z_scope.

Module Pressure.
Import Chain (BACKPRESSURE_HIGH, BACKPRESSURE_LOW).

(** Which call a thread is in: an allocation of [n] bytes, whose pointer the caller has when
    it returns, or the release of a buffer. *)
Inductive work := Alloc (n : Z) | Free.

(** Where a thread is in [alloc_buffer_impl] or [free_buffer_impl]; [d] is false for
    direction 0. *)
Inductive pc :=
| Rest
| Counted (w : work)                            (* has changed [_bytes_allocated] *)
| Loaded (w : work) (bytes : Z) (d : bool)      (* about to load [_backpressure_paused[d]] *)
| Was (w : work) (bytes : Z) (d was : bool).    (* about to compare, and to store *)

(** [live] are the sizes of the buffers whose pointers are held somewhere and can be freed. *)
Record State := mkState { bytes : Z; bp0 : bool; bp1 : bool; live : list Z; threads : list pc }.

Definition start (count : nat) : State := mkState 0 false false [] (replicate count Rest).

Definition flag (d : bool) (s : State) : bool := if d then bp1 s else bp0 s.
Definition set_flag (d p : bool) (s : State) : State :=
  if d then s{{bp1 := p}} else s{{bp0 := p}}.
Definition set_pc (i : nat) (p : pc) (s : State) : State := s{{threads ::= <[i := p]>}}.

(** The two tests of the loop's body; the flag is stored only where one of them holds. *)
Definition store (b : Z) (d was : bool) (s : State) : State :=
  if (BACKPRESSURE_HIGH <? b) && negb was then set_flag d true s
  else if (b <=? BACKPRESSURE_LOW) && was then set_flag d false s
  else s.

(** The call returns: the caller of an allocation has the buffer. *)
Definition returned (w : work) (l : list Z) : list Z := match w with Alloc n => n :: l | Free => l end.

(** The buffer of [n] bytes leaves the list [l]. *)
Fixpoint take_out (n : Z) (l : list Z) : option (list Z) :=
  match l with
  | [] => None
  | k :: l => if k =? n then Some l else cons k <$> take_out n l
  end.

(** [LAlloc i n]: thread [i] enters [alloc_buffer_impl] and malloc has given it [n] bytes.
    [LFree i n]: it enters [free_buffer_impl] with the pointer of a buffer of [n] bytes, which
    from then on nobody else has. *)
Inductive label := LAlloc (i : nat) (n : Z) | LFree (i : nat) (n : Z) | LStep (i : nat).

Definition exec (l : label) (s : State) : option State :=
  match l with
  | LAlloc i n =>
      match threads s !! i with
      | Some Rest => Some (set_pc i (Counted (Alloc n)) (s{{bytes ::= Z.add n}}))
      | _ => None
      end
  | LFree i n =>
      match threads s !! i with
      | Some Rest =>
          l' ← take_out n (live s);
          Some (set_pc i (Counted Free) (s{{bytes ::= λ b, b - n; live := l'}}))
      | _ => None
      end
  | LStep i =>
      match threads s !! i with
      | Some (Counted w) => Some (set_pc i (Loaded w (bytes s) false) s)
      | Some (Loaded w b d) => Some (set_pc i (Was w b d (flag d s)) s)
      | Some (Was w b d was) =>
          let s' := store b d was s in
          Some (if d then set_pc i Rest (s'{{live ::= returned w}}) else set_pc i (Loaded w b true) s')
      | _ => None
      end
  end.

Fixpoint run (ls : list label) (s : State) : option State :=
  match ls with
  | [] => Some s
  | l :: rest => s' ← exec l s; run rest s'
  end.

Definition at_rest (s : State) : Prop := Forall (λ p, p = Rest) (threads s).

(** A whole [alloc_buffer_impl] or [free_buffer_impl] of thread [i], nobody else moving. *)
Definition alone_alloc (i : nat) (n : Z) : list label := LAlloc i n :: replicate 5 (LStep i).
Definition alone_free (i : nat) (n : Z) : list label := LFree i n :: replicate 5 (LStep i).

(** The part of a chain that these operations work on. *)
Definition view {X} (c : @Chain.Chain X) (l : list Z) (ts : list pc) : State :=
  mkState (Chain.bytes_allocated c) (Chain.bp0 c) (Chain.bp1 c) l ts.

(** ** The count *)

Lemma take_out_perm n l k : take_out n l = Some k → l ≡ₚ n :: k.
Proof.
  revert k. induction l as [|a l IH]; intros k; cbn; [done|]. destruct (Z.eqb_spec a n) as [->|]; [by intros [= ->]|].
  intros (k' & H & ->)%fmap_Some. rewrite (IH _ H). apply Permutation_swap.
Qed.

Lemma take_out_inv l k n : l ≡ₚ n :: k → ∃ k', take_out n l = Some k' ∧ k ≡ₚ k'.
Proof.
  intros H. assert (∃ k', take_out n l = Some k') as [k' E].
  { assert (n ∈ l) as Hin by (rewrite H; left). clear H. induction l as [|a l IH]; [by apply elem_of_nil in Hin|].
    cbn. destruct (Z.eqb_spec a n) as [->|Hne]; [by eexists|].
    apply elem_of_cons in Hin as [->|Hin]; [done|]. destruct (IH Hin) as [k' ->]. by eexists. }
  exists k'. split; [done|]. apply take_out_perm in E. rewrite H in E. by apply Permutation_cons_inv in E.
Qed.

Definition sum_Z (l : list Z) : Z := foldr Z.add 0 l.
#[local] Arguments sum_Z : simpl never.
Lemma sum_cons k l : sum_Z (k :: l) = k + sum_Z l.
Proof. done. Qed.

(** What a thread has counted and not yet handed to its caller. *)
Definition coming (p : pc) : Z :=
  match p with
  | Counted (Alloc n) | Loaded (Alloc n) _ _ | Was (Alloc n) _ _ _ => n
  | _ => 0
  end.
Definition counted (s : State) : Prop := bytes s = sum_Z (live s) + sum_Z (map coming (threads s)).

Lemma sum_perm l k : l ≡ₚ k → sum_Z l = sum_Z k.
Proof. unfold sum_Z. induction 1; cbn; lia. Qed.

Lemma coming_insert ts i p q : ts !! i = Some p →
  sum_Z (map coming (<[i := q]> ts)) = sum_Z (map coming ts) - coming p + coming q.
Proof.
  unfold sum_Z. revert i. induction ts as [|t ts IH]; intros [|i] H; try done.
  - injection H as ->. cbn. lia.
  - cbn [lookup list_lookup] in H.
    change (map coming (<[S i := q]> (t :: ts))) with (coming t :: map coming (<[i := q]> ts)).
    cbn [map foldr]. specialize (IH i H). lia.
Qed.

Lemma store_same b d was s : ∃ p0 p1, store b d was s = mkState (bytes s) p0 p1 (live s) (threads s).
Proof. unfold store, set_flag. destruct s. repeat case_match; cbn; by eexists _, _. Qed.

Lemma exec_counted l s s' : exec l s = Some s' → counted s → counted s'.
Proof.
  unfold counted. intros E Hc. destruct l as [i n|i n|i]; cbn in E; destruct (threads s !! i) as [p|] eqn:Ei; try done.
  - destruct p; try done. injection E as <-. destruct s. cbn in *. rewrite (coming_insert _ _ _ _ Ei). cbn. lia.
  - destruct p; try done. apply bind_Some in E as (l' & Hl & [= <-]). apply take_out_perm, sum_perm in Hl. rewrite sum_cons in Hl.
    destruct s. cbn in *. unfold constant. rewrite (coming_insert _ _ _ _ Ei). cbn. lia.
  - destruct p as [|w|w b d|w b d was]; try done.
    + injection E as <-. destruct s. cbn in *. rewrite (coming_insert _ _ _ _ Ei). cbn. lia.
    + injection E as <-. destruct s. cbn in *. rewrite (coming_insert _ _ _ _ Ei). cbn. lia.
    + destruct (store_same b d was s) as (p0 & p1 & Hs). rewrite Hs in E. destruct d; injection E as <-; cbn;
        rewrite (coming_insert _ _ _ _ Ei); cbn; [|lia]. destruct w; cbn; rewrite ?sum_cons; lia.
Qed.

(** Whatever the threads do, the bytes counted are those of the buffers held and of those
    that are about to be handed out. *)
Theorem count_exact (count : nat) (ls : list label) (s : State) :
  run ls (start count) = Some s → bytes s = sum_Z (live s) + sum_Z (map coming (threads s)).
Proof.
  assert (counted (start count)) as H0.
  { unfold counted, start, sum_Z. cbn. induction count as [|k IH]; [done|]. cbn. lia. }
  revert H0. generalize (start count). induction ls as [|l ls IH]; intros s0 H0; cbn; [by intros [= <-]|].
  intros (s1 & E & Hr)%bind_Some. eapply IH; [|exact Hr]. by eapply exec_counted.
Qed.

(** ** Without interference *)

Lemma store_next b d s :
  store b d (flag d s) s = set_flag d (Chain.bp_next b (flag d s)) s.
Proof.
  destruct s as [n p0 p1 l ts]. unfold store, Chain.bp_next, BACKPRESSURE_HIGH, BACKPRESSURE_LOW.
  destruct (Z.ltb_spec 524288 b), (Z.leb_spec b 131072); try lia; destruct d, p0, p1; done.
Qed.

(** A step of thread [i], which is at [q]. *)
Lemma step_at i q b p0 p1 l ts : (i < length ts)%nat →
  exec (LStep i) (mkState b p0 p1 l (<[i := q]> ts))
  = match q with
    | Rest => None
    | Counted w => Some (mkState b p0 p1 l (<[i := Loaded w b false]> ts))
    | Loaded w b' d => Some (mkState b p0 p1 l (<[i := Was w b' d (if d then p1 else p0)]> ts))
    | Was w b' d was =>
        let s' := store b' d was (mkState b p0 p1 l ts) in
        Some (mkState b (bp0 s') (bp1 s') (if d then returned w l else l)
                      (<[i := if d then Rest else Loaded w b' true]> ts))
    end.
Proof.
  intros Hi. unfold exec. cbn [threads]. rewrite list_lookup_insert_eq by done.
  destruct q; try done; unfold set_pc, flag; cbn -[insert store]; rewrite ?list_insert_insert_eq; try done.
  unfold store, set_flag. destruct d, ((BACKPRESSURE_HIGH <? bytes0) && negb was), ((bytes0 <=? BACKPRESSURE_LOW) && was);
    cbn -[insert]; by rewrite list_insert_insert_eq.
Qed.

(** A thread that has changed the count and is not interrupted. *)
Lemma run_check i w b p0 p1 l ts : ts !! i = Some Rest →
  run (replicate 5 (LStep i)) (mkState b p0 p1 l (<[i := Counted w]> ts))
  = Some (mkState b (Chain.bp_next b p0) (Chain.bp_next b p1) (returned w l) ts).
Proof.
  intros Hi. assert (i < length ts)%nat as Hlt by (by eapply lookup_lt_Some). cbn [replicate run].
  do 2 (rewrite step_at by done; cbn [mbind option_bind]).
  pose proof (store_next b false (mkState b p0 p1 l ts)) as S0. cbn [flag bp0] in S0.
  rewrite step_at by done. cbv zeta. rewrite S0. cbn -[insert store Chain.bp_next exec]. unfold constant.
  rewrite step_at by done. cbn [mbind option_bind]. rewrite step_at by done. cbv zeta.
  pose proof (store_next b true (mkState b (Chain.bp_next b p0) p1 l ts)) as S1. cbn [flag bp1] in S1.
  rewrite S1. cbn -[insert Chain.bp_next]. unfold constant.
  by rewrite list_insert_id.
Qed.

Lemma run_alone_alloc i n b p0 p1 l ts : ts !! i = Some Rest →
  run (alone_alloc i n) (mkState b p0 p1 l ts)
  = Some (mkState (n + b) (Chain.bp_next (n + b) p0) (Chain.bp_next (n + b) p1) (n :: l) ts).
Proof.
  intros Hi. unfold alone_alloc. cbn [run exec threads]. rewrite Hi. cbn -[insert replicate run]. by rewrite (run_check i).
Qed.

Lemma run_alone_free i n b p0 p1 l l' ts : ts !! i = Some Rest → take_out n l = Some l' →
  run (alone_free i n) (mkState b p0 p1 l ts)
  = Some (mkState (b - n) (Chain.bp_next (b - n) p0) (Chain.bp_next (b - n) p1) l' ts).
Proof.
  intros Hi Hl. unfold alone_free. cbn [run exec threads live]. rewrite Hi, Hl. cbn -[insert replicate run].
  unfold constant. by rewrite (run_check i).
Qed.

(** [alloc_buffer] and [free_buffer] of [Chain] are what a thread does that is not
    interrupted, and whatever the flags were before, they then fit the bytes allocated: a
    direction is paused only above 128 KB, and is not paused only up to 512 KB. *)
Theorem alone_is_atomic {X} (c : @Chain.Chain X) (l : list Z) (ts : list pc) (i : nat) (n : Z) :
  ts !! i = Some Rest →
  run (alone_free i n) (view c (n :: l) ts) = Some (view (Chain.free_buffer n c) l ts)
  ∧ (∀ malloc_ok c', Chain.alloc_buffer malloc_ok n c = Some c' →
       run (alone_alloc i n) (view c l ts) = Some (view c' (n :: l) ts))
  ∧ ∀ s, run (alone_alloc i n) (view c l ts) = Some s →
      ∀ d, (flag d s = true → BACKPRESSURE_LOW < bytes s)
           ∧ (flag d s = false → bytes s <= BACKPRESSURE_HIGH).
Proof.
  intros Hi. unfold view. rewrite run_alone_alloc by done. split_and!.
  - rewrite (run_alone_free i n _ _ _ _ l) by (done || (cbn; by rewrite Z.eqb_refl)). done.
  - intros malloc_ok c' E. unfold Chain.alloc_buffer in E. case_match; [|done]. by injection E as <-.
  - intros s [= <-] d. unfold flag, Chain.bp_next, BACKPRESSURE_LOW, BACKPRESSURE_HIGH. cbn.
    set (b := n + Chain.bytes_allocated c). destruct (Z.ltb_spec 524288 b), (Z.leb_spec b 131072); try lia;
      destruct d, (Chain.bp0 c), (Chain.bp1 c); cbn; split; done || lia.
Qed.

(** ** With interference *)

Lemma bp_next_low b p : b <= BACKPRESSURE_LOW → Chain.bp_next b p = false.
Proof.
  unfold Chain.bp_next, BACKPRESSURE_LOW, BACKPRESSURE_HIGH. intros Hb.
  destruct (Z.ltb_spec 524288 b), (Z.leb_spec b 131072); try lia. by destruct p.
Qed.

Lemma pressure_run_app l1 l2 s : run (l1 ++ l2) s = run l1 s ≫= run l2.
Proof. revert s. induction l1 as [|l l1 IH]; intros s; cbn; [done|]. destruct (exec l s); cbn; [apply IH|done]. Qed.

(** The event loop, thread 2, allocates buffers of [k] and [ks] bytes. Worker 0 frees the
    first, and has loaded the sum of the others; worker 1 frees these one after the other;
    then worker 0 goes on with the sum it has loaded. *)
Definition late_pause (k : Z) (ks : list Z) : list label :=
  concat (map (alone_alloc 2) (k :: ks))
  ++ [LFree 0 k; LStep 0] ++ concat (map (alone_free 1) ks) ++ replicate 4 (LStep 0).

Lemma run_allocs q r ks : ∀ b p0 p1 l,
  ∃ p0' p1', run (concat (map (alone_alloc 2) ks)) (mkState b p0 p1 l [q; r; Rest])
             = Some (mkState (sum_Z ks + b) p0' p1' (reverse ks ++ l) [q; r; Rest]).
Proof.
  induction ks as [|k ks IH]; intros b p0 p1 l; cbn [map concat]; [by exists p0, p1|].
  rewrite pressure_run_app, run_alone_alloc by done. cbn [mbind option_bind].
  destruct (IH (k + b) (Chain.bp_next (k + b) p0) (Chain.bp_next (k + b) p1) (k :: l)) as (p0' & p1' & ->).
  exists p0', p1'. do 2 f_equal; [unfold sum_Z; cbn [foldr]; lia|]. by rewrite reverse_cons, <- app_assoc.
Qed.

Lemma run_frees q r ks : ∀ b p0 p1 l rest, l ≡ₚ ks ++ rest →
  ∃ p0' p1' l', run (concat (map (alone_free 1) ks)) (mkState b p0 p1 l [q; Rest; r])
             = Some (mkState (b - sum_Z ks) p0' p1' l' [q; Rest; r])
    ∧ l' ≡ₚ rest ∧ (b - sum_Z ks <= BACKPRESSURE_LOW → ks ≠ [] → p0' = false ∧ p1' = false).
Proof.
  induction ks as [|k ks IH]; intros b p0 p1 l rest Hl; cbn [map concat].
  { exists p0, p1, l. unfold sum_Z. cbn. by rewrite Z.sub_0_r. }
  cbn [app] in Hl. destruct (take_out_inv l (ks ++ rest) k Hl) as (l1 & Hl1 & E1).
  rewrite pressure_run_app, (run_alone_free 1 k _ _ _ _ l1) by done. cbn [mbind option_bind].
  destruct (IH (b - k) (Chain.bp_next (b - k) p0) (Chain.bp_next (b - k) p1) l1 rest) as (p0' & p1' & l' & E & Hl' & Hp);
    [by rewrite E1|]. rewrite E. exists p0', p1', l'. unfold sum_Z in *. cbn [foldr].
  split; [do 2 f_equal; lia|]. split; [done|]. intros Hlow _. destruct ks as [|k' ks]; [|apply Hp; [lia|done]].
  cbn in E. injection E as _ <- <- _. cbn [foldr] in Hlow. rewrite !bp_next_low by lia. done.
Qed.

(** [C39] The pause that comes too late: while one worker frees a buffer, and stands between
    the load of the sum and the load of the flag, another worker frees all the others. From
    an empty chain, with any buffers of which those of the second worker are more than
    512 KB, this schedule of the event loop and two workers ends with all three done,
    nothing allocated, and both directions of the chain paused; nothing but the allocation
    of another buffer is possible then. (A paused endpoint does not read its connections,
    so that only a packet still arriving from the peer brings one. Nothing keeps two workers
    from freeing at once: the locks of a task are those of its direction and module.) *)
Theorem late_pause_sticks (k : Z) (ks : list Z) :
  BACKPRESSURE_HIGH < sum_Z ks →
  ∃ s, run (late_pause k ks) (start 3) = Some s
    ∧ at_rest s ∧ bytes s = 0 ∧ live s = [] ∧ flag false s = true ∧ flag true s = true
    ∧ ∀ l s', exec l s = Some s' → ∃ i n, l = LAlloc i n.
Proof.
  intros Hn. exists (mkState 0 true true [] [Rest; Rest; Rest]). split.
  2: { split_and!; [by repeat constructor|done..|]. intros [i n|i n|i] s'; [by eauto|..];
       (destruct i as [|[|[|i]]]; cbn; done). }
  unfold late_pause. rewrite pressure_run_app. change (start 3) with (mkState 0 false false [] [Rest; Rest; Rest]).
  destruct (run_allocs Rest Rest (k :: ks) 0 false false []) as (p0 & p1 & ->). cbn [mbind option_bind].
  rewrite app_nil_r, pressure_run_app. set (b := sum_Z (k :: ks) + 0).
  assert (b - k = sum_Z ks) as Hb by (subst b; unfold sum_Z; cbn [foldr]; lia).
  destruct (take_out_inv (reverse (k :: ks)) ks k) as (l1 & Hl1 & E1); [by rewrite reverse_Permutation|].
  assert (run [LFree 0 k; LStep 0] (mkState b p0 p1 (reverse (k :: ks)) [Rest; Rest; Rest])
          = Some (mkState (sum_Z ks) p0 p1 l1 [Loaded Free (sum_Z ks) false; Rest; Rest])) as ->.
  { cbn -[reverse take_out]. rewrite Hl1. cbn. unfold constant. by rewrite Hb. }
  cbn [mbind option_bind]. rewrite pressure_run_app.
  destruct (run_frees (Loaded Free (sum_Z ks) false) Rest ks (sum_Z ks) p0 p1 l1 []) as (q0 & q1 & l' & -> & Hl' & Hp);
    [by rewrite app_nil_r|]. rewrite Z.sub_diag in *.
  destruct Hp as [-> ->]; [by vm_compute|by intros ->|]. apply Permutation_nil_r in Hl' as ->.
  assert ((BACKPRESSURE_HIGH <? sum_Z ks) = true) as Hh by lia.
  assert (∀ d q, store (sum_Z ks) d false q = set_flag d true q) as Hst by (intros; unfold store; by rewrite Hh).
  cbn -[store]. rewrite Hst. cbn -[store]. by rewrite Hst.
Qed.

(** Six reads of 128 KB. *)
Lemma late_pause_sticks_witness :
  ∃ s, run (late_pause 131072 (replicate 5 131072)) (start 3) = Some s
    ∧ at_rest s ∧ bytes s = 0 ∧ live s = [] ∧ flag false s = true ∧ flag true s = true
    ∧ ∀ l s', exec l s = Some s' → ∃ i n, l = LAlloc i n.
Proof. apply (late_pause_sticks 131072 (replicate 5 131072)). by vm_compute. Defined.

Lemma count_exact_witness :
  ∃ s, run ([LAlloc 0 5; LStep 0] ++ alone_alloc 1 7 ++ [LFree 1 7]) (start 2) = Some s
    ∧ bytes s = sum_Z (live s) + sum_Z (map coming (threads s)).
Proof.
  destruct (run ([LAlloc 0 5; LStep 0] ++ alone_alloc 1 7 ++ [LFree 1 7]) (start 2)) as [s|] eqn:E; [|by vm_compute in E].
  exists s. split; [reflexivity|]. exact (count_exact 2 _ s E).
Defined.

Lemma alone_is_atomic_witness :
  let c := Chain.chain_new (X := unit) (λ _, None) 0 [] in
  run (alone_free 1 9) (view c [9] [Counted Free; Rest]) = Some (view (Chain.free_buffer 9 c) [] [Counted Free; Rest])
  ∧ run (alone_alloc 1 600000) (view c [] [Counted Free; Rest])
    = Some (mkState 600000 true true [600000] [Counted Free; Rest]).
Proof.
  intros c. split.
  - by apply (alone_is_atomic c [] [Counted Free; Rest] 1 9).
  - rewrite (proj1 (proj2 (alone_is_atomic c [] [Counted Free; Rest] 1 600000 eq_refl)) (λ _ _, true)
               (Chain.check_backpressure (c{{Chain.bytes_allocated ::= Z.add 600000}})) eq_refl).
    vm_compute. reflexivity.
Defined.

End Pressure.
