(* ===== verification/Buffers.v ===== *)
(** * The buffers of a chain

    Every packet in a chain is in a buffer that the chain counts ([_bytes_allocated]), and the
    count decides when reading is paused. [Tidy] is what a module owes the chain: each call
    disposes of the packet it was given, and of what it allocates, exactly once, by passing
    it on, giving it back, keeping it, or refusing the packet, whose buffer the chain then
    gives back. With such modules the count is exact. *)

From coqutil Require Import Datatypes.RecordSetters.
From S2P Require Import Prelude ChainApi Chain ChainGraph.
Import DoubleBraceUpdate.
Local Open Scope Z_scope.

Module Buffers.
Import Chain.

(** What the calls of a module add to the bytes that are allocated and not in a queue. *)
Definition ev_net (e : mod_ev) : Z :=
  match e with
  | MMalloc n => n
  | MFree n => - n
  | MWrite _ _ a => - a
  | MSetSrc _ | MHeartbeat _ => 0
  end.
Definition net (evs : list mod_ev) : Z := foldr (λ e n, ev_net e + n) 0 evs.

Lemma net_app l k : net (l ++ k) = net l + net k.
Proof. unfold net. induction l as [|e l IH]; cbn; [done|]. rewrite IH. lia. Qed.

Definition refuses (r : mod_ret) : bool := match r with RetConst z => z <? 0 | RetLastWrite => false end.

(** Only an empty buffer holds an empty packet. *)
Definition filled (d : bytes) (a : Z) : Prop := d ≠ [] ∨ a = 0.
Definition small (d : bytes) : Prop := Z.of_nat (length d) < 2 ^ 31.
Definition writes_filled (e : mod_ev) : Prop := match e with MWrite _ d a => filled d a | _ => True end.

(** [held]: the bytes a module keeps in its state; [ok]: what holds of its state; [fit]: the
    packets it can be given in a state and a direction, all of them for most modules. *)
Class Tidy {X : Type} (init : ModuleSpec → option (X * list init_ev))
    (process : bytes → X → Z → Z → option (bytes * Z) → X * list mod_ev * mod_ret)
    (ok : X → Prop) (held : X → Z) (fit : X → Z → bytes → Prop) : Prop := {
  tidy_init spec x evs : init spec = Some (x, evs) → ok x ∧ held x = 0;
  tidy_packet nm x dir src d a : ok x → dir = 0 ∨ dir = 1 → filled d a → small d → fit x dir d →
    let '(x', evs, r) := process nm x dir src (Some (d, a)) in
    ok x' ∧ Forall writes_filled evs
    ∧ held x' = held x + (if refuses r then 0 else a) + net evs;
  tidy_heartbeat nm x : ok x →
    let '(x', evs, _) := process nm x (-1) 0 None in
    ok x' ∧ Forall writes_filled evs ∧ held x' = held x + net evs
}.

Section buffers.
Context {X : Type}.
Context (init : ModuleSpec → option (X * list init_ev)).
Context (process : bytes → X → Z → Z → option (bytes * Z) → X * list mod_ev * mod_ret).
Context (wire_ret : Z → bytes → Z) (malloc_ok : Z → Z → bool).
Context (ok : X → Prop) (held : X → Z) (fit : X → Z → bytes → Prop) {Hdec : ∀ x dir d, Decision (fit x dir d)}.
Context {Htidy : Tidy init process ok held fit}.
(** The endpoint takes every packet, and memory does not run out. *)
Context (Hwire : ∀ dst d, 0 <= wire_ret dst d) (Hmalloc : ∀ n k, malloc_ok n k = true).

#[local] Abbreviation Mod := (@Chain.Module X).
#[local] Abbreviation Chain := (@Chain.Chain X).

Definition held_by (l : list Mod) : Z := foldr (λ md n, held (ctx md) + n) 0 l.

Arguments held_by _ : simpl never.

Definition task_ok (t : task) : Prop := (t_dir t = 0 ∨ t_dir t = 1) ∧ filled (t_data t) (t_asize t).

(** The bytes that are neither in a queue nor kept by a module. *)
Definition loose (c : Chain) : Z := bytes_allocated c - queued_bytes c - held_by (modules c).

(** Unless a pointer has gone wrong, [n] bytes are loose. *)
Definition accounts (n : Z) (c : Chain) : Prop :=
  crashed c = false → loose c = n ∧ Forall task_ok (queue c) ∧ Forall (λ md, ok (ctx md)) (modules c).

Lemma held_alter (g : Mod → Mod) m md l : l !! m = Some md →
  held_by (alter g m l) = held_by l + held (ctx (g md)) - held (ctx md).
Proof.
  unfold held_by. revert m. induction l as [|y l IH]; intros [|m]; cbn; [done..| |]; [intros [= ->]; lia|].
  intros H. rewrite (IH m H). lia.
Qed.

Lemma held_same (g : Mod → Mod) m l : (∀ md, ctx (g md) = ctx md) → held_by (alter g m l) = held_by l.
Proof.
  unfold held_by. intros Hg. revert m. induction l as [|y l IH]; intros [|m]; cbn; [done..|by rewrite Hg|].
  by rewrite IH.
Qed.

Lemma ok_alter (g : Mod → Mod) m l : (∀ md, l !! m = Some md → ok (ctx md) → ok (ctx (g md))) →
  Forall (λ md, ok (ctx md)) l → Forall (λ md, ok (ctx md)) (alter g m l).
Proof.
  intros Hg Hl. apply Forall_lookup. intros i md. rewrite list_lookup_alter.
  case_decide as E; [subst i|by apply (Forall_lookup_1 _ _ _ _ Hl)].
  destruct (l !! m) as [y|] eqn:Ey; [|done]. intros [= <-]. apply Hg; [done|]. exact (Forall_lookup_1 _ _ _ _ Hl Ey).
Qed.

Lemma queued_app (q : list task) t : foldr (λ t n, t_asize t + n) 0 (q ++ [t]) = foldr (λ t n, t_asize t + n) 0 q + t_asize t.
Proof. induction q as [|u q IH]; cbn; [lia|]. rewrite IH. lia. Qed.

(** ** Steps *)

Lemma free_accounts n k c : accounts n c → accounts (n - k) (free_buffer k c).
Proof.
  intros H Hc. destruct (H Hc) as (Hl & Hq & Ho). split_and!; [|exact Hq|exact Ho]. rewrite <- Hl.
  unfold loose, free_buffer, check_backpressure. destruct c. cbn. unfold queued_bytes. cbn. lia.
Qed.

Lemma alloc_accounts n k c : accounts n c → accounts (n + k) (default c (alloc_buffer malloc_ok k c)).
Proof.
  unfold alloc_buffer. rewrite Hmalloc. cbn [default]. intros H Hc. destruct (H Hc) as (Hl & Hq & Ho).
  split_and!; [|exact Hq|exact Ho]. rewrite <- Hl.
  unfold loose, check_backpressure. destruct c. cbn. unfold queued_bytes. cbn. lia.
Qed.

Lemma enqueue_accounts n m d a s dir c : (dir = 0 ∨ dir = 1) → filled d a →
  accounts n c → accounts (n - a) (enqueue_module m d a s dir c).
Proof.
  intros Hdir Hd H. unfold enqueue_module. destruct (owner c); cbn [negb]; [|by apply free_accounts].
  intros Hc. destruct c. cbn in *. destruct (H Hc) as (Hl & Hq & Ho). split_and!; [| |exact Ho].
  - rewrite <- Hl. unfold loose, queued_bytes. cbn. rewrite queued_app. cbn. lia.
  - apply Forall_app. by split; [|apply Forall_singleton].
Qed.

Lemma write_accounts n m md src dst d a c : filled d a → accounts n c →
  accounts (n - a) (write_packet wire_ret m md src dst d a c).1 ∧ 0 <= (write_packet wire_ret m md src dst d a c).2.
Proof.
  intros Hd H. unfold write_packet.
  destruct (if dst <? 0 then None else near md !! Z.to_nat dst) as [[k|]|]; cbn [fst snd];
    (split; [|done || apply Hwire]).
  - apply enqueue_accounts; [destruct (dst =? 0); auto|done..].
  - by apply (free_accounts n a (exit_chain _ d c)).
  - by apply (free_accounts n a (exit_chain _ d c)).
Qed.

Lemma events_account m md evs : ∀ n src last c, Forall writes_filled evs → 0 <= last → accounts n c →
  accounts (n + net evs) (run_events wire_ret malloc_ok m md src evs last c).1
  ∧ 0 <= (run_events wire_ret malloc_ok m md src evs last c).2.
Proof.
  induction evs as [|e evs IH]; intros n src last c He Hlast H; [cbn; by rewrite Z.add_0_r|].
  apply Forall_cons in He as [He Hes]. unfold net. cbn [foldr]. fold (net evs). rewrite Z.add_assoc.
  destruct e as [k|k|s|i|dst d a]; cbn [run_events ev_net].
  - apply IH; [done..|]. by apply alloc_accounts.
  - apply IH; [done..|]. by apply free_accounts.
  - apply IH; [done..|]. by rewrite Z.add_0_r.
  - apply IH; [done..|]. rewrite Z.add_0_r. intros Hc. destruct c. cbn in *. destruct (H Hc) as (Hl & Hq & Ho).
    split_and!; [|exact Hq|]; cbn.
    + rewrite <- Hl. unfold loose, queued_bytes. cbn. by rewrite held_same.
    + by apply ok_alter.
  - destruct (write_accounts n m md src dst d a c He H) as [Hw Hr].
    destruct (write_packet _ _ _ _ _ _ _ _) as [c' r]. by apply IH.
Qed.

Lemma set_ctx_accounts n m md x' c : modules c !! m = Some md → ok x' → accounts n c →
  accounts (n + held (ctx md) - held x') (set_ctx m x' c).
Proof.
  intros Hm Hx H Hc. destruct c. cbn in *. destruct (H Hc) as (Hl & Hq & Ho). split_and!; [|exact Hq|].
  - rewrite <- Hl. unfold loose, queued_bytes. cbn. rewrite (held_alter _ m md) by done. cbn. unfold constant. lia.
  - by apply ok_alter.
Qed.

Lemma mods_accounts n (g : Mod → Mod) m c : (∀ md, ctx (g md) = ctx md) → accounts n c →
  accounts n (c{{modules ::= alter g m}}).
Proof.
  intros Hg H Hc. destruct c. cbn in *. destruct (H Hc) as (Hl & Hq & Ho). split_and!; [|exact Hq|].
  - rewrite <- Hl. unfold loose, queued_bytes. cbn. by rewrite held_same.
  - apply ok_alter; [|done]. intros md _. by rewrite Hg.
Qed.

(** A crash is for ever, so that nothing has to be known about a crashed chain. *)
Lemma crashed_accounts n c : crashed c = true → accounts n c.
Proof. intros H Hc. congruence. Qed.

Lemma enqueue_crashed m d a s dir (c : Chain) : crashed (enqueue_module m d a s dir c) = crashed c.
Proof. unfold enqueue_module. by case_match. Qed.

Lemma events_crashed m md evs : ∀ src last (c : Chain),
  crashed (run_events wire_ret malloc_ok m md src evs last c).1 = crashed c.
Proof.
  induction evs as [|e evs IH]; intros src last c; [done|]. destruct e; cbn [run_events]; rewrite ?IH; try done.
  - unfold alloc_buffer. by case_match.
  - unfold write_packet.
    destruct (if dst <? 0 then None else near md !! Z.to_nat dst) as [[k|]|]; rewrite IH; [apply enqueue_crashed|done..].
Qed.

Lemma run_task_crashed now t c : crashed c = true → crashed (run_task process wire_ret malloc_ok now t c) = true.
Proof.
  intros Hc. unfold run_task. destruct (cancelled c); [done|]. destruct (modules c !! t_mod t) as [md|]; [|done].
  destruct (process _ _ _ _ _) as [[x' evs] r]. set (c1 := set_ctx _ _ _).
  pose proof (events_crashed (t_mod t) md evs (t_src t) 0 c1) as He.
  destruct (run_events _ _ _ _ _ _ _ _) as [c2 last]. cbn [fst] in He.
  transitivity (crashed c2); [by destruct (_ <? 0)|]. by rewrite He.
Qed.

Lemma run_task_accounts now n t c : task_ok t → small (t_data t) →
  (∀ md, modules c !! t_mod t = Some md → fit (ctx md) (t_dir t) (t_data t)) → accounts (n + t_asize t) c →
  accounts n (run_task process wire_ret malloc_ok now t c).
Proof.
  intros [Hdir Hd] Hs Hfit H. destruct (crashed c) eqn:Hcr; [by apply crashed_accounts, run_task_crashed|].
  unfold run_task. destruct (cancelled c).
  { replace n with (n + t_asize t - t_asize t) by lia. exact (free_accounts _ (t_asize t) c H). }
  destruct (modules c !! t_mod t) as [md|] eqn:Em; [|by apply crashed_accounts].
  set (c0 := c{{modules ::= _}}).
  assert (accounts (n + t_asize t) c0) as H0 by (by apply mods_accounts).
  assert (∃ md0, modules c0 !! t_mod t = Some md0 ∧ ctx md0 = ctx md) as (md0 & Hm0 & Hx0).
  { subst c0. destruct c. cbn in *. rewrite list_lookup_alter_eq, Em. by eexists. }
  destruct (H Hcr) as (_ & _ & Ho).
  pose proof (tidy_packet (mod_name md) (ctx md) (t_dir t) (t_src t) (t_data t) (t_asize t)
                (Forall_lookup_1 _ _ _ _ Ho Em) Hdir Hd Hs (Hfit md eq_refl)) as Ht.
  destruct (process _ _ _ _ _) as [[x' evs] r]. destruct Ht as (Hx' & Hw & Hheld).
  pose proof (set_ctx_accounts _ (t_mod t) md0 x' c0 Hm0 Hx' H0) as H1. rewrite Hx0, Hheld in H1.
  destruct (events_account (t_mod t) md evs _ (t_src t) 0 _ Hw ltac:(lia) H1) as [H2 Hlast].
  destruct (run_events _ _ _ _ _ _ _ _) as [c2 last]. cbn [fst snd] in *.
  destruct r as [z|]; cbn [refuses] in *.
  - destruct (z <? 0).
    + replace n with (n + t_asize t + held (ctx md) - (held (ctx md) + 0 + net evs) + net evs - t_asize t) by lia.
      exact (free_accounts _ (t_asize t) c2 H2).
    + replace n with (n + t_asize t + held (ctx md) - (held (ctx md) + t_asize t + net evs) + net evs) by lia. exact H2.
  - rewrite (proj2 (Z.ltb_ge _ _)) by lia.
    replace n with (n + t_asize t + held (ctx md) - (held (ctx md) + t_asize t + net evs) + net evs) by lia. exact H2.
Qed.

(** Packets stay below 2 GB: split keeps their length in an [int]; and they are such that the
    module they are for can be given them. *)
Definition fit_tasks (c : Chain) : Prop :=
  Forall (λ t, small (t_data t) ∧ ∀ md, modules c !! t_mod t = Some md → fit (ctx md) (t_dir t) (t_data t)) (queue c).
Definition fit_tasksb (c : Chain) : bool :=
  forallb (λ t, (Z.of_nat (length (t_data t)) <? 2 ^ 31)
                && match modules c !! t_mod t with
                   | Some md => bool_decide (fit (ctx md) (t_dir t) (t_data t))
                   | None => true
                   end) (queue c).

Lemma fit_tasksb_ok c : fit_tasksb c = true → fit_tasks c.
Proof.
  unfold fit_tasksb, fit_tasks. rewrite forallb_forall, Forall_forall.
  intros Hq t [Hs%Z.ltb_lt Hf]%list_elem_of_In%Hq%andb_prop. split; [exact Hs|]. intros md Hmd. rewrite Hmd in Hf.
  by apply bool_decide_eq_true_1 in Hf.
Qed.

Lemma work_accounts now n c : fit_tasks c → accounts n c → accounts n (work process wire_ret malloc_ok now c).
Proof.
  intros Hs H. unfold fit_tasks in Hs. unfold work. destruct (queue c) as [|t rest] eqn:Eq; [done|].
  apply Forall_cons in Hs as [[Hs Hfit] _]. destruct (crashed c) eqn:Hc.
  { apply crashed_accounts, run_task_crashed. done. }
  destruct (H Hc) as (Hl & Hq & Ho). rewrite Eq in Hq. apply Forall_cons in Hq as [Ht Hq].
  apply run_task_accounts; [done|done|exact Hfit|]. intros _. destruct c. cbn in *. subst. split_and!; [|exact Hq|exact Ho].
  unfold loose, queued_bytes. cbn. unfold constant. lia.
Qed.

Lemma tick_accounts now ms m n c : accounts n c → accounts n (tick_module process wire_ret malloc_ok now ms m c).
Proof.
  intros H. unfold tick_module. destruct (modules c !! m) as [md|] eqn:Em; [|done].
  destruct (heartbeat_due now ms md) as [due md'] eqn:Eh.
  assert (ctx md' = ctx md) as Hx by (revert Eh; unfold heartbeat_due; repeat case_match; by intros [= _ <-]).
  assert (<[m := md']> (modules c) = alter (λ _, md') m (modules c)) as Ei by apply list_insert_alter.
  destruct (crashed c) eqn:Hc.
  { apply crashed_accounts. destruct due; [|exact Hc]. destruct (process _ _ _ _ _) as [[x' evs] r].
    rewrite events_crashed. exact Hc. }
  set (c0 := c{{modules ::= _}}).
  assert (accounts n c0) as H0.
  { destruct (H Hc) as (Hl & Hq & Ho). intros _. subst c0. destruct c. cbn in *. split_and!; [|exact Hq|].
    - rewrite <- Hl. unfold loose, queued_bytes. cbn. rewrite Ei, (held_alter _ m md), Hx by done. lia.
    - rewrite Ei. apply ok_alter; [|done]. intros md1. rewrite Em, Hx. by intros [= <-]. }
  destruct due; [|exact H0].
  assert (modules c0 !! m = Some md') as Hm0.
  { subst c0. destruct c. cbn in *. apply list_lookup_insert_eq. by apply lookup_lt_Some in Em. }
  destruct (H Hc) as (_ & _ & Ho).
  pose proof (tidy_heartbeat (mod_name md) (ctx md) (Forall_lookup_1 _ _ _ _ Ho Em)) as Ht.
  destruct (process _ _ _ _ _) as [[x' evs] r]. destruct Ht as (Hx' & Hw & Hheld).
  pose proof (set_ctx_accounts n m md' x' c0 Hm0 Hx' H0) as H1. rewrite Hx, Hheld in H1.
  destruct (events_account m md evs _ 0 0 _ Hw ltac:(lia) H1) as [H2 _].
  by replace n with (n + held (ctx md) - (held (ctx md) + net evs) + net evs) by lia.
Qed.

Lemma push_accounts n a d s dir c : dir = 0 ∨ dir = 1 → filled d a → accounts n c →
  accounts (n - a) (push_packet a d s dir c).
Proof.
  intros Hdir Hd H. unfold push_packet. destruct (cancelled c); [by apply free_accounts|].
  destruct (entry_ext c); cbn [negb]; [|by apply (free_accounts n a (exit_chain _ d c))].
  destruct (owner c) eqn:Eo; cbn [negb]; [|by apply free_accounts].
  destruct (dir =? 0); [by apply enqueue_accounts|]. destruct (_ || _); [by apply free_accounts|].
  destruct (wire_entries c !! Z.to_nat s) as [[m|]|]; [by apply enqueue_accounts|by apply crashed_accounts..].
Qed.

(** ** Histories *)

(** What the endpoint itself has allocated and neither given back nor handed to the chain. *)
Definition op_net (o : op) : Z :=
  match o with OpAlloc n => n | OpFree n => - n | OpPush a _ _ _ => - a | _ => 0 end.
Definition endpoint_bytes (ops : list op) : Z := foldr (λ o n, op_net o + n) 0 ops.

(** Packets of the endpoint are not empty and go in one of the two directions. *)
Definition sound_op (o : op) : Prop :=
  match o with OpPush a d _ dir => (dir = 0 ∨ dir = 1) ∧ filled d a | _ => True end.

Lemma op_accounts n c o : sound_op o → fit_tasks c → accounts n c →
  accounts (n + op_net o) (run_op process wire_ret malloc_ok c o).
Proof.
  intros Ho Hs H. destruct o as [a d s dir|k|k|now|now ms|]; cbn [run_op op_net sound_op] in *.
  - destruct Ho. by apply push_accounts.
  - by apply alloc_accounts.
  - by apply free_accounts.
  - rewrite Z.add_0_r. by apply work_accounts.
  - rewrite Z.add_0_r. unfold check_module_heartbeats. generalize (seq 0 (length (modules c))). intros l. clear Hs. revert c H.
    induction l as [|m l IH]; intros c H; [done|]. cbn [foldl]. by apply IH, tick_accounts.
  - by rewrite Z.add_0_r.
Qed.

(** A history: sound operations of the endpoint, and packets that fit. *)
Fixpoint sound (ops : list op) (c : Chain) : Prop :=
  fit_tasks c ∧ match ops with
                  | [] => True
                  | o :: rest => sound_op o ∧ sound rest (run_op process wire_ret malloc_ok c o)
                  end.

Definition filledb (d : bytes) (a : Z) : bool := negb (bool_decide (d = [])) || (a =? 0).
Fixpoint soundb (ops : list op) (c : Chain) : bool :=
  fit_tasksb c
  && match ops with
     | [] => true
     | o :: rest =>
         match o with OpPush a d _ dir => ((dir =? 0) || (dir =? 1)) && filledb d a | _ => true end
         && soundb rest (run_op process wire_ret malloc_ok c o)
     end.

Lemma soundb_sound ops : ∀ c, soundb ops c = true → sound ops c.
Proof.
  induction ops as [|o ops IH]; intros c [Hq Ho]%andb_prop.
  - split; [|done]. by apply fit_tasksb_ok.
  - apply andb_prop in Ho as [Ho Hrest]. split; [by apply fit_tasksb_ok|split; [|by apply IH]].
    destruct o as [a d s dir| | | | |]; cbn; try done. apply andb_prop in Ho as [Hd%orb_prop Hf%orb_prop].
      rewrite !Z.eqb_eq in Hd. split; [done|]. unfold filled. rewrite Z.eqb_eq in Hf. destruct Hf as [Hf|]; [left|by right].
      intros ->. done.
Qed.

Lemma ops_account ops : ∀ n c, sound ops c → accounts n c →
  accounts (n + endpoint_bytes ops) (foldl (run_op process wire_ret malloc_ok) c ops).
Proof.
  induction ops as [|o ops IH]; intros n c Hs H; [cbn; by rewrite Z.add_0_r|]. destruct Hs as (Hs & Ho & Hops).
  unfold endpoint_bytes. cbn [foldl foldr]. fold (endpoint_bytes ops). rewrite Z.add_assoc.
  apply IH; [done|]. by apply op_accounts.
Qed.

(** ** A new chain *)

Definition started (l : list Mod) : Prop := Forall (λ md, ok (ctx md) ∧ held (ctx md) = 0) l.

Lemma started_alter (g : Mod → Mod) m l : (∀ md, ctx (g md) = ctx md) → started l → started (alter g m l).
Proof.
  intros Hg Hl. apply Forall_lookup. intros i md. rewrite list_lookup_alter.
  case_decide as E; [subst i|by apply (Forall_lookup_1 _ _ _ _ Hl)].
  destruct (l !! m) as [y|] eqn:Ey; [|done]. intros [= <-]. rewrite Hg. exact (Forall_lookup_1 _ _ _ _ Hl Ey).
Qed.

Lemma create_one_started now spec i b b' : create_one init now spec i b = Some b' → started (build b) → started (build b').
Proof.
  unfold create_one. intros ([x evs] & Hi & Hb)%bind_Some Hs. pose proof (tidy_init _ _ _ Hi) as Hx.
  assert (∀ m (st : Mod * list (nat * Z)), ctx (foldl (run_init m) st evs).1 = ctx st.1) as Hctx.
  { intros m. clear Hi Hb. induction evs as [|[] evs IH]; intros st; cbn; [done|..]; by rewrite IH. }
  specialize (Hctx (length (build b)) (mkMod (name spec) (next_id b) [None; None] (-1) i x 0 now, requested b)).
  destruct (foldl _ _ _) as [md req]. injection Hb as <-. cbn in *. apply Forall_app. split; [done|].
  apply Forall_singleton. by rewrite Hctx.
Qed.

Lemma create_main_started now specs : ∀ i b b',
  create_main init now specs i b = Some b' → started (build b) → started (build b').
Proof.
  induction specs as [|spec specs IH]; intros i b b'; cbn; [by intros [= <-]|].
  intros (b1 & H1 & H2)%bind_Some Hs. eapply IH; [done|]. by eapply create_one_started.
Qed.

Lemma link_main_started (l : list Mod) : started l → started (link_main l).
Proof.
  intros Hl. apply Forall_lookup. intros i md. unfold link_main. rewrite list_lookup_imap.
  destruct (l !! i) as [y|] eqn:Ey; [|done]. intros [= <-]. exact (Forall_lookup_1 _ _ _ _ Hl Ey).
Qed.

Lemma create_sub_started now m specs : ∀ prev b b' last,
  create_sub init now m prev specs b = Some (b', last) → started (build b) → started (build b').
Proof.
  induction specs as [|[ri spec] specs IH]; intros prev b b' last; cbn; [by intros [= <- _]|].
  intros (b1 & H1 & H2)%bind_Some Hs. eapply IH; [exact H2|]. apply create_one_started in H1; [|done].
  cbn. unfold constant. case_match; repeat (apply started_alter; [done|]); exact H1.
Qed.

Lemma create_outputs_started now cfg m mc n : ∀ k st st',
  create_outputs init now cfg m mc k n st = Some st' → started (build st.1.1) → started (build st'.1.1).
Proof.
  induction n as [|n IH]; intros k [[b es] port] st'; cbn [create_outputs]; [by intros [= <-]|].
  intros ([b1 last] & H1 & H2)%bind_Some Hs. eapply IH; [exact H2|]. apply create_sub_started in H1; [|done].
  cbn. unfold constant. by repeat (apply started_alter; [done|]).
Qed.

Lemma serve_started now cfg reqs : ∀ st st',
  serve_all init now cfg reqs st = Some st' → started (build st.1.1) → started (build st'.1.1).
Proof.
  induction reqs as [|[m count] reqs IH]; intros [[b es] port] st'; cbn [serve_all]; [by intros [= <-]|].
  intros (st1 & H1 & H2)%bind_Some Hs. eapply IH; [exact H2|]. revert H1. unfold serve_request.
  destruct (build b !! m) as [x|]; [|by intros [= <-]]. destruct (_ <=? _)%nat; [by intros [= <-]|].
  intros H1. eapply create_outputs_started; [exact H1|]. cbn. unfold constant. by apply started_alter.
Qed.

Lemma phase2_started now cfg k : ∀ st st',
  phase2 init k now cfg st = Some st' → started (build st.1.1) → started (build st'.1.1).
Proof.
  induction k as [|k IH]; intros [[b es] port] st'; cbn [phase2]; [by intros [= <-]|].
  destruct (requested b) eqn:Er; [by intros [= <-]|]. intros (st1 & H1 & H2)%bind_Some Hs.
  eapply IH; [exact H2|]. by eapply serve_started.
Qed.

Lemma chain_new_started now cfg : started (modules (chain_new init now cfg)).
Proof.
  unfold chain_new. destruct (create_main _ _ _ _ _) as [b|] eqn:Em; [|by constructor].
  apply create_main_started in Em; [|by constructor]. destruct (build b) as [|md l] eqn:Eb; [by constructor|].
  destruct (phase2 _ _ _ _ _) as [[[b' es] port]|] eqn:Ep; [|by constructor].
  apply phase2_started in Ep; [exact Ep|]. cbn -[link_main]. unfold constant.
  do 2 (apply started_alter; [done|]). by apply link_main_started.
Qed.

Lemma held_started l : started l → held_by l = 0 ∧ Forall (λ md, ok (ctx md)) l.
Proof.
  unfold held_by. induction 1 as [|md l [Hok Hh] _ [IH1 IH2]]; [done|]. cbn. rewrite IH1. split; [lia|by constructor].
Qed.

Lemma chain_new_accounts now cfg : accounts 0 (chain_new init now cfg).
Proof.
  intros _. destruct (held_started _ (chain_new_started now cfg)) as [Hh Ho].
  assert (queue (chain_new init now cfg) = [] ∧ bytes_allocated (chain_new init now cfg) = 0) as [Hq Hb]
    by (unfold chain_new; by repeat case_match).
  unfold loose, queued_bytes. rewrite Hh, Hq, Hb. split_and!; [done|done|exact Ho].
Qed.

(** [C18] The chain's count of allocated bytes is exact when the modules are tidy and the
    endpoint takes what it is handed. In a chain of tidy modules, after any sequence of
    packets of the endpoint, tasks, heartbeats, allocations and a cancellation, each of them
    a whole step, the bytes counted are those of the packets queued, those the modules keep
    and those the endpoint still has; so a direction is paused only while these are more
    than 128 KB, and not paused only while they are at most 512 KB: no buffer is lost and
    none is given back twice. Provided that [wire_write] takes every packet (when it refuses
    one, copy has it freed twice), that malloc succeeds, that packets are shorter than 2 GB
    and fit the module they are for, and that no two threads are in [check_backpressure] at
    once (otherwise a flag may be wrong, [Pressure.late_pause_sticks], while the count still
    fits, [Pressure.count_exact]). *)
Theorem buffers_accounted (now : Z) (cfg : list ModuleSpec) (ops : list op)
    (Hbuilt : modules (chain_new init now cfg) ≠ [] ∨ entry_ext (chain_new init now cfg) = false)
    (Hports : Forall ChainGraph.port_op ops) (Hsound : sound ops (chain_new init now cfg)) :
  let c := foldl (run_op process wire_ret malloc_ok) (chain_new init now cfg) ops in
  let n := endpoint_bytes ops + queued_bytes c + held_by (modules c) in
  bytes_allocated c = n
  ∧ ∀ dir, (is_backpressure_paused dir c = true → BACKPRESSURE_LOW < n)
      ∧ (is_backpressure_paused dir c = false → n <= BACKPRESSURE_HIGH).
Proof.
  intros c n. destruct (ChainGraph.chain_pointers_valid init process wire_ret malloc_ok now cfg ops Hbuilt Hports) as [Hc _].
  destruct (ops_account ops 0 _ Hsound (chain_new_accounts now cfg) Hc) as (Hl & _). fold c in Hl.
  assert (bytes_allocated c = n) as Hb by (subst n; unfold loose in Hl; lia).
  split; [exact Hb|]. rewrite <- Hb.
  destruct (backpressure_hysteresis init process wire_ret malloc_ok now cfg ops) as (E & H0). fold c in E, H0.
  intros dir. replace (is_backpressure_paused dir c) with (is_backpressure_paused 0 c); [exact H0|].
  revert E. unfold is_backpressure_paused. cbn. by destruct (dir =? 0).
Qed.

End buffers.
End Buffers.
