(* ===== verification/Memory.v ===== *)
(** * Which modules are tidy

    Copy, base64 and split keep the promise of [Buffers.Tidy], so the accounting theorem
    holds for the chains they make. *)

From S2P Require Import Prelude Text ChainApi Config Chain Copy Split SplitConfig ChainFlow SplitChain Base64 ChainGraph Buffers.
Local Open Scope Z_scope.

Module Memory.
Import Chain Buffers.

(** ** Copy and base64 *)

Lemma copy_in_tidy malloc_ok : Tidy Copy.init (Copy.process_in malloc_ok) (λ _, True) (λ _, 0) (λ _ _ _, True).
Proof.
  split.
  - done.
  - intros nm x dir src d a _ Hdir Hf _ _. unfold Copy.process_in, Copy.builtin_copy_process.
    destruct d as [|b d]; [cbn; repeat split; by constructor|].
    destruct (Copy.mode_copy x); [destruct (malloc_ok _)|]; cbn [negb]; cbn; (split; [done|]); split; try lia;
      repeat apply Forall_cons_2; try done; by left.
  - intros nm x _. cbn. split_and!; by constructor.
Qed.

#[export] Instance copy_tidy : Tidy Copy.init Copy.process (λ _, True) (λ _, 0) (λ _ _ _, True).
Proof. apply copy_in_tidy. Qed.

Section base64.
Context (base64_encode : bytes → bytes) (base64_decode : bytes → Z * bytes).
Context {Hlib : Base64.Base64Lib base64_encode base64_decode}.

#[export] Instance base64_tidy :
  Tidy Base64.init (Base64.chain_process base64_encode base64_decode) (λ _, True) (λ _, 0) (λ _ _ _, True).
Proof.
  split.
  - done.
  - intros nm x dir src d a _ Hdir Hf Hs _. destruct x as [x|x]; cbn [Base64.chain_process].
    + pose proof (tidy_packet (Tidy := copy_tidy) nm x dir src d a I Hdir Hf Hs I) as Ht.
      destruct (Copy.process _ _ _ _ _) as [[x' evs] r]. exact Ht.
    + unfold small in Hs.
      pose proof (Base64.base64_buffers_outcome base64_encode base64_decode (λ _, true) x dir src d a ltac:(lia)) as Hb.
      destruct (Base64.b64_process _ _ _ _ _ _ _) as [[x' evs] r]. destruct Hb as [_ Ho].
      destruct Ho as [|k|out k Hne Hk]; cbn; (split; [done|]); split; try lia; repeat apply Forall_cons_2; try done.
      by left.
  - intros nm [x|x] _; cbn; split_and!; by constructor.
Qed.
End base64.

(** ** Split *)

(** The bytes of the chunks that wait for the rest of their packet. *)
Definition slot_bytes (m : gmap Z Split.SlotEntry) : Z :=
  map_fold (λ _ s n, Z.of_nat (length (Split.sdata s)) + n) 0 m.
Definition total (l : list Split.SlotEntry) : Z := foldr (λ s n, Z.of_nat (length (Split.sdata s)) + n) 0 l.

Lemma slot_bytes_insert m k s : m !! k = None →
  slot_bytes (<[k := s]> m) = Z.of_nat (length (Split.sdata s)) + slot_bytes m.
Proof. intros H. unfold slot_bytes. rewrite map_fold_insert_L; [done|lia|done]. Qed.

Lemma slot_bytes_delete m k s : m !! k = Some s →
  slot_bytes (delete k m) = slot_bytes m - Z.of_nat (length (Split.sdata s)).
Proof. intros H. unfold slot_bytes. rewrite (map_fold_delete_L _ _ k s m); [lia|lia|done]. Qed.

Lemma slot_bytes_deletes ks : NoDup ks → ∀ m,
  slot_bytes (foldl (λ m k, delete k m) m ks) = slot_bytes m - total (omap (λ k, m !! k) ks).
Proof.
  induction 1 as [|k ks Hk _ IH]; intros m; [cbn; lia|]. cbn [foldl]. rewrite IH.
  rewrite omap_cons_opt.
  replace (omap (λ k', delete k m !! k') ks) with (omap (λ k', m !! k') ks).
  2: { apply list_omap_ext, Forall_Forall2_diag, Forall_forall. intros k' Hin. symmetry. apply lookup_delete_ne. set_solver. }
  destruct (m !! k) as [s|] eqn:E; [rewrite (slot_bytes_delete m k s) by done|rewrite delete_id by done];
    unfold total; cbn; lia.
Qed.

Lemma slot_bytes_erase m a b : slot_bytes (Split.erase_range m a b) = slot_bytes m - total (Split.range_slots m a b).
Proof. apply slot_bytes_deletes, NoDup_seqZ. Qed.

(** A slot knows the length of its chunk. *)
Definition sized (m : gmap Z Split.SlotEntry) : Prop :=
  map_Forall (λ _ s, Split.ssize s = Z.of_nat (length (Split.sdata s))) m.

Definition split_ok (x : Split.SplitContext) : Prop :=
  Split.sizes_ok x ∧ sized (Split.pending x) ∧ Split.bounded x.

Section split.
Context (env : Split.Env) (Hmem : ∀ k, Split.malloc_ok env k = true) (a : Z).
#[local] Abbreviation net_of evs := (net (map (SplitChain.calls a) evs)).

Lemma calls_filled evs : Forall writes_filled (map (SplitChain.calls a) evs).
Proof.
  apply Forall_fmap, Forall_true. intros []; cbn; try done.
  unfold filled. destruct data; [by right|by left].
Qed.

Lemma net_map_app evs es : net_of (evs ++ es) = net_of evs + net_of es.
Proof. by rewrite map_app, net_app. Qed.

Lemma split_loop_net fuel : ∀ x sz off n rest, Split.sizes_ok x → 0 <= off → sz = off + Z.of_nat (length rest) →
  net_of (Split.split_loop fuel env x sz off n rest).1.2 = 0
  ∧ Split.same_cfg x (Split.split_loop fuel env x sz off n rest).1.1.2.
Proof.
  induction fuel as [|f IH]; intros x sz off n rest Hs Ho Hsz; [done|]. cbn [Split.split_loop].
  destruct (Z.ltb_spec off sz) as [Hlt|]; [|done]. rewrite Hmem.
  set (len := if Split.MAX_CHUNKS_PER_PASS - 1 <=? n then sz - off
              else if sz - off <? Split.next_chunk_size env x then sz - off else Split.next_chunk_size env x).
  assert (0 <= len <= sz - off) as Hlen.
  { pose proof (Split.next_chunk_size_range env x Hs). destruct Hs as [[Hmin _] _]. unfold Split.MIN_CHUNK in Hmin.
    subst len. repeat case_match; lia. }
  clearbody len.
  match goal with |- context [Split.split_loop f env ?c ?s ?o ?k ?r] => specialize (IH c s o k r) end.
  destruct IH as [Hn Hc]; [done|lia|rewrite length_drop; lia|].
  destruct (Split.split_loop f _ _ _ _ _ _) as [[[ok x'] evs] n']. cbn [fst snd] in *. split; [|exact Hc].
  cbn [map SplitChain.calls]. unfold net in *. cbn [foldr ev_net]. rewrite Hn, length_app, length_take.
  change (length (Split.hdr_bytes _)) with 4%nat. change (Z.of_nat Split.HEADER_SIZE) with 4. lia.
Qed.

Lemma frees_net l : net_of (map (λ s, Split.EvFree (Split.sdata s)) l) = - total l.
Proof. unfold net, total. induction l as [|s l IH]; cbn; [done|]. rewrite IH. lia. Qed.

Lemma concat_total l : Z.of_nat (length (concat (map Split.sdata l))) = total l.
Proof. induction l as [|s l IH]; cbn; [done|]. rewrite length_app, Nat2Z.inj_add, IH. done. Qed.

Lemma sizes_total m b e : sized m → foldl (λ t s, t + Split.ssize s) 0 (Split.range_slots m b e) = total (Split.range_slots m b e).
Proof.
  intros Hm. unfold Split.range_slots. generalize (Split.key_range b e). intros ks.
  assert (∀ t, foldl (λ t s, t + Split.ssize s) t (omap (λ k, m !! k) ks) = t + total (omap (λ k, m !! k) ks)) as ->; [|lia].
  induction ks as [|k ks IH]; intros t; [cbn; lia|]. rewrite omap_cons_opt.
  destruct (m !! k) as [s|] eqn:E; cbn; [|apply IH]. rewrite IH, (Hm _ _ E). unfold total. cbn. lia.
Qed.

Lemma sized_erase m b e : sized m → sized (Split.erase_range m b e).
Proof. intros Hm k s. rewrite Split.erase_range_lookup. case_decide; [done|apply Hm]. Qed.

Lemma merge_round_net x x' evs : sized (Split.pending x) → Split.merge_round env x = Some (x', evs) →
  sized (Split.pending x') ∧ slot_bytes (Split.pending x') = slot_bytes (Split.pending x) + net_of evs.
Proof.
  intros Hx. unfold Split.merge_round. destruct (Split.pending x !! _) as [e|]; [|done].
  destruct (Split.smore e =? 0); [|intros [= <- <-]; split; [done|cbn; lia]].
  rewrite Hmem. intros [= <- <-]. cbn [Split.pending Split.set_merge]. split; [by apply sized_erase|].
  rewrite slot_bytes_erase, sizes_total by done. set (l := Split.range_slots _ _ _).
  change (net_of (Split.EvMalloc (total l) :: ?k)) with (total l + net_of k).
  rewrite net_map_app, frees_net. unfold net. cbn. rewrite concat_total. lia.
Qed.

Lemma merge_rounds_net n : ∀ x x' evs, sized (Split.pending x) → iterate (Split.merge_round env) n x = inr (x', evs) →
  sized (Split.pending x') ∧ slot_bytes (Split.pending x') = slot_bytes (Split.pending x) + net_of evs.
Proof.
  induction n as [|n IH]; intros x x' evs Hx; [done|]. cbn [iterate].
  destruct (Split.merge_round env x) as [[x1 e1]|] eqn:E; [|intros [= <- <-]; split; [done|cbn; lia]].
  destruct (merge_round_net x x1 e1 Hx E) as [Hx1 Hb1].
  destruct (iterate _ n x1) as [[]|[x2 e2]] eqn:E2; [done|]. intros [= <- <-].
  destruct (IH x1 x2 e2 Hx1 E2) as [Hs Hb]. split; [done|]. rewrite Hb, Hb1, net_map_app. lia.
Qed.

Lemma merge_loop_net x x' evs : sized (Split.pending x) → Split.merge_loop env x = Some (x', evs) →
  sized (Split.pending x') ∧ slot_bytes (Split.pending x') = slot_bytes (Split.pending x) + net_of evs.
Proof.
  intros Hx. rewrite Split.merge_loop_iterate. destruct (iterate _ _ x) as [|[]] eqn:E; [done|]. intros [= <- <-].
  by eapply merge_rounds_net.
Qed.

Lemma sizes_same x x' : Split.same_cfg x x' → Split.sizes_ok x → Split.sizes_ok x'.
Proof. unfold Split.sizes_ok. by intros (-> & -> & -> & _). Qed.

(** Both directions dispose of the packet, of what they allocate and of the slots they clear. *)
Lemma split_packet x d : split_ok x → filled d a → small d →
  let '(r, x', evs) := Split.process_split env x (Some d) in
  r = 0 ∧ split_ok x' ∧ slot_bytes (Split.pending x') = slot_bytes (Split.pending x) + a + net_of evs.
Proof.
  intros (Hs & Hp & Hbd) Hf Hd. unfold small in Hd. unfold Split.process_split.
  destruct d as [|b d]; [destruct Hf as [| ->]; [done|]; by rewrite !Z.add_0_r|]. set (l := b :: d) in *.
  assert (Split.int32 (Z.of_nat (length l)) = Z.of_nat (length l)) as ->.
  { unfold Split.int32. rewrite Z.mod_small; lia. }
  destruct (split_loop_net (length l) x (Z.of_nat (length l)) 0 0 l) as [Hn Hc]; [done|lia|lia|].
  destruct (Split.split_loop _ _ _ _ _ _ _) as [[[ok x'] evs] n]. cbn [fst snd] in *.
  pose proof (sizes_same _ _ Hc Hs) as Hs'. destruct Hc as (_ & _ & _ & Hpend & Hep & Hec).
  assert (net_of (evs ++ [Split.EvFreeInput]) = - a) as Hnet by (rewrite net_map_app, Hn; cbn; lia).
  destruct ok; cbn [Split.pending Split.end_packet]; rewrite Hnet, Hpend;
    (split; [done|]; split; [split; [exact Hs'|]|lia]); unfold Split.bounded;
    cbn [Split.pending Split.end_packet Split.exp_pkt Split.exp_chunk]; by rewrite Hpend, Hep, Hec.
Qed.

Lemma merge_packet x d : split_ok x → filled d a → small d → Split.last_fits d →
  ∃ x' evs, Split.process_merge env x (Some d) = Some (0, x', evs)
    ∧ split_ok x' ∧ slot_bytes (Split.pending x') = slot_bytes (Split.pending x) + a + net_of evs.
Proof.
  intros (Hs & Hp & Hb) Hf Hd Hlast. unfold small in Hd.
  destruct (Split.process_merge_any env Hmem x d Hb Hlast) as (x' & evs & E & Hb' & Hsame & _).
  exists x', evs. split; [done|]. unfold split_ok.
  enough (sized (Split.pending x') ∧ slot_bytes (Split.pending x') = slot_bytes (Split.pending x) + a + net_of evs) as [? ?].
  { split_and!; try done. revert Hs. unfold Split.sizes_ok. destruct Hsame as (-> & -> & -> & _). done. }
  clear Hsame Hb'. revert E. unfold Split.process_merge.
  destruct d as [|b d]; [intros [= <- <-]; destruct Hf as [| ->]; [done|]; split; [done|cbn; lia]|]. set (l := b :: d) in *.
  destruct (_ <? _)%nat; [intros [= <- <-]; split; [done|cbn; lia]|].
  destruct (_ <? _); [intros [= <- <-]; split; [done|cbn; lia]|].
  rewrite Hmem.
  set (pl := drop Split.HEADER_SIZE l). assert (Z.of_nat (length pl) < 2 ^ 31) as Hpl by (subst pl; rewrite length_drop; lia).
  set (slot := Split.mkSlot pl _ _). set (key := Split.slot_key _ _).
  assert (sized (<[key := slot]> (Split.pending x))) as Hsz.
  { apply map_Forall_insert_2; [|done]. unfold slot. cbn [Split.ssize Split.sdata]. apply Z.mod_small. lia. }
  match goal with |- context [Split.merge_loop env ?c] =>
    pose proof (λ c' es, merge_loop_net c c' es Hsz) as H12; destruct (Split.merge_loop env c) as [[c' es]|]; [|done] end.
  destruct (H12 c' es eq_refl) as [H1 H2]. clear H12.
  intros [= <- <-]. cbn [fst snd Split.pending Split.set_merge] in *. split; [done|].
  assert (u64 (Split.int32 (Z.of_nat (length pl))) = Z.of_nat (length pl)) as ->.
  { unfold Split.int32, u64. rewrite (Z.mod_small (_ + _)) by lia. rewrite Z.mod_small; lia. }
  rewrite H2, net_map_app. change (net_of (Split.EvMalloc ?n :: ?k)) with (n + net_of k). rewrite net_map_app.
  assert (slot_bytes (<[key := slot]> (Split.pending x))
          = slot_bytes (Split.pending x) + Z.of_nat (length pl)
            + net_of (match Split.pending x !! key with Some e => [Split.EvFree (Split.sdata e)] | None => [] end)) as ->.
  { destruct (Split.pending x !! key) as [e|] eqn:Ek.
    - rewrite <- insert_delete_eq, slot_bytes_insert, (slot_bytes_delete _ _ e) by (done || apply lookup_delete_eq). cbn. lia.
    - rewrite slot_bytes_insert by done. cbn. lia. }
  cbn. lia.
Qed.

End split.

Section tunnel.
Context {Y : Type}.
Context (tinit : ModuleSpec → option (Y * list init_ev)).
Context (tprocess : bytes → Y → Z → Z → option (bytes * Z) → Y * list mod_ev * mod_ret).
Context (ok : Y → Prop) (held : Y → Z) (fit : Y → Z → bytes → Prop) {Htidy : Tidy tinit tprocess ok held fit}.
Context (env : Split.Env) (Hmem : ∀ k, Split.malloc_ok env k = true).

Definition chain_ok (x : Split.SplitContext + Y) : Prop := match x with inl x => split_ok x | inr y => ok y end.
Definition chain_held (x : Split.SplitContext + Y) : Z :=
  match x with inl x => slot_bytes (Split.pending x) | inr y => held y end.

(** No chunk for split announces a 65537th of its packet. *)
Definition chain_fit (x : Split.SplitContext + Y) (dir : Z) (d : bytes) : Prop :=
  match x with inl _ => dir = 1 → Split.last_fits d | inr y => fit y dir d end.

#[export] Instance chain_fit_dec `{∀ y dir d, Decision (fit y dir d)} x dir d : Decision (chain_fit x dir d).
Proof. destruct x; cbn; apply _. Defined.

(** Split among tidy modules. *)
#[export] Instance split_tidy :
  Tidy (SplitChain.init tinit) (SplitChain.process tprocess env) chain_ok chain_held chain_fit.
Proof.
  split.
  - intros spec x evs. unfold SplitChain.init. case_bool_decide.
    + intros ([x0 e0] & H0 & [= <- _])%bind_Some.
      apply SplitConfig.chain_init_wf in H0 as (_ & Hs & ->). by split.
    + intros ([y e0] & H0 & [= <- _])%bind_Some. cbn. by eapply tidy_init.
  - intros nm x dir src d a Hok Hdir Hf Hd Hfit. destruct x as [x|y]; cbn [SplitChain.process chain_ok chain_held chain_fit] in *.
    + unfold Split.process. cbn [fst snd fmap option_fmap option_map]. destruct (Z.eqb_spec dir 0).
      * pose proof (split_packet env Hmem a x d Hok Hf Hd) as Hp.
        destruct (Split.process_split _ _ _) as [[r x'] evs]. destruct Hp as (-> & Hok' & Hb).
        split_and!; [done|apply calls_filled|exact Hb].
      * destruct (merge_packet env Hmem a x d Hok Hf Hd ltac:(apply Hfit; lia)) as (x' & evs & -> & Hok' & Hb).
        split_and!; [done|apply calls_filled|exact Hb].
    + pose proof (tidy_packet nm y dir src d a Hok Hdir Hf Hd Hfit) as Ht.
      destruct (tprocess _ _ _ _ _) as [[y' evs] r]. exact Ht.
  - intros nm [x|y] Hok; cbn [SplitChain.process chain_ok chain_held] in *.
    + split_and!; [done|by constructor|cbn; lia].
    + pose proof (tidy_heartbeat nm y Hok) as Ht. destruct (tprocess _ _ _ _ _) as [[y' evs] r]. exact Ht.
Qed.
End tunnel.

(** ** A tunnel with base64 and split *)

#[local] Existing Instance Base64.rfc4648.

Definition demo_cfg : list ModuleSpec := Config.modules (Config.parse_chain (lit "h:1,pw;base64;split|n:2,s:64")).
Abbreviation demo_init := (SplitChain.init Base64.init).
Abbreviation demo_process := (SplitChain.process (Base64.chain_process Base64.rfc_encode Base64.rfc_decode) (Split.mkEnv (λ _, 0) (λ _, true))).
(** A packet of 200 bytes is split and encoded; a chunk of the peer comes in and waits in
    split for the rest of its packet; the endpoint allocates a buffer. *)
Definition demo_ops : list op :=
  [OpAlloc 200; OpPush 200 (repeat 7 200) 0 0; OpWork 0; OpWork 0; OpWork 0; OpTick 5 1000; OpAlloc 16;
   OpPush 16 (Base64.rfc_encode [0; 128; 0; 0; 9; 9; 9; 9; 9]) 1 1; OpAlloc 1000]
  ++ replicate 12 (OpWork 1).
Abbreviation demo_run := (foldl (run_op demo_process (λ _ _, 0) (λ _ _, true)) (chain_new demo_init 0 demo_cfg) demo_ops).

Lemma buffers_accounted_witness :
  bytes_allocated demo_run = endpoint_bytes demo_ops + queued_bytes demo_run
                             + held_by (chain_held (λ _, 0)) (modules demo_run)
  ∧ endpoint_bytes demo_ops = 1000 ∧ queue demo_run = [] ∧ bytes_allocated demo_run = 1005.
Proof.
  pose proof (split_tidy Base64.init (Base64.chain_process Base64.rfc_encode Base64.rfc_decode) (λ _, True) (λ _, 0) (λ _ _ _, True)
                (Split.mkEnv (λ _, 0) (λ _, true)) (λ _, eq_refl)) as Ht.
  split; [|by vm_compute].
  apply (buffers_accounted demo_init demo_process (λ _ _, 0) (λ _ _, true)
           (chain_ok (λ _, True)) (chain_held (λ _, 0)) (chain_fit (λ _ _ _, True)) ltac:(intros; cbn; lia) ltac:(intros; reflexivity) 0 demo_cfg demo_ops).
  - left. by vm_compute.
  - apply Forall_app. split; [|by repeat constructor]. repeat apply Forall_cons_2; try done; first [by left|by right].
  - unshelve eapply soundb_sound. vm_compute. reflexivity.
Defined.

End Memory.
