(* ===== verification/Compress.v ===== *)
(** * The [compress] module (modules/compress/compress.nim, rle_impl.nim, helpers.nim)

    Its built-in algorithm, run-length encoding, which is also what it uses when its
    configuration names no other; its configuration; and [process] with its buffers. The
    other algorithms are libraries loaded at run time and stay a parameter. *)

From S2P Require Import Prelude Text ChainApi Config Chain Copy.
Local Open Scope Z_scope.

Module Compress.

(** ** Run-length encoding *)

(** How many bytes at the front of [l], at most [k], are [b]. *)
Fixpoint same (b : Z) (l : bytes) (k : nat) : nat :=
  match l, k with
  | x :: l', S k' => if x =? b then S (same b l' k') else O
  | _, _ => O
  end.

(** The loop of [litLen]: bytes up to the next run of three, at most [k]. *)
Fixpoint literals (l : bytes) (k : nat) : nat :=
  match l, k with
  | nb :: l', S k' => if (3 <=? S (same nb l' 254))%nat then O else S (literals l' k')
  | _, _ => O
  end.

Inductive block := Run (b : Z) (n : nat) | Lit (d : bytes).

Definition encode_block (k : block) : bytes :=
  match k with
  | Run b n => [0; b; u8 (Z.of_nat n)]
  | Lit d => 1 :: u8 (Z.of_nat (length d)) :: d
  end.

(** One round of [rleCompress] at the bytes [b :: rest]: the block it writes and the bytes it
    goes on with. The literals are counted from the end of the run that was looked at, and
    copied from its beginning. *)
Definition next_block (b : Z) (rest : bytes) : block * bytes :=
  let run := S (same b rest 254) in
  if (3 <=? run)%nat then (Run b run, drop (run - 1) rest)
  else
    let litLen := literals (drop (run - 1) rest) 255 in
    if (litLen =? 0)%nat then (Lit [b], rest)
    else (Lit (take litLen (b :: rest)), drop (run - 1 + litLen) rest).

(** [maxDst] is the size of the output buffer; every round uses a byte of the input, so its
    length is enough fuel. [None] is the result -1. *)
Fixpoint compress_loop (fuel : nat) (maxDst : Z) (l out : bytes) : option bytes :=
  match l, fuel with
  | [], _ => Some out
  | _, O => None
  | b :: rest, S f =>
      let '(k, next) := next_block b rest in
      let e := encode_block k in
      if maxDst <? Z.of_nat (length out + length e) then None
      else compress_loop f maxDst next (out ++ e)
  end.

(** When nothing is gained the input is sent as it is, behind a 2. *)
Definition rleCompress (src : bytes) (maxDst : Z) : option bytes :=
  out ← compress_loop (length src) maxDst src [];
  if (length src <=? length out)%nat then
    if maxDst <? Z.of_nat (length src) + 1 then None else Some (2 :: src)
  else Some out.

(** The size of the buffer for the output; 0 stands for an error. *)
Fixpoint size_loop (fuel : nat) (srcLen : Z) (s : bytes) (outSize : Z) : Z :=
  match s, fuel with
  | [], _ => outSize
  | _, O => 0
  | bt :: s, S f =>
      if bt =? 0 then
        match s with
        | _ :: cnt :: s' => size_loop f srcLen s' (outSize + cnt)
        | _ => 0
        end
      else if bt =? 1 then
        match s with
        | litLen :: s' =>
            if Z.of_nat (length s') <? litLen then 0
            else size_loop f srcLen (drop (Z.to_nat litLen) s') (outSize + litLen)
        | [] => 0
        end
      else if bt =? 2 then srcLen - 1
      else 0
  end.

Definition rleDecompressSize (src : bytes) : Z :=
  size_loop (length src) (Z.of_nat (length src)) src 0.

(** The result of [rleDecompress]: -1, the output, or a write behind the output buffer. *)
Inductive unpacked := Refused | Unpacked (out : bytes) | Outside.

(** The loop that fills a run: the part already filled is copied behind itself. *)
Fixpoint fill_loop (fuel : nat) (size : nat) (filled : bytes) : bytes :=
  match fuel with
  | O => filled
  | S f =>
      if (length filled <? size)%nat
      then fill_loop f size (filled ++ take (min (length filled) (size - length filled)) filled)
      else filled
  end.

(** The first byte of a run is written before its length is looked at. *)
Fixpoint decompress_loop (fuel : nat) (dstLen : Z) (src s out : bytes) : unpacked :=
  let o := Z.of_nat (length out) in
  let raw := if dstLen <? Z.of_nat (length src) - 1 then Refused else Unpacked (drop 1 src) in
  match s, fuel with
  | [], _ => Unpacked out
  | _, O => Refused
  | bt :: s, S f =>
      if bt =? 0 then
        match s with
        | b :: cnt :: s' =>
            if dstLen <? o + cnt then Refused
            else if dstLen <? o + 1 then Outside
            else decompress_loop f dstLen src s' (out ++ take (Z.to_nat cnt) (fill_loop (Z.to_nat cnt) (Z.to_nat cnt) [b]))
        | _ => Refused
        end
      else if bt =? 1 then
        match s with
        | litLen :: s' =>
            if (Z.of_nat (length s') <? litLen) || (dstLen <? o + litLen) then Refused
            else decompress_loop f dstLen src (drop (Z.to_nat litLen) s') (out ++ take (Z.to_nat litLen) s')
        | [] => Refused
        end
      else if bt =? 2 then raw
      else Refused
  end.

Definition rleDecompress (src : bytes) (dstLen : Z) : unpacked :=
  match src with
  | 2 :: rest => if dstLen <? Z.of_nat (length rest) then Refused else Unpacked rest
  | _ => decompress_loop (length src) dstLen src src []
  end.

(** What the peer makes of a compressed packet, with the buffer it allocates for it. *)
Definition unpack (c : bytes) : unpacked := rleDecompress c (rleDecompressSize c).

Example rle_ex :
  rleCompress (replicate 20 7 ++ [1; 1; 1; 2]) 112 = Some [0; 7; 20; 0; 1; 3; 1; 1; 2]
  ∧ unpack [0; 7; 20; 0; 1; 3; 1; 1; 2] = Unpacked (replicate 20 7 ++ [1; 1; 1; 2])
  ∧ rleCompress [1; 2; 3] 70 = Some [2; 1; 2; 3].
Proof. by vm_compute. Qed.

(** ** What a round does *)

Lemma same_le b l : ∀ k, (same b l k <= k)%nat ∧ take (same b l k) l = replicate (same b l k) b.
Proof.
  induction l as [|x l IH]; intros [|k]; cbn; [split; [lia|done]..|].
  destruct (Z.eqb_spec x b) as [->|]; [|split; [lia|done]]. destruct (IH k) as [H1 H2]. cbn. rewrite H2. split; [lia|done].
Qed.

Lemma literals_le l : ∀ k, (literals l k <= k)%nat ∧ (literals l k <= length l)%nat.
Proof.
  induction l as [|x l IH]; intros [|k]; cbn -[Nat.leb]; try lia.
  destruct (3 <=? _)%nat; [lia|]. specialize (IH k). lia.
Qed.

Lemma same_length b l k : (same b l k <= length l)%nat.
Proof.
  revert k. induction l as [|x l IH]; intros [|k]; cbn; try lia. destruct (x =? b); [|lia]. specialize (IH k). lia.
Qed.

Definition block_bytes (k : block) : bytes := match k with Run b n => replicate n b | Lit d => d end.

(** A block with a length that fits in a byte and is not 0. *)
Definition good (k : block) : Prop :=
  match k with
  | Run b n => is_byte b ∧ (3 <= n <= 255)%nat
  | Lit d => bytes_ok d ∧ (1 <= length d <= 255)%nat
  end.

(** Every round goes on behind the bytes of its block; the bytes in between, if any, are
    never written. *)
Lemma next_block_spec b rest : bytes_ok (b :: rest) →
  good (next_block b rest).1
  ∧ ∃ lost, b :: rest = block_bytes (next_block b rest).1 ++ lost ++ (next_block b rest).2.
Proof.
  intros Hb. unfold next_block. destruct (same_le b rest 254) as [Hle Htake]. pose proof (same_length b rest 254) as Hsl.
  assert (is_byte b) as Hbb by (by inversion Hb).
  set (n := same b rest 254) in *. replace (S n - 1)%nat with n by lia.
  destruct (Nat.leb_spec 3 (S n)) as [H3|H3]; cbn [fst snd good block_bytes].
  - split; [split; [done|lia]|]. exists []. cbn. by rewrite <- Htake, take_drop.
  - destruct (literals_le (drop n rest) 255) as [L1 L2]. rewrite length_drop in L2.
    set (m := literals (drop n rest) 255) in *.
    destruct (Nat.eqb_spec m 0) as [E|E]; cbn [fst snd good block_bytes].
    + split; [split; [by apply Forall_singleton|cbn; lia]|]. by exists [].
    + split; [split; [by apply Forall_take|]|].
      * rewrite length_take. cbn [length]. lia.
      * exists (take (S n) (drop m (b :: rest))).
        change (drop (n + m) rest) with (drop (S (n + m)) (b :: rest)).
        replace (S (n + m))%nat with (m + S n)%nat by lia. rewrite <- drop_drop. by rewrite !take_drop.
Qed.

(** The bytes that [rleCompress] passes over, block by block. *)
Fixpoint skipped (fuel : nat) (l : bytes) : nat :=
  match l, fuel with
  | b :: rest, S f =>
      let '(k, next) := next_block b rest in
      (length l - length (block_bytes k) - length next + skipped f next)%nat
  | _, _ => O
  end.

(** The blocks of an input. *)
Fixpoint blocks (fuel : nat) (l : bytes) : list block :=
  match l, fuel with
  | b :: rest, S f => let '(k, next) := next_block b rest in k :: blocks f next
  | _, _ => []
  end.

Definition kept (fuel : nat) (l : bytes) : bytes := concat (map block_bytes (blocks fuel l)).

Lemma blocks_spec fuel : ∀ l, bytes_ok l → (length l <= fuel)%nat →
  Forall good (blocks fuel l)
  ∧ (length (kept fuel l) + skipped fuel l = length l)%nat
  ∧ (skipped fuel l = 0%nat → kept fuel l = l).
Proof.
  unfold kept. induction fuel as [|f IH]; intros [|b rest] Hb Hl; cbn [length] in Hl; [done|lia|done|].
  cbn [blocks skipped]. destruct (next_block_spec b rest Hb) as (Hg & lost & Hd).
  destruct (next_block b rest) as [k next]. cbn [fst snd] in *.
  assert (length (b :: rest) = length (block_bytes k) + length lost + length next)%nat as Hlen
    by (rewrite Hd, !length_app; lia).
  assert (1 <= length (block_bytes k))%nat.
  { destruct k; cbn in Hg |- *; [rewrite length_replicate|]; lia. }
  cbn [length] in Hlen. destruct (IH next) as (H1 & H2 & H3); [|lia|].
  { rewrite Hd in Hb. by apply Forall_app in Hb as [_ [_ ?]%Forall_app]. }
  cbn [map concat]. rewrite length_app. cbn [length]. split_and!; [by constructor|lia|].
  intros H0. rewrite H3 by lia. rewrite Hd. destruct lost; [done|cbn in Hlen; lia].
Qed.

Lemma compress_blocks fuel M : ∀ l out, (length l <= fuel)%nat → bytes_ok l →
  Z.of_nat (length out + length (concat (map encode_block (blocks fuel l)))) <= M →
  compress_loop fuel M l out = Some (out ++ concat (map encode_block (blocks fuel l))).
Proof.
  induction fuel as [|f IH]; intros [|b rest] out Hl Hb HM; cbn [length] in Hl; try lia; cbn; try by rewrite app_nil_r.
  cbn [blocks] in HM. destruct (next_block_spec b rest Hb) as (Hg & lost & Hd).
  destruct (next_block b rest) as [k next]. cbn [fst snd map concat] in *. rewrite length_app in HM.
  rewrite (proj2 (Z.ltb_ge _ _)) by lia. apply (f_equal length) in Hd as Hlen. rewrite !length_app in Hlen. cbn [length] in Hlen.
  assert (1 <= length (block_bytes k))%nat.
  { destruct k; cbn in Hg |- *; [rewrite length_replicate|]; lia. }
  rewrite IH; [by rewrite <- app_assoc|lia| |rewrite length_app; lia].
  rewrite Hd in Hb. by apply Forall_app in Hb as [_ [_ ?]%Forall_app].
Qed.

(** ** Reading blocks back *)

Lemma fill_exact fuel size b : ∀ j, (1 <= j <= size)%nat → (size <= fuel + j)%nat →
  fill_loop fuel size (replicate j b) = replicate size b.
Proof.
  induction fuel as [|f IH]; intros j Hj Hf; cbn [fill_loop]; [by replace size with j by lia|].
  rewrite length_replicate. destruct (Nat.ltb_spec j size); [|by replace size with j by lia].
  rewrite take_replicate, <- replicate_add. apply IH; lia.
Qed.

Lemma decompress_block f M src k s out : good k → Z.of_nat (length out + length (block_bytes k)) <= M →
  decompress_loop (S f) M src (encode_block k ++ s) out = decompress_loop f M src s (out ++ block_bytes k).
Proof.
  intros Hg HM. destruct k as [b n|d]; cbn [encode_block block_bytes good app decompress_loop Z.eqb] in *.
  - rewrite length_replicate in HM. unfold u8. rewrite Z.mod_small, Nat2Z.id by lia.
    rewrite !(proj2 (Z.ltb_ge _ _)) by lia. change [b] with (replicate 1 b).
    rewrite fill_exact by lia. by rewrite take_replicate, Nat.min_id.
  - unfold u8. rewrite Z.mod_small, Nat2Z.id by lia. rewrite length_app, !(proj2 (Z.ltb_ge _ _)) by lia. cbn [orb].
    by rewrite drop_app_length, take_app_length.
Qed.

Lemma size_block f n k s a : good k →
  size_loop (S f) n (encode_block k ++ s) a = size_loop f n s (a + Z.of_nat (length (block_bytes k))).
Proof.
  intros Hg. destruct k as [b m|d]; cbn [encode_block block_bytes good app size_loop Z.eqb] in *.
  - rewrite length_replicate. unfold u8. by rewrite Z.mod_small by lia.
  - unfold u8. rewrite Z.mod_small, Nat2Z.id by lia. rewrite length_app, (proj2 (Z.ltb_ge _ _)) by lia.
    by rewrite drop_app_length.
Qed.

Lemma decompress_blocks M src ks : ∀ f out, Forall good ks → (length ks <= f)%nat →
  Z.of_nat (length out + length (concat (map block_bytes ks))) <= M →
  decompress_loop f M src (concat (map encode_block ks)) out = Unpacked (out ++ concat (map block_bytes ks)).
Proof.
  induction ks as [|k ks IH]; intros f out Hg Hf HM; [by destruct f; rewrite app_nil_r|].
  apply Forall_cons in Hg as [Hk Hg]. cbn [map concat length] in *. rewrite length_app in HM.
  destruct f as [|f]; [lia|]. rewrite decompress_block by (done || lia).
  rewrite IH; [by rewrite app_assoc|done|lia|rewrite length_app; lia].
Qed.

Lemma size_blocks n ks : ∀ f a, Forall good ks → (length ks <= f)%nat →
  size_loop f n (concat (map encode_block ks)) a = a + Z.of_nat (length (concat (map block_bytes ks))).
Proof.
  induction ks as [|k ks IH]; intros f a Hg Hf; [by destruct f; cbn; rewrite Z.add_0_r|].
  apply Forall_cons in Hg as [Hk Hg]. cbn [map concat length] in *.
  destruct f as [|f]; [lia|]. rewrite size_block, IH, length_app by (done || lia). lia.
Qed.

Lemma encode_length k : (2 <= length (encode_block k))%nat.
Proof. destruct k; cbn; lia. Qed.

Lemma encode_count ks : (length ks <= length (concat (map encode_block ks)))%nat.
Proof.
  induction ks as [|k ks IH]; [done|]. cbn [map concat length]. rewrite length_app.
  pose proof (encode_length k). lia.
Qed.

Lemma unpack_blocks ks : Forall good ks → ks ≠ [] →
  unpack (concat (map encode_block ks)) = Unpacked (concat (map block_bytes ks)).
Proof.
  intros Hg Hne. unfold unpack, rleDecompressSize. rewrite size_blocks by (done || apply encode_count).
  pose proof (decompress_blocks (0 + Z.of_nat (length (concat (map block_bytes ks)))) (concat (map encode_block ks)) ks
                (length (concat (map encode_block ks))) [] Hg (encode_count ks) ltac:(cbn; lia)) as Hd.
  destruct ks as [|[b n|d] ks]; [done|exact Hd..].
Qed.

(** ** The output fits *)

(** A run of three or more begins here, or nothing is left. *)
Definition at_run (l : bytes) : Prop :=
  match l with [] => True | b :: rest => (2 <= same b rest 254)%nat end.

Lemma literals_0 l : literals l 255 = 0%nat ↔ at_run l.
Proof. destruct l as [|b l]; [done|]. cbn -[Nat.leb]. destruct (Nat.leb_spec 3 (S (same b l 254))); split; (done || lia). Qed.

(** One byte in front of a run. *)
Lemma next_single b rest : same b rest 254 = 0%nat → at_run rest → next_block b rest = (Lit [b], rest).
Proof. intros E H%literals_0. unfold next_block. rewrite E. cbn [Nat.leb]. change (drop (1 - 1) rest) with rest. by rewrite H. Qed.

Lemma next_run b rest : at_run (b :: rest) → ∃ n, (3 <= n)%nat
  ∧ next_block b rest = (Run b n, drop (n - 1) rest) ∧ (n - 1 <= length rest)%nat.
Proof.
  cbn [at_run]. intros H. unfold next_block. rewrite (proj2 (Nat.leb_le _ _)) by lia. eexists. split_and!; [|done|]; [lia|].
  pose proof (same_length b rest 254). lia.
Qed.

(** A byte or two in front of a run, or at the end, take three bytes each; everything else
    at most twice its length. *)
Lemma encoded_bound fuel : ∀ l, (length l <= fuel)%nat → bytes_ok l →
  (length (concat (map encode_block (blocks fuel l))) <= 2 * length l + 2)%nat
  ∧ (at_run l → (length (concat (map encode_block (blocks fuel l))) <= 2 * length l)%nat).
Proof.
  induction fuel as [fuel IH] using lt_wf_ind. intros [|b rest] Hl Hb; [by destruct fuel; cbn; lia|].
  destruct fuel as [|f]; cbn [length] in Hl; [lia|]. cbn [length]. apply Forall_cons in Hb as [Hbb Hb].
  assert (at_run (b :: rest) → (length (concat (map encode_block (blocks (S f) (b :: rest)))) <= 2 * S (length rest))%nat) as Hrun.
  { intros (n & Hn & E & Hr)%next_run. cbn [blocks]. rewrite E. cbn [map concat encode_block]. rewrite length_app. cbn [length].
    destruct (IH f ltac:(lia) (drop (n - 1) rest)) as [H1 _]; [rewrite length_drop; lia|by apply Forall_drop|].
    rewrite length_drop in H1. lia. }
  split; [|exact Hrun]. destruct (Nat.leb_spec 2 (same b rest 254)) as [H|H]; [apply Hrun in H; lia|]. clear Hrun.
  cbn [blocks]. unfold next_block. pose proof (same_length b rest 254) as Hsl.
  set (n := same b rest 254) in *. rewrite (proj2 (Nat.leb_gt _ _)) by lia. replace (S n - 1)%nat with n by lia.
  destruct (literals_le (drop n rest) 255) as [L1 L2]. rewrite length_drop in L2.
  destruct (Nat.eqb_spec (literals (drop n rest) 255) 0) as [E|E].
  2: { set (m := literals _ _) in *. cbn [map concat encode_block]. rewrite length_app. cbn [length].
       destruct (IH f ltac:(lia) (drop (n + m) rest)) as [H1 _]; [rewrite length_drop; lia|by apply Forall_drop|].
       rewrite length_drop in H1. rewrite length_take. cbn [length]. lia. }
  apply literals_0 in E. cbn [map concat encode_block length app].
  destruct n as [|[|]] eqn:En; [| |lia].
  { destruct (IH f ltac:(lia) rest) as [_ H2]; [lia|done|]. specialize (H2 E). lia. }
  destruct rest as [|b' rest]; [done|]. cbn [drop] in E. cbn [length] in *. destruct f as [|f]; [lia|].
  apply Forall_cons in Hb as [Hb' Hb]. subst n. cbn [same] in En. destruct (Z.eqb_spec b' b) as [->|]; [|done].
  cbn [blocks]. rewrite next_single; [|destruct rest as [|c rest]; [done|]; cbn in En |- *; by destruct (c =? b)|done].
  destruct (IH f ltac:(lia) rest) as [_ H2]; [lia|done|]. specialize (H2 E). cbn [map concat encode_block length app]. lia.
Qed.

(** [srcLen * 2 + 64] in [csize_t], the size of the buffer that [process] allocates. *)
Definition max_out (n : nat) : Z := u64 (Z.of_nat n * 2 + 64).

(** [C23] Run-length encoding gives a packet back exactly when it passed over none of its
    bytes. Every packet is compressed: the buffer is large enough and the result is at most
    one byte longer than the packet. The peer can unpack it, within the buffer it allocates.
    What it gets is the packet if the packet was sent as it is or if no bytes lie between
    the blocks; in every other case it gets a shorter packet. *)
Theorem rle_roundtrip_iff (d : bytes) (Hne : d ≠ []) (Hb : bytes_ok d) (Hlen : Z.of_nat (length d) < 2 ^ 62) :
  ∃ c out, rleCompress d (max_out (length d)) = Some c ∧ c ≠ [] ∧ (length c <= S (length d))%nat
    ∧ unpack c = Unpacked out
    ∧ (out = d ↔ head c = Some 2 ∨ skipped (length d) d = 0%nat)
    ∧ (out ≠ d → (length out < length d)%nat).
Proof.
  unfold rleCompress, max_out, u64. rewrite Z.mod_small by lia.
  destruct (encoded_bound (length d) d) as [Hbound _]; [done..|].
  destruct (blocks_spec (length d) d) as (Hg & Hk & Hz); [done..|].
  rewrite compress_blocks by (cbn; done || lia). cbn [mbind option_bind app].
  set (e := concat (map encode_block (blocks (length d) d))) in *.
  destruct (Nat.leb_spec (length d) (length e)) as [Hraw|Hgain].
  - rewrite (proj2 (Z.ltb_ge _ _)) by lia. exists (2 :: d), d. split_and!; try done.
    + unfold unpack, rleDecompressSize. destruct d as [|b d]; [done|]. cbn [length size_loop Z.eqb Pos.eqb rleDecompress].
      by rewrite (proj2 (Z.ltb_ge _ _)) by (cbn [length]; lia).
    + split; [by left|done].
  - assert (blocks (length d) d ≠ []) as Hbne.
    { destruct d as [|b d]; [done|]. cbn [length blocks]. by destruct (next_block b d). }
    exists e, (kept (length d) d). split_and!; [done| |lia|by apply unpack_blocks| |].
    + subst e. destruct (blocks (length d) d) as [|[] ]; done.
    + assert (head e ≠ Some 2) as Hh by (subst e; destruct (blocks (length d) d) as [|[] ]; done). split.
      * intros E. right. rewrite E in Hk. lia.
      * intros [?|?]; [done|by apply Hz].
    + intros Hd. destruct (decide (skipped (length d) d = 0%nat)) as [E|]; [by apply Hz in E|lia].
Qed.

Lemma rle_roundtrip_iff_witness :
  ∃ c out, rleCompress (replicate 9 1 ++ [2]) (max_out 10) = Some c ∧ unpack c = Unpacked out
    ∧ out = replicate 9 1 ++ [2].
Proof.
  destruct (rle_roundtrip_iff (replicate 9 1 ++ [2])) as (c & out & Hc & _ & _ & Ho & Hiff & _).
  - done.
  - repeat apply Forall_cons_2; done || (unfold is_byte; lia).
  - reflexivity.
  - exists c, out. split_and!; [exact Hc|exact Ho|]. apply Hiff. right. vm_compute. reflexivity.
Defined.

(** Two different bytes in front of a run are enough: the second is lost. *)
Definition text_with_spaces : bytes := lit "ab          ".

Theorem rle_loses_bytes :
  rleCompress text_with_spaces (max_out 12) = Some (1 :: 1 :: lit "a" ++ [0; 32; 10])
  ∧ unpack (1 :: 1 :: lit "a" ++ [0; 32; 10]) = Unpacked (lit "a          ").
Proof. by vm_compute. Qed.

(** ** Packets of a peer *)

(** No run in the blocks of [s] is empty. *)
Fixpoint no_empty_run (fuel : nat) (s : bytes) : bool :=
  match s, fuel with
  | bt :: s, S f =>
      if bt =? 0 then match s with _ :: cnt :: s' => (0 <? cnt) && no_empty_run f s' | _ => true end
      else if bt =? 1 then match s with n :: s' => no_empty_run f (drop (Z.to_nat n) s') | [] => true end
      else true
  | _, _ => true
  end.

Lemma decompress_inside fuel M src : ∀ s out, bytes_ok s → no_empty_run fuel s = true →
  decompress_loop fuel M src s out ≠ Outside.
Proof.
  induction fuel as [|f IH]; intros [|bt s] out Hs Hr; try done. apply Forall_cons in Hs as [_ Hs].
  cbn [decompress_loop no_empty_run] in *. destruct (bt =? 0); [|destruct (bt =? 1)].
  - destruct s as [|b [|cnt s]]; [done..|]. apply andb_prop in Hr as [Hc%Z.ltb_lt Hr].
    destruct (Z.ltb_spec M (Z.of_nat (length out) + cnt)); [done|].
    rewrite (proj2 (Z.ltb_ge _ _)) by lia. apply IH; [|done]. by do 2 apply Forall_cons in Hs as [_ Hs].
  - destruct s as [|n s]; [done|]. destruct (_ || _); [done|]. apply IH; [|done]. apply Forall_cons in Hs as [_ Hs].
    by apply Forall_drop.
  - destruct (bt =? 2); [|done]. by destruct (_ <? _).
Qed.

(** A packet of the peer, whatever it contains, is unpacked within the buffer allocated
    for it, unless one of its runs has the length 0. *)
Theorem rle_unpack_inside (c : bytes) (Hc : bytes_ok c) (Hr : no_empty_run (length c) c = true) :
  unpack c ≠ Outside.
Proof.
  unfold unpack, rleDecompress. repeat case_match; try done; subst; by apply decompress_inside.
Qed.

Lemma rle_unpack_inside_witness : unpack [1; 1; 65; 0; 66; 200; 3] ≠ Outside.
Proof.
  apply (rle_unpack_inside [1; 1; 65; 0; 66; 200; 3]); [|reflexivity].
  repeat apply Forall_cons_2; done || (unfold is_byte; lia).
Defined.

(** Six bytes of the peer make [rleDecompress] write a byte behind a buffer of one byte: the
    first byte of a run is written whether or not the run is empty. *)
Theorem empty_run_writes_outside :
  rleDecompressSize [1; 1; 65; 0; 66; 0] = 1 ∧ unpack [1; 1; 65; 0; 66; 0] = Outside.
Proof. by vm_compute. Qed.

(** ** The module *)

Inductive Algo := Rle | Zstd | Snappy | Gzip | Lz4 | Brotli | Lzo | Lzma.

Record CompressCtx := mkCtx { algo : Algo; level : Z; trace : bool; node_id : Z }.

(** The name in front of the first colon or comma, and what follows it. *)
Fixpoint alg_name (c : bytes) : bytes * bytes :=
  match c with
  | [] => ([], [])
  | x :: c' => if (x =? 58) || (x =? 44) then ([], c) else let '(n, r) := alg_name c' in (x :: n, r)
  end.

Definition algo_of (n : bytes) : Algo :=
  let named s := bool_decide (n = lit s) in
  if named "rle" then Rle else if named "zstd" then Zstd else if named "snappy" then Snappy
  else if named "gzip" then Gzip else if named "lz4" then Lz4 else if named "brotli" then Brotli
  else if named "lzo" then Lzo else if named "lzma" then Lzma else Rle.

(** The algorithm, the level (3 if none is given) and whether to trace. *)
Definition parseConfig (config : bytes) : Algo * Z * bool :=
  match c_str config with
  | [] => (Rle, 3, false)
  | cfg =>
      let '(n, rest) := alg_name cfg in
      (algo_of n, match rest with 58 :: lv => atoi lv | _ => 3 end,
       bool_decide (is_Some (strstr (lit "trace") cfg)))
  end.

Section module.
(** Whether the library of an algorithm can be loaded, what [process] does with it, and
    whether the chain has the memory the module asks for. *)
Context (loads : Algo → bool).
Context (library : CompressCtx → Z → bytes * Z → list Chain.mod_ev * Chain.mod_ret).
Context (mallocs : Z → bool).

Definition compress_init (node : Z) (config : bytes) : option CompressCtx :=
  let '(a, lv, t) := parseConfig config in
  if match a with Rle => true | _ => loads a end then Some (mkCtx a lv t node) else None.

(** The packet [out], in a buffer of [cap] bytes, takes the place of the one given. *)
Definition pass_on (dst a cap : Z) (out : bytes) : list Chain.mod_ev * Chain.mod_ret :=
  if (length out =? 0)%nat || (2147483647 <? Z.of_nat (length out))
  then ([Chain.MMalloc cap; Chain.MFree cap], Chain.RetConst (-1))
  else ([Chain.MMalloc cap; Chain.MFree a; Chain.MWrite dst out cap], Chain.RetLastWrite).

(** [None]: memory outside a buffer is written. *)
Definition compress_process (x : CompressCtx) (dir trigger_idx : Z) (data : option (bytes * Z))
    : option (list Chain.mod_ev * Chain.mod_ret) :=
  if (dir <? 0) || (1 <? dir) then Some ([], Chain.RetConst 0) else
  match data with
  | None | Some ([], _) => Some ([], Chain.RetConst (-1))
  | Some (d, a) =>
      match algo x with
      | Rle =>
          if dir =? 0 then
            let cap := max_out (length d) in
            if negb (mallocs cap) then Some ([], Chain.RetConst (-1)) else
            match rleCompress d cap with
            | None => Some ([Chain.MMalloc cap; Chain.MFree cap], Chain.RetConst (-1))
            | Some out => Some (pass_on 1 a cap out)
            end
          else
            let cap := rleDecompressSize d in
            if cap =? 0 then Some ([], Chain.RetConst (-1))
            else if negb (mallocs cap) then Some ([], Chain.RetConst (-1)) else
            match rleDecompress d cap with
            | Refused => Some ([Chain.MMalloc cap; Chain.MFree cap], Chain.RetConst (-1))
            | Unpacked out => Some (pass_on 0 a cap out)
            | Outside => None
            end
      | _ => Some (library x dir (d, a))
      end
  end.
End module.

(** ** In a chain, beside the copy module *)

Definition s_compress : bytes := lit "compress".

(** The state of a module instance of a chain with both modules. *)
Definition init (spec : ModuleSpec) : option ((Copy.ctx + CompressCtx) * list Chain.init_ev) :=
  if bool_decide (name spec = s_compress)
  then x ← compress_init (λ _, false) 0 (params spec); Some (inr x, [])
  else '(x, evs) ← Copy.init spec; Some (inl x, evs).

(** Nothing is said about a packet that makes the module write outside its buffer. *)
Definition chain_process (nm : bytes) (x : Copy.ctx + CompressCtx) (dir src : Z) (data : option (bytes * Z))
    : (Copy.ctx + CompressCtx) * list Chain.mod_ev * Chain.mod_ret :=
  match x with
  | inl x => let '(x', evs, r) := Copy.process nm x dir src data in (inl x', evs, r)
  | inr x =>
      let '(evs, r) := default ([], Chain.RetConst 0)
                         (compress_process (λ _ _ _, ([], Chain.RetConst (-1))) (λ _, true) x dir src data) in
      (inr x, evs, r)
  end.

(** An endpoint with the chain of a configuration text: the packets that leave it towards
    [dst] when [ds] enter it in the direction [dir] and the worker has done [n] tasks. *)
Definition endpoint (text : bytes) (dir dst : Z) (ds : list bytes) (n : nat) : list bytes :=
  let c := Chain.chain_new init 0 (Config.modules (Config.parse_chain text)) in
  let c := foldl (λ c d, Chain.push_packet (Z.of_nat (length d)) d 1 dir c) c ds in
  let c := Nat.iter n (Chain.work chain_process (λ _ _, 0) (λ _ _, true) 0) c in
  map snd (List.filter (λ e, e.1 =? dst) (Chain.exits c)).

(** A tunnel with the compress module as it is configured by default does not deliver: of a
    text with spaces in it the peer's application gets less than was sent. *)
Theorem compress_tunnel_corrupts :
  let text := lit "host:80,pw;compress" in
  let wire := endpoint text 0 1 [text_with_spaces] 3 in
  wire = [1 :: 1 :: lit "a" ++ [0; 32; 10] ] ∧ endpoint text 1 0 wire 3 = [lit "a          "].
Proof. by vm_compute. Qed.

(** The configurations of the help text. *)
Example compress_parse_ex :
  parseConfig (lit "zstd:19,trace") = (Zstd, 19, true) ∧ parseConfig [] = (Rle, 3, false)
  ∧ parseConfig (lit "lzma") = (Lzma, 3, false) ∧ parseConfig (lit "zip:9") = (Rle, 9, false).
Proof. by vm_compute. Qed.

End Compress.
