(* ===== verification/Crypto.v ===== *)
(** * The [crypto] module (modules/crypto/src/lib.rs)

    It encrypts packets on their way to the wire and decrypts them on their way back. The
    ciphers, SHA-256 and the generator of the system are parameters; what the module relies
    on are the laws of [Ciphers]. *)

From S2P Require Import Prelude Text ChainApi Chain ChainGraph Buffers.
Local Open Scope Z_scope.

Module Crypto.
Import Chain.

Inductive Algorithm := ChaCha20Poly1305 | XChaCha20Poly1305 | Aes256Gcm | Aes256Ctr.

#[export] Instance algorithm_eq_dec : EqDecision Algorithm.
Proof. solve_decision. Defined.

(** [draws]: how often [OsRng] has been asked. *)
Record CryptoCtx := mkCtx { key : bytes; algo : Algorithm; trace : bool; draws : nat }.

(** ** Configuration *)

(** [CStr::to_str]: well-formed UTF-8. *)
Definition within (lo hi b : Z) : bool := (lo <=? b) && (b <=? hi).
Definition cont : Z → bool := within 128 191.
Fixpoint utf8 (l : bytes) : bool :=
  match l with
  | [] => true
  | b :: r =>
      if b <? 128 then utf8 r
      else if within 194 223 b then match r with c1 :: r => cont c1 && utf8 r | [] => false end
      else if within 224 239 b then
        match r with
        | c1 :: c2 :: r =>
            (if b =? 224 then within 160 191 c1 else if b =? 237 then within 128 159 c1 else cont c1)
            && cont c2 && utf8 r
        | _ => false
        end
      else if within 240 244 b then
        match r with
        | c1 :: c2 :: c3 :: r =>
            (if b =? 240 then within 144 191 c1 else if b =? 244 then within 128 143 c1 else cont c1)
            && cont c2 && cont c3 && utf8 r
        | _ => false
        end
      else false
  end.

Definition algorithm_of (v : bytes) : option Algorithm :=
  if bool_decide (v = lit "chacha20-poly1305") then Some ChaCha20Poly1305
  else if bool_decide (v = lit "xchacha20-poly1305") then Some XChaCha20Poly1305
  else if bool_decide (v = lit "aes-256-gcm") then Some Aes256Gcm
  else if bool_decide (v = lit "aes-256-ctr") then Some Aes256Ctr
  else None.

Definition nonce_size (a : Algorithm) : nat :=
  match a with ChaCha20Poly1305 => 12 | XChaCha20Poly1305 => 24 | Aes256Gcm => 12 | Aes256Ctr => 16 end.
Definition tag_size (a : Algorithm) : nat := match a with Aes256Ctr => 0 | _ => 16 end.

Section module.
Context (sha256 : bytes → bytes).
(** [encrypt] and [decrypt] of an authenticating cipher: algorithm, key, nonce, text. *)
Context (seal open_ : Algorithm → bytes → bytes → bytes → option bytes).
(** AES in counter mode: key, counter, text. *)
Context (keystream : bytes → bytes → bytes → bytes).
(** The k-th answer of [OsRng] to a request for so many bytes; whether malloc succeeds. *)
Context (os_rng : nat → nat → bytes) (mallocs : Z → bool).

(** What the tokens read so far say: the algorithm if there is one, the key, tracing. *)
Definition parse_token (st : option (option Algorithm * bytes * bool)) (token : bytes)
    : option (option Algorithm * bytes * bool) :=
  '(al, k, tr) ← st;
  if bool_decide (token = lit "trace") then Some (al, k, true) else
  match find 58 token 0 with
  | None => Some (al, k, tr)
  | Some pos =>
      let name := take pos token in
      let v := drop (S pos) token in
      if bool_decide (name = lit "algo") then a ← algorithm_of v; Some (Some a, k, tr)
      else if bool_decide (name = lit "key") then Some (al, sha256 v, tr)
      else Some (al, k, tr)
  end.

Definition parse_config (config : bytes) : option (Algorithm * bytes * bool) :=
  '(al, k, tr) ← foldl parse_token (Some (None, replicate 32 0, false)) (split_on 44 config);
  Some (default ChaCha20Poly1305 al, k, tr).

Definition crypto_init (config : bytes) : option CryptoCtx :=
  let cfg := c_str config in
  if negb (utf8 cfg) then None else
  '(a, k, tr) ← parse_config cfg; Some (mkCtx k a tr 0).

(** ** Packets *)

Definition encrypt (x : CryptoCtx) (d : bytes) : CryptoCtx * list mod_ev * mod_ret :=
  let nlen := nonce_size (algo x) in
  let total := Z.of_nat (nlen + length d + tag_size (algo x)) in
  if negb (mallocs total) then (x, [], RetConst (-1)) else
  let nonce := os_rng (draws x) nlen in
  let x' := mkCtx (key x) (algo x) (trace x) (S (draws x)) in
  let body := match algo x with Aes256Ctr => Some (keystream (key x) nonce d) | a => seal a (key x) nonce d end in
  match body with
  | None => (x', [MMalloc total; MFree total], RetConst (-1))
  | Some ct => (x', [MMalloc total; MWrite 1 (nonce ++ ct) total], RetLastWrite)
  end.

Definition decrypt (x : CryptoCtx) (d : bytes) : CryptoCtx * list mod_ev * mod_ret :=
  let nlen := nonce_size (algo x) in
  let body := drop nlen d in
  if (length body <? tag_size (algo x))%nat then (x, [], RetConst (-1)) else
  let plain_len := Z.of_nat (length body - tag_size (algo x)) in
  if negb (mallocs plain_len) then (x, [], RetConst (-1)) else
  let nonce := take nlen d in
  let plain := match algo x with Aes256Ctr => Some (keystream (key x) nonce body) | a => open_ a (key x) nonce body end in
  match plain with
  | None => (x, [MMalloc plain_len; MFree plain_len], RetConst (-1))
  | Some p => (x, [MMalloc plain_len; MWrite 0 p plain_len], RetLastWrite)
  end.

Definition crypto_process (x : CryptoCtx) (dir trigger_idx : Z) (data : option (bytes * Z))
    : CryptoCtx * list mod_ev * mod_ret :=
  match data with
  | None => (x, [], RetConst (-1))
  | Some (d, a) =>
      if dir <? 0 then (x, [], RetConst 0)
      else if (dir =? 1) && (length d <? nonce_size (algo x) + tag_size (algo x))%nat
      then (x, [MFree a], RetConst (-1))
      else
        let '(x', evs, r) := if dir =? 0 then encrypt x d else decrypt x d in
        (x', evs ++ [MFree a], r)
  end.

(** The module as the chain sees it. *)
Definition init (spec : ModuleSpec) : option (CryptoCtx * list init_ev) :=
  x ← crypto_init (params spec); Some (x, []).
Definition process (nm : bytes) (x : CryptoCtx) (dir src : Z) (data : option (bytes * Z)) := crypto_process x dir src data.

End module.

(** ** What the libraries promise *)

Class Ciphers (seal open_ : Algorithm → bytes → bytes → bytes → option bytes)
    (keystream : bytes → bytes → bytes → bytes) (os_rng : nat → nat → bytes) : Prop := {
  open_seal a k n d c : seal a k n d = Some c → open_ a k n c = Some d;
  seal_length a k n d c : seal a k n d = Some c → length c = (length d + 16)%nat;
  keystream_twice k n d : keystream k n (keystream k n d) = d;
  keystream_length k n d : length (keystream k n d) = length d;
  os_rng_length k n : length (os_rng k n) = n
}.

Section laws.
Context (seal open_ : Algorithm → bytes → bytes → bytes → option bytes).
Context (keystream : bytes → bytes → bytes → bytes) (os_rng : nat → nat → bytes).
Context {Hlib : Ciphers seal open_ keystream os_rng}.
#[local] Abbreviation crypto := (crypto_process seal open_ keystream os_rng).

(** The cipher takes every packet (the authenticating ones refuse texts of many GB). *)
Definition takes (x : CryptoCtx) (d : bytes) : Prop :=
  match algo x with Aes256Ctr => True | a => ∀ n, is_Some (seal a (key x) n d) end.

(** [C21] A packet encrypted by one endpoint is decrypted by the other: with the same key and
    algorithm, whatever nonce is drawn, the packet on the wire is longer by nonce and tag,
    fills the buffer allocated for it, and the peer passes on exactly the packet, in a
    buffer of exactly its size. *)
Theorem crypto_roundtrip (x y : CryptoCtx) (d : bytes) (a a' src src' : Z)
    (Hkey : key y = key x) (Halgo : algo y = algo x) (Htakes : takes x d) :
  ∃ x' c, crypto (λ _, true) x 0 src (Some (d, a))
      = (x', [MMalloc (Z.of_nat (length c)); MWrite 1 c (Z.of_nat (length c)); MFree a], RetLastWrite)
    ∧ length c = (nonce_size (algo x) + length d + tag_size (algo x))%nat
    ∧ crypto (λ _, true) y 1 src' (Some (c, a'))
      = (y, [MMalloc (Z.of_nat (length d)); MWrite 0 d (Z.of_nat (length d)); MFree a'], RetLastWrite).
Proof.
  set (nonce := os_rng (draws x) (nonce_size (algo x))).
  assert (length nonce = nonce_size (algo x)) as Hn by apply os_rng_length.
  assert (∃ ct, match algo x with Aes256Ctr => Some (keystream (key x) nonce d) | a => seal a (key x) nonce d end = Some ct
            ∧ length ct = (length d + tag_size (algo x))%nat
            ∧ match algo x with Aes256Ctr => Some (keystream (key x) nonce ct) | a => open_ a (key x) nonce ct end = Some d)
    as (ct & Hct & Hlen & Hopen).
  { unfold takes in Htakes. clearbody nonce.
    destruct (algo x); [destruct (Htakes nonce) as [ct Hct]; exists ct..|exists (keystream (key x) nonce d)]; cbn [tag_size].
    1-3: split_and!; [done|by eapply seal_length|by eapply open_seal].
    split_and!; [done|rewrite keystream_length; lia|by rewrite keystream_twice]. }
  assert (length (nonce ++ ct) = nonce_size (algo x) + length d + tag_size (algo x))%nat as Hc by (rewrite length_app; lia).
  eexists _, (nonce ++ ct). split_and!; [|done|].
  - unfold crypto_process, encrypt. cbn [Z.ltb Z.eqb Z.compare andb negb]. fold nonce. rewrite Hct, Hc. done.
  - unfold crypto_process, decrypt. cbn [Z.ltb Z.eqb Z.compare Pos.eqb andb negb]. rewrite Hkey, Halgo.
    rewrite (proj2 (Nat.ltb_ge _ _)) by lia.
    replace (drop (nonce_size (algo x)) (nonce ++ ct)) with ct by (by rewrite <- Hn, drop_app_length).
    replace (take (nonce_size (algo x)) (nonce ++ ct)) with nonce by (by rewrite <- Hn, take_app_length).
    rewrite (proj2 (Nat.ltb_ge _ _)) by lia. rewrite Hopen, Hlen.
    by replace (length d + tag_size (algo x) - tag_size (algo x))%nat with (length d) by lia.
Qed.

End laws.

(** ** Packets the module refuses *)

Section refusals.
Context (sha256 : bytes → bytes).
Context (seal open_ : Algorithm → bytes → bytes → bytes → option bytes).
Context (keystream : bytes → bytes → bytes → bytes) (os_rng : nat → nat → bytes).
#[local] Abbreviation process := (Crypto.process seal open_ keystream os_rng (λ _, true)).

(** Too short for nonce and tag, or not sealed with the key. *)
Definition bad (x : CryptoCtx) (d : bytes) : Prop :=
  (length d < nonce_size (algo x) + tag_size (algo x))%nat
  ∨ algo x ≠ Aes256Ctr ∧ open_ (algo x) (key x) (take (nonce_size (algo x)) d) (drop (nonce_size (algo x)) d) = None.

(** Such a packet is given back by the module, and refused. *)
Lemma bad_calls nm x src d a : bad x d →
  ∃ evs, process nm x 1 src (Some (d, a)) = (x, evs ++ [MFree a], RetConst (-1))
    ∧ (evs = [] ∨ ∃ n, evs = [MMalloc n; MFree n]).
Proof.
  intros Hbad. unfold Crypto.process, crypto_process, decrypt. cbn [Z.ltb Z.eqb Z.compare Pos.eqb andb negb].
  destruct (Nat.ltb_spec (length d) (nonce_size (algo x) + tag_size (algo x))); [by exists []; auto|].
  destruct Hbad as [|[Hctr Hopen]]; [lia|]. rewrite length_drop, (proj2 (Nat.ltb_ge _ _)) by lia.
  set (n := Z.of_nat _). exists [MMalloc n; MFree n]. split; [|right; by exists n]. clearbody n.
  revert Hctr Hopen. destruct (algo x); [intros _ ->..|done]; done.
Qed.

(** Both the module and the chain give the buffer of a refused packet back. Any bytes that a
    peer, or anyone who can write to the connection, sends in place of an encrypted packet
    make the endpoint free a buffer twice and count it twice. *)
Theorem refusal_frees_twice (wire_ret : Z → bytes → Z) (now : Z) (t : task) (c : Chain.Chain) (md : Module)
    (Hmd : modules c !! t_mod t = Some md) (Hrun : cancelled c = false) (Hdir : t_dir t = 1)
    (Hbad : bad (ctx md) (t_data t)) :
  bytes_allocated (run_task process wire_ret (λ _ _, true) now t c) = bytes_allocated c - 2 * t_asize t.
Proof.
  unfold run_task. rewrite Hrun, Hmd, Hdir.
  destruct (bad_calls (mod_name md) (ctx md) (t_src t) (t_data t) (t_asize t) Hbad) as (evs & -> & Hevs).
  destruct Hevs as [-> |(n & ->)]; destruct c; cbn; lia.
Qed.

(** So the module is not tidy, whatever is taken to be kept in its state. *)
Theorem crypto_not_tidy (ok : CryptoCtx → Prop) (held : CryptoCtx → Z) :
  ¬ Buffers.Tidy (init sha256) process ok held (λ _ _ _, True).
Proof.
  intros Ht. set (x := mkCtx (replicate 32 0) ChaCha20Poly1305 false 0).
  destruct (Buffers.tidy_init (Tidy := Ht) (mkSpec (lit "crypto") []) x []) as [Hok _]; [done|].
  assert (Buffers.filled [1] 1 ∧ Buffers.small [1]) as [Hf Hs] by (by split; [left|]).
  pose proof (Buffers.tidy_packet (Tidy := Ht) [] x 1 0 [1] 1 Hok (or_intror eq_refl) Hf Hs I) as Hp.
  destruct Hp as (_ & _ & Hp). cbn in Hp. lia.
Qed.

End refusals.

(** ** Examples *)

(** A cipher that is not one: the tag is sixteen zeros. *)
Definition toy_seal (a : Algorithm) (k n d : bytes) : option bytes := Some (d ++ replicate 16 0).
Definition toy_open (a : Algorithm) (k n c : bytes) : option bytes :=
  let p := take (length c - 16) c in if bool_decide (p ++ replicate 16 0 = c) then Some p else None.
Definition toy_keystream (k n d : bytes) : bytes := map (λ b, Z.lxor b 85) d.

#[export] Instance toy : Ciphers toy_seal toy_open toy_keystream (λ _ n, replicate n 7).
Proof.
  split.
  - intros a k n d c [= <-]. unfold toy_open. rewrite length_app. cbn [length replicate].
    replace (length d + 16 - 16)%nat with (length d) by lia. rewrite take_app_length. by rewrite bool_decide_true.
  - intros a k n d c [= <-]. by rewrite length_app.
  - intros k n d. unfold toy_keystream. rewrite map_map. etransitivity; [|apply map_id]. apply map_ext. intros b.
    by rewrite Z.lxor_assoc, Z.lxor_nilpotent, Z.lxor_0_r.
  - intros k n d. apply length_map.
  - intros k n. apply length_replicate.
Qed.

Definition toy_ctx (draws : nat) : CryptoCtx := mkCtx [] Aes256Gcm false draws.

Lemma crypto_roundtrip_witness :
  ∃ x' c, crypto_process toy_seal toy_open toy_keystream (λ _ n, replicate n 7) (λ _, true) (toy_ctx 4) 0 0 (Some ([1; 2; 3], 9))
      = (x', [MMalloc 31; MWrite 1 c 31; MFree 9], RetLastWrite) ∧ length c = 31%nat.
Proof.
  destruct (crypto_roundtrip toy_seal toy_open toy_keystream (λ _ n, replicate n 7) (toy_ctx 4) (toy_ctx 0) [1; 2; 3] 9 9 0 0
              eq_refl eq_refl) as (x' & c & Hx & Hc & _).
  - intros n. by eexists.
  - exists x', c. split; [|exact Hc]. rewrite Hx, Hc. reflexivity.
Defined.

(** One byte in place of a packet: the count of allocated bytes goes below zero. *)
Definition toy_md : Module := mkMod (lit "crypto") 0 [None; None] 1 0 (toy_ctx 0) 0 0.
Definition toy_chain : Chain.Chain := fresh [toy_md] true [None; Some 0%nat].

Lemma refusal_frees_twice_witness :
  bytes_allocated (run_task (Crypto.process toy_seal toy_open toy_keystream (λ _ n, replicate n 7) (λ _, true))
                     (λ _ _, 0) (λ _ _, true) 5 (mkTask 0 [1] 100 1 1) toy_chain) = -200.
Proof.
  apply (refusal_frees_twice toy_seal toy_open toy_keystream (λ _ n, replicate n 7) (λ _ _, 0) 5
           (mkTask 0 [1] 100 1 1) toy_chain toy_md); [done|done|done|].
  left. cbn. lia.
Defined.

(** Without a key in its configuration the module starts all the same, with the key of
    zeros that everybody knows. *)
Theorem no_key_is_zero_key sha256 :
  crypto_init sha256 (lit "algo:aes-256-gcm") = Some (mkCtx (replicate 32 0) Aes256Gcm false 0)
  ∧ crypto_init sha256 (lit "algo:rot13,key:x") = None ∧ crypto_init sha256 [255] = None
  ∧ crypto_init sha256 (lit "key:a,trace,key:b") = Some (mkCtx (sha256 (lit "b")) ChaCha20Poly1305 true 0).
Proof. by vm_compute. Qed.

End Crypto.
