(* ===== verification/Limit.v ===== *)
(** * The [limit] module (modules/limit/limit.zig)

    A rate limiter with a bucket of tokens for each direction: a packet for which there are
    not enough tokens waits, and heartbeats send the packets that wait. Tokens are 64-bit
    floating-point numbers, computed here as IEEE 754 prescribes. *)

From Stdlib Require Import SpecFloat.
From coqutil Require Import Datatypes.RecordSetters.
From S2P Require Import Prelude Text ChainApi Chain ChainGraph Buffers.
Import DoubleBraceUpdate.
Local Open Scope Z_scope.

Module Limit.
Import Chain.

Definition MAX_PENDING : nat := 100.
Definition MAX_PACKET : Z := 131072.

(** ** Numbers of type [f64] *)

Abbreviation f64 := spec_float.
Definition float (z : Z) : f64 := binary_normalize 53 1024 z 0 false.
Definition fadd : f64 → f64 → f64 := SFadd 53 1024.
Definition fsub : f64 → f64 → f64 := SFsub 53 1024.
Definition fmul : f64 → f64 → f64 := SFmul 53 1024.
Definition fdiv : f64 → f64 → f64 := SFdiv 53 1024.

(** ** The bucket *)

Record TokenBucket := mkBucket { rate_bps : Z; burst : f64; tokens : f64; last_ns : Z }.

Definition new_bucket (rate burst_bytes now : Z) : TokenBucket :=
  mkBucket rate (float burst_bytes) (float burst_bytes) now.

Definition refill (now : Z) (b : TokenBucket) : TokenBucket :=
  let elapsed_ns := now - last_ns b in
  if elapsed_ns <=? 0 then b else
  let rate_per_ns := fdiv (fdiv (float (rate_bps b)) (float 8)) (float 1000000000) in
  b{{tokens ::= λ t, fadd t (fmul rate_per_ns (float elapsed_ns)); last_ns := now}}.

Definition try_consume (now n : Z) (b : TokenBucket) : bool * TokenBucket :=
  let b := refill now b in
  let needed := float n in
  if SFleb needed (tokens b) then (true, b{{tokens ::= λ t, fsub t needed}}) else (false, b).

(** ** The context *)

(** A packet that waits: its bytes, the size of its buffer, where it came from. *)
Record PendingPacket := mkPending { p_data : bytes; p_asize : Z; p_src : Z }.

(** [reads] counts how often the clock has been read. *)
Record LimitCtx := mkCtx {
  node_id : Z;
  trace : bool;
  buckets : TokenBucket * TokenBucket;
  dir_mask : Z;
  pending : list PendingPacket * list PendingPacket;
  have_heartbeat : bool;
  reads : nat
}.

(** [buckets[udir]], [pending[udir]]; [side] is [false] for direction 0. *)
Definition get {A} (side : bool) (p : A * A) : A := if side then p.2 else p.1.
Definition put {A} (side : bool) (a : A) (p : A * A) : A * A := if side then (p.1, a) else (a, p.2).
Definition dir_bit (side : bool) : Z := if side then 2 else 1.
Definition limited (side : bool) (x : LimitCtx) : bool := negb (Z.land (dir_bit side) (dir_mask x) =? 0).
Definition write_dst (side : bool) : Z := if side then 0 else 1.

Section module.
(** What the clock shows, reading by reading, in nanoseconds; whether a list of so many
    packets can be made longer. *)
Context (clock : nat → Z) (grows : nat → bool).

Definition take_tokens (side : bool) (n : Z) (x : LimitCtx) : bool * LimitCtx :=
  let '(ok, b) := try_consume (clock (reads x)) n (get side (buckets x)) in
  (ok, x{{buckets ::= put side b; reads ::= S}}).

(** The loop of [drain_dir] on the packets [ps] that wait. *)
Fixpoint drain_loop (side : bool) (ps : list PendingPacket) (x : LimitCtx) : LimitCtx * list mod_ev :=
  match ps with
  | [] => (x{{pending ::= put side [] }}, [])
  | p :: rest =>
      let '(ok, x) := take_tokens side (Z.of_nat (length (p_data p))) x in
      if (ok : bool) then
        let '(x, evs) := drain_loop side rest x in
        (x, MSetSrc (p_src p) :: MWrite (write_dst side) (p_data p) (p_asize p) :: evs)
      else (x{{pending ::= put side ps}}, [])
  end.

Definition drain_dir (side : bool) (x : LimitCtx) : LimitCtx * list mod_ev :=
  if limited side x then drain_loop side (get side (pending x)) x else (x, []).

Definition has_pending (x : LimitCtx) : bool :=
  negb (bool_decide ((pending x).1 = [])) || negb (bool_decide ((pending x).2 = [])).

Definition update_heartbeat (x : LimitCtx) : LimitCtx * list mod_ev :=
  if has_pending x && negb (have_heartbeat x) then (x{{have_heartbeat := true}}, [MHeartbeat 0])
  else if negb (has_pending x) && have_heartbeat x then (x{{have_heartbeat := false}}, [MHeartbeat (-1)])
  else (x, []).

Definition refill_side (side : bool) (x : LimitCtx) : LimitCtx :=
  x{{buckets ::= put side (refill (clock (reads x)) (get side (buckets x))); reads ::= S}}.

Definition on_heartbeat (x : LimitCtx) : LimitCtx * list mod_ev :=
  let x := refill_side true (refill_side false x) in
  let '(x, e0) := drain_dir false x in
  let '(x, e1) := drain_dir true x in
  let '(x, e2) := update_heartbeat x in
  (x, e0 ++ e1 ++ e2).

Definition limit_packet (x : LimitCtx) (side : bool) (src : Z) (d : bytes) (a : Z) : LimitCtx * list mod_ev * mod_ret :=
  if negb (limited side x) then (x, [], RetConst 0)
  else if bool_decide (d = []) then (x, [], RetConst (-1))
  else
    let '(ok, x) := take_tokens side (Z.of_nat (length d)) x in
    if (ok : bool) then (x, [MWrite (write_dst side) d a], RetLastWrite)
    else if (MAX_PENDING <=? length (get side (pending x)))%nat then (x, [MFree a], RetConst 0)
    else if negb (grows (length (get side (pending x)))) then (x, [MFree a], RetConst 0)
    else
      let '(x, evs) := update_heartbeat (x{{pending ::= put side (get side (pending x) ++ [mkPending d a src])}}) in
      (x, evs, RetConst 0).

Definition limit_process (x : LimitCtx) (dir trigger_idx : Z) (data : option (bytes * Z))
    : LimitCtx * list mod_ev * mod_ret :=
  if dir <? 0 then let '(x, evs) := on_heartbeat x in (x, evs, RetConst 0)
  else if 1 <? dir then (x, [], RetConst 0)
  else let '(d, a) := default ([], 0) data in limit_packet x (dir =? 1) trigger_idx d a.

(** ** Configuration *)

(** [std.fmt.parseInt] for unsigned numbers up to [max]: a sign, digits, and underscores
    between them; minus only in front of zero. *)
Fixpoint digits (l : bytes) (acc : Z) : option Z :=
  match l with
  | [] => Some acc
  | c :: l => if c =? 95 then digits l acc
              else if isdigit c then digits l (10 * acc + (c - 48)) else None
  end.
Definition parseInt (max : Z) (s : bytes) : option Z :=
  let '(neg, s) := match s with 43 :: s => (false, s) | 45 :: s => (true, s) | _ => (false, s) end in
  match s with
  | [] => None
  | c :: _ =>
      if (c =? 95) || (default 0 (last s) =? 95) then None else
      v ← digits s 0; if (if (neg : bool) then 0 else max) <? v then None else Some v
  end.

(** The release build does not check the product of number and unit: one that leaves 64
    bits is undefined behaviour. *)
Inductive parsed := Value (v : Z) | Error | Undefined.

Definition times (v m : Z) : parsed := if v * m <? 2 ^ 64 then Value (v * m) else Undefined.

Definition parse_suffix_int (s : bytes) (m : Z) : parsed :=
  match s with
  | [] => Error
  | _ =>
      match parseInt (2 ^ 64 - 1) s with
      | Some v => Value v
      | None =>
          if (length s <? 2)%nat then Error else
          match parseInt (2 ^ 64 - 1) (take (length s - 1) s) with
          | None => Error
          | Some v =>
              let c := default 0 (last s) in
              let c := if (65 <=? c) && (c <=? 90) then c + 32 else c in
              if c =? 107 then times v m
              else if c =? 109 then times v (m * m)
              else if c =? 103 then times v (m * m * m)
              else Error
          end
      end
  end.

(** Rate, burst, tracing and the directions that are limited. *)
Record Settings := mkSet { s_rate : Z; s_burst : Z; s_trace : bool; s_mask : Z }.

Definition set_number (dflt : Z) (v : parsed) (k : Z → Settings) : option Settings :=
  match v with Value n => Some (k n) | Error => Some (k dflt) | Undefined => None end.

Definition parse_token (st : option Settings) (token : bytes) : option Settings :=
  s ← st;
  if bool_decide (token = lit "trace") then Some (s{{s_trace := true}}) else
  match find 58 token 0 with
  | None => Some s
  | Some colon =>
      let name := take colon token in
      let v := drop (S colon) token in
      if bool_decide (name = lit "rate") then set_number 1000000 (parse_suffix_int v 1000) (λ n, s{{s_rate := n}})
      else if bool_decide (name = lit "b") then set_number 0 (parse_suffix_int v 1024) (λ n, s{{s_burst := n}})
      else if bool_decide (name = lit "dir") then Some (s{{s_mask := Z.land (default 3 (parseInt 7 v)) 3}})
      else Some s
  end.

Definition parse_settings (config : bytes) : option Settings :=
  foldl parse_token (Some (mkSet 1000000 0 false 3)) (split_on 44 (c_str config)).

(** [None]: undefined behaviour. *)
Definition limit_init (node : Z) (config : bytes) : option LimitCtx :=
  s ← parse_settings config;
  let burst := if s_burst s =? 0 then Z.max (s_rate s / 80) MAX_PACKET else s_burst s in
  Some (mkCtx node (s_trace s)
          (new_bucket (s_rate s) burst (clock 0), new_bucket (s_rate s) burst (clock 1))
          (s_mask s) ([], []) false 2).

End module.

Example limit_parse_ex :
  parse_settings (lit "rate:8k,b:1_0,trace,dir:1") = Some (mkSet 8000 10 true 1)
  ∧ parse_settings (lit "rate:x,b:,dir:9") = Some (mkSet 1000000 0 false 3)
  ∧ parse_settings (lit "rate:20000000000g") = None
  ∧ parse_settings [] = Some (mkSet 1000000 0 false 3).
Proof. by vm_compute. Qed.

(** ** What the operations do to the packets that wait *)

Definition sends (side : bool) (ps : list PendingPacket) : list mod_ev :=
  concat (map (λ p, [MSetSrc (p_src p); MWrite (write_dst side) (p_data p) (p_asize p)]) ps).

Lemma get_put {A} side (a : A) p : get side (put side a p) = a.
Proof. by destruct side. Qed.
Lemma get_put_other {A} side side' (a : A) p : side ≠ side' → get side (put side' a p) = get side p.
Proof. by destruct side, side'. Qed.
Lemma put_twice {A} side (a b : A) p : put side a (put side b p) = put side a p.
Proof. by destruct side. Qed.
Lemma put_get {A} side (p : A * A) : put side (get side p) p = p.
Proof. by destruct side, p. Qed.

(** What is asked of the chain when the packets that wait come to be some, or none. *)
Definition beats (before after : bool) : list mod_ev :=
  match before, after with
  | false, true => [MHeartbeat 0]
  | true, false => [MHeartbeat (-1)]
  | _, _ => []
  end.

(** What no operation on the buckets changes. *)
Definition rest_of (x : LimitCtx) := (pending x, dir_mask x, have_heartbeat x).

Section facts.
Context (clock : nat → Z) (grows : nat → bool).

Lemma take_tokens_rest side n x : rest_of (take_tokens clock side n x).2 = rest_of x.
Proof. unfold take_tokens. by destruct (try_consume _ _ _). Qed.

(** Draining sends some of the packets, from the front, and keeps the others. *)
Lemma drain_loop_spec side ps : ∀ x, ∃ sent left, ps = sent ++ left
  ∧ (drain_loop clock side ps x).2 = sends side sent
  ∧ rest_of (drain_loop clock side ps x).1 = (put side left (pending x), dir_mask x, have_heartbeat x).
Proof.
  induction ps as [|p ps IH]; intros x; cbn [drain_loop]; [by exists [], []|].
  pose proof (take_tokens_rest side (Z.of_nat (length (p_data p))) x) as Hr.
  destruct (take_tokens _ _ _ _) as [ok x1]. cbn [snd] in Hr. unfold rest_of in Hr. injection Hr as H1 H2 H3.
  destruct ok.
  - destruct (IH x1) as (sent & left & -> & Hs & Hl). exists (p :: sent), left.
    destruct (drain_loop _ _ _ _) as [x2 evs]. cbn [fst snd] in *.
    split_and!; [done|by rewrite Hs|]. by rewrite Hl, H1, H2, H3.
  - exists [], (p :: ps). split_and!; [done..|]. unfold rest_of. rewrite <- H1, <- H2, <- H3. done.
Qed.

Lemma drain_dir_spec side x : ∃ sent left, get side (pending x) = sent ++ left
  ∧ (drain_dir clock side x).2 = sends side sent
  ∧ rest_of (drain_dir clock side x).1 = (put side left (pending x), dir_mask x, have_heartbeat x).
Proof.
  unfold drain_dir. destruct (limited side x); [apply drain_loop_spec|].
  exists [], (get side (pending x)). cbn. by rewrite put_get.
Qed.

Lemma update_heartbeat_spec x :
  pending (update_heartbeat x).1 = pending x ∧ dir_mask (update_heartbeat x).1 = dir_mask x
  ∧ have_heartbeat (update_heartbeat x).1 = has_pending x
  ∧ (update_heartbeat x).2 = beats (have_heartbeat x) (has_pending x).
Proof. unfold update_heartbeat. by destruct (has_pending x) eqn:E, (have_heartbeat x) eqn:Eh; cbn. Qed.

Lemma heartbeat_spec x : ∃ s0 l0 s1 l1,
  pending x = (s0 ++ l0, s1 ++ l1)
  ∧ (on_heartbeat clock x).2 = sends false s0 ++ sends true s1
                               ++ beats (have_heartbeat x) (has_pending (on_heartbeat clock x).1)
  ∧ pending (on_heartbeat clock x).1 = (l0, l1) ∧ dir_mask (on_heartbeat clock x).1 = dir_mask x
  ∧ have_heartbeat (on_heartbeat clock x).1 = has_pending (on_heartbeat clock x).1.
Proof.
  unfold on_heartbeat. set (x0 := refill_side clock true (refill_side clock false x)).
  assert (pending x0 = pending x ∧ dir_mask x0 = dir_mask x ∧ have_heartbeat x0 = have_heartbeat x) as (P0 & M0 & B0) by done. clearbody x0.
  destruct (drain_dir_spec false x0) as (s0 & l0 & E0 & Hs0 & Hr0).
  destruct (drain_dir clock false x0) as [x1 e0]. cbn [fst snd] in *. injection Hr0 as P1 M1 B1.
  destruct (drain_dir_spec true x1) as (s1 & l1 & E1 & Hs1 & Hr1).
  destruct (drain_dir clock true x1) as [x2 e1]. cbn [fst snd] in *. injection Hr1 as P2 M2 B2.
  destruct (update_heartbeat_spec x2) as (P3 & M3 & B3 & He).
  destruct (update_heartbeat x2) as [x3 e2]. cbn [fst snd] in *.
  exists s0, l0, s1, l1. rewrite P1 in E1. rewrite P0 in *. destruct (pending x) as [p0 p1] eqn:Ep. cbn in E0, E1.
  subst. assert (pending x3 = (l0, l1)) as P by (rewrite P3, P2, P1; done).
  assert (has_pending x2 = has_pending x3) as Hx by (unfold has_pending; by rewrite P3).
  split_and!; try done; [by rewrite Hx, B2, B1, B0|congruence|]. by rewrite B3, Hx.
Qed.

(** A packet of a limited direction is sent, dropped, or made to wait. *)
Inductive fate (x x' : LimitCtx) (side : bool) (src : Z) (d : bytes) (a : Z) : list mod_ev → mod_ret → Prop :=
| sent_on : rest_of x' = rest_of x → fate x x' side src d a [MWrite (write_dst side) d a] RetLastWrite
| dropped_now : rest_of x' = rest_of x →
    (MAX_PENDING <= length (get side (pending x)))%nat ∨ grows (length (get side (pending x))) = false →
    fate x x' side src d a [MFree a] (RetConst 0)
| made_wait :
    pending x' = put side (get side (pending x) ++ [mkPending d a src]) (pending x) → dir_mask x' = dir_mask x →
    have_heartbeat x' = has_pending x' → (length (get side (pending x)) < MAX_PENDING)%nat →
    fate x x' side src d a (beats (have_heartbeat x) (has_pending x')) (RetConst 0).

Lemma packet_spec x side src d a : limited side x = true → d ≠ [] →
  let '(x', evs, r) := limit_packet clock grows x side src d a in fate x x' side src d a evs r.
Proof.
  intros Hl Hd. unfold limit_packet. rewrite Hl. cbn [negb]. rewrite bool_decide_false by done.
  pose proof (take_tokens_rest side (Z.of_nat (length d)) x) as Hr.
  destruct (take_tokens _ _ _ _) as [ok x1]. cbn [snd] in Hr. destruct ok; [by apply sent_on|].
  assert (pending x1 = pending x ∧ dir_mask x1 = dir_mask x ∧ have_heartbeat x1 = have_heartbeat x) as (H1 & H2 & H3)
    by (unfold rest_of in Hr; by injection Hr).
  rewrite H1. destruct (Nat.leb_spec MAX_PENDING (length (get side (pending x)))); [by apply dropped_now; [|left]|].
  destruct (grows _) eqn:Eg; cbn [negb]; [|by apply dropped_now; [|right]].
  match goal with |- context [update_heartbeat ?y] => destruct (update_heartbeat_spec y) as (P & M & B & He);
    destruct (update_heartbeat y) as [x' evs];
    assert (pending y = put side (get side (pending x) ++ [mkPending d a src]) (pending x)
            ∧ dir_mask y = dir_mask x ∧ have_heartbeat y = have_heartbeat x) as (Py & My & By) by (destruct x1; cbn in *; by subst) end.
  cbn [fst snd] in *. match type of P with _ = pending ?y => assert (has_pending y = has_pending x') as Hy
    by (unfold has_pending; by rewrite P) end.
  rewrite Hy, By in He. subst evs. rewrite Hy in B. apply made_wait; try done; congruence.
Qed.

(** ** Buffers *)

Definition kept_bytes (ps : list PendingPacket) : Z := foldr (λ p n, p_asize p + n) 0 ps.
Definition held (x : LimitCtx) : Z := kept_bytes (pending x).1 + kept_bytes (pending x).2.
Definition good (x : LimitCtx) : Prop :=
  dir_mask x = 3 ∧ ∀ side, Forall (λ p, p_data p ≠ []) (get side (pending x)).

(** The module when its configuration limits both directions, which is the default. *)
Definition init_both (spec : ModuleSpec) : option (LimitCtx * list init_ev) :=
  x ← limit_init clock 0 (params spec); if dir_mask x =? 3 then Some (x, []) else None.
Definition process (nm : bytes) (x : LimitCtx) (dir src : Z) (data : option (bytes * Z)) :=
  limit_process clock grows x dir src data.

Lemma kept_bytes_app l k : kept_bytes (l ++ k) = kept_bytes l + kept_bytes k.
Proof. unfold kept_bytes. induction l as [|p l IH]; cbn; [done|]. rewrite IH. lia. Qed.

Lemma sends_net side ps : Buffers.net (sends side ps) = - kept_bytes ps.
Proof.
  induction ps as [|p ps IH]; [done|]. change (sends side (p :: ps)) with ([MSetSrc (p_src p); MWrite (write_dst side) (p_data p) (p_asize p)] ++ sends side ps).
  rewrite Buffers.net_app, IH. unfold kept_bytes. cbn. lia.
Qed.

Lemma sends_filled side ps : Forall (λ p, p_data p ≠ []) ps → Forall Buffers.writes_filled (sends side ps).
Proof.
  induction 1 as [|p ps Hp _ IH]; [by constructor|]. change (sends side (p :: ps)) with ([MSetSrc (p_src p); MWrite (write_dst side) (p_data p) (p_asize p)] ++ sends side ps).
  apply Forall_app. split; [|done]. repeat apply Forall_cons_2; try done. by left.
Qed.

Lemma beats_quiet b b' : Buffers.net (beats b b') = 0 ∧ Forall Buffers.writes_filled (beats b b').
Proof. destruct b, b'; (split; [done|by repeat constructor]). Qed.

Lemma limited_both x side : good x → limited side x = true.
Proof. intros [Hm _]. unfold limited. rewrite Hm. by destruct side. Qed.

(** Packets that wait keep their buffers; everything else is passed on or given back. *)
#[export] Instance limit_tidy : Buffers.Tidy init_both process good held (λ _ _ _, True).
Proof.
  split.
  - intros spec x evs (y & Hy & H)%bind_Some. destruct (Z.eqb_spec (dir_mask y) 3); [|done]. injection H as <- _.
    apply bind_Some in Hy as (st & _ & [= <-]). split; [|done]. split; [done|]. intros []; by constructor.
  - intros nm x dir src d a Hg Hdir Hf _ _. unfold process, limit_process.
    rewrite (proj2 (Z.ltb_ge _ _)), (proj2 (Z.ltb_ge _ _)) by lia. cbn [default id].
    destruct (decide (d = [])) as [->|Hd].
    { unfold limit_packet. rewrite limited_both by done. cbn [negb]. rewrite bool_decide_true by done.
      split_and!; [done|by constructor|cbn; lia]. }
    pose proof (packet_spec x (dir =? 1) src d a (limited_both _ _ Hg) Hd) as Hp.
    destruct (limit_packet _ _ _ _ _ _ _) as [[x' evs] r]. destruct Hg as [Hm Hne].
    destruct Hp as [Hr|Hr _|P M B _].
    + unfold rest_of in Hr. injection Hr as P M _. unfold held, good. rewrite P, M. split; [done|]. split; [|cbn; lia].
      apply Forall_singleton. exact Hf.
    + unfold rest_of in Hr. injection Hr as P M _. unfold held, good. rewrite P, M. split; [done|]. split; [|cbn; lia].
      by apply Forall_singleton.
    + destruct (beats_quiet (have_heartbeat x) (has_pending x')) as [Hn Hfl]. unfold held, good. rewrite P, M, Hn. cbn [Buffers.refuses Z.ltb Z.compare].
      split_and!; [done| |done|].
      * intros side. destruct (decide (side = (dir =? 1))) as [->|Hs]; [rewrite get_put|rewrite get_put_other by done; apply Hne].
        apply Forall_app. split; [apply Hne|by apply Forall_singleton].
      * destruct (pending x) as [p0 p1]. destruct (dir =? 1); cbn [put get fst snd]; rewrite kept_bytes_app; cbn; lia.
  - intros nm x [Hm Hne]. unfold process, limit_process. cbn [Z.ltb Z.compare].
    destruct (heartbeat_spec x) as (s0 & l0 & s1 & l1 & Hp & He & P & M & _).
    destruct (on_heartbeat clock x) as [x' evs]. cbn [fst snd] in *. subst evs.
    destruct (beats_quiet (have_heartbeat x) (has_pending x')) as [Hn Hfl].
    pose proof (Hne false) as N0. pose proof (Hne true) as N1. rewrite Hp in N0, N1. cbn in N0, N1.
    apply Forall_app in N0 as [N0 N0']. apply Forall_app in N1 as [N1 N1'].
    unfold good, held. rewrite P, M, Hp. split_and!; [done|by intros []| |].
    + repeat (apply Forall_app; split); try done; by apply sends_filled.
    + cbn [fst snd]. rewrite !Buffers.net_app, !sends_net, Hn, !kept_bytes_app. lia.
Qed.

(** ** Nothing is lost unseen *)

Inductive call := Packet (side : bool) (src : Z) (d : bytes) (a : Z) | Beat.

Definition answer (x : LimitCtx) (c : call) : LimitCtx * list mod_ev * mod_ret :=
  match c with
  | Packet side src d a => limit_process clock grows x (if side then 1 else 0) src (Some (d, a))
  | Beat => limit_process clock grows x (-1) 0 None
  end.

(** What is written towards one side; the packet that a call gives back at once, with the
    number of packets that were waiting. *)
Definition written (side : bool) (evs : list mod_ev) : list bytes :=
  omap (λ e, match e with MWrite dst d _ => if dst =? write_dst side then Some d else None | _ => None end) evs.
Definition given_back (side : bool) (c : call) (x : LimitCtx) (evs : list mod_ev) : list (bytes * nat) :=
  match c, evs with
  | Packet side' _ d _, [MFree _] => if eqb side side' then [(d, length (get side (pending x)))] else []
  | _, _ => []
  end.
Definition given (side : bool) (cs : list call) : list bytes :=
  omap (λ c, match c with Packet side' _ d _ => if eqb side side' then Some d else None | Beat => None end) cs.

(** The heartbeats that a call asks the chain for. *)
Definition asked (evs : list mod_ev) (md : @Module LimitCtx) : @Module LimitCtx :=
  foldl (λ md e, match e with MHeartbeat i => request_heartbeat i md | _ => md end) md evs.

(** The calls of a run: the module as the chain has it, what was written and what was
    dropped, for one side. *)
Definition step (side : bool) (l : Module * list bytes * list (bytes * nat)) (c : call) :=
  let '(md, ws, ds) := l in
  let '(x', evs, _) := answer (ctx md) c in
  ((asked evs md){{ctx := x'}}, ws ++ written side evs, ds ++ given_back side c (ctx md) evs).
Definition run (side : bool) (md : Module) (cs : list call) := foldl (step side) (md, [], []) cs.

(** The interval that the chain has noted: -2 stands for every round of the event loop, 0 for
    never. *)
Definition interval (some_wait : bool) : Z := if some_wait then -2 else 0.

(** At most a hundred packets wait, and a heartbeat is asked for while some do. *)
Definition steady (x : LimitCtx) : Prop :=
  good x ∧ (∀ side, (length (get side (pending x)) <= MAX_PENDING)%nat) ∧ have_heartbeat x = has_pending x.
Definition in_step (md : Module) : Prop :=
  steady (ctx md) ∧ heartbeat_interval_sec md = interval (has_pending (ctx md)).

(** Why a packet may be dropped. *)
Definition excused (drop : bytes * nat) : Prop := drop.2 = MAX_PENDING ∨ grows drop.2 = false.

Lemma written_app side l k : written side (l ++ k) = written side l ++ written side k.
Proof. apply omap_app. Qed.

Lemma written_sends side side' ps : written side (sends side' ps) = if eqb side side' then map p_data ps else [].
Proof.
  induction ps as [|p ps IH]; [by destruct side, side'|].
  change (sends side' (p :: ps)) with ([MSetSrc (p_src p); MWrite (write_dst side') (p_data p) (p_asize p)] ++ sends side' ps).
  rewrite written_app, IH. by destruct side, side'.
Qed.

Lemma asked_app l k md : asked (l ++ k) md = asked k (asked l md).
Proof. apply foldl_app. Qed.

Lemma asked_sends side ps md : asked (sends side ps) md = md.
Proof. induction ps as [|p ps IH]; [done|exact IH]. Qed.

Lemma asked_beats b b' md : heartbeat_interval_sec md = interval b →
  heartbeat_interval_sec (asked (beats b b') md) = interval b'.
Proof. by destruct b, b'. Qed.

Lemma written_beats side b b' : written side (beats b b') = [].
Proof. by destruct b, b'. Qed.

Lemma given_back_beats side c x b b' : given_back side c x (beats b b') = [].
Proof. by destruct c, b, b'. Qed.

Definition call_ok (c : call) : Prop := match c with Packet _ _ d _ => d ≠ [] | Beat => True end.

Lemma steady_same x x' : rest_of x' = rest_of x → steady x → steady x'.
Proof. unfold rest_of, steady, good, has_pending. by intros [= -> -> ->]. Qed.

Lemma has_pending_same x x' : rest_of x' = rest_of x → has_pending x' = has_pending x.
Proof. unfold rest_of, has_pending. by intros [= -> _ _]. Qed.

Lemma in_step_intro md x : steady x → heartbeat_interval_sec md = interval (has_pending x) → in_step (md{{ctx := x}}).
Proof. by destruct md. Qed.

(** One call: what waited and what is given is what is written, waits, or is dropped. *)
Lemma answer_conserves side md c : in_step md → call_ok c →
  let '(x', evs, _) := answer (ctx md) c in
  in_step ((asked evs md){{ctx := x'}})
  ∧ Forall excused (given_back side c (ctx md) evs)
  ∧ map p_data (get side (pending (ctx md))) ++ given side [c]
    ≡ₚ written side evs ++ map p_data (get side (pending x')) ++ (given_back side c (ctx md) evs).*1.
Proof.
  intros [Hst Hi] Hc. destruct Hst as (Hg & Hlen & Hh) eqn:E. clear E. set (x := ctx md) in *.
  destruct c as [s src d a|]; cbn [answer call_ok] in *.
  - assert (∀ dir, limit_process clock grows x (if s then 1 else 0) dir (Some (d, a)) = limit_packet clock grows x s dir d a) as ->
      by (intros; by destruct s).
    pose proof (packet_spec x s src d a (limited_both _ _ Hg) Hc) as Hp.
    destruct (limit_packet _ _ _ _ _ _ _) as [[x' evs] r].
    assert (given side [Packet s src d a] = if eqb side s then [d] else []) as -> by (by destruct side, s).
    destruct Hp as [Hr|Hr Hwhy|P M B Hl].
    + split; [apply in_step_intro; [by apply (steady_same x)|cbn; by rewrite (has_pending_same x)]|]. split; [by constructor|].
      injection Hr as P _ _. rewrite P. cbn [given_back fmap list_fmap]. rewrite app_nil_r.
      assert (written side [MWrite (write_dst s) d a] = if eqb side s then [d] else []) as -> by (by destruct side, s).
      apply Permutation_app_comm.
    + split; [apply in_step_intro; [by apply (steady_same x)|cbn; by rewrite (has_pending_same x)]|]. injection Hr as P _ _. rewrite P.
      cbn [given_back]. destruct (eqb side s) eqn:Es; [|done]. apply eqb_prop in Es as ->. split; [|done].
      apply Forall_singleton. pose proof (Hlen s). destruct Hwhy; [left; cbn; lia|by right].
    + rewrite (written_beats side), (given_back_beats side), P. cbn [app fmap list_fmap]. rewrite app_nil_r.
      destruct Hg as [Hm Hne]. split; [|split; [by constructor|]].
      * apply in_step_intro; [|apply asked_beats; by rewrite Hh].
        split; [split; [by rewrite M|]|split; [|done]]; intros side'; rewrite P;
          (destruct (decide (side' = s)) as [->|Hs]; [rewrite get_put|rewrite get_put_other by done; auto]).
        -- apply Forall_app. split; [auto|by apply Forall_singleton].
        -- rewrite length_app. cbn [length]. lia.
      * destruct side, s; cbn [eqb put get fst snd]; by rewrite ?map_app, ?app_nil_r.
  - unfold limit_process. cbn [Z.ltb Z.compare].
    destruct (heartbeat_spec x) as (s0 & l0 & s1 & l1 & Hp & He & P & M & B).
    destruct (on_heartbeat clock x) as [x' evs]. cbn [fst snd] in *. subst evs.
    pose proof (Hlen false) as L0. pose proof (Hlen true) as L1. destruct Hg as [Hm Hne].
    pose proof (Hne false) as N0. pose proof (Hne true) as N1. rewrite Hp in *. cbn in L0, L1, N0, N1.
    rewrite !length_app in *. apply Forall_app in N0 as [_ N0]. apply Forall_app in N1 as [_ N1].
    split; [|split; [by constructor|]].
    + apply in_step_intro; [|rewrite !asked_app, !asked_sends; apply asked_beats; by rewrite Hh].
      split; [split; [by rewrite M|rewrite P; by intros []]|split; [rewrite P; intros []; cbn; lia|exact B]].
    + rewrite P, !written_app, !written_sends, written_beats. cbn [given_back given omap list_omap fmap list_fmap]. rewrite !app_nil_r.
      destruct side; cbn [eqb get fst snd app]; by rewrite ?app_nil_r, map_app.
Qed.

(** A run, from any state in which the module and the chain agree. *)
Lemma run_conserves side cs : Forall call_ok cs → ∀ md ws ds g, in_step md → Forall excused ds →
  g ≡ₚ ws ++ map p_data (get side (pending (ctx md))) ++ ds.*1 →
  let '(md', ws', ds') := foldl (step side) (md, ws, ds) cs in
  g ++ given side cs ≡ₚ ws' ++ map p_data (get side (pending (ctx md'))) ++ ds'.*1 ∧ Forall excused ds' ∧ in_step md'.
Proof.
  induction 1 as [|c cs Hc _ IH]; intros md ws ds g Hy Hd Hp; [cbn; by rewrite app_nil_r|].
  cbn [foldl step]. pose proof (answer_conserves side md c Hy Hc) as Ha. destruct (answer (ctx md) c) as [[y' evs] r].
  destruct Ha as (Hy' & Hx & Ha).
  specialize (IH _ (ws ++ written side evs) (ds ++ given_back side c (ctx md) evs) (g ++ given side [c]) Hy').
  replace (given side (c :: cs)) with (given side [c] ++ given side cs) by (unfold given; by rewrite !omap_cons_opt, app_nil_r).
  rewrite (app_assoc g). apply IH; [by apply Forall_app|]. rewrite Hp, fmap_app.
  replace (ctx ((asked evs md){{ctx := y'}})) with y' by (by destruct (asked evs md)). rewrite <- !app_assoc.
  rewrite (Permutation_app_comm ds.*1 (given side [c])). rewrite !(app_assoc (map p_data _)). rewrite Ha.
  rewrite <- !app_assoc. do 3 f_equiv. apply Permutation_app_comm.
Qed.

Lemma init_in_step node config md :
  limit_init clock node config = Some (ctx md) → dir_mask (ctx md) = 3 → heartbeat_interval_sec md = 0 →
  in_step md ∧ pending (ctx md) = ([], []).
Proof.
  intros (st & _ & E)%bind_Some Hm Hi. injection E as E. unfold in_step, steady, good, has_pending. rewrite Hm, Hi, <- E. cbn.
  split_and!; try done; intros []; cbn; (by constructor) || (unfold MAX_PENDING; lia).
Qed.

(** [C22] No packet disappears in the limiter unseen. From its start, when both directions
    are limited (the default), over any sequence of non-empty packets and heartbeats and
    whatever the clock shows, the packets given in a direction are those that were written,
    those that wait, and those that were dropped, and a packet is dropped only when a
    hundred of its direction were waiting or the list could not grow: nothing is lost
    otherwise, nothing is made up or sent twice. At most a hundred wait in a direction. And
    the requests that the module has made leave the chain with the interval for a heartbeat
    in every round (-2) if packets wait in either direction, and with none (0) if not, so
    that packets that wait are looked at again. *)
Theorem limit_conserves (node : Z) (config : bytes) (md : Module) (cs : list call) (side : bool)
    (Hinit : limit_init clock node config = Some (ctx md)) (Hboth : dir_mask (ctx md) = 3)
    (Hidle : heartbeat_interval_sec md = 0) (Hcs : Forall call_ok cs) :
  let '(md', ws, ds) := run side md cs in
  given side cs ≡ₚ ws ++ map p_data (get side (pending (ctx md'))) ++ ds.*1
  ∧ Forall (λ drop, drop.2 = MAX_PENDING ∨ grows drop.2 = false) ds
  ∧ (length (get side (pending (ctx md'))) <= MAX_PENDING)%nat
  ∧ heartbeat_interval_sec md' = match pending (ctx md') with ([], []) => 0 | _ => -2 end.
Proof.
  destruct (init_in_step node config md Hinit Hboth Hidle) as [Hx Hnone].
  pose proof (run_conserves side cs Hcs md [] [] [] Hx (Forall_nil_2 _)) as H. unfold run.
  destruct (foldl (step side) (md, [], []) cs) as [[md' ws] ds].
  destruct H as (Hp & Hd & (_ & Hlen & _) & Hi); [rewrite Hnone; by destruct side|].
  split_and!; [done..|]. rewrite Hi. unfold has_pending, interval.
  destruct (pending (ctx md')) as [[|p l] [|q k]]; done.
Qed.

End facts.

(** ** Examples *)

(** A thousand bits per second, a burst of a hundred bytes; the clock stands still, then
    shows a second later, then an hour later. *)
Definition demo_clock (k : nat) : Z := if (k <? 6)%nat then 0 else if (k <? 12)%nat then 1000000000 else 3601000000000.
Definition demo_config : bytes := lit "rate:1k,b:100".
Definition demo_ctx : LimitCtx := default (mkCtx 0 false (new_bucket 0 0 0, new_bucket 0 0 0) 0 ([], []) false 0)
                                    (limit_init demo_clock 0 demo_config).

(** The module as a chain has it when it is new. *)
Definition demo_module : Module := mkMod (lit "limit") 1 [None; None] (-1) 0 demo_ctx 0 0.

(** 80 bytes pass, 50 wait, 10 pass; a second later the heartbeat sends the 50. *)
Definition demo_calls : list call :=
  [Packet false 0 (repeat 1 80) 80; Packet false 0 (repeat 2 50) 50; Packet false 0 (repeat 3 10) 10; Beat; Beat].

(** After the third packet one waits and a heartbeat is asked for in every round; after the
    heartbeats none waits and none is asked for. *)
Example demo_beats :
  heartbeat_interval_sec (run demo_clock (λ _, true) false demo_module (take 3 demo_calls)).1.1 = -2
  ∧ heartbeat_interval_sec (run demo_clock (λ _, true) false demo_module demo_calls).1.1 = 0
  ∧ (run demo_clock (λ _, false) false demo_module demo_calls).2 = [(repeat 2 50, 0%nat)].
Proof. by vm_compute. Qed.

Lemma demo_drops_none : (run demo_clock (λ _, true) false demo_module demo_calls).2 = [].
Proof. vm_compute. reflexivity. Qed.

Lemma limit_conserves_witness :
  ∃ md' ws, run demo_clock (λ _, true) false demo_module demo_calls = (md', ws, [])
    ∧ given false demo_calls ≡ₚ ws ++ map p_data (get false (pending (ctx md'))) ++ []
    ∧ heartbeat_interval_sec md' = match pending (ctx md') with ([], []) => 0 | _ => -2 end.
Proof.
  pose proof (limit_conserves demo_clock (λ _, true) 0 demo_config demo_module demo_calls false) as H.
  pose proof demo_drops_none as E. destruct (run _ _ _ _ _) as [[md' ws] ds]. cbn [snd] in E. subst ds.
  exists md', ws. split; [reflexivity|]. destruct H as (H1 & _ & _ & H2); [by vm_compute|by vm_compute|done| |by split].
  repeat apply Forall_cons_2; try exact I; try exact (Forall_nil_2 _); intros E; discriminate E.
Defined.

(** The limiter reorders: a packet that comes while another waits is sent first if it is
    short enough. On a connection without split in front of it the bytes of a stream
    arrive in the wrong order. *)
Theorem limit_overtakes :
  (run demo_clock (λ _, true) false demo_module demo_calls).1.2 = [repeat 1 80; repeat 3 10; repeat 2 50].
Proof. by vm_compute. Qed.

(** The burst does not bound what may be sent at once: after an idle hour a bucket of 100
    bytes holds more than 450000. *)
Theorem burst_not_a_bound :
  SFleb (float 450000) (tokens (refill 3600000000000 (new_bucket 1000 100 0))) = true
  ∧ burst (new_bucket 1000 100 0) = float 100.
Proof. by vm_compute. Qed.

(** The values of [dir] are not those of the help text (0: towards the wire, 1: towards the
    application, 2: both): 0 limits neither direction, 1 and 2 one of them. *)
Theorem dir_values :
  s_mask <$> parse_settings (lit "dir:0") = Some 0 ∧ s_mask <$> parse_settings (lit "dir:1") = Some 1
  ∧ s_mask <$> parse_settings (lit "dir:2") = Some 2.
Proof. by vm_compute. Qed.

(** A packet of a direction that is not limited disappears: it is not passed on, its buffer
    stays allocated for ever, and the endpoint is not told. Five of the largest packets are
    enough to pause the endpoint for good. *)
Theorem unlimited_direction_swallows (clock : nat → Z) (grows : nat → bool) (wire_ret : Z → bytes → Z)
    (now : Z) (t : task) (c : Chain.Chain) (md : Module)
    (Hmd : modules c !! t_mod t = Some md) (Hrun : cancelled c = false) (Hdir : t_dir t = 0 ∨ t_dir t = 1)
    (Hside : limited (t_dir t =? 1) (ctx md) = false) :
  let c' := run_task (process clock grows) wire_ret (λ _ _, true) now t c in
  bytes_allocated c' = bytes_allocated c ∧ queue c' = queue c ∧ exits c' = exits c.
Proof.
  unfold run_task. rewrite Hrun, Hmd. unfold process, limit_process.
  rewrite (proj2 (Z.ltb_ge _ _)), (proj2 (Z.ltb_ge _ _)) by lia. cbn [default id]. unfold limit_packet. rewrite Hside.
  by destruct c.
Qed.

Definition demo_md : Module := mkMod (lit "limit") 0 [None; None] 1 0 (demo_ctx{{dir_mask := 0}}) 0 0.
Definition demo_chain : Chain.Chain := fresh [demo_md] true [None; Some 0%nat].

Lemma unlimited_direction_swallows_witness :
  let c := default demo_chain (alloc_buffer (λ _ _, true) 9 demo_chain) in
  let c' := run_task (process demo_clock (λ _, true)) (λ _ _, 0) (λ _ _, true) 5 (mkTask 0 [1] 9 0 0) c in
  bytes_allocated c' = 9 ∧ queue c' = [] ∧ exits c' = [].
Proof.
  intros c c'.
  apply (unlimited_direction_swallows demo_clock (λ _, true) (λ _ _, 0) 5 (mkTask 0 [1] 9 0 0) c demo_md); [done|done|by left|done].
Defined.

End Limit.
