(* ===== verification/Session.v ===== *)
(** * A tunnel session on the server (server/session.h, server/session.cpp)

    The state of a [Session] and its operations, one definition per method or callback, in
    the monad [act World]. The world holds the session, the kernel's handler table, the
    answers the operating system will give to [::write], and a log of what the outside
    sees. *)

From coqutil Require Import Datatypes.RecordSetters.
From S2P Require Import Prelude Text Protocol WriteBuffer Frame Control Reliable Kernel ChainApi.
Import DoubleBraceUpdate.
Local Open Scope Z_scope.

Module Session.
Import Frame Control Reliable.

Inductive State :=
| AWAIT_AUTH1_CHALLENGE_RESP | AWAIT_AUTH1_OK | AWAIT_AUTH2_RESPONSE | AUTH_DONE
| AWAIT_CONNECT_REQ | AWAIT_CHAIN_CREATE | RUNNING | DISCONNECTED.

#[export] Instance State_eq_dec : EqDecision State.
Proof. solve_decision. Defined.

(** The enumerators in their order, for the tests [state_ < AUTH_DONE] and the like. *)
Definition state_rank (s : State) : nat :=
  match s with
  | AWAIT_AUTH1_CHALLENGE_RESP => 0 | AWAIT_AUTH1_OK => 1 | AWAIT_AUTH2_RESPONSE => 2
  | AUTH_DONE => 3 | AWAIT_CONNECT_REQ => 4 | AWAIT_CHAIN_CREATE => 5 | RUNNING => 6
  | DISCONNECTED => 7
  end.

Definition state_eqb (a b : State) : bool := (state_rank a =? state_rank b)%nat.
Definition in_state (s : State) (l : list State) : bool := existsb (state_eqb s) l.

Lemma state_eqb_spec a b : state_eqb a b = true ↔ a = b.
Proof. split; [by destruct a, b|by intros ->; destruct b]. Qed.

Record DataConnection := mkDC {
  fd : Z;
  writer : WB.WriteBuffer;
  rbuf : RBuf;
  link : Link
}.

Definition new_dc : DataConnection := mkDC (-1) WB.new_buffer (mkRBuf [] 0) new_link.

Record TargetConn := mkTarget {
  t_fd : Z;
  t_addr : bytes;
  t_writer : WB.WriteBuffer;
  writer_paused : bool;
  local_writer_sent : bool;
  ext_overflow_paused : bool;
  chain_paused : bool;
  local_chain_sent : bool;
  shutdown_wr : bool;
  shutdown_wr_sent : bool;
  epollin_removed : bool
}.

Definition new_target (fd : Z) (addr : bytes) : TargetConn :=
  mkTarget fd addr WB.new_buffer false false false false false false false false.

Record PendingConnect := mkPC { pc_fd : Z; pc_conn_id : Z; pc_req_id : Z; started_at : Z }.

(** The callbacks a session registers with the kernel. *)
Inductive handler :=
| HClient                        (* Server::finish_handshake, before the wire format *)
| HData (idx : nat)              (* register_data_connection_reader *)
| HDataOut (idx : nat)           (* register_data_conn_epollout *)
| HTarget (conn_id : Z)          (* on_target_connected, process_pending_reconnect_targets *)
| HTargetOut (conn_id : Z)       (* register_target_epollout *)
| HConnect (conn_id req_id : Z). (* setup_tunnel_target_async *)

(** The closures put into [pending_io_]. *)
Inductive io :=
| IoRegisterTarget (conn_id : Z)
| IoPauseTarget (conn_id : Z)
| IoRegisterData (idx : nat) (fd : Z)
| IoDropData (idx : nat).

(** What the outside sees. *)
Inductive effect :=
| ESend (fd : Z) (pkt : Packet)               (* ::write of a serialized packet *)
| EOut (fd : Z) (segs : list WB.seg)          (* what a WriteBuffer wrote *)
| EClose (fd : Z)
| EShutdown (fd : Z)
| EPush (data : bytes) (src_idx dir : Z)      (* chain_->push_packet *)
| EWakeup
| EParked.                                    (* g_paused_sessions[session_id_] = self *)

(** The digest in hexadecimal; [sha256] is OpenSSL's. *)
Definition hex_sha256 (sha256 : bytes → bytes) (data : bytes) : bytes := to_hex (sha256 data).

Section session.
Context {C : Type} `{ChainOps C}.

(** SHA-256, the table [ModuleBase::bases] (the [mid] of every loaded
    module), and the network. *)
Inductive attempt :=
| NoSocket                       (* socket() failed *)
| Connected (fd : Z)
| InProgress (fd : Z)
| Refused (fd : Z).

Context (sha256 : bytes → bytes).
Context (bases : list bytes).
Context (getaddrinfo : bytes → bytes → option (list attempt)).

(** [g_session_registry.find(sid)] and the [reconnect(fd)] of the session found there:
    [None] when there is none or it has expired. The other session is another world. *)
Context (reconnect_old : Z → Z → option bool).

Record Session := mkSession {
  client_fd : Z;
  password : bytes;
  session_id : Z;
  state : State;
  recv_buf : bytes;
  challenge1 : bytes;
  chain : option C;
  chain_config : list ModuleSpec;
  data_connections : list DataConnection;
  targets : gmap Z TargetConn;
  in_paused : gmap Z bool;
  saved_targets : list (Z * bytes);
  pending_reconnect_targets : list (Z * bytes);
  paused : bool;
  pending_data_conns : list (Z * Z);
  pending_connects : gmap Z PendingConnect;
  extra_outputs : Z;
  control : Sender;
  reorder : Reorder;
  last_wire_activity : Z;
  heartbeating : bool;
  heartbeat_interval_ms : Z;
  dc_paused : bool;
  bp1_since : option Z;
  pending_io : list io;
  disconnect_pending : bool;
  disconnect_ids : list Z;
  pending_disconnect_targets : list Z
}.

(** [next_conn_id] is the static counter inside [alloc_conn_id]. *)
Record World := mkWorld {
  ses : Session;
  kern : Kernel.t handler;
  next_conn_id : Z;
  writes : list WB.wres;
  log : list effect
}.

Definition new_session (fd : Z) (pw : bytes) (sid now interval : Z) : Session :=
  mkSession fd pw sid AWAIT_AUTH1_CHALLENGE_RESP [] [] None [] [] ∅ ∅ [] [] false [] ∅ 0
            (mkSender 0 0) new_reorder now false interval false None [] false [] [].

Notation "'M' A" := (act World A) (at level 10).

(** ** Access *)

Definition emit (e : effect) : M unit := modify (λ w, w{{log ::= λ l, l ++ [e] }}).
Definition upd (f : Session → Session) : M unit := modify (λ w, w{{ses ::= f}}).
Definition get_ses {A} (f : Session → A) : M A := gets (λ w, f (ses w)).
Definition kernel_do (f : Kernel.t handler → Kernel.t handler) : M unit :=
  modify (λ w, w{{kern ::= f}}).

Definition add_fd_handler (fd : Z) (h : handler) (ev : Z) : M unit :=
  kernel_do (Kernel.add_fd_handler fd h ev).
Definition mod_fd_events (fd add remove : Z) : M unit :=
  kernel_do (Kernel.mod_fd_events fd add remove).
Definition del_fd (fd : Z) : M unit := kernel_do (Kernel.del_fd fd).
Definition close (fd : Z) : M unit := kernel_do (Kernel.os_close fd) ;; emit (EClose fd).
Definition shutdown (fd : Z) : M unit := emit (EShutdown fd).
Definition wakeup : M unit := emit EWakeup.
Definition set_state (s : State) : M unit := upd (λ x, x{{state := s}}).

(** [data_connections_[idx]], out of range being undefined. *)
Definition get_dc (idx : nat) : M DataConnection :=
  w ← get; of_option (data_connections (ses w) !! idx).
Definition upd_dc (idx : nat) (f : DataConnection → DataConnection) : M unit :=
  upd (λ s, s{{data_connections ::= alter f idx}}).
Definition get_target (cid : Z) : M (option TargetConn) := get_ses (λ s, targets s !! cid).
Definition upd_target (cid : Z) (f : TargetConn → TargetConn) : M unit :=
  upd (λ s, s{{targets ::= alter f cid}}).

(** Uses of a [WriteBuffer]: the answers of the system come from [writes]. *)
Definition wb_write (fd : Z) (data : bytes) (wb : WB.WriteBuffer)
    : M (Z * WB.WriteBuffer) :=
  w ← get;
  match WB.write (writes w) data wb with
  | (Some ret, wb', segs, ks) =>
      modify (λ w, w{{writes := ks}}) ;; emit (EOut fd segs) ;; mret (ret, wb')
  | (None, _, _, _) => fail
  end.

Definition wb_flush (fd : Z) (wb : WB.WriteBuffer) : M (bool * WB.WriteBuffer) :=
  w ← get;
  match WB.flush (writes w) wb with
  | (WB.Ret drained, wb', segs, ks) =>
      modify (λ w, w{{writes := ks}}) ;; emit (EOut fd segs) ;; mret (drained, wb')
  | (WB.Running, _, _, _) => fail
  end.

Definition dc_write (idx : nat) (fd' : Z) (data : bytes) : M Z :=
  dc ← get_dc idx;
  '(ret, wb) ← wb_write fd' data (writer dc);
  upd_dc idx (λ dc, dc{{writer := wb}}) ;; mret ret.

Definition dc_flush (idx : nat) : M bool :=
  dc ← get_dc idx;
  '(drained, wb) ← wb_flush (fd dc) (writer dc);
  upd_dc idx (λ dc, dc{{writer := wb}}) ;; mret drained.

Definition target_flush (cid : Z) (t : TargetConn) : M bool :=
  '(drained, wb) ← wb_flush (t_fd t) (t_writer t);
  upd_target cid (λ t, t{{t_writer := wb}}) ;; mret drained.

(** ** Small operations *)

Definition send_packet (pkt : Packet) : M unit :=
  fd ← get_ses client_fd; emit (ESend fd pkt).

Definition register_data_conn_epollout (idx : nat) (fd' : Z) : M unit :=
  dcs ← get_ses data_connections;
  match dcs !! idx with
  | None => mret tt
  | Some dc =>
      if WB.registered (writer dc) then mret tt else
      upd_dc idx (λ dc, dc{{writer ::= WB.set_registered true}}) ;;
      add_fd_handler fd' (HDataOut idx) EPOLLOUT
  end.

Definition register_target_epollout (cid tfd : Z) : M unit :=
  t ← get_target cid;
  match t with
  | None => mret tt
  | Some t =>
      if WB.registered (t_writer t) then mret tt else
      upd_target cid (λ t, t{{t_writer ::= WB.set_registered true}}) ;;
      add_fd_handler tfd (HTargetOut cid) EPOLLOUT
  end.

(** [send_control]; the choice of the connection is [Control.send_control]. *)
Definition send_control (pkt : Packet) : M unit :=
  s ← get_ses id;
  let '(snd', choice) := Control.send_control (control s) (map fd (data_connections s)) pkt in
  upd (λ s, s{{control := snd'}}) ;;
  match choice with
  | None => mret tt
  | Some (idx, frame) =>
      upd_dc idx (λ dc, dc{{writer ::= WB.write_priority frame}}) ;;
      dc ← get_dc idx;
      when (negb (WB.registered (writer dc))) (register_data_conn_epollout idx (fd dc))
  end.

Definition send_writer_pause (cid : Z) : M unit := send_control (make_msg MSG_WRITER_PAUSE [cid]).
Definition send_writer_resume (cid : Z) : M unit :=
  send_control (make_msg MSG_WRITER_RESUME [cid]).
Definition send_chain_pause : M unit := send_control (make_msg MSG_CHAIN_PAUSE []).
Definition send_chain_resume : M unit := send_control (make_msg MSG_CHAIN_RESUME []).
Definition send_fail (cid req_id : Z) : M unit :=
  send_control (make_msg MSG_CONNECT_FAIL [cid; req_id]).

Definition close_target (cid : Z) : M unit :=
  t ← get_target cid;
  match t with
  | None => mret tt
  | Some t => del_fd (t_fd t) ;; close (t_fd t) ;; upd (λ s, s{{targets ::= delete cid}})
  end.

(** [while (!targets_.empty()) close_target(targets_.begin()->first)]. *)
Definition close_all_targets : M unit :=
  ids ← get_ses (λ s, map fst (map_to_list (targets s)));
  each ids close_target.

(** [for (auto &[cid, tgt] : targets_) f(cid, tgt)]. *)
Definition for_targets (f : Z → TargetConn → M unit) : M unit :=
  ids ← get_ses (λ s, map fst (map_to_list (targets s)));
  each ids (λ cid, t ← get_target cid; match t with Some t => f cid t | None => mret tt end).

(** ** Flow control *)

(** MSG_WRITER_PAUSE, MSG_WRITER_RESUME, MSG_CHAIN_PAUSE and MSG_CHAIN_RESUME. *)
Definition writer_pause (cid : Z) : M unit :=
  t ← get_target cid;
  match t with
  | None => mret tt
  | Some t => upd_target cid (λ t, t{{writer_paused := true}}) ;;
              mod_fd_events (t_fd t) 0 EPOLLIN
  end.

(** The case of [on_data] does not look at the descriptor ([any_fd]); that of
    [apply_control] does. *)
Definition writer_resume (any_fd : bool) (cid : Z) : M unit :=
  t ← get_target cid;
  match t with
  | None => mret tt
  | Some t =>
      upd_target cid (λ t, t{{writer_paused := false}}) ;;
      when ((any_fd || (0 <=? t_fd t)) && negb (chain_paused t) && negb (ext_overflow_paused t))
           (mod_fd_events (t_fd t) EPOLLIN 0)
  end.

Definition recv_chain_pause : M unit :=
  for_targets (λ cid t,
    upd_target cid (λ t, t{{chain_paused := true}}) ;;
    when (0 <=? t_fd t) (mod_fd_events (t_fd t) 0 EPOLLIN)).

Definition recv_chain_resume : M unit :=
  for_targets (λ cid t,
    upd_target cid (λ t, t{{chain_paused := false}}) ;;
    when ((0 <=? t_fd t) && negb (writer_paused t) && negb (ext_overflow_paused t))
         (mod_fd_events (t_fd t) EPOLLIN 0)).

(** ** Connections to targets *)

Definition CONN_ID_NONE : Z := 255.

(** The loop tests the same [next] 256 times: it moves only when it is free. *)
Definition alloc_conn_id : M Z :=
  w ← get;
  match targets (ses w) !! next_conn_id w with
  | None => modify (λ w, w{{next_conn_id ::= λ n, u8 (n + 1)}}) ;; mret (next_conn_id w)
  | Some _ => mret CONN_ID_NONE
  end.

(** [target_addr.find(':')] and the two [substr]. *)
Fixpoint split_colon (a : bytes) : option (bytes * bytes) :=
  match a with
  | [] => None
  | c :: rest =>
      if c =? 58 then Some ([], rest)
      else '(h, p) ← split_colon rest; Some (c :: h, p)
  end.

Definition on_target_connected (fd cid req_id : Z) : M unit :=
  upd (λ s, s{{pending_connects ::= delete req_id;
               targets ::= insert cid (new_target fd []);
               in_paused ::= insert cid false}}) ;;
  add_fd_handler fd (HTarget cid) EPOLLIN ;;
  send_control (make_msg MSG_CONNECT_OK [cid; req_id]).

Fixpoint try_connect (now cid req_id : Z) (rs : list attempt) : M unit :=
  match rs with
  | [] => send_fail cid req_id
  | NoSocket :: rest => try_connect now cid req_id rest
  | Connected fd :: _ => on_target_connected fd cid req_id
  | InProgress fd :: _ =>
      upd (λ s, s{{pending_connects ::= insert req_id (mkPC fd cid req_id now)}}) ;;
      add_fd_handler fd (HConnect cid req_id) EPOLLOUT
  | Refused fd :: rest => close fd ;; try_connect now cid req_id rest
  end.

Definition setup_tunnel_target_async (now : Z) (target_addr : bytes) (cid req_id : Z) : M unit :=
  match split_colon target_addr with
  | None => send_fail cid req_id
  | Some (host, port) =>
      match getaddrinfo host port with
      | None => send_fail cid req_id
      | Some rs => try_connect now cid req_id rs
      end
  end.

(** The EPOLLOUT/EPOLLERR callback of a connect in progress; [so_error] is what
    getsockopt reports, [None] when that call itself fails. *)
Definition on_connect_event (ev_fd cid req_id events : Z) (so_error : option Z) : M unit :=
  let failed := close ev_fd ;; upd (λ s, s{{pending_connects ::= delete req_id}}) ;;
                send_fail cid req_id in
  when (has events EPOLLOUT)
    (if bool_decide (so_error = Some 0)
     then mod_fd_events ev_fd 0 EPOLLOUT ;; on_target_connected ev_fd cid req_id
     else failed) ;;
  when (has events (Z.lor EPOLLERR EPOLLHUP)) failed.

Definition handle_connect_req (now : Z) (pkt : Packet) : M unit :=
  match payload pkt with
  | req_id :: addr_len :: rest =>
      if (Z.of_nat (length rest) <? addr_len) then mret tt else
      let target_addr := take (Z.to_nat addr_len) rest in
      cid ← alloc_conn_id;
      if cid =? CONN_ID_NONE then send_fail 0 req_id
      else setup_tunnel_target_async now target_addr cid req_id
  | _ => mret tt
  end.

Definition handle_connect_cancel (pkt : Packet) : M unit :=
  match payload pkt with
  | [] => mret tt
  | req_id :: _ =>
      pcs ← get_ses pending_connects;
      match pcs !! req_id with
      | None => mret tt
      | Some pc => close (pc_fd pc) ;; upd (λ s, s{{pending_connects ::= delete req_id}})
      end
  end.

Definition CONNECT_TIMEOUT_MS : Z := 5000.

Definition check_pending_connect_timeout (now : Z) : M unit :=
  pcs ← get_ses (λ s, map_to_list (pending_connects s));
  each pcs (λ '(k, pc),
    when (CONNECT_TIMEOUT_MS <? now - started_at pc)
      (close (pc_fd pc) ;; send_fail (pc_conn_id pc) (pc_req_id pc) ;;
       upd (λ s, s{{pending_connects ::= delete k}}))).

Definition handle_disconnect (pkt : Packet) : M unit :=
  match payload pkt with
  | [] => mret tt
  | cid :: _ => upd (λ s, s{{in_paused ::= delete cid;
                             pending_disconnect_targets ::= λ l, l ++ [cid] }})
  end.

(** [setup_tunnel_target]: blocking connect, used after a reconnection. *)
Fixpoint first_connected (rs : list attempt) : M (option Z) :=
  match rs with
  | [] => mret None
  | NoSocket :: rest => first_connected rest
  | Connected fd :: _ => mret (Some fd)
  | InProgress fd :: rest | Refused fd :: rest => close fd ;; first_connected rest
  end.

Definition setup_tunnel_target (target_addr : bytes) (cid : Z) : M bool :=
  match split_colon target_addr with
  | None => mret false
  | Some (host, port) =>
      match getaddrinfo host port with
      | None => mret false
      | Some rs =>
          r ← first_connected rs;
          match r with
          | None => mret false
          | Some fd => upd (λ s, s{{targets ::= insert cid (new_target fd target_addr)}}) ;;
                       mret true
          end
      end
  end.

Definition process_pending_reconnect_targets : M unit :=
  l ← get_ses pending_reconnect_targets;
  upd (λ s, s{{pending_reconnect_targets := [] }}) ;;
  each l (λ '(cid, addr),
    t ← get_target cid;
    match t with
    | Some _ => mret tt
    | None =>
        ok ← setup_tunnel_target addr cid;
        if (ok : bool) then
          t ← get_target cid;
          match t with
          | Some t => add_fd_handler (t_fd t) (HTarget cid) EPOLLIN
          | None => mret tt
          end
        else mret tt
    end).

(** ** Half-close and end of a target *)

(** WIRE_SHUTDOWN_WR from the client. *)
Definition recv_shutdown_wr (cid : Z) : M unit :=
  t ← get_target cid;
  match t with
  | None => mret tt
  | Some t =>
      upd_target cid (λ t, t{{shutdown_wr := true}}) ;;
      done_ ← (if WB.empty (t_writer t) then mret true else target_flush cid t);
      when done_ (shutdown (t_fd t) ;; upd_target cid (λ t, t{{shutdown_wr_sent := true}})) ;;
      t' ← get_target cid;
      match t' with
      | Some t' => when (negb (shutdown_wr_sent t') && negb (WB.registered (t_writer t')))
                        (register_target_epollout cid (t_fd t'))
      | None => mret tt
      end
  end.

(** A buffer of the chain, null when malloc fails. *)
Definition chain_alloc (size : Z) : M bool :=
  c ← get_ses chain;
  match c with
  | None => fail
  | Some c => match alloc_buffer size c with
              | Some c' => upd (λ s, s{{chain := Some c'}}) ;; mret true
              | None => mret false
              end
  end.

Definition chain_push (asize : Z) (data : bytes) (src_idx dir : Z) : M unit :=
  emit (EPush data src_idx dir) ;;
  upd (λ s, s{{chain ::= fmap (push_packet asize data src_idx dir)}}).

Definition chain_free (asize : Z) : M unit :=
  upd (λ s, s{{chain ::= fmap (free_buffer asize)}}).

Definition send_disconnect_now (cid : Z) : M unit :=
  t ← get_target cid;
  match t with
  | None => mret tt
  | Some t =>
      dcs ← get_ses data_connections;
      let open0 := match dcs with dc :: _ => 0 <=? fd dc | [] => false end in
      when open0 (dc_flush 0 ;; mret tt) ;;
      if shutdown_wr_sent t then
        when open0
          (dc ← get_dc 0;
           dc_write 0 (fd dc) (shutdown_wr_ack_frame cid) ;;
           dc ← get_dc 0;
           when ((0 <? WB.size (writer dc)) && negb (WB.registered (writer dc)))
                (register_data_conn_epollout 0 (fd dc))) ;;
        close_target cid
      else
        close_target cid ;;
        c ← get_ses chain;
        match c with
        | Some _ =>
            ok ← chain_alloc 3;
            if (ok : bool) then chain_push 3 [255; CHAIN_CTRL_DISCONNECT; cid] 0 0 else fail
        | None => send_control (make_msg MSG_DISCONNECT [cid])
        end
  end.

Definition send_pending_disconnects : M unit :=
  ids ← get_ses disconnect_ids;
  match ids with
  | [] => mret tt
  | _ => each ids send_disconnect_now ;;
         upd (λ s, s{{disconnect_ids := []; disconnect_pending := false}})
  end.

Definition handle_target_eof (cid : Z) : M unit :=
  t ← get_target cid;
  match t with
  | None => mret tt
  | Some _ =>
      c ← get_ses chain;
      if match c with Some c => negb (is_drained c) | None => false end
      then upd (λ s, s{{disconnect_pending := true; disconnect_ids ::= λ l, l ++ [cid] }})
      else send_disconnect_now cid
  end.

(** What [read] returns. *)
Inductive readres := RdData (d : bytes) | RdEof | RdAgain | RdErr.

(** One read of a target: [false] when the loop of the EPOLLHUP branch is to stop. *)
Definition target_read (cid : Z) (r : readres) : M bool :=
  c ← get_ses chain;
  if match c with Some c => is_backpressure_paused 0 c | None => false end then mret false else
  ok ← chain_alloc MAX_PACKET_SIZE;
  if negb ok then mret false else
  s ← get_ses state;
  match r with
  | RdData d =>
      (if state_eqb s RUNNING then chain_push MAX_PACKET_SIZE (cid :: d) 0 0
       else chain_free MAX_PACKET_SIZE) ;; mret true
  | RdEof | RdErr => chain_free MAX_PACKET_SIZE ;; handle_target_eof cid ;; mret false
  | RdAgain => chain_free MAX_PACKET_SIZE ;; mret false
  end.

(** The reads of the EPOLLHUP branch go on until one is not data. *)
Fixpoint target_drain (cid : Z) (rs : list readres) : M unit :=
  match rs with
  | [] => fail
  | r :: rest => go ← target_read cid r; if (go : bool) then target_drain cid rest else mret tt
  end.

Definition on_target_event (cid events : Z) (rs : list readres) : M unit :=
  when (has events EPOLLIN)
    (match rs with r :: _ => target_read cid r ;; mret tt | [] => fail end) ;;
  when (has events (Z.lor EPOLLERR EPOLLHUP))
    (target_drain cid (if has events EPOLLIN then tail rs else rs)).

Definition on_target_out_event (cid ev_fd events : Z) : M unit :=
  when (has events EPOLLOUT)
    (t ← get_target cid;
     match t with
     | None => mret tt
     | Some t =>
         '(drained, wb) ← wb_flush ev_fd (t_writer t);
         upd_target cid (λ t, t{{t_writer := wb}}) ;;
         when drained
           (upd_target cid (λ t, t{{t_writer ::= WB.set_registered false}}) ;;
            mod_fd_events ev_fd 0 EPOLLOUT ;;
            when (shutdown_wr t && negb (shutdown_wr_sent t))
              (shutdown ev_fd ;; upd_target cid (λ t, t{{shutdown_wr_sent := true}})) ;;
            when (local_writer_sent t)
              (upd_target cid (λ t, t{{local_writer_sent := false}}) ;;
               upd (λ s, s{{in_paused ::= insert cid false}}) ;;
               send_writer_resume cid))
     end) ;;
  when (has events (Z.lor EPOLLERR EPOLLHUP)) (upd (λ s, s{{targets ::= delete cid}})).

(** ** Modules and chain *)

(** The mids of a module list that no loaded module has. *)
Fixpoint missing_mids (count : nat) (l : bytes) : list bytes :=
  match count with
  | O => []
  | S k => let mid := to_hex (take 32 l) in
           let rest := missing_mids k (drop 32 l) in
           if bool_decide (mid ∈ bases) then rest else mid :: rest
  end.

Definition module_list_fail (missing : list bytes) : bytes :=
  0 :: u8 (Z.of_nat (length missing))
    :: concat (map (λ m, u8 (Z.of_nat (length m)) :: m) missing).

Definition handle_module_list_req (pkt : Packet) : M unit :=
  match payload pkt with
  | [] => mret tt
  | count :: rest =>
      if Z.of_nat (length rest) <? count * 32 then mret tt else
      match missing_mids (Z.to_nat count) rest with
      | [] => send_control (make_msg MSG_MODULE_LIST_RES [1])
      | missing => send_control (make_msg MSG_MODULE_LIST_RES (module_list_fail missing)) ;;
                   set_state DISCONNECTED
      end
  end.

(** The loop of [handle_chain_create]: it stops at the first entry that does not fit. *)
Fixpoint decode_modules (count : nat) (l : bytes) : list ModuleSpec :=
  match count with
  | O => []
  | S k =>
      match l with
      | [] => []
      | name_len :: l1 =>
          let n := Z.to_nat name_len in
          if (length l1 <? n)%nat then [] else
          match drop n l1 with
          | lo :: hi :: l2 =>
              let plen := Z.to_nat (Z.lor lo (Z.shiftl hi 8)) in
              if (length l2 <? plen)%nat then []
              else mkSpec (take n l1) (take plen l2) :: decode_modules k (drop plen l2)
          | _ => []
          end
      end
  end.

(** 8 bytes of the session id, least significant first. *)
Definition sid_bytes (sid : Z) : bytes :=
  map (λ i, Z.land (Z.shiftr sid (8 * Z.of_nat i)) 0xFF) (seq 0 8).

Definition all_ready (s : Session) : bool := forallb (λ dc, 0 <=? fd dc) (data_connections s).

Definition send_transmit_ready : M unit :=
  process_pending_reconnect_targets ;; send_control (make_msg MSG_TRANSMIT_READY []).

Definition register_data_connection_reader (idx : nat) : M unit :=
  dcs ← get_ses data_connections;
  match dcs !! idx with
  | Some dc => when (0 <=? fd dc) (add_fd_handler (fd dc) (HData idx) EPOLLIN)
  | None => mret tt
  end.

Definition process_pending_data_conns : M unit :=
  l ← get_ses pending_data_conns;
  each l (λ '(output_idx, fd'),
    dcs ← get_ses data_connections;
    match dcs !! Z.to_nat output_idx with
    | Some dc =>
        if fd dc <? 0 then
          upd_dc (Z.to_nat output_idx) (λ dc, dc{{fd := fd'}}) ;;
          register_data_connection_reader (Z.to_nat output_idx)
        else close fd'
    | None => close fd'
    end) ;;
  upd (λ s, s{{pending_data_conns := [] }}) ;;
  s ← get_ses id;
  when (all_ready s && state_eqb (state s) RUNNING) send_transmit_ready.

(** [data_connections_.resize(n)] when it grows. *)
Definition grow (n : nat) (l : list DataConnection) : list DataConnection :=
  l ++ replicate (n - length l) new_dc.

Definition handle_chain_create (now : Z) (pkt : Packet) : M unit :=
  match payload pkt with
  | [] => mret tt
  | count :: l =>
      let mods := decode_modules (Z.to_nat count) l in
      let c := chain_new now mods in
      upd (λ s, s{{chain_config := mods; chain := Some c}}) ;;
      if MAX_WIRE_CONNECTIONS <? total_extra_outputs c then set_state DISCONNECTED else
      let extra := total_extra_outputs c in
      upd (λ s, s{{state := RUNNING; extra_outputs := extra;
                   data_connections ::= grow (Z.to_nat (1 + extra))}}) ;;
      process_pending_data_conns ;;
      s ← get_ses id;
      when ((0 <? extra) && all_ready s && state_eqb (state s) RUNNING) send_transmit_ready ;;
      send_control (make_msg MSG_CHAIN_READY (1 :: sid_bytes (session_id s))) ;;
      when (extra =? 0) send_transmit_ready
  end.

(** ** Control messages *)

Definition payload_cid (pkt : Packet) : Z := match payload pkt with [] => 0 | c :: _ => c end.

Definition apply_control (now : Z) (pkt : Packet) : M unit :=
  let ty := type pkt in
  if ty =? MSG_CONNECT_REQ then handle_connect_req now pkt
  else if ty =? MSG_CONNECT_CANCEL then handle_connect_cancel pkt
  else if ty =? MSG_DISCONNECT then handle_disconnect pkt
  else if ty =? MSG_MODULE_LIST_REQ then handle_module_list_req pkt
  else if ty =? MSG_CHAIN_CREATE then handle_chain_create now pkt
  else if ty =? MSG_WRITER_PAUSE then writer_pause (payload_cid pkt)
  else if ty =? MSG_WRITER_RESUME then writer_resume false (payload_cid pkt)
  else if ty =? MSG_CHAIN_PAUSE then recv_chain_pause
  else if ty =? MSG_CHAIN_RESUME then recv_chain_resume
  else mret tt.

Definition deliver_control (now seq : Z) (pkt : Packet) : M unit :=
  r ← get_ses reorder;
  let '(r', pkts) := Control.deliver_control r seq pkt in
  upd (λ s, s{{reorder := r'}}) ;;
  each pkts (apply_control now).

Definition dispatch_data_conn_packet (payload : bytes) (src_idx : Z) : M unit :=
  s ← get_ses id;
  match payload, chain s with
  | _ :: _, Some _ =>
      when (state_eqb (state s) RUNNING)
        (ok ← chain_alloc (Z.of_nat (length payload));
         when ok (chain_push (Z.of_nat (length payload)) payload src_idx 1))
  | _, _ => mret tt
  end.

Definition leftover_item (now : Z) (i : leftover) : M unit :=
  match i with
  | LControl pkt => apply_control now pkt
  | LData d => dispatch_data_conn_packet d 1
  | LShutdownWr cid => recv_shutdown_wr cid
  end.

Definition process_wire_buffer (now : Z) (data : bytes) : M unit :=
  items ← of_option (Control.process_wire_buffer (length data) Server data);
  each items (leftover_item now).

(** ** The data connections *)

(** One frame of connection [idx]. *)
Definition handle_frame (now : Z) (idx : nat) (f : frame) : M unit :=
  let register := dc ← get_dc idx;
                  when ((0 <? WB.size (writer dc)) && negb (WB.registered (writer dc)))
                       (register_data_conn_epollout idx (fd dc)) in
  match f with
  | FPing => dc ← get_dc idx; dc_write idx (fd dc) pong_frame ;; register
  | FPong | FIgnored | FShutdownWrAck _ => mret tt
  | FShutdownWr cid => recv_shutdown_wr cid
  | FControl seq proto =>
      match try_parse proto with
      | ParseOk pkt total => when (0 <? total) (deliver_control now seq pkt)
      | ParseNone => mret tt
      | ParseUndefined => fail
      end
  | FAck a => upd_dc idx (λ dc, dc{{link ::= on_ack a}})
  | FData seq d =>
      dc ← get_dc idx;
      let '(l, ok, ack) := on_data seq (link dc) in
      upd_dc idx (λ dc, dc{{link := l}}) ;;
      when ok (dispatch_data_conn_packet d (Z.of_nat idx + 1)) ;;
      upd_dc idx (λ dc, dc{{writer ::= WB.write_priority ack}}) ;; register
  end.

Definition on_disconnect : M unit :=
  s ← get_ses id;
  if paused s then mret tt else
  upd (λ s, s{{paused := true}}) ;;
  if negb (state_eqb (state s) RUNNING) then upd (λ s, s{{paused := false}}) else
  upd (λ s, s{{saved_targets := map (λ '(c, t), (c, t_addr t)) (map_to_list (targets s))}}) ;;
  close_all_targets ;;
  each (seq 0 (length (data_connections s))) (λ i,
    dc ← get_dc i;
    when (0 <=? fd dc)
      (del_fd (fd dc) ;;
       when (negb (i =? 0)%nat) (close (fd dc)) ;;
       upd_dc i (λ dc, dc{{fd := -1; writer ::= WB.clear;
                           rbuf ::= λ rb, mkRBuf [] (read_offset rb)}}))) ;;
  upd (λ s, s{{paused := true}}).

(** The end of connection [idx], seen by its reader. *)
Definition data_conn_lost (idx : nat) : M unit :=
  dc ← get_dc idx;
  del_fd (fd dc) ;;
  upd_dc idx (λ dc, dc{{rbuf := mkRBuf [] 0; fd := -1}}) ;;
  on_disconnect ;; emit EParked.

Definition on_data_event (now : Z) (idx : nat) (r : readres) : M unit :=
  dc ← get_dc idx;
  let old := length (read_buf (rbuf dc)) in
  match r with
  | RdEof => data_conn_lost idx
  | RdAgain => mret tt
  | RdErr =>
      data_conn_lost idx ;;
      upd_dc idx (λ dc, dc{{rbuf ::= λ rb,
        mkRBuf (take old (read_buf rb) ++ replicate (old - length (read_buf rb)) 0) (read_offset rb)}})
  | RdData d =>
      upd (λ s, s{{last_wire_activity := now; heartbeating := false}}) ;;
      '(fs, rb, _) ← of_option (on_readable Server (rbuf dc) d);
      upd_dc idx (λ dc, dc{{rbuf := rb}}) ;;
      each fs (handle_frame now idx)
  end.

Definition on_data_out_event (idx : nat) (events : Z) : M unit :=
  dcs ← get_ses data_connections;
  match dcs !! idx with
  | None => mret tt
  | Some _ =>
      when (has events EPOLLOUT)
        (drained ← dc_flush idx;
         when (negb drained) (dc_flush idx ;; mret tt) ;;
         dc ← get_dc idx;
         when (WB.empty (writer dc))
           (upd_dc idx (λ dc, dc{{writer ::= WB.set_registered false}}) ;;
            mod_fd_events (fd dc) 0 EPOLLOUT)) ;;
      when (has events (Z.lor EPOLLERR EPOLLHUP)) (upd_dc idx (λ dc, dc{{writer ::= WB.clear}}))
  end.

Definition add_data_connection (output_idx fd' : Z) : M unit :=
  s ← get_ses id;
  let i := Z.to_nat output_idx in
  match data_connections s !! i with
  | None => upd (λ s, s{{pending_data_conns ::= λ l, l ++ [(output_idx, fd')] }})
  | Some dc =>
      when (0 <=? fd dc)
        (del_fd (fd dc) ;; close (fd dc) ;;
         upd_dc i (λ dc, new_dc{{link := link dc}})) ;;
      upd_dc i (λ dc, dc{{fd := fd'}}) ;;
      register_data_connection_reader i ;;
      s ← get_ses id;
      when (all_ready s && state_eqb (state s) RUNNING) send_transmit_ready
  end.

Definition reconnect (new_client_fd : Z) : M bool :=
  s ← get_ses id;
  if negb (paused s) then mret false else
  when ((0 <=? client_fd s) && negb (client_fd s =? new_client_fd))
    (del_fd (client_fd s) ;; close (client_fd s)) ;;
  dc0 ← get_dc 0;
  upd (λ s, s{{client_fd := new_client_fd}}) ;;
  upd_dc 0 (λ dc, dc{{writer ::= WB.clear; rbuf := mkRBuf [] 0; fd := new_client_fd}}) ;;
  register_data_connection_reader 0 ;;
  upd (λ s, s{{pending_reconnect_targets := saved_targets s; saved_targets := [] }}) ;;
  process_pending_reconnect_targets ;;
  upd (λ s, s{{paused := false}}) ;; mret true.

(** ** Authentication *)

Definition handle_auth_challenge_response (pkt : Packet) : M unit :=
  s ← get_ses id;
  if bool_decide (payload pkt = hex_sha256 sha256 (challenge1 s ++ password s)) then
    send_packet (make_msg MSG_AUTH_OK (1 :: sid_bytes (session_id s))) ;;
    set_state AWAIT_AUTH1_OK
  else
    send_packet (make_msg MSG_AUTH_OK [0]) ;; set_state DISCONNECTED.

Definition handle_auth2_challenge (pkt : Packet) : M unit :=
  s ← get_ses id;
  send_packet (make_msg MSG_AUTH_RESPONSE (hex_sha256 sha256 (payload pkt ++ password s))) ;;
  set_state AWAIT_AUTH2_RESPONSE.

(** The connection becomes the first data connection; bytes that came with the last message
    are read in the wire format. *)
Definition switch_to_wire (now : Z) : M unit :=
  upd (λ s, s{{data_connections ::= λ l, take 1 l ++ replicate (1 - length l) new_dc}}) ;;
  s ← get_ses id;
  upd_dc 0 (λ dc, dc{{fd := client_fd s}}) ;;
  register_data_connection_reader 0 ;;
  when (negb (bool_decide (recv_buf s = [])))
    (process_wire_buffer now (recv_buf s) ;; upd (λ s, s{{recv_buf := [] }})).

Definition handle_auth2_response (now : Z) (pkt : Packet) : M unit :=
  match payload pkt with
  | 1 :: _ => switch_to_wire now ;; set_state AWAIT_CHAIN_CREATE
  | _ => set_state DISCONNECTED
  end.

(** The session id of a reconnection request, least significant byte first. *)
Definition le64 (l : bytes) : Z :=
  foldr (λ b acc, b + 256 * acc) 0 (take 8 l).

Definition handle_reconnect (pkt : Packet) : M unit :=
  let refuse := send_packet (make_msg MSG_AUTH_OK [0]) in
  if negb (length (payload pkt) =? 72)%nat then refuse else
  s ← get_ses id;
  if negb (bool_decide (drop 8 (payload pkt) = hex_sha256 sha256 (challenge1 s ++ password s)))
  then refuse ;; set_state DISCONNECTED
  else match reconnect_old (le64 (payload pkt)) (client_fd s) with
       | Some true =>
           send_packet (make_msg MSG_AUTH_OK [1]) ;;
           upd (λ s, s{{client_fd := -1; state := DISCONNECTED}})
       | _ => refuse
       end.

(** The [switch] of [on_data] before and after the authentication. *)
Definition auth_packet (now : Z) (pkt : Packet) : M unit :=
  st ← get_ses state;
  let ty := type pkt in
  if ty =? MSG_AUTH_RESPONSE then
    if state_eqb st AWAIT_AUTH1_CHALLENGE_RESP then handle_auth_challenge_response pkt
    else when (state_eqb st AWAIT_AUTH2_RESPONSE) (handle_auth2_response now pkt)
  else if ty =? MSG_AUTH_OK then
    when (state_eqb st AWAIT_AUTH2_RESPONSE) (handle_auth2_response now pkt)
  else if ty =? MSG_AUTH_CHALLENGE then
    when (state_eqb st AWAIT_AUTH1_OK) (handle_auth2_challenge pkt)
  else if ty =? MSG_RECONNECT then
    when (in_state st [AWAIT_AUTH1_CHALLENGE_RESP; AWAIT_CONNECT_REQ; AWAIT_CHAIN_CREATE])
         (handle_reconnect pkt)
  else mret tt.

Definition wire_packet (now : Z) (pkt : Packet) : M unit :=
  st ← get_ses state;
  let ty := type pkt in
  let up := in_state st [RUNNING; AWAIT_CHAIN_CREATE] in
  let with_cid (f : Z → M unit) := match payload pkt with [] => mret tt | c :: _ => f c end in
  if (ty =? MSG_AUTH_RESPONSE) || (ty =? MSG_AUTH_OK) then
    when (state_eqb st AWAIT_AUTH2_RESPONSE) (handle_auth2_response now pkt)
  else if ty =? MSG_AUTH_CHALLENGE then
    when (state_eqb st AWAIT_AUTH1_OK) (handle_auth2_challenge pkt)
  else if ty =? MSG_RECONNECT then
    when (in_state st [AWAIT_CONNECT_REQ; AWAIT_CHAIN_CREATE]) (handle_reconnect pkt)
  else if ty =? MSG_CONNECT_REQ then when up (handle_connect_req now pkt)
  else if ty =? MSG_CHAIN_CREATE then
    when (state_eqb st AWAIT_CHAIN_CREATE) (handle_chain_create now pkt)
  else if ty =? MSG_DISCONNECT then when up (handle_disconnect pkt)
  else if ty =? MSG_CONNECT_CANCEL then when up (handle_connect_cancel pkt)
  else if ty =? MSG_WRITER_PAUSE then when up (with_cid writer_pause)
  else if ty =? MSG_WRITER_RESUME then when up (with_cid (writer_resume true))
  else if ty =? MSG_CHAIN_PAUSE then when up recv_chain_pause
  else if ty =? MSG_CHAIN_RESUME then when up recv_chain_resume
  else mret tt.

(** The two loops of [on_data]: parse, drop what was used, dispatch. Every packet uses at
    least two bytes, so the length of the buffer bounds the rounds. *)
Fixpoint packet_loop (fuel : nat) (now : Z) (in_auth : bool) : M unit :=
  match fuel with
  | O => mret tt
  | S k =>
      buf ← get_ses recv_buf;
      match try_parse buf with
      | ParseUndefined => fail
      | ParseNone => mret tt
      | ParseOk pkt total =>
          if total =? 0 then mret tt else
          upd (λ s, s{{recv_buf ::= drop (Z.to_nat total)}}) ;;
          (if in_auth then auth_packet now pkt else wire_packet now pkt) ;;
          st ← get_ses state;
          if in_auth && (3 <=? state_rank st)%nat then mret tt else packet_loop k now in_auth
      end
  end.

Definition on_data (now : Z) (data : bytes) : M unit :=
  s ← get_ses id;
  if (state_rank (state s) <? 3)%nat then
    upd (λ s, s{{recv_buf ::= λ b, b ++ data}}) ;;
    packet_loop (length (recv_buf s ++ data)) now true
  else if client_fd s <? 0 then mret tt
  else upd (λ s, s{{recv_buf ::= λ b, b ++ data}}) ;;
       packet_loop (length (recv_buf s ++ data)) now false.

(** ** The chain's exit *)

Definition push_io (l : list io) : M unit := upd (λ s, s{{pending_io ::= λ q, q ++ l}}).

(** [wire_write], dst 0: to a target, or an in-band control message. *)
Definition wire_write_target (data : bytes) : M Z :=
  match data with
  | [] => mret 0
  | 255 :: rest =>
      match rest with
      | 0x52 :: cid :: _ =>
          t ← get_target cid;
          match t with
          | None => mret 0
          | Some t =>
              upd_target cid (λ t, t{{shutdown_wr := true}}) ;;
              done_ ← (if WB.empty (t_writer t) then mret true else target_flush cid t);
              when done_ (shutdown (t_fd t) ;; upd_target cid (λ t, t{{shutdown_wr_sent := true}})) ;;
              mret 0
          end
      | _ => mret 0
      end
  | cid :: payload =>
      t ← get_target cid;
      match t with
      | None => mret 0
      | Some t =>
          '(ret, wb) ← wb_write (t_fd t) payload (t_writer t);
          upd_target cid (λ t, t{{t_writer := wb}}) ;;
          paused ← get_ses (λ s, default false (in_paused s !! cid));
          let need_pause := (0 <? ret) && negb paused in
          when (0 <? ret) (upd (λ s, s{{in_paused ::= insert cid true}})) ;;
          when (0 <? ret) (push_io [IoRegisterTarget cid] ;; wakeup) ;;
          when need_pause (push_io [IoPauseTarget cid] ;; wakeup) ;;
          mret 0
      end
  end.

(** [wire_write], dst >= 1: to a data connection, numbered. *)
Definition wire_write (now dst : Z) (data : bytes) : M Z :=
  if dst =? 0 then wire_write_target data else
  s ← get_ses id;
  let i := Z.to_nat (dst - 1) in
  match (if dst <? 1 then None else data_connections s !! i) with
  | None => mret (-1)
  | Some dc =>
      if fd dc <? 0 then mret (-1) else
      let '(l, frame) := send_data now data (link dc) in
      ret ← dc_write i (fd dc) frame;
      upd_dc i (λ dc, dc{{link := l}}) ;;
      (if 0 <? ret then push_io [IoRegisterData i (fd dc)] ;; wakeup
       else when (ret <? 0) (push_io [IoDropData i] ;; wakeup)) ;;
      mret 0
  end.

(** [chain_ref_.register_in_epollout]. *)
Definition register_in_epollout (cid : Z) : M unit :=
  t ← get_target cid;
  match t with Some t => register_target_epollout cid (t_fd t) | None => mret tt end.

Definition run_io (i : io) : M unit :=
  match i with
  | IoRegisterTarget cid => register_in_epollout cid
  | IoPauseTarget cid =>
      t ← get_target cid;
      match t with
      | Some t => when (negb (local_writer_sent t))
                    (upd_target cid (λ t, t{{local_writer_sent := true}}) ;; send_writer_pause cid)
      | None => mret tt
      end
  | IoRegisterData idx fd' =>
      dcs ← get_ses data_connections;
      match dcs !! idx with
      | Some dc => when (0 <=? fd dc) (register_data_conn_epollout idx fd')
      | None => mret tt
      end
  | IoDropData idx =>
      dcs ← get_ses data_connections;
      match dcs !! idx with
      | Some dc =>
          upd_dc idx (λ dc, dc{{writer ::= WB.clear}}) ;;
          when (0 <=? fd dc)
            (del_fd (fd dc) ;; close (fd dc) ;; upd_dc idx (λ dc, dc{{fd := -1}}))
      | None => mret tt
      end
  end.

(** ** The tick *)

(** Target readers stop while the data connections hold more than 1 MB, until they hold
    less than 256 KB. *)
Definition overflow_gate : M unit :=
  s ← get_ses id;
  let dc_size := foldr (λ dc acc, WB.size (writer dc) + acc) 0 (data_connections s) in
  if 1024 * 1024 <? dc_size then
    when (negb (dc_paused s))
      (upd (λ s, s{{dc_paused := true}}) ;;
       for_targets (λ cid t,
         upd_target cid (λ t, t{{ext_overflow_paused := true}}) ;;
         when (0 <=? t_fd t) (mod_fd_events (t_fd t) 0 EPOLLIN)))
  else when ((dc_size <? 256 * 1024) && dc_paused s)
    (upd (λ s, s{{dc_paused := false}}) ;;
     for_targets (λ cid t,
       upd_target cid (λ t, t{{ext_overflow_paused := false}}) ;;
       when ((0 <=? t_fd t) && negb (writer_paused t) && negb (chain_paused t))
            (mod_fd_events (t_fd t) EPOLLIN 0))).

Definition retransmit_all (now : Z) : M unit :=
  n ← get_ses (λ s, length (data_connections s));
  each (seq 0 n) (λ i,
    dc ← get_dc i;
    when (0 <=? fd dc)
      (let '(l, frames) := retransmit now (link dc) in
       upd_dc i (λ dc, dc{{link := l}}) ;;
       each frames (λ f, dc_write i (fd dc) f ;; mret tt))).

Definition run_pending_io : M unit :=
  batch ← get_ses pending_io;
  upd (λ s, s{{pending_io := [] }}) ;; each batch run_io.

(** MSG_CHAIN_PAUSE is sent once the chain has been full for 50 ms, MSG_CHAIN_RESUME when
    it no longer is. *)
Definition chain_debounce (now : Z) (bp1 : bool) : M unit :=
  s ← get_ses id;
  let local_sent := existsb (λ ct, local_chain_sent ct.2) (map_to_list (targets s)) in
  if bp1 then
    let since := default now (bp1_since s) in
    upd (λ s, s{{bp1_since := Some since}}) ;;
    when (negb local_sent && (50 <=? now - since))
      (upd (λ s, s{{targets ::= fmap (λ t, t{{local_chain_sent := true}})}}) ;; send_chain_pause)
  else
    upd (λ s, s{{bp1_since := None}}) ;;
    when local_sent
      (upd (λ s, s{{targets ::= fmap (λ t, t{{local_chain_sent := false}})}}) ;; send_chain_resume).

Definition should_pause (bp0 : bool) (t : TargetConn) : bool :=
  writer_paused t || chain_paused t || ext_overflow_paused t || bp0.

(** The central EPOLLIN gate. *)
Definition gate_targets (bp0 : bool) : M unit :=
  for_targets (λ cid t,
    if t_fd t <? 0 then mret tt else
    if should_pause bp0 t then
      when (negb (epollin_removed t))
        (upd_target cid (λ t, t{{epollin_removed := true}}) ;; mod_fd_events (t_fd t) 0 EPOLLIN)
    else
      when (epollin_removed t)
        (upd_target cid (λ t, t{{epollin_removed := false}}) ;; mod_fd_events (t_fd t) EPOLLIN 0)).

Definition chain_idle : M bool :=
  c ← get_ses chain; mret (match c with Some c => is_drained c | None => true end).

Definition process_pending_io (now : Z) : M unit :=
  check_pending_connect_timeout now ;;
  overflow_gate ;;
  retransmit_all now ;;
  run_pending_io ;;
  c ← get_ses chain;
  let bp d := match c with Some c => is_backpressure_paused d c | None => false end in
  chain_debounce now (bp 1) ;;
  gate_targets (bp 0) ;;
  s ← get_ses id;
  when (disconnect_pending s) (idle ← chain_idle; when idle send_pending_disconnects) ;;
  s ← get_ses id;
  match pending_disconnect_targets s with
  | [] => mret tt
  | ids =>
      idle ← chain_idle;
      when idle (each ids close_target ;; upd (λ s, s{{pending_disconnect_targets := [] }}))
  end.

Definition check_heartbeat (now : Z) : M unit :=
  s ← get_ses id;
  if negb (state_eqb (state s) RUNNING) then mret tt else
  let idle_ms := now - last_wire_activity s in
  if heartbeat_interval_ms s * 2 <? idle_ms then set_state DISCONNECTED else
  when ((heartbeat_interval_ms s <? idle_ms) && negb (heartbeating s))
    (upd (λ s, s{{heartbeating := true}}) ;;
     each (seq 0 (length (data_connections s))) (λ i,
       dc ← get_dc i;
       when (0 <=? fd dc)
         (dc_write i (fd dc) ping_frame ;;
          dc ← get_dc i;
          when (negb (WB.registered (writer dc)) && (0 <? WB.size (writer dc)))
               (register_data_conn_epollout i (fd dc))))) ;;
  upd (λ s, s{{chain ::= fmap (check_module_heartbeats now (heartbeat_interval_ms s))}}).

(** ** The end *)

Definition destroy (now : Z) : M unit :=
  upd (λ s, s{{chain ::= fmap (chain_cancel now)}}) ;;
  close_all_targets ;;
  dcs ← get_ses data_connections;
  each dcs (λ dc, when (0 <=? fd dc) (del_fd (fd dc) ;; close (fd dc))) ;;
  upd (λ s, s{{data_connections := [] }}) ;;
  c ← get_ses client_fd;
  when (0 <=? c) (del_fd c ;; close c).

End session.
End Session.
