(* ===== verification/Delivery.v ===== *)
(** * From the chain to the application's peer

    The packets that a session's chain hands out reach the sockets of the targets they are
    for, byte for byte, whatever the sockets take at a time; with the chains of the two
    endpoints between them ([SplitChain]), what a target gets is what the application's
    connection was read. *)

From coqutil Require Import Datatypes.RecordSetters.
From S2P Require Import Prelude Protocol WriteBuffer Frame Connection Ledger Control Reliable Kernel ChainApi Session.
Import DoubleBraceUpdate.
Local Open Scope Z_scope.

Module Delivery.
Import Session.

(** What the writes have put on a socket. *)
Definition eout (e : effect) : option (Z * list WB.seg) :=
  match e with EOut f ss => Some (f, ss) | _ => None end.
Definition sent_to (fd' : Z) (l : list effect) : bytes := Ledger.sent_to fd' (omap eout l).

Section target.
Context {C : Type} `{ChainOps C}.
Abbreviation World := (@World C).
Abbreviation Session := (@Session C).

(** One target, and the socket that only it uses. *)
Context (cid tfd : Z) (Htfd : 0 <= tfd).

(** All of [acc] is on the socket or waits in the target's writer. *)
Definition conn_of (t : TargetConn) : Z * WB.WriteBuffer := (t_fd t, t_writer t).
Definition ledger_of (s : Session) (l : list effect) : Ledger.t :=
  Ledger.mk (conn_of <$> targets s) (fd <$> data_connections s) (omap eout l).
Definition holds (acc : bytes) (s : Session) (l : list effect) : Prop :=
  Ledger.holds cid tfd acc (ledger_of s l).
Definition streams (acc : bytes) (w : World) : Prop := holds acc (ses w) (log w).

(** ** Operations that do not write to the target *)

Lemma holds_dcs acc s l f :
  holds acc s l → (∀ dc, fd dc ≠ tfd → fd (f dc) ≠ tfd) → ∀ i,
  holds acc (s{{data_connections ::= alter f i}}) l.
Proof.
  intros (Ht & Hu & Hdc) Hf i. split_and!; [exact Ht|exact Hu|].
  change (Forall (λ f, f ≠ tfd) (fd <$> alter f i (data_connections s))).
  change (Forall (λ f, f ≠ tfd) (fd <$> data_connections s)) in Hdc. rewrite Forall_fmap in Hdc |- *.
  apply Forall_alter; [exact Hdc|]. intros dc _. apply Hf.
Qed.

Lemma holds_log acc s l e :
  holds acc s l → (∀ f ss, e = EOut f ss → f ≠ tfd) → holds acc s (l ++ [e]).
Proof.
  intros Hh He. unfold holds, ledger_of. rewrite omap_snoc_opt. destruct e; cbn [eout option_list]; rewrite ?app_nil_r; try done.
  apply Ledger.holds_out; [by eapply He|exact Hh].
Qed.

Lemma session_keeps_upd acc f : (∀ s l, holds acc s l → holds acc (f s) l) → keeps (streams acc) (upd f : act World unit).
Proof. intros Hf. apply keeps_modify. intros w. apply Hf. Qed.
Lemma keeps_emit acc e : (∀ f ss, e = EOut f ss → f ≠ tfd) → keeps (streams acc) (emit e : act World unit).
Proof. intros He. apply keeps_modify. intros w Hw. by apply holds_log. Qed.
Lemma keeps_kernel acc f : keeps (streams acc) (kernel_do f : act World unit).
Proof. by apply keeps_modify. Qed.
Lemma keeps_upd_dc acc i f :
  (∀ dc, fd dc ≠ tfd → fd (f dc) ≠ tfd) → keeps (streams acc) (upd_dc i f : act World unit).
Proof. intros Hf. apply session_keeps_upd. intros s l Hs. by apply holds_dcs. Qed.
Lemma keeps_upd_target acc c f :
  (∀ t, t_fd (f t) = t_fd t ∧ (WB.wf (t_writer t) → WB.wf (t_writer (f t)))
        ∧ WB.data_pending (t_writer (f t)) = WB.data_pending (t_writer t)) →
  keeps (streams acc) (upd_target c f : act World unit).
Proof. intros Hf. apply session_keeps_upd. intros s l Hs. apply Ledger.holds_alter; [exact Hs|]. intros t _. apply Hf. Qed.

(** [tac] is tried first. *)
Ltac keeping_with tac :=
  repeat first
    [ tac
    | progress intros
    | apply keeps_bind
    | apply keeps_when
    | apply keeps_ret | apply keeps_gets | apply keeps_get | apply keeps_kernel | apply keeps_of_option
    | apply keeps_upd_dc; [intros [] ?; cbn in *; unfold constant; done || lia]
    | apply keeps_upd_target; [by intros []]
    | apply keeps_emit; done
    | apply session_keeps_upd; by intros []
    | case_match ].
Ltac keeping := keeping_with fail.

Lemma keeps_register_data acc i f : keeps (streams acc) (register_data_conn_epollout i f : act World unit).
Proof. unfold register_data_conn_epollout. keeping. Qed.
Lemma keeps_register_target acc c f : keeps (streams acc) (register_target_epollout c f : act World unit).
Proof. unfold register_target_epollout. keeping. Qed.
Lemma keeps_send_control acc pkt : keeps (streams acc) (send_control pkt : act World unit).
Proof. unfold send_control. keeping. Qed.

(** ** Operations that write *)

(** A writer was used: what its stream gained is [d]. *)
Definition used (w : World) (f : Z) (wb : WB.WriteBuffer) (ks : list WB.wres) (ss : list WB.seg)
    (c : Z) : World :=
  w{{writes := ks; log ::= λ l, l ++ [EOut f ss];
     ses ::= λ s, s{{targets ::= alter (λ t, t{{t_writer := wb}}) c}} }}.

Lemma used_ledger w f wb ks ss c t :
  targets (ses w) !! c = Some t → t_fd t = f →
  let w' := used w f wb ks ss c in
  ledger_of (ses w') (log w')
  = Ledger.mk (<[c := (f, wb)]> (conn_of <$> targets (ses w))) (fd <$> data_connections (ses w))
              (omap eout (log w) ++ [(f, ss)]).
Proof.
  intros Ht <- w'. unfold ledger_of. f_equal.
  - exact (Ledger.fmap_alter_writer conn_of _ _ _ _ Ht).
  - change (omap eout (log w ++ [EOut (t_fd t) ss]) = omap eout (log w) ++ [(t_fd t, ss)]). by rewrite omap_snoc_opt.
Qed.

Lemma target_conn (w : World) c t : targets (ses w) !! c = Some t →
  (conn_of <$> targets (ses w)) !! c = Some (t_fd t, t_writer t).
Proof. intros Ht. by rewrite lookup_fmap, Ht. Qed.

(** A packet for a target. *)
Lemma write_streams acc w c t d res wb ks ss :
  streams acc w → targets (ses w) !! c = Some t → d ≠ [] → WB.WErr ∉ writes w →
  WB.write (writes w) d (t_writer t) = (Some res, wb, ss, ks) →
  streams (acc ++ if c =? cid then d else []) (used w (t_fd t) wb ks ss c).
Proof.
  intros Hs Ht Hd Herr Hw. unfold streams, holds. rewrite (used_ledger _ _ _ _ _ _ t) by done.
  eapply Ledger.holds_write; [exact Hs|by apply target_conn|done|done|done].
Qed.

Lemma flush_streams acc w c t b wb ks ss :
  streams acc w → targets (ses w) !! c = Some t →
  WB.flush (writes w) (t_writer t) = (WB.Ret b, wb, ss, ks) →
  streams acc (used w (t_fd t) wb ks ss c).
Proof.
  intros Hs Ht Hf. unfold streams, holds. rewrite (used_ledger _ _ _ _ _ _ t) by done.
  eapply Ledger.holds_flush; [exact Hs|by apply target_conn|done].
Qed.

(** ** The steps of a session that concern its targets *)

(** The schedule has no hard error left. *)
Definition clean (w : World) : Prop := WB.WErr ∉ writes w.

Definition Inv (acc : bytes) (w : World) : Prop := streams acc w ∧ clean w.

Lemma Inv_keeps {A} acc (m : act World A) w a w' :
  keeps (streams acc) m → keeps clean m → Inv acc w → m w = Some (a, w') → Inv acc w'.
Proof. intros H1 H2 [Hs Hc] E. split; [by eapply H1|by eapply H2]. Qed.

Ltac cleaning_with tac :=
  repeat first
    [ tac
    | progress intros
    | apply keeps_bind
    | apply keeps_when
    | apply keeps_ret | apply keeps_gets | apply keeps_get | apply keeps_of_option
    | apply keeps_modify; by intros []
    | case_match ].
Ltac cleaning := cleaning_with fail.

Lemma clean_send_control pkt : keeps clean (send_control pkt : act World unit).
Proof. unfold send_control, register_data_conn_epollout. cleaning. Qed.

(** [wb_write] and what follows it, in one step. *)
Lemma wb_write_used (w w1 w2 : World) c t d (res : Z * WB.WriteBuffer) :
  wb_write (t_fd t) d (t_writer t) w = Some (res, w1) →
  upd_target c (λ t, t{{t_writer := res.2}}) w1 = Some (tt, w2) →
  ∃ ks ss, WB.write (writes w) d (t_writer t) = (Some res.1, res.2, ss, ks)
           ∧ w2 = used w (t_fd t) res.2 ks ss c.
Proof.
  unfold wb_write. intros E E2. apply bind_some in E as (w0 & w00 & [= <- <-] & E).
  destruct (WB.write (writes w) d (t_writer t)) as [[[[r|] wb] ss] ks]; [|done].
  injection E as <- <-. injection E2 as <-. exists ks, ss. by destruct w.
Qed.

Lemma wb_flush_used (w w1 w2 : World) c t (res : bool * WB.WriteBuffer) :
  wb_flush (t_fd t) (t_writer t) w = Some (res, w1) →
  upd_target c (λ t, t{{t_writer := res.2}}) w1 = Some (tt, w2) →
  ∃ ks ss, WB.flush (writes w) (t_writer t) = (WB.Ret res.1, res.2, ss, ks)
           ∧ w2 = used w (t_fd t) res.2 ks ss c.
Proof.
  unfold wb_flush. intros E E2. apply bind_some in E as (w0 & w00 & [= <- <-] & E).
  destruct (WB.flush (writes w) (t_writer t)) as [[[[r|] wb] ss] ks]; [|done].
  injection E as <- <-. injection E2 as <-. exists ks, ss. by destruct w.
Qed.

Lemma clean_used w f wb ks ss c u : clean w → writes w = u ++ ks → clean (used w f wb ks ss c).
Proof. unfold clean. intros Hc E. change (WB.WErr ∉ ks). rewrite E in Hc. set_solver. Qed.

Lemma target_flush_Inv acc w c t t0 b w' :
  Inv acc w → targets (ses w) !! c = Some t → t_fd t0 = t_fd t → t_writer t0 = t_writer t →
  target_flush c t0 w = Some (b, w') → Inv acc w'.
Proof.
  intros [Hs Hc] Ht H1 H2 E. unfold target_flush in E. rewrite H1, H2 in E.
  apply bind_some in E as ([b' wb] & w1 & E1 & E). apply bind_some in E as ([] & w2 & E2 & E).
  injection E as <- <-. destruct (wb_flush_used _ _ _ c _ _ E1 E2) as (ks & ss & Hf & ->). split.
  - by eapply flush_streams.
  - destruct (Connection.flush_used _ _ _ _ _ _ Hf) as [u Hu]. by eapply clean_used.
Qed.

(** The cases of [wire_write] to the application's side. *)
Definition deliver (c : Z) (d : bytes) : act World Z :=
  t ← get_target c;
  match t with
  | None => mret 0
  | Some t =>
      '(ret, wb) ← wb_write (t_fd t) d (t_writer t);
      upd_target c (λ t, t{{t_writer := wb}}) ;;
      paused ← get_ses (λ s, default false (in_paused s !! c));
      let need_pause := (0 <? ret) && negb paused in
      when (0 <? ret) (upd (λ s, s{{in_paused ::= insert c true}})) ;;
      when (0 <? ret) (push_io [IoRegisterTarget c] ;; wakeup) ;;
      when need_pause (push_io [IoPauseTarget c] ;; wakeup) ;;
      mret 0
  end.
Definition close_writing (c : Z) : act World Z :=
  t ← get_target c;
  match t with
  | None => mret 0
  | Some t =>
      upd_target c (λ t, t{{shutdown_wr := true}}) ;;
      done_ ← (if WB.empty (t_writer t) then mret true else target_flush c t);
      when done_ (shutdown (t_fd t) ;; upd_target c (λ t, t{{shutdown_wr_sent := true}})) ;;
      mret 0
  end.

Lemma wire_write_target_cases p :
  (wire_write_target p : act World Z) = mret 0 ∧ Ledger.payload_of cid p = []
  ∨ (∃ c rest, p = 255 :: 82 :: c :: rest ∧ wire_write_target p = close_writing c)
  ∨ ∃ c d, p = c :: d ∧ wire_write_target p = deliver c d ∧ Ledger.payload_of cid p = if c =? cid then d else [].
Proof.
  destruct p as [|c d]; [by left|]. destruct (decide (c = 255)) as [->|Hne].
  - destruct d as [|x d]; [by left|]. destruct (decide (x = 82)) as [->|Hx].
    + destruct d as [|c' rest]; [by left|]. right. left. by exists c', rest.
    + left. split; [|done]. destruct x as [|x|x]; try done. repeat (destruct x as [x|x|]; try done).
  - right. right. exists c, d. split; [done|].
    destruct c as [|c|c]; try done. repeat (destruct c as [c|c|]; try done).
Qed.

Lemma deliver_Inv acc c d w r w' :
  Inv acc w → d ≠ [] → deliver c d w = Some (r, w') → Inv (acc ++ if c =? cid then d else []) w'.
Proof.
  intros [Hs Hc] Hd E. unfold deliver in E. apply bind_some in E as (t & w0 & [= <- <-] & E).
  destruct (targets (ses w) !! c) as [t|] eqn:Ht.
  - apply bind_some in E as ([ret wb] & w1 & E1 & E). apply bind_some in E as ([] & w2 & E2 & E).
    destruct (wb_write_used _ _ _ c _ _ _ E1 E2) as (ks & ss & Hw & ->). cbn [fst snd] in *.
    destruct (Connection.write_used _ _ _ _ _ _ _ Hw) as [u Hu].
    assert (Inv (acc ++ if c =? cid then d else []) (used w (t_fd t) wb ks ss c)) as Hi.
    { split; [by eapply write_streams|by eapply clean_used]. }
    eapply Inv_keeps; [| |exact Hi|exact E]; [unfold push_io, wakeup; keeping|unfold push_io, wakeup, emit, upd; cleaning].
  - injection E as <- <-. destruct (Z.eqb_spec c cid) as [->|]; [|by rewrite app_nil_r].
    destruct Hs as ((wb0 & H0 & _) & _). cbn in H0. by rewrite lookup_fmap, Ht in H0.
Qed.

Lemma close_writing_Inv acc c w r w' : Inv acc w → close_writing c w = Some (r, w') → Inv acc w'.
Proof.
  intros Hi E. unfold close_writing in E. apply bind_some in E as (t & w0 & [= <- <-] & E).
  destruct (targets (ses w) !! c) as [t|] eqn:Ht; [|by injection E as <- <-].
  apply bind_some in E as ([] & w1 & E1 & E).
  assert (Inv acc w1 ∧ targets (ses w1) !! c = Some (t{{shutdown_wr := true}})) as [Hi1 Ht1].
  { split; [eapply Inv_keeps; [| |exact Hi|exact E1]; [keeping|unfold upd_target, upd; cleaning]|].
    injection E1 as <-. change (alter (λ t, t{{shutdown_wr := true}}) c (targets (ses w)) !! c = Some (t{{shutdown_wr := true}})).
    by rewrite lookup_alter_eq, Ht. }
  apply bind_some in E as (b & w2 & E2 & E).
  assert (Inv acc w2) as Hi2.
  { destruct (WB.empty (t_writer t)); [by injection E2 as <- <-|].
    by eapply (target_flush_Inv acc w1 c (t{{shutdown_wr := true}}) t). }
  eapply Inv_keeps; [| |exact Hi2|exact E]; [unfold shutdown; keeping|unfold shutdown, emit, upd_target, upd; cleaning].
Qed.

Lemma wire_write_target_Inv acc p w r w' :
  Inv acc w → Ledger.has_payload p → wire_write_target p w = Some (r, w') → Inv (acc ++ Ledger.payload_of cid p) w'.
Proof.
  intros Hi Hp E. destruct (wire_write_target_cases p) as [[Hw ->]|[(c & rest & -> & Hw)|(c & d & -> & Hw & ->)]];
    rewrite Hw in E.
  - injection E as <- <-. by rewrite app_nil_r.
  - change (Ledger.payload_of cid (255 :: 82 :: c :: rest)) with (@nil Z). rewrite app_nil_r. by eapply close_writing_Inv.
  - by eapply deliver_Inv.
Qed.

Lemma keeps_wb_write acc f d wb : f ≠ tfd → keeps (streams acc) (wb_write f d wb : act World _).
Proof.
  intros Hf. unfold wb_write. apply keeps_bind; [apply keeps_get|]. intros w0.
  destruct (WB.write (writes w0) d wb) as [[[[r|] wb'] ss] ks]; [|apply keeps_fail].
  apply keeps_bind; [by apply keeps_modify|]. intros _.
  apply keeps_bind; [apply keeps_emit; congruence|]. intros _. apply keeps_ret.
Qed.

Lemma clean_wb_write f d wb : keeps clean (wb_write f d wb : act World _).
Proof.
  intros w a w' E Hc. unfold wb_write in E. apply bind_some in E as (w0 & w00 & [= <- <-] & E).
  destruct (WB.write (writes w) d wb) as [[[[r|] wb'] ss] ks] eqn:Ew; [|done]. injection E as <- <-.
  destruct (Connection.write_used _ _ _ _ _ _ _ Ew) as [u Hu]. unfold clean in *. rewrite Hu in Hc.
  change (WB.WErr ∉ ks). set_solver.
Qed.

(** A packet for the wire. *)
Lemma wire_write_Inv acc now dst d w r w' :
  Inv acc w → dst ≠ 0 → wire_write now dst d w = Some (r, w') → Inv acc w'.
Proof.
  intros Hi Hdst E. unfold wire_write in E. rewrite (proj2 (Z.eqb_neq _ _) Hdst) in E.
  apply bind_some in E as (s & w0 & [= <- <-] & E). unfold id in E.
  destruct (dst <? 1); [by injection E as <- <-|].
  destruct (data_connections (ses w) !! Z.to_nat (dst - 1)) as [dc|] eqn:Hdc; [|by injection E as <- <-].
  destruct (fd dc <? 0); [by injection E as <- <-|].
  assert (fd dc ≠ tfd) as Hfd.
  { destruct Hi as [(_ & _ & Hall) _]. apply (Forall_lookup_1 _ _ (Z.to_nat (dst - 1)) _ Hall).
    cbn. by rewrite list_lookup_fmap, Hdc. }
  destruct (Reliable.send_data now d (link dc)) as [l frame].
  eapply Inv_keeps; [| |exact Hi|exact E]; unfold dc_write, get_dc, push_io, wakeup.
  - keeping_with ltac:(apply keeps_wb_write; done).
  - unfold upd_dc, upd, emit. cleaning_with ltac:(apply clean_wb_write).
Qed.

Lemma run_io_Inv acc i w u w' : Inv acc w → run_io i w = Some (u, w') → Inv acc w'.
Proof.
  intros Hi E. eapply Inv_keeps; [| |exact Hi|exact E]; destruct i; cbn [run_io];
    unfold send_writer_pause, register_in_epollout, register_data_conn_epollout, register_target_epollout, del_fd, close.
  1-4: keeping_with ltac:(apply keeps_send_control).
  all: unfold upd_target, upd_dc, upd, add_fd_handler, kernel_do, emit; cleaning_with ltac:(apply clean_send_control).
Qed.

Lemma on_target_out_Inv acc c t ev w u w' :
  Inv acc w → targets (ses w) !! c = Some t → has ev (Z.lor EPOLLERR EPOLLHUP) = false →
  on_target_out_event c (t_fd t) ev w = Some (u, w') → Inv acc w'.
Proof.
  intros Hi Ht Hev E. unfold on_target_out_event in E. rewrite Hev in E.
  apply bind_some in E as ([] & w1 & E & E'). injection E' as _ <-.
  destruct (has ev EPOLLOUT); [|by injection E as <-]. cbn [when] in E.
  apply bind_some in E as (o & w0 & [= <- <-] & E). rewrite Ht in E.
  apply bind_some in E as ([b wb] & w2 & E1 & E). apply bind_some in E as ([] & w3 & E2 & E).
  destruct (wb_flush_used _ _ _ c _ _ E1 E2) as (ks & ss & Hf & ->). cbn [fst snd] in *.
  assert (Inv acc (used w (t_fd t) wb ks ss c)) as Hi3.
  { destruct Hi. split; [by eapply flush_streams|].
    destruct (Connection.flush_used _ _ _ _ _ _ Hf) as [x Hx]. by eapply clean_used. }
  eapply Inv_keeps; [| |exact Hi3|exact E]; unfold shutdown, send_writer_resume.
  - keeping_with ltac:(apply keeps_send_control).
  - unfold upd_target, upd, emit, mod_fd_events, kernel_do. cleaning_with ltac:(apply clean_send_control).
Qed.

(** What happens to a session, from any thread: its chain hands out a packet, a target can be
    written to, deferred work is done. The packets for the application's side are listed. *)
Inductive step (w : World) : list bytes → World → Prop :=
| step_target now p r w' :
    Ledger.has_payload p → wire_write now 0 p w = Some (r, w') → step w [p] w'
| step_wire now dst d r w' : dst ≠ 0 → wire_write now dst d w = Some (r, w') → step w [] w'
| step_writable c t ev u w' :
    targets (ses w) !! c = Some t → has ev (Z.lor EPOLLERR EPOLLHUP) = false →
    on_target_out_event c (t_fd t) ev w = Some (u, w') → step w [] w'
| step_io i u w' : run_io i w = Some (u, w') → step w [] w'.

Inductive steps : World → list bytes → World → Prop :=
| steps_refl w : steps w [] w
| steps_cons w ps w1 ps' w2 : step w ps w1 → steps w1 ps' w2 → steps w (ps ++ ps') w2.

Lemma step_Inv acc w ps w' : step w ps w' → Inv acc w → Inv (acc ++ concat (map (Ledger.payload_of cid) ps)) w'.
Proof.
  intros Hs Hi. destruct Hs as [now p r w' Hp E|now dst d r w' Hd E|c t ev u w' Ht Hev E|i u w' E];
    cbn; rewrite ?app_nil_r.
  - by eapply wire_write_target_Inv.
  - by eapply wire_write_Inv.
  - by eapply on_target_out_Inv.
  - by eapply run_io_Inv.
Qed.

Lemma steps_Inv acc w ps w' : steps w ps w' → Inv acc w → Inv (acc ++ concat (map (Ledger.payload_of cid) ps)) w'.
Proof.
  intros Hs. revert acc. induction Hs as [w|w ps w1 ps' w2 H1 _ IH]; intros acc Hi; cbn; [by rewrite app_nil_r|].
  rewrite map_app, concat_app, app_assoc. apply IH. by eapply step_Inv.
Qed.

End target.

(** A target that was just connected. *)
Lemma fresh_Inv {C} (cid tfd : Z) (w : @World C) t :
  targets (ses w) !! cid = Some t → t_fd t = tfd → t_writer t = WB.new_buffer →
  (∀ c t', targets (ses w) !! c = Some t' → t_fd t' = tfd → c = cid) →
  Forall (λ dc, fd dc ≠ tfd) (data_connections (ses w)) →
  WB.WErr ∉ writes w → Inv cid tfd (sent_to tfd (log w)) w.
Proof.
  intros Ht Hfd Hwb Hu Hdc Herr. split; [|done]. apply Ledger.holds_new.
  - rewrite lookup_fmap, Ht. cbn. unfold conn_of. by rewrite Hfd, Hwb.
  - intros c wb E. rewrite lookup_fmap in E. destruct (targets (ses w) !! c) as [t'|] eqn:Et; [|done].
    injection E as E _. by eapply Hu.
  - by apply Forall_fmap.
Qed.

(** The bytes on the socket and in the writer. *)
Lemma Inv_bytes {C} (cid tfd : Z) acc (w : @World C) : Inv cid tfd acc w →
  ∃ t, targets (ses w) !! cid = Some t ∧ sent_to tfd (log w) ++ WB.data_pending (t_writer t) = acc.
Proof.
  intros [((wb & Hc & _ & Hacc) & _) _]. cbn in Hc. rewrite lookup_fmap in Hc.
  destruct (targets (ses w) !! cid) as [t|]; [|done]. injection Hc as _ <-. by exists t.
Qed.

End Delivery.
