(* ===== verification/SessionFacts.v ===== *)
(** * Properties of the server's session *)

From coqutil Require Import Datatypes.RecordSetters.
From S2P Require Import Prelude Text Protocol WriteBuffer Frame Control Reliable Kernel ChainApi Chain Copy Session.
Import DoubleBraceUpdate.
Local Open Scope Z_scope.

Module SessionFacts.
Import Frame Control Reliable Session.

(** Evaluate the monad's operations in a hypothesis or in the goal. *)
Ltac run H :=
  unfold send_packet, set_state, emit, upd, get_ses, when, id in H;
  unfold modify, gets, mret, act_ret, mbind, act_bind in H;
  cbn beta iota zeta in H.

Section facts.
Context {C : Type} `{ChainOps C}.
Context (sha256 : bytes → bytes) (bases : list bytes).
Context (getaddrinfo : bytes → bytes → option (list attempt)).
Context (reconnect_old : Z → Z → option bool).

Abbreviation Session := (@Session C).
Abbreviation World := (@World C).
Abbreviation on_data := (on_data sha256 bases getaddrinfo reconnect_old).
Abbreviation packet_loop := (packet_loop sha256 bases getaddrinfo reconnect_old).
Abbreviation auth_packet := (auth_packet sha256 bases getaddrinfo reconnect_old).
Abbreviation wire_packet := (wire_packet sha256 bases getaddrinfo reconnect_old).

Lemma upd_inv f (w w' : World) u :
  upd f w = Some (u, w') → ses w' = f (ses w) ∧ kern w' = kern w ∧ log w' = log w.
Proof. unfold upd, modify. intros [= _ <-]. done. Qed.

(** ** Authentication *)

Section auth.
Context (challenge pw : bytes).

Definition credential : bytes := hex_sha256 sha256 (challenge ++ pw).

(** The credential occurs in the bytes received. *)
Definition presented (rx : bytes) : Prop := ∃ pre post, rx = pre ++ credential ++ post.

Lemma presented_app rx d : presented rx → presented (rx ++ d).
Proof. intros (pre & post & ->). exists pre, (post ++ d). by rewrite <- !(assoc_L (++)). Qed.

(** Before the credential was received the session waits for it, or has given up. *)
Definition guarded (rx : bytes) (w : World) : Prop :=
  presented rx ∨ state (ses w) = DISCONNECTED
  ∨ (state (ses w) = AWAIT_AUTH1_CHALLENGE_RESP ∧ challenge1 (ses w) = challenge
     ∧ password (ses w) = pw ∧ ∃ p, rx = p ++ recv_buf (ses w)).

Lemma auth_packet_dead now pkt w u w' :
  state (ses w) = DISCONNECTED → auth_packet now pkt w = Some (u, w') →
  state (ses w') = DISCONNECTED.
Proof.
  intros Hd E. unfold Session.auth_packet in E. run E. rewrite Hd in E.
  cbn in E. repeat (case_match; simplify_eq; try done).
Qed.

Lemma auth_packet_guarded now pkt rx w u w' :
  (∃ pre post, rx = pre ++ payload pkt ++ post) → guarded rx w →
  auth_packet now pkt w = Some (u, w') → guarded rx w'.
Proof.
  intros (pre & post & Hrx) [Hp|[Hd|(Hst & Hch & Hpw & Hbuf)]] E; [by left| |].
  - right; left. by eapply auth_packet_dead.
  - unfold Session.auth_packet in E. run E. rewrite Hst in E. cbn in E.
    destruct (type pkt =? MSG_AUTH_RESPONSE).
    { unfold handle_auth_challenge_response in E. run E. rewrite Hch, Hpw in E.
      case_bool_decide as Hc; simplify_eq.
      - left. exists pre, post. unfold credential. by rewrite <- Hc.
      - by right; left. }
    destruct (type pkt =? MSG_AUTH_OK). { simplify_eq. right; right. done. }
    destruct (type pkt =? MSG_AUTH_CHALLENGE). { simplify_eq. right; right. done. }
    destruct (type pkt =? MSG_RECONNECT); [|simplify_eq; right; right; done].
    unfold handle_reconnect in E. destruct (negb _); run E; [simplify_eq; by right; right|].
    rewrite Hch, Hpw in E. case_bool_decide as Hc; run E.
    + left. exists (pre ++ take 8 (payload pkt)), post. unfold credential. rewrite <- Hc, Hrx.
      by rewrite <- (assoc_L (++)), (assoc_L (++) (take 8 _)), take_drop.
    + cbn [negb] in E. simplify_eq. by right; left.
Qed.

(** In state DISCONNECTED no packet changes the state. *)
Lemma wire_packet_dead now pkt w u w' :
  state (ses w) = DISCONNECTED → wire_packet now pkt w = Some (u, w') → w' = w.
Proof.
  intros Hd E. unfold Session.wire_packet in E. run E. rewrite Hd in E. cbn in E.
  repeat (case_match; simplify_eq; try done).
Qed.

Lemma packet_loop_guarded fuel now rx : ∀ w u w',
  guarded rx w → packet_loop fuel now true w = Some (u, w') → guarded rx w'.
Proof.
  induction fuel as [|k IH]; intros w u w' Hg E; cbn [Session.packet_loop] in E.
  { run E. by simplify_eq. }
  apply bind_some in E as (buf & w1 & [= <- <-] & E).
  destruct (try_parse (recv_buf (ses w))) as [|pkt n|] eqn:Ep.
  { run E. by simplify_eq. } 2: { done. }
  destruct (n =? 0); [run E; by simplify_eq|].
  apply bind_some in E as ([] & w1 & (Hw1 & _)%upd_inv & E).
  apply bind_some in E as ([] & w2 & E2 & E).
  apply bind_some in E as (st & w3 & [= <- <-] & E).
  assert (guarded rx w1) as Hg1.
  { destruct Hg as [?|[?|(H1 & H2 & H3 & p & H4)]]; [by left|right; left; by rewrite Hw1|right; right].
    rewrite Hw1. split_and!; try done. exists (p ++ take (Z.to_nat n) (recv_buf (ses w))).
    cbn. by rewrite <- (assoc_L (++)), take_drop. }
  assert (guarded rx w2) as Hg2.
  { destruct Hg as [?|[Hd|(H1 & H2 & H3 & p & H4)]]; [by left| |].
    - right; left. eapply auth_packet_dead; [|exact E2]. by rewrite Hw1.
    - eapply auth_packet_guarded; [|exact Hg1|exact E2].
      apply try_parse_payload in Ep as (a & b & Ep). exists (p ++ a), b.
      by rewrite H4, Ep, <- !(assoc_L (++)). }
  cbn [andb] in E. destruct (3 <=? _)%nat; [run E; by simplify_eq|]. by eapply IH.
Qed.

Lemma dead_loop fuel now : ∀ w u w',
  state (ses w) = DISCONNECTED → packet_loop fuel now false w = Some (u, w') →
  state (ses w') = DISCONNECTED.
Proof.
  induction fuel as [|k IH]; intros w u w' Hd E; cbn [Session.packet_loop] in E.
  { run E. by simplify_eq. }
  apply bind_some in E as (buf & w1 & [= <- <-] & E).
  destruct (try_parse (recv_buf (ses w))) as [|pkt n|].
  { run E. by simplify_eq. } 2: { done. }
  destruct (n =? 0); [run E; by simplify_eq|].
  apply bind_some in E as ([] & w1 & (Hw1 & _)%upd_inv & E).
  apply bind_some in E as ([] & w2 & E2 & E).
  apply bind_some in E as (st & w3 & [= <- <-] & E).
  apply wire_packet_dead in E2 as ->; [|by rewrite Hw1]. cbn [andb] in E.
  eapply IH; [|exact E]. by rewrite Hw1.
Qed.

Lemma on_data_guarded now data rx w u w' :
  guarded rx w → on_data now data w = Some (u, w') → guarded (rx ++ data) w'.
Proof.
  intros Hg E. unfold Session.on_data in E. apply bind_some in E as (s & w1 & [= <- <-] & E).
  destruct Hg as [?|[Hd|(H1 & H2 & H3 & p & H4)]]; [left; by apply presented_app| |]; cbn in E.
  - right; left. rewrite Hd in E. cbn in E. destruct (_ <? 0); [run E; by simplify_eq|].
    apply bind_some in E as ([] & w1 & (Hw1 & _)%upd_inv & E).
    eapply dead_loop; [|exact E]. by rewrite Hw1.
  - rewrite H1 in E. cbn in E. apply bind_some in E as ([] & w1 & (Hw1 & _)%upd_inv & E).
    eapply packet_loop_guarded; [|exact E]. right; right. rewrite Hw1. cbn. split_and!; try done.
    exists p. by rewrite H4, (assoc_L (++)).
Qed.

(** A connection: the blocks its [read]s return, at the given times. *)
Fixpoint feed_session (ds : list (Z * bytes)) : act World unit :=
  match ds with
  | [] => mret tt
  | (now, d) :: rest => on_data now d ;; feed_session rest
  end.

Lemma feed_guarded ds : ∀ rx w u w',
  guarded rx w → feed_session ds w = Some (u, w') → guarded (rx ++ concat (map snd ds)) w'.
Proof.
  induction ds as [|[now d] ds IH]; intros rx w u w' Hg E; cbn [feed_session] in E.
  - run E. simplify_eq. cbn. by rewrite app_nil_r.
  - apply bind_some in E as ([] & w1 & E1 & E). cbn. rewrite (assoc_L (++)).
    eapply IH; [|exact E]. by eapply on_data_guarded.
Qed.

End auth.

(** [C6] No session without the password: whatever a peer sends, in whatever blocks, a new
    session stays in its first state or is disconnected, unless the bytes received contain
    the hexadecimal SHA-256 of this session's challenge followed by the password. *)
Theorem authentication_required (w w' : World) (ch pw : bytes) (ds : list (Z * bytes)) (u : unit) :
  state (ses w) = AWAIT_AUTH1_CHALLENGE_RESP → challenge1 (ses w) = ch → password (ses w) = pw →
  recv_buf (ses w) = [] →
  feed_session ds w = Some (u, w') →
  state (ses w') = AWAIT_AUTH1_CHALLENGE_RESP ∨ state (ses w') = DISCONNECTED
  ∨ ∃ pre post, concat (map snd ds) = pre ++ hex_sha256 sha256 (ch ++ pw) ++ post.
Proof.
  intros Hs Hc Hp Hb E. apply (feed_guarded ch pw ds []) in E.
  - destruct E as [?|[?|(? & _)]]; auto.
  - right; right. rewrite Hb. split_and!; try done. by exists [].
Qed.

(** ** Connection ids *)

(** [alloc_conn_id] never hands out an id in use: an id other than CONN_ID_NONE is free,
    and the counter moves past it. *)
Theorem alloc_conn_id_fresh (w w' : World) (cid : Z) :
  alloc_conn_id w = Some (cid, w') → cid ≠ CONN_ID_NONE →
  targets (ses w) !! cid = None ∧ next_conn_id w' = u8 (cid + 1) ∧ ses w' = ses w.
Proof.
  intros E Hne. unfold alloc_conn_id in E. apply bind_some in E as (w0 & w1 & E1 & E).
  injection E1 as <- <-. destruct (targets (ses w) !! next_conn_id w) eqn:Et.
  - injection E as <- <-. done.
  - unfold mbind, act_bind, modify in E. assert (cid = next_conn_id w) as -> by (by injection E).
    split; [done|]. assert (w' = w{{next_conn_id ::= λ n, u8 (n + 1)}}) as -> by (by injection E).
    done.
Qed.

(** It gives up although ids are free. The loop of 256 rounds tests the same id each
    time: while the target with that id stays open every request is refused, however many
    other ids are free. *)
Theorem alloc_conn_id_stuck (w : World) (t : TargetConn) (free : Z) :
  targets (ses w) !! next_conn_id w = Some t → targets (ses w) !! free = None →
  alloc_conn_id w = Some (CONN_ID_NONE, w).
Proof. intros Ht _. unfold alloc_conn_id, get, mbind, act_bind. by rewrite Ht. Qed.

(** ** Reconnection *)

Lemma close_all_empty (w w' : World) u : close_all_targets w = Some (u, w') → targets (ses w') = ∅.
Proof.
  intros E. unfold close_all_targets in E. apply bind_some in E as (ids & w1 & E1 & E).
  injection E1 as <- <-.
  assert (∀ ids (w w' : World) u, each ids close_target w = Some (u, w') →
            ∀ c, targets (ses w') !! c = None ∨ ((c ∉ ids) ∧ targets (ses w') !! c = targets (ses w) !! c))
    as Hl.
  { clear. induction ids as [|i ids IH]; intros w w' u E c; cbn [each] in E.
    { injection E as _ <-. right. split; [apply not_elem_of_nil|done]. }
    apply bind_some in E as ([] & w1 & E1 & E). destruct (IH _ _ _ E c) as [?|[Hni Hc]]; [by left|].
    assert (targets (ses w1) = delete i (targets (ses w))) as HT.
    { unfold close_target in E1. apply bind_some in E1 as (o & w2 & E2 & E1). injection E2 as <- <-.
      destruct (targets (ses w) !! i) as [t|] eqn:Et.
      - unfold del_fd, close, kernel_do, emit, upd, modify, mbind, act_bind in E1.
        cbn beta iota in E1. injection E1 as E1. by subst w1.
      - injection E1 as <-. by rewrite delete_id. }
    rewrite HT in Hc. destruct (decide (c = i)) as [->|Hne].
    - left. by rewrite Hc, lookup_delete_eq.
    - right. rewrite Hc, lookup_delete_ne by done. split; [|done]. by apply not_elem_of_cons. }
  apply map_eq. intros c. rewrite lookup_empty. destruct (Hl _ _ _ _ E c) as [?|[Hni Hc]]; [done|].
  rewrite Hc. destruct (targets (ses w) !! c) as [t|] eqn:Et; [|done]. destruct Hni.
  apply list_elem_of_fmap. exists (c, t). split; [done|by apply elem_of_map_to_list].
Qed.

(** No target, and none with an address to go back to. *)
Definition nothing_saved (w : World) : Prop :=
  targets (ses w) = ∅ ∧ Forall (λ e, e.2 = []) (saved_targets (ses w))
  ∧ Forall (λ e, e.2 = []) (pending_reconnect_targets (ses w)).

Lemma keeps_upd_nothing f :
  (∀ s : Session, targets (f s) = targets s ∧ saved_targets (f s) = saved_targets s
    ∧ pending_reconnect_targets (f s) = pending_reconnect_targets s) →
  keeps nothing_saved (upd f).
Proof.
  intros Hf. apply keeps_modify. intros [s ? ? ? ?] Hw. unfold nothing_saved in *. cbn in *.
  by destruct (Hf s) as (-> & -> & ->).
Qed.

Lemma reconnect_targets_nothing :
  keeps nothing_saved (process_pending_reconnect_targets getaddrinfo : act World unit).
Proof.
  intros w u w' E (H1 & H2 & H3). unfold process_pending_reconnect_targets in E.
  apply bind_some in E as (l & w0 & E0 & E). injection E0 as <- <-.
  apply bind_some in E as ([] & w1 & (Hw1 & _)%upd_inv & E).
  assert (nothing_saved w1) as Hn by (unfold nothing_saved; rewrite Hw1; done).
  revert H3 Hn E. generalize (pending_reconnect_targets (ses w)). clear.
  intros l. revert w1. induction l as [|[cid addr] l IH]; intros w1 Hl Hn E; cbn [each] in E.
  { by injection E as _ <-. }
  apply Forall_cons in Hl as [Ha Hl]. cbn in Ha. subst addr.
  apply bind_some in E as ([] & w2 & E2 & E). eapply IH; [done| |exact E].
  apply bind_some in E2 as (o & w3 & E3 & E2). injection E3 as <- <-.
  destruct Hn as (H1 & H2 & H3). rewrite H1, lookup_empty in E2. cbn in E2. injection E2 as <-. done.
Qed.

Lemma close_all_saved T U :
  keeps (λ w : World, saved_targets (ses w) = T ∧ pending_reconnect_targets (ses w) = U) close_all_targets.
Proof.
  apply keeps_bind; [apply keeps_gets|]. intros ids. apply keeps_each. intros c _.
  apply keeps_bind; [apply keeps_gets|]. intros [t|]; [|apply keeps_ret].
  apply keeps_bind; [apply keeps_modify; auto|]. intros _.
  apply keeps_bind; [|intros _; apply keeps_modify; auto].
  apply keeps_bind; [|intros _]; apply keeps_modify; auto.
Qed.

Lemma on_disconnect_nothing (w w1 : World) u :
  state (ses w) = RUNNING → paused (ses w) = false → pending_reconnect_targets (ses w) = [] →
  (∀ cid t, targets (ses w) !! cid = Some t → t_addr t = []) →
  on_disconnect w = Some (u, w1) → nothing_saved w1.
Proof.
  intros Hst Hp Hpend Haddr E1. unfold on_disconnect in E1.
  apply bind_some in E1 as (s & w0 & E0 & E1). injection E0 as <- <-.
  change (id (ses w)) with (ses w) in E1. rewrite Hp in E1.
  apply bind_some in E1 as ([] & w3 & (Hw3 & _)%upd_inv & E1).
  rewrite Hst in E1. cbn [state_eqb state_rank Nat.eqb negb] in E1.
  apply bind_some in E1 as ([] & w4 & (Hw4 & _)%upd_inv & E1).
  apply bind_some in E1 as ([] & w5 & E5 & E1).
  apply bind_some in E1 as ([] & w6 & E6 & (Hw6 & _)%upd_inv).
  destruct (close_all_saved _ _ _ _ _ E5 (conj eq_refl eq_refl)) as [Hs5 Hp5].
  assert (nothing_saved w5) as H5.
  { assert (pending_reconnect_targets (ses w4) = []) as Hp4 by (rewrite Hw4, Hw3; exact Hpend).
    assert (saved_targets (ses w4) = map (λ '(c, t), (c, t_addr t)) (map_to_list (targets (ses w))))
      as Hs4 by (by rewrite Hw4, Hw3).
    unfold nothing_saved. rewrite Hs5, Hp5, Hp4, Hs4.
    split_and!; [by eapply close_all_empty| |by constructor].
    apply Forall_forall. intros e He. apply list_elem_of_fmap in He as ([c t] & -> & Ht).
    apply elem_of_map_to_list in Ht. by eapply Haddr. }
  assert (nothing_saved w6) as H6.
  { refine ((_ : keeps nothing_saved _) _ _ _ E6 H5). clear. apply keeps_each. intros i _.
    apply keeps_bind; [apply keeps_bind; [apply keeps_get|intros; apply keeps_of_option]|].
    intros dc. apply keeps_when. intros _.
    apply keeps_bind; [apply keeps_modify; auto|]. intros _.
    apply keeps_bind; [|intros _; by apply keeps_upd_nothing].
    apply keeps_when. intros _. apply keeps_bind; [|intros _]; apply keeps_modify; auto. }
  unfold nothing_saved in *. by rewrite Hw6.
Qed.

Lemma reconnect_nothing new_fd :
  keeps nothing_saved (reconnect getaddrinfo new_fd : act World bool).
Proof.
  apply keeps_bind; [apply keeps_gets|]. intros s. case_match; [apply keeps_ret|].
  apply keeps_bind.
  { apply keeps_when. intros _. apply keeps_bind; [apply keeps_modify; auto|]. intros _.
    apply keeps_bind; [|intros _]; apply keeps_modify; auto. }
  intros _. apply keeps_bind; [apply keeps_bind; [apply keeps_get|intros; apply keeps_of_option]|].
  intros dc. apply keeps_bind; [by apply keeps_upd_nothing|]. intros _.
  apply keeps_bind; [by apply keeps_upd_nothing|]. intros _.
  apply keeps_bind.
  { apply keeps_bind; [apply keeps_gets|]. intros dcs. case_match; [|apply keeps_ret].
    apply keeps_when. intros _. apply keeps_modify; auto. }
  intros _. apply keeps_bind.
  { apply keeps_modify. intros w (H1 & H2 & H3). split_and!; [done|by constructor|done]. }
  intros _. apply keeps_bind; [apply reconnect_targets_nothing|]. intros _.
  apply keeps_bind; [by apply keeps_upd_nothing|]. intros _. apply keeps_ret.
Qed.

(** A reconnection restores no target. [on_target_connected] stores the empty string
    as the address of a target, so after the client's connection is lost and taken up
    again the session has no target, whatever was open before. *)
Theorem reconnect_restores_no_target (w w1 w2 : World) (u : unit) (new_fd : Z) (ok : bool) :
  state (ses w) = RUNNING → paused (ses w) = false → pending_reconnect_targets (ses w) = [] →
  (∀ cid t, targets (ses w) !! cid = Some t → t_addr t = []) →
  on_disconnect w = Some (u, w1) →
  reconnect getaddrinfo new_fd w1 = Some (ok, w2) →
  targets (ses w2) = ∅.
Proof.
  intros Hst Hp Hpend Haddr E1 E2.
  destruct (reconnect_nothing new_fd _ _ _ E2) as [? _]; [|done]. by eapply on_disconnect_nothing.
Qed.

End facts.

(** A session with a chain of copy modules, a password and a challenge; the peer first
    answers wrongly, in two blocks. *)
Definition example_chain : ChainOps (@Chain.Chain Copy.ctx) :=
  Chain.chain_ops Copy.init Copy.process (λ _ _, 0) (λ _ _, true).
#[local] Existing Instance example_chain.

Definition example_world : @World (@Chain.Chain Copy.ctx) :=
  mkWorld ((new_session 5 [1; 2; 3] 77 0 1000){{challenge1 := [9; 9] }}) Kernel.new 0 [] [].

Lemma authentication_required_witness :
  match feed_session (λ b, b) [] (λ _ _, None) (λ _ _, None)
          [(0, [MSG_AUTH_RESPONSE; 5; 9; 9]); (1, [1; 2; 4])] example_world with
  | Some (u, w') =>
      state (ses w') = AWAIT_AUTH1_CHALLENGE_RESP ∨ state (ses w') = DISCONNECTED
      ∨ ∃ pre post, [MSG_AUTH_RESPONSE; 5; 9; 9; 1; 2; 4] = pre ++ hex_sha256 (λ b, b) [9; 9; 1; 2; 3] ++ post
  | None => False
  end.
Proof.
  destruct (feed_session _ _ _ _ _ example_world) as [[u w']|] eqn:E.
  - apply (authentication_required (λ b, b) [] (λ _ _, None) (λ _ _, None) example_world w' [9; 9]
             [1; 2; 3] [(0, [MSG_AUTH_RESPONSE; 5; 9; 9]); (1, [1; 2; 4])] u); done.
  - vm_compute in E. discriminate.
Defined.

(** A running session with two targets; id 2 is next. *)
Definition busy_world : @World (@Chain.Chain Copy.ctx) :=
  mkWorld ((new_session 5 [1; 2; 3] 77 0 1000){{
             state := RUNNING; data_connections := [new_dc{{fd := 5}}];
             targets := {[1 := new_target 8 []; 2 := new_target 9 []]} }})
          Kernel.new 2 [] [].

Lemma alloc_conn_id_fresh_witness :
  targets (ses example_world) !! 0 = None ∧ next_conn_id (example_world{{next_conn_id := 1}}) = u8 (0 + 1)
  ∧ ses (example_world{{next_conn_id := 1}}) = ses example_world.
Proof.
  apply (alloc_conn_id_fresh example_world (example_world{{next_conn_id := 1}}) 0).
  - vm_compute. reflexivity.
  - discriminate.
Defined.

Lemma alloc_conn_id_stuck_witness : alloc_conn_id busy_world = Some (CONN_ID_NONE, busy_world).
Proof.
  apply (alloc_conn_id_stuck busy_world (new_target 9 []) 3); vm_compute; reflexivity.
Defined.

Lemma reconnect_restores_no_target_witness :
  match on_disconnect busy_world with
  | Some (_, w1) => match reconnect (λ _ _, Some [Connected 12]) 6 w1 with
                    | Some (ok, w2) => ok = true ∧ targets (ses w2) = ∅
                    | None => False
                    end
  | None => False
  end.
Proof.
  destruct (on_disconnect busy_world) as [[u w1]|] eqn:E1; [|vm_compute in E1; discriminate].
  destruct (reconnect _ 6 w1) as [[ok w2]|] eqn:E2.
  - split; [vm_compute in E1; injection E1 as _ <-; vm_compute in E2; by injection E2|].
    apply (reconnect_restores_no_target (λ _ _, Some [Connected 12]) busy_world w1 w2 u 6 ok); try done.
    intros cid t. cbn. unfold constant. intros [[_ <-]|[_ Ht]]%lookup_insert_Some; [done|].
    apply lookup_singleton_Some in Ht as [_ <-]. done.
  - vm_compute in E1. injection E1 as _ <-. vm_compute in E2. discriminate.
Defined.

(** A target may be opened before there is a chain, and its first bytes are fatal: in
    state AWAIT_CHAIN_CREATE a CONNECT_REQ is accepted and the target connected, and when
    the target then sends something the callback allocates from the null [chain_]. *)
Theorem connect_before_chain_undefined :
  let w := example_world{{ses ::= λ s, s{{state := AWAIT_CHAIN_CREATE}}}} in
  match wire_packet (λ b, b) [] (λ _ _, Some [Connected 12]) (λ _ _, None) 0
          (make_msg MSG_CONNECT_REQ [0; 3; 97; 58; 49]) w with
  | Some (_, w') =>
      (∃ t, targets (ses w') !! 0 = Some t ∧ t_fd t = 12)
      ∧ on_target_event 0 EPOLLIN [RdData [104]] w' = None
  | None => False
  end.
Proof. vm_compute. split; [by eexists|done]. Qed.

End SessionFacts.
