(* ===== verification/FlowControl.v ===== *)
(** * Flow control of the targets

    Several mechanisms stop reading a target by clearing EPOLLIN in the kernel: the
    client's WRITER_PAUSE and CHAIN_PAUSE messages, the size of the data connections, and
    the gate at the end of each tick. No interleaving of them leaves a target unread that
    nothing asks to pause. *)

From coqutil Require Import Datatypes.RecordSetters.
From S2P Require Import Prelude Protocol WriteBuffer Frame Control Reliable Kernel Gate ChainApi Chain Copy Session.
Import DoubleBraceUpdate.
Local Open Scope Z_scope.

Module FlowControl.
Import Frame Control Reliable Session.

Section flow.
Context {C : Type} `{ChainOps C}.

#[local] Abbreviation World := (@World C).
Implicit Types w : World.

(** The session as an endpoint of [Gate]. *)
#[global] Instance session_endpoint : Gate.Endpoint World TargetConn handler := {|
  Gate.conns_of w := targets (ses w);
  Gate.kern_of w := kern w;
  Gate.set_conns f w := w{{ses ::= λ s, s{{targets ::= f}}}};
  Gate.set_kern f w := w{{kern ::= f}};
  Gate.fd_of := t_fd;
  Gate.asks_of t := writer_paused t || chain_paused t || ext_overflow_paused t;
  Gate.removed_of := epollin_removed;
  Gate.set_removed b t := t{{epollin_removed := b}}
|}.

#[global] Instance session_endpoint_laws : Gate.EndpointLaws World TargetConn handler.
Proof. split; done || by intros; destruct t. Qed.

Abbreviation live := (Gate.live (W := World)).

(** ** Every mechanism keeps the invariant *)

Lemma flagged_true t :
  writer_paused t = true ∨ chain_paused t = true ∨ ext_overflow_paused t = true
  ∨ epollin_removed t = true → Gate.flagged t = true.
Proof. unfold Gate.flagged. cbn. intros [->|[->|[->| ->]]]; by rewrite ?orb_true_r. Qed.

Lemma writer_pause_live cid w u w' : live w → writer_pause cid w = Some (u, w') → live w'.
Proof.
  intros Hl E. unfold writer_pause in E. apply bind_some in E as (o & w1 & E1 & E).
  injection E1 as <- <-. destruct (targets (ses w) !! cid) as [t|] eqn:Et; [|by injection E as <- <-].
  destruct (Gate.adjust_live cid (λ t, t{{writer_paused := true}}) true 0 EPOLLIN t w Hl Et)
    as (w2 & Hr & Hl2 & _); [by destruct t|by intros _; left; apply flagged_true; destruct t; left|].
  assert (Some (tt, w2) = Some (u, w')) as Hw by (rewrite <- Hr; exact E). by injection Hw as <- <-.
Qed.

Lemma writer_resume_live any_fd cid w u w' : live w → writer_resume any_fd cid w = Some (u, w') → live w'.
Proof.
  intros Hl E. unfold writer_resume in E. apply bind_some in E as (o & w1 & E1 & E).
  injection E1 as <- <-. destruct (targets (ses w) !! cid) as [t|] eqn:Et; [|by injection E as <- <-].
  destruct (Gate.adjust_live cid (λ t, t{{writer_paused := false}})
              ((any_fd || (0 <=? t_fd t)) && negb (chain_paused t) && negb (ext_overflow_paused t)) EPOLLIN 0 t w Hl Et)
    as (w2 & Hr & Hl2 & _); [by destruct t| |].
  - intros H0. destruct (Gate.resume_cases (t{{writer_paused := false}}) (t_fd t) (chain_paused t)
      (ext_overflow_paused t)) as [?|Hb]; [|done|by left|].
    + intros Hb. apply flagged_true. destruct t; cbn in *; tauto.
    + right. destruct any_fd; [|done]. destruct (0 <=? t_fd t); [done|]. by cbn in Hb.
  - assert (Some (tt, w2) = Some (u, w')) as Hw by (rewrite <- Hr; exact E). by injection Hw as <- <-.
Qed.

Lemma recv_chain_pause_live w : live w → ∃ w', recv_chain_pause w = Some (tt, w') ∧ live w'.
Proof.
  intros Hl. refine (Gate.pause_all_live (λ t, t{{chain_paused := true}}) w _ Hl). intros t.
  split; [by destruct t|]. apply flagged_true. destruct t; auto.
Qed.

Lemma recv_chain_resume_live w : live w → ∃ w', recv_chain_resume w = Some (tt, w') ∧ live w'.
Proof.
  intros Hl. refine (Gate.resume_all_live (λ t, t{{chain_paused := false}})
    (λ t, (0 <=? t_fd t) && negb (writer_paused t) && negb (ext_overflow_paused t)) w _ Hl).
  intros t. split; [by destruct t|]. apply Gate.resume_cases. intros Hb. apply flagged_true.
  destruct t; cbn in *; tauto.
Qed.

Lemma overflow_gate_live w : live w → ∃ w', overflow_gate w = Some (tt, w') ∧ live w'.
Proof.
  intros Hl. unfold overflow_gate. unfold mbind, act_bind, get_ses, gets. cbn [id].
  destruct (1024 * 1024 <? _).
  - destruct (negb (dc_paused (ses w))); cbn [when]; [|by exists w].
    refine (Gate.pause_all_live (λ t, t{{ext_overflow_paused := true}})
              (w{{ses ::= λ s, s{{dc_paused := true}}}}) _ _); [|by apply (Gate.live_same w)].
    intros t. split; [by destruct t|]. apply flagged_true. destruct t; auto.
  - destruct ((_ <? 256 * 1024) && dc_paused (ses w)); cbn [when]; [|by exists w].
    refine (Gate.resume_all_live (λ t, t{{ext_overflow_paused := false}})
             (λ t, (0 <=? t_fd t) && negb (writer_paused t) && negb (chain_paused t))
             (w{{ses ::= λ s, s{{dc_paused := false}}}}) _ _); [|by apply (Gate.live_same w)].
    intros t. split; [by destruct t|]. apply Gate.resume_cases. intros Hb. apply flagged_true.
    destruct t; cbn in *; tauto.
Qed.

(** Opening and closing a target. *)
Lemma close_target_live cid w u w' : live w → close_target cid w = Some (u, w') → live w'.
Proof.
  intros Hl E. unfold close_target in E. apply bind_some in E as (o & w1 & E1 & E).
  injection E1 as <- <-. destruct (targets (ses w) !! cid) as [t|] eqn:Et; [|by injection E as <- <-].
  unfold del_fd, close, kernel_do, emit, upd, modify, mbind, act_bind in E. cbn beta iota in E.
  apply (Gate.live_delete cid t w w' Hl Et); injection E as _ E; subst w'; [done|].
  intros fd Hne. by apply Gate.del_other.
Qed.

(** Targets as they were, interest not smaller. *)
Definition grows (T : gmap Z TargetConn) (k : Kernel.t handler) (w : World) : Prop :=
  targets (ses w) = T ∧ Gate.mono k (kern w).

Lemma send_control_grows pkt T k : keeps (grows T k) (send_control pkt).
Proof.
  apply keeps_bind; [apply keeps_gets|]. intros s.
  destruct (Control.send_control _ _ _) as [snd' choice].
  apply keeps_bind; [apply keeps_modify; intros w Hw; exact Hw|]. intros _.
  destruct choice as [[idx fr]|]; [|apply keeps_ret].
  apply keeps_bind; [apply keeps_modify; intros w Hw; exact Hw|]. intros _.
  apply keeps_bind; [apply keeps_bind; [apply keeps_get|intros; apply keeps_of_option]|]. intros dc.
  apply keeps_when. intros _. unfold register_data_conn_epollout.
  apply keeps_bind; [apply keeps_gets|]. intros dcs. destruct (dcs !! idx) as [dc'|]; [|apply keeps_ret].
  case_match; [apply keeps_ret|].
  apply keeps_bind; [apply keeps_modify; intros w Hw; exact Hw|]. intros _.
  apply keeps_modify. intros w [HT Hk]. split; [exact HT|]. etransitivity; [exact Hk|]. apply Gate.add_mono.
Qed.

Lemma on_target_connected_live fd cid req w u w' :
  live w → (∀ c t, targets (ses w) !! c = Some t → c ≠ cid → t_fd t ≠ fd) →
  on_target_connected fd cid req w = Some (u, w') → live w'.
Proof.
  intros Hl Hfresh E. unfold on_target_connected in E.
  apply bind_some in E as ([] & w1 & E1 & E). apply bind_some in E as ([] & w2 & E2 & E).
  assert (targets (ses w2) = <[cid := new_target fd []]> (targets (ses w))
          ∧ kern w2 = Kernel.add_fd_handler fd (HTarget cid) EPOLLIN (kern w)) as [HT2 Hk2].
  { injection E1 as <-. injection E2 as <-. done. }
  destruct (send_control_grows _ (targets (ses w2)) (kern w2) _ _ _ E) as [HT Hm]; [by split|].
  rewrite HT2 in HT. rewrite Hk2 in Hm.
  destruct (Gate.add_wants fd (HTarget cid) (kern w)) as [H1 H2]. destruct (Hm _ H1) as [H3 H4].
  apply (Gate.live_insert cid (new_target fd []) w w'); [done|done|done| |done|by apply H4].
  etransitivity; [apply Gate.add_mono|exact Hm].
Qed.

(** ** Runs *)

Inductive flow_step : World → World → Prop :=
| fs_connected fd cid req w u w' :
    (∀ c t, targets (ses w) !! c = Some t → c ≠ cid → t_fd t ≠ fd) →
    on_target_connected fd cid req w = Some (u, w') → flow_step w w'
| fs_close cid w u w' : close_target cid w = Some (u, w') → flow_step w w'
| fs_writer_pause cid w u w' : writer_pause cid w = Some (u, w') → flow_step w w'
| fs_writer_resume any_fd cid w u w' : writer_resume any_fd cid w = Some (u, w') → flow_step w w'
| fs_chain_pause w u w' : recv_chain_pause w = Some (u, w') → flow_step w w'
| fs_chain_resume w u w' : recv_chain_resume w = Some (u, w') → flow_step w w'
| fs_overflow w u w' : overflow_gate w = Some (u, w') → flow_step w w'
| fs_gate bp0 w u w' : gate_targets bp0 w = Some (u, w') → flow_step w w'
(** anything that leaves the flags and the interest in the remaining targets alone *)
| fs_other w w' : Gate.kept w w' → flow_step w w'.

Lemma flow_step_live w w' : flow_step w w' → live w → live w'.
Proof.
  intros Hs Hl. destruct Hs.
  - by eapply on_target_connected_live.
  - by eapply close_target_live.
  - by eapply writer_pause_live.
  - by eapply writer_resume_live.
  - destruct (recv_chain_pause_live w Hl) as (? & ? & ?). by simplify_eq.
  - destruct (recv_chain_resume_live w Hl) as (? & ? & ?). by simplify_eq.
  - destruct (overflow_gate_live w Hl) as (? & ? & ?). by simplify_eq.
  - destruct (Gate.gate_run bp0 w Hl) as (w1 & Hg & ? & _).
    assert (Some (tt, w1) = Some (u, w')) as Hw by (rewrite <- Hg; done). by simplify_eq.
  - by eapply Gate.live_kept.
Qed.

(** [C7] Flow control never stalls. However targets are opened and closed, and WRITER_PAUSE,
    WRITER_RESUME, CHAIN_PAUSE, CHAIN_RESUME, the overflow gate and earlier ticks
    interleave, the EPOLLIN gate of a tick always completes, and after it every open target
    that no mechanism asks to pause is watched for EPOLLIN. *)
Theorem flow_control_never_stalls (w0 w : World) (bp0 : bool) :
  targets (ses w0) = ∅ → rtc flow_step w0 w →
  ∃ w', gate_targets bp0 w = Some (tt, w')
    ∧ ∀ cid t, targets (ses w') !! cid = Some t → 0 <= t_fd t →
        should_pause bp0 t = false → Gate.wants_in (kern w') (t_fd t) = true.
Proof.
  intros H0 Hr. assert (live w) as Hl.
  { assert (live w0) as Hl0 by (by apply Gate.live_empty).
    clear H0. induction Hr as [|? ? ? Hs _ IH]; [done|]. by apply IH, (flow_step_live _ _ Hs). }
  exact (Gate.gate_effective bp0 w Hl).
Qed.

End flow.

Definition example_chain : ChainOps (@Chain.Chain Copy.ctx) :=
  Chain.chain_ops Copy.init Copy.process (λ _ _, 0) (λ _ _, true).
#[local] Existing Instance example_chain.

(** A running session with one data connection and no target. *)
Definition example_world : @World (@Chain.Chain Copy.ctx) :=
  mkWorld ((new_session 5 [1; 2; 3] 77 0 1000){{state := RUNNING; data_connections := [new_dc{{fd := 5}}] }})
          Kernel.new 0 [] [].

(** The world after an action that is known to succeed. *)
Definition after {S A} (m : act S A) (s : S) : S := match m s with Some (_, s') => s' | None => s end.

Lemma flow_control_never_stalls_witness :
  let w1 := after (on_target_connected 7 1 1) example_world in
  let w2 := after (gate_targets true) w1 in
  let w3 := after recv_chain_pause w2 in
  let w4 := after recv_chain_resume w3 in
  ∃ w', gate_targets false w4 = Some (tt, w')
    ∧ ∀ cid t, targets (ses w') !! cid = Some t → 0 <= t_fd t →
        should_pause false t = false → Gate.wants_in (kern w') (t_fd t) = true.
Proof.
  intros w1 w2 w3 w4. apply (flow_control_never_stalls example_world w4 false).
  - reflexivity.
  - eapply rtc_l; [apply (fs_connected 7 1 1 example_world tt w1)|].
    { intros c t. unfold example_world. cbn. by rewrite lookup_empty. }
    { vm_compute. reflexivity. }
    eapply rtc_l; [apply (fs_gate true w1 tt w2); vm_compute; reflexivity|].
    eapply rtc_l; [apply (fs_chain_pause w2 tt w3); vm_compute; reflexivity|].
    eapply rtc_l; [apply (fs_chain_resume w3 tt w4); vm_compute; reflexivity|].
    apply rtc_refl.
Defined.

(** A resume message defeats the gate. While the chain is above its allocation limit
    ([bp0]) the gate has paused a target; WRITER_RESUME turns EPOLLIN on again without
    asking for [bp0], and no later gate turns it off, because [epollin_removed] is already
    set: the target is watched although it is to be paused, and its level-triggered event
    fires without being served. *)
Theorem resume_defeats_gate :
  match (on_target_connected 7 1 1 ;; gate_targets true ;; writer_resume false 1 ;; gate_targets true)
          example_world with
  | Some (_, w) =>
      ∃ t, targets (ses w) !! 1 = Some t ∧ t_fd t = 7 ∧ should_pause true t = true
           ∧ epollin_removed t = true ∧ Gate.wants_in (kern w) 7 = true
  | None => False
  end.
Proof. vm_compute. eexists. by repeat split. Qed.

End FlowControl.
