(* ===== verification/Client.v ===== *)
(** * The tunnel client (client/client.h, client/client.cpp)

    The state of a [Client] and its operations, one definition per method or callback, in
    the monad [act World]. As for the server's session, the world holds the client, the
    kernel's handler table, the answers the operating system will give, and a log of what
    the outside sees. *)

From coqutil Require Import Datatypes.RecordSetters.
From S2P Require Import Prelude Text Protocol WriteBuffer Frame Control Reliable Kernel ChainApi.
Import DoubleBraceUpdate.
Local Open Scope Z_scope.

Module Client.
Import Frame Control Reliable.

Inductive State :=
| DISCONNECTED | AWAIT_AUTH1_CHALLENGE | AWAIT_AUTH1_OK | AWAIT_AUTH2_OK
| AWAIT_MODULE_LIST_RES | AWAIT_CHAIN_READY | AWAIT_TRANSMIT_READY | RUNNING.

#[export] Instance State_eq_dec : EqDecision State.
Proof. solve_decision. Defined.

Definition state_rank (s : State) : nat :=
  match s with
  | DISCONNECTED => 0 | AWAIT_AUTH1_CHALLENGE => 1 | AWAIT_AUTH1_OK => 2 | AWAIT_AUTH2_OK => 3
  | AWAIT_MODULE_LIST_RES => 4 | AWAIT_CHAIN_READY => 5 | AWAIT_TRANSMIT_READY => 6 | RUNNING => 7
  end.

Definition state_eqb (a b : State) : bool := (state_rank a =? state_rank b)%nat.

Record ExternalConn := mkExt {
  e_fd : Z;
  e_writer : WB.WriteBuffer;
  writer_paused : bool;
  local_writer_sent : bool;
  disconnecting : bool;
  ext_overflow_paused : bool;
  chain_paused : bool;
  local_chain_sent : bool;
  shutting_down_wr : bool;
  epollin_removed : bool
}.

Definition new_ext (fd : Z) : ExternalConn :=
  mkExt fd WB.new_buffer false false false false false false false false.

(** The peer's address of a pending connection is used only in messages. *)
Record PendingConn := mkPend { p_fd : Z; p_req_id : Z; created_at : Z }.

Record DataConnection := mkDC {
  fd : Z;
  writer : WB.WriteBuffer;
  rbuf : RBuf;
  link : Link;
  reconnect_pending : bool
}.

Definition new_dc : DataConnection := mkDC (-1) WB.new_buffer (mkRBuf [] 0) new_link false.

(** The callbacks a client registers with the kernel. *)
Inductive handler :=
| HServer                        (* start *)
| HListen                        (* start_listener *)
| HData (idx : nat)              (* register_data_connection_reader *)
| HDataOut (idx : nat)           (* register_data_conn_epollout *)
| HExt (conn_id : Z)             (* handle_connect_ok *)
| HExtOut (conn_id : Z)          (* register_external_epollout *)
| HExtDrain (conn_id : Z).       (* process_pending_io, last part *)

(** The closures put into [pending_io_]; the two that only look at a writer are one. *)
Inductive io :=
| IoDisconnect (conn_id : Z)
| IoRegisterExt (conn_id fd : Z)
| IoPauseExt (conn_id : Z)
| IoResumeExt (conn_id : Z)
| IoRegisterData (idx : nat)
| IoTouchData (idx : nat).

(** What the outside sees. *)
Inductive effect :=
| ESend (fd : Z) (pkt : Packet)
| EOut (fd : Z) (segs : list WB.seg)
| EClose (fd : Z)
| EShutdown (fd : Z)
| EPush (data : bytes) (src_idx dir : Z)
| EWakeup
| EHandshake (fd : Z) (data : bytes)      (* the 9 bytes of a secondary connection *)
| EStop                                   (* Kernel::request_stop *)
| EKernelStop.                            (* kernel_->stop *)

(** What opening a secondary connection meets: no socket, no connection, a handshake that
    is not written whole, or success. *)
Inductive dial := DialNoSocket | DialRefused (fd : Z) | DialShort (fd : Z) | DialUp (fd : Z).

(** What [connect_to_server] meets: no socket, no connection, or success. *)
Inductive connecting := NoSocket | Refused (fd : Z) | Connected (fd : Z).

(** The digest in hexadecimal; [sha256] is OpenSSL's. *)
Definition hex_sha256 (sha256 : bytes → bytes) (data : bytes) : bytes := to_hex (sha256 data).

Section client.
Context {C : Type} `{ChainOps C}.

(** SHA-256, the digits of [rand()] and [time()] that make the challenge,
    and [ModuleBase::find] (the [mid] of a module, 64 hexadecimal digits). *)
Context (sha256 : bytes → bytes).
Context (new_challenge : bytes).
Context (find_mid : bytes → option bytes).

Record Client := mkClient {
  password : bytes;
  listen_port : Z;
  target_addr : bytes;
  tcp_fd : Z;
  listen_fd : Z;
  recv_buf : bytes;
  session_id : bytes;
  state : State;
  challenge1 : bytes;
  client_challenge : bytes;
  setup_ok : bool;
  chain : option C;
  modules : list ModuleSpec;
  conns : gmap Z ExternalConn;
  pending_ext : list PendingConn;
  next_req_id : Z;
  bp1_since : option Z;
  dc_paused : bool;
  pending_io : list io;
  pending_disconnect_ids : list Z;
  pending_data_frames : list (bytes * Z);
  data_connections : list DataConnection;
  extra_outputs : Z;
  secondary_conns_established : bool;
  control : Sender;
  reorder : Reorder;
  last_wire_activity : Z;
  heartbeating : bool;
  heartbeat_interval_ms : Z
}.

(** [dials]: the outcomes of opening connections to the server; [listens]: of opening the
    listening socket. *)
Record World := mkWorld {
  cli : Client;
  kern : Kernel.t handler;
  writes : list WB.wres;
  dials : list dial;
  listens : list (option Z);
  log : list effect
}.

(** The constructor, and [start] up to the event loop: connected to the server on [fd]. *)
Definition new_client (pw addr : bytes) (port now interval : Z) (mods : list ModuleSpec) : Client :=
  mkClient pw port addr (-1) (-1) [] (replicate 8 0) DISCONNECTED [] [] false None mods ∅ [] 0 None
           false [] [] [] [] 0 false (mkSender 0 0) new_reorder now false interval.

Notation "'M' A" := (act World A) (at level 10).

(** ** Access *)

Definition emit (e : effect) : M unit := modify (λ w, w{{log ::= λ l, l ++ [e] }}).
Definition upd (f : Client → Client) : M unit := modify (λ w, w{{cli ::= f}}).
Definition get_cli {A} (f : Client → A) : M A := gets (λ w, f (cli w)).
Definition kernel_do (f : Kernel.t handler → Kernel.t handler) : M unit :=
  modify (λ w, w{{kern ::= f}}).

Definition add_fd_handler (fd : Z) (h : handler) (ev : Z) : M unit :=
  kernel_do (Kernel.add_fd_handler fd h ev).
Definition mod_fd_events (fd add remove : Z) : M unit :=
  kernel_do (Kernel.mod_fd_events fd add remove).
Definition del_fd (fd : Z) : M unit := kernel_do (Kernel.del_fd fd).
Definition close (fd : Z) : M unit := kernel_do (Kernel.os_close fd) ;; emit (EClose fd).
Definition shutdown (fd : Z) : M unit := emit (EShutdown fd).
Definition wakeup : M unit := emit EWakeup.
Definition request_stop : M unit := emit EStop.
Definition set_state (s : State) : M unit := upd (λ x, x{{state := s}}).

Definition get_dc (idx : nat) : M DataConnection :=
  w ← get; of_option (data_connections (cli w) !! idx).
Definition upd_dc (idx : nat) (f : DataConnection → DataConnection) : M unit :=
  upd (λ s, s{{data_connections ::= alter f idx}}).
Definition get_conn (cid : Z) : M (option ExternalConn) := get_cli (λ s, conns s !! cid).
Definition upd_conn (cid : Z) (f : ExternalConn → ExternalConn) : M unit :=
  upd (λ s, s{{conns ::= alter f cid}}).
Definition erase_conn (cid : Z) : M unit := upd (λ s, s{{conns ::= delete cid}}).

Definition wb_write (fd : Z) (data : bytes) (wb : WB.WriteBuffer) : M (Z * WB.WriteBuffer) :=
  w ← get;
  match WB.write (writes w) data wb with
  | (Some ret, wb', segs, ks) =>
      modify (λ w, w{{writes := ks}}) ;; emit (EOut fd segs) ;; mret (ret, wb')
  | (None, _, _, _) => fail
  end.

Definition wb_flush (fd : Z) (wb : WB.WriteBuffer) : M (bool * WB.WriteBuffer) :=
  w ← get;
  match WB.flush (writes w) wb with
  | (WB.Ret drained, wb', segs, ks) =>
      modify (λ w, w{{writes := ks}}) ;; emit (EOut fd segs) ;; mret (drained, wb')
  | (WB.Running, _, _, _) => fail
  end.

Definition dc_write (idx : nat) (fd' : Z) (data : bytes) : M Z :=
  dc ← get_dc idx;
  '(ret, wb) ← wb_write fd' data (writer dc);
  upd_dc idx (λ dc, dc{{writer := wb}}) ;; mret ret.

Definition dc_flush (idx : nat) : M bool :=
  dc ← get_dc idx;
  '(drained, wb) ← wb_flush (fd dc) (writer dc);
  upd_dc idx (λ dc, dc{{writer := wb}}) ;; mret drained.

Definition conn_flush (cid : Z) (c : ExternalConn) : M bool :=
  '(drained, wb) ← wb_flush (e_fd c) (e_writer c);
  upd_conn cid (λ c, c{{e_writer := wb}}) ;; mret drained.

Definition next_dial : M dial :=
  w ← get;
  match dials w with
  | [] => fail
  | d :: rest => modify (λ w, w{{dials := rest}}) ;; mret d
  end.

(** [for (auto &[id, conn] : conns_) f(id, conn)]. *)
Definition for_conns (f : Z → ExternalConn → M unit) : M unit :=
  ids ← get_cli (λ s, map fst (map_to_list (conns s)));
  each ids (λ cid, c ← get_conn cid; match c with Some c => f cid c | None => mret tt end).

(** ** Sending *)

Definition send_packet (pkt : Packet) : M unit :=
  fd ← get_cli tcp_fd; emit (ESend fd pkt).

Definition register_data_conn_epollout (idx : nat) (fd' : Z) : M unit :=
  dcs ← get_cli data_connections;
  match dcs !! idx with
  | None => mret tt
  | Some dc =>
      if WB.registered (writer dc) then mret tt else
      upd_dc idx (λ dc, dc{{writer ::= WB.set_registered true}}) ;;
      add_fd_handler fd' (HDataOut idx) EPOLLOUT
  end.

Definition send_control (pkt : Packet) : M unit :=
  s ← get_cli id;
  let '(snd', choice) := Control.send_control (control s) (map fd (data_connections s)) pkt in
  upd (λ s, s{{control := snd'}}) ;;
  match choice with
  | None => mret tt
  | Some (idx, frame) =>
      upd_dc idx (λ dc, dc{{writer ::= WB.write_priority frame}}) ;;
      dc ← get_dc idx;
      when (negb (WB.registered (writer dc))) (register_data_conn_epollout idx (fd dc))
  end.

Definition send_writer_pause (cid : Z) : M unit := send_control (make_msg MSG_WRITER_PAUSE [cid]).
Definition send_writer_resume (cid : Z) : M unit :=
  send_control (make_msg MSG_WRITER_RESUME [cid]).
Definition send_chain_pause : M unit := send_control (make_msg MSG_CHAIN_PAUSE []).
Definition send_chain_resume : M unit := send_control (make_msg MSG_CHAIN_RESUME []).

Definition register_external_epollout (cid fd' : Z) : M unit :=
  c ← get_conn cid;
  match c with
  | None => mret tt
  | Some c =>
      if WB.registered (e_writer c) then mret tt else
      upd_conn cid (λ c, c{{e_writer ::= WB.set_registered true}}) ;;
      add_fd_handler fd' (HExtOut cid) EPOLLOUT
  end.

(** ** The chain *)

Definition chain_alloc (size : Z) : M bool :=
  c ← get_cli chain;
  match c with
  | None => fail
  | Some c => match alloc_buffer size c with
              | Some c' => upd (λ s, s{{chain := Some c'}}) ;; mret true
              | None => mret false
              end
  end.

Definition chain_push (asize : Z) (data : bytes) (src_idx dir : Z) : M unit :=
  emit (EPush data src_idx dir) ;;
  upd (λ s, s{{chain ::= fmap (push_packet asize data src_idx dir)}}).

Definition chain_free (asize : Z) : M unit :=
  upd (λ s, s{{chain ::= fmap (free_buffer asize)}}).

(** Blocks that arrive before the client runs are kept. *)
Definition dispatch_data_conn_packet (payload : bytes) (src_idx : Z) : M unit :=
  match payload with
  | [] => mret tt
  | _ =>
      st ← get_cli state;
      if (state_rank st <? 7)%nat
      then upd (λ s, s{{pending_data_frames ::= λ l, l ++ [(payload, src_idx)] }})
      else
        ok ← chain_alloc (1 + Z.of_nat (length payload));
        when ok (chain_push (1 + Z.of_nat (length payload)) payload src_idx 1)
  end.

(** ** External connections *)

Definition MAX_PENDING_EXT : nat := 256.
Definition PENDING_TIMEOUT_MS : Z := 5000.

(** [CONNECT_REQ]: the request id and the address of the target with its length. *)
Definition connect_req (req_id : Z) (addr : bytes) : Packet :=
  make_msg MSG_CONNECT_REQ (req_id :: u8 (Z.of_nat (length addr)) :: addr).

Definition on_listener_accept (now cfd : Z) : M unit :=
  s ← get_cli id;
  if (MAX_PENDING_EXT <=? length (pending_ext s))%nat then close cfd else
  let req_id := next_req_id s in
  upd (λ s, s{{next_req_id := u8 (req_id + 1);
               pending_ext ::= λ l, l ++ [mkPend cfd req_id now] }}) ;;
  send_control (connect_req req_id (target_addr s)).

(** The listener's callback, with the descriptors [accept] returns. *)
Definition on_listen_event (now events : Z) (cfds : list Z) : M unit :=
  when (has events EPOLLIN) (each cfds (on_listener_accept now)).

Definition start_listener : M unit :=
  w ← get;
  match listens w with
  | [] => fail
  | r :: rest =>
      modify (λ w, w{{listens := rest}}) ;;
      match r with
      | None => upd (λ s, s{{listen_fd := -1}})
      | Some fd => upd (λ s, s{{listen_fd := fd}}) ;; add_fd_handler fd HListen EPOLLIN
      end
  end.

Definition stop_listener : M unit :=
  s ← get_cli id;
  when (0 <=? listen_fd s) (close (listen_fd s) ;; upd (λ s, s{{listen_fd := -1}})) ;;
  for_conns (λ _ c, when (0 <=? e_fd c) (del_fd (e_fd c) ;; shutdown (e_fd c) ;; close (e_fd c))) ;;
  upd (λ s, s{{conns := ∅}}).

Definition on_external_recv (cid : Z) (data : bytes) : M unit :=
  st ← get_cli state;
  if (state_rank st <? 7)%nat then mret tt else
  ok ← chain_alloc (1 + Z.of_nat (length data));
  when ok (chain_push (1 + Z.of_nat (length data)) (cid :: data) 0 0).

Definition on_external_disconnect (cid : Z) : M unit :=
  c ← get_conn cid;
  match c with
  | None => mret tt
  | Some c =>
      erase_conn cid ;;
      when (0 <=? e_fd c) (del_fd (e_fd c) ;; close (e_fd c)) ;;
      send_control (make_msg MSG_DISCONNECT [cid])
  end.

Definition finish_disconnect (cid : Z) : M unit :=
  c ← get_conn cid;
  match c with
  | None => mret tt
  | Some c =>
      conn_flush cid c ;;
      c' ← get_conn cid;
      match c' with
      | Some c' =>
          when (WB.empty (e_writer c'))
            (erase_conn cid ;;
             when (0 <=? e_fd c) (del_fd (e_fd c) ;; shutdown (e_fd c) ;; close (e_fd c)))
      | None => mret tt
      end
  end.

Definition send_raw_to_external (cid : Z) (data : bytes) : M unit :=
  c ← get_conn cid;
  match c with
  | None => mret tt
  | Some c =>
      if e_fd c <? 0 then mret tt else
      '(ret, wb) ← wb_write (e_fd c) data (e_writer c);
      let should_pause := (0 <? ret) && negb (local_writer_sent c) in
      let sent := local_writer_sent c || should_pause in
      let should_resume := (WB.size wb <? WB.low_water wb) && sent in
      upd_conn cid (λ c, c{{e_writer := wb; local_writer_sent := sent && negb should_resume}}) ;;
      when ((0 <? ret) && negb (WB.registered wb)) (register_external_epollout cid (e_fd c)) ;;
      when should_pause (send_writer_pause cid) ;;
      when should_resume (send_writer_resume cid)
  end.

(** The loop [do flush while (!drained)] of the EPOLLOUT callback, left when a flush does
    not move the read offset. Each round but the last uses an answer of the system. *)
Fixpoint ext_flush_loop (fuel : nat) (cid : Z) : M unit :=
  match fuel with
  | O => fail
  | S k =>
      c ← get_conn cid;
      match c with
      | None => mret tt
      | Some c =>
          drained ← conn_flush cid c;
          c' ← get_conn cid;
          match c' with
          | None => mret tt
          | Some c' =>
              if (WB.read_offset (e_writer c') =? WB.read_offset (e_writer c))%nat then mret tt
              else if (drained : bool) then mret tt else ext_flush_loop k cid
          end
      end
  end.

Definition on_ext_out_event (cid events : Z) : M unit :=
  if has events (Z.lor EPOLLERR EPOLLHUP) then erase_conn cid else
  when (has events EPOLLOUT)
    (w ← get;
     ext_flush_loop (S (length (writes w))) cid ;;
     c ← get_conn cid;
     match c with
     | None => mret tt
     | Some c =>
         when (WB.empty (e_writer c))
           (upd_conn cid (λ c, c{{e_writer ::= WB.set_registered false}}) ;;
            mod_fd_events (e_fd c) 0 EPOLLOUT ;;
            if disconnecting c then
              erase_conn cid ;;
              when (0 <=? e_fd c) (del_fd (e_fd c) ;; shutdown (e_fd c) ;; close (e_fd c))
            else when (local_writer_sent c)
              (upd_conn cid (λ c, c{{local_writer_sent := false}}) ;; send_writer_resume cid))
     end).

(** What [read] returns. *)
Inductive readres := RdData (d : bytes) | RdEof | RdAgain | RdErr.

(** The EPOLLIN part of the callback of an external connection: [false] when it returns. *)
Definition ext_read (cid : Z) (r : readres) : M bool :=
  c ← get_cli chain;
  if match c with Some c => is_backpressure_paused 0 c | None => false end then mret false else
  ok ← chain_alloc MAX_PACKET_SIZE;
  if negb ok then mret false else
  match r with
  | RdData d => chain_push MAX_PACKET_SIZE (cid :: d) 0 0 ;; mret true
  | RdEof =>
      chain_free MAX_PACKET_SIZE ;;
      upd_conn cid (λ c, c{{shutting_down_wr := true}}) ;;
      ok ← chain_alloc 3;
      if (ok : bool) then chain_push 3 [255; CHAIN_CTRL_SHUTDOWN_WR; cid] 0 0 ;; mret true else fail
  | RdAgain | RdErr => chain_free MAX_PACKET_SIZE ;; mret true
  end.

Definition on_ext_event (cid events : Z) (r : readres) : M unit :=
  go ← (if has events EPOLLIN then ext_read cid r else mret true);
  when (go && has events (Z.lor EPOLLERR EPOLLHUP))
    (c ← get_conn cid;
     match c with
     | Some c =>
         if shutting_down_wr c
         then when (0 <=? e_fd c) (del_fd (e_fd c) ;; close (e_fd c)) ;; erase_conn cid
         else on_external_disconnect cid
     | None => mret tt
     end).

(** ** Messages of the server *)

(** The first pending connection with a request id, and the others. *)
Fixpoint take_pending (req_id : Z) (l : list PendingConn) : option (PendingConn * list PendingConn) :=
  match l with
  | [] => None
  | p :: rest =>
      if p_req_id p =? req_id then Some (p, rest)
      else '(q, rest') ← take_pending req_id rest; Some (q, p :: rest')
  end.

(** [emplace] keeps a connection that already has the id. *)
Definition handle_connect_ok (pkt : Packet) : M unit :=
  match payload pkt with
  | cid :: req_id :: _ =>
      s ← get_cli id;
      match take_pending req_id (pending_ext s) with
      | None => send_control (make_msg MSG_DISCONNECT [cid])
      | Some (p, rest) =>
          upd (λ s, s{{pending_ext := rest}}) ;;
          upd (λ s, s{{conns ::= λ m, match m !! cid with
                                      | Some _ => m
                                      | None => <[cid := new_ext (p_fd p)]> m
                                      end}}) ;;
          add_fd_handler (p_fd p) (HExt cid) EPOLLIN
      end
  | _ => mret tt
  end.

Definition handle_connect_fail (pkt : Packet) : M unit :=
  match payload pkt with
  | _ :: req_id :: _ =>
      s ← get_cli id;
      match take_pending req_id (pending_ext s) with
      | None => mret tt
      | Some (p, rest) => close (p_fd p) ;; upd (λ s, s{{pending_ext := rest}})
      end
  | _ => mret tt
  end.

Definition begin_disconnect (cid : Z) : M unit :=
  c ← get_conn cid;
  match c with
  | None => mret tt
  | Some _ => upd_conn cid (λ c, c{{disconnecting := true}}) ;;
              upd (λ s, s{{pending_disconnect_ids ::= λ l, l ++ [cid] }})
  end.

Definition handle_disconnect (pkt : Packet) : M unit :=
  match payload pkt with [] => mret tt | cid :: _ => begin_disconnect cid end.

Definition handle_writer_pause (pkt : Packet) : M unit :=
  match payload pkt with
  | [] => mret tt
  | cid :: _ =>
      c ← get_conn cid;
      match c with
      | None => mret tt
      | Some c => upd_conn cid (λ c, c{{writer_paused := true}}) ;;
                  when (0 <=? e_fd c) (mod_fd_events (e_fd c) 0 EPOLLIN)
      end
  end.

Definition handle_writer_resume (pkt : Packet) : M unit :=
  match payload pkt with
  | [] => mret tt
  | cid :: _ =>
      c ← get_conn cid;
      match c with
      | None => mret tt
      | Some c =>
          upd_conn cid (λ c, c{{writer_paused := false}}) ;;
          when ((0 <=? e_fd c) && negb (chain_paused c) && negb (ext_overflow_paused c))
               (mod_fd_events (e_fd c) EPOLLIN 0)
      end
  end.

Definition handle_chain_pause : M unit :=
  for_conns (λ cid c,
    upd_conn cid (λ c, c{{chain_paused := true}}) ;;
    when (0 <=? e_fd c) (mod_fd_events (e_fd c) 0 EPOLLIN)).

Definition handle_chain_resume : M unit :=
  for_conns (λ cid c,
    upd_conn cid (λ c, c{{chain_paused := false}}) ;;
    when ((0 <=? e_fd c) && negb (writer_paused c) && negb (ext_overflow_paused c))
         (mod_fd_events (e_fd c) EPOLLIN 0)).

(** ** Modules and chain *)

(** [CHAIN_CREATE]: names with one byte of length, parameters with two. *)
Definition encode_module (m : ModuleSpec) : bytes :=
  let plen := u16 (Z.of_nat (length (params m))) in
  u8 (Z.of_nat (length (name m))) :: name m ++
  Z.land plen 0xFF :: Z.shiftr plen 8 :: params m.

Definition chain_create (mods : list ModuleSpec) : bytes :=
  u8 (Z.of_nat (length mods)) :: concat (map encode_module mods).

Definition handle_module_list_res (pkt : Packet) : M unit :=
  match payload pkt with
  | [] => mret tt
  | 1 :: _ =>
      mods ← get_cli modules;
      send_control (make_msg MSG_CHAIN_CREATE (chain_create mods)) ;;
      set_state AWAIT_CHAIN_READY
  | _ => set_state DISCONNECTED ;; request_stop
  end.

Definition grow (n : nat) (l : list DataConnection) : list DataConnection :=
  l ++ replicate (n - length l) new_dc.

Definition register_data_connection_reader (idx : nat) : M unit :=
  dcs ← get_cli data_connections;
  match dcs !! idx with
  | Some dc => when (0 <=? fd dc) (add_fd_handler (fd dc) (HData idx) EPOLLIN)
  | None => mret tt
  end.

(** [session_id:8][output_idx:1]. *)
Definition handshake (sid : bytes) (i : nat) : bytes := sid ++ [u8 (Z.of_nat i)].

Definition open_secondary_connections : M unit :=
  s ← get_cli id;
  if secondary_conns_established s then mret tt else
  upd (λ s, s{{secondary_conns_established := true}}) ;;
  each (seq 1 (Z.to_nat (extra_outputs s))) (λ i,
    d ← next_dial;
    match d with
    | DialNoSocket => mret tt
    | DialRefused fd' => close fd'
    | DialShort fd' => emit (EHandshake fd' (handshake (session_id s) i)) ;; close fd'
    | DialUp fd' =>
        emit (EHandshake fd' (handshake (session_id s) i)) ;;
        upd (λ s, s{{data_connections ::= grow (i + 1)}}) ;;
        upd_dc i (λ dc, dc{{fd := fd'}}) ;;
        register_data_connection_reader i
    end).

Definition become_running : M unit := upd (λ s, s{{state := RUNNING; setup_ok := true}}).

Definition handle_chain_ready : M unit :=
  s ← get_cli id;
  if negb (state_eqb (state s) AWAIT_CHAIN_READY) then mret tt else
  let extra := match chain s with Some c => total_extra_outputs c | None => 0 end in
  upd (λ s, s{{extra_outputs := extra}}) ;;
  if 0 <? extra then set_state AWAIT_TRANSMIT_READY ;; open_secondary_connections
  else become_running ;; when (0 <? listen_port s) start_listener.

Definition handle_transmit_ready : M unit :=
  s ← get_cli id;
  if negb (state_eqb (state s) AWAIT_TRANSMIT_READY) then mret tt else
  become_running ;;
  each (pending_data_frames s) (λ '(buf, src_idx),
    ok ← chain_alloc (Z.of_nat (length buf));
    when ok (chain_push (Z.of_nat (length buf)) buf src_idx 1)) ;;
  upd (λ s, s{{pending_data_frames := [] }}) ;;
  when (0 <? listen_port s) start_listener.

(** ** Control messages *)

Definition apply_control (pkt : Packet) : M unit :=
  let ty := type pkt in
  if ty =? MSG_MODULE_LIST_RES then handle_module_list_res pkt
  else if ty =? MSG_CONNECT_OK then handle_connect_ok pkt
  else if ty =? MSG_CONNECT_FAIL then handle_connect_fail pkt
  else if ty =? MSG_DISCONNECT then handle_disconnect pkt
  else if ty =? MSG_WRITER_PAUSE then handle_writer_pause pkt
  else if ty =? MSG_WRITER_RESUME then handle_writer_resume pkt
  else if ty =? MSG_CHAIN_PAUSE then handle_chain_pause
  else if ty =? MSG_CHAIN_RESUME then handle_chain_resume
  else if ty =? MSG_CHAIN_READY then handle_chain_ready
  else if ty =? MSG_TRANSMIT_READY then handle_transmit_ready
  else mret tt.

Definition deliver_control (seq : Z) (pkt : Packet) : M unit :=
  r ← get_cli reorder;
  let '(r', pkts) := Control.deliver_control r seq pkt in
  upd (λ s, s{{reorder := r'}}) ;;
  each pkts apply_control.

(** [process_wire_buffer] has the same [switch] as [apply_control]. *)
Definition leftover_item (i : leftover) : M unit :=
  match i with
  | LControl pkt => apply_control pkt
  | LData d => dispatch_data_conn_packet d 1
  | LShutdownWr _ => mret tt
  end.

Definition process_wire_buffer (data : bytes) : M unit :=
  items ← of_option (Control.process_wire_buffer (length data) Frame.Client data);
  each items leftover_item.

(** ** The data connections *)

Definition handle_frame (idx : nat) (f : frame) : M unit :=
  let register := dc ← get_dc idx;
                  when ((0 <? WB.size (writer dc)) && negb (WB.registered (writer dc)))
                       (register_data_conn_epollout idx (fd dc)) in
  match f with
  | FPing => dc ← get_dc idx; dc_write idx (fd dc) pong_frame ;; register
  | FPong | FIgnored | FShutdownWr _ => mret tt
  | FShutdownWrAck cid =>
      c ← get_conn cid;
      match c with
      | None => mret tt
      | Some c =>
          upd_conn cid (λ c, c{{shutting_down_wr := true}}) ;;
          when (negb (WB.empty (e_writer c)) && negb (WB.registered (e_writer c)))
               (register_external_epollout cid (e_fd c))
      end
  | FControl seq proto =>
      match try_parse proto with
      | ParseOk pkt total => when (0 <? total) (deliver_control seq pkt)
      | ParseNone => mret tt
      | ParseUndefined => fail
      end
  | FAck a => upd_dc idx (λ dc, dc{{link ::= on_ack a}})
  | FData seq d =>
      dc ← get_dc idx;
      let '(l, ok, ack) := on_data seq (link dc) in
      upd_dc idx (λ dc, dc{{link := l}}) ;;
      when ok (dispatch_data_conn_packet d (Z.of_nat idx + 1)) ;;
      upd_dc idx (λ dc, dc{{writer ::= WB.write_priority ack}}) ;; register
  end.

(** The zeros [resize(old + MAX_PACKET_SIZE)] puts behind the buffer. *)
Definition read_space : bytes := replicate (Z.to_nat MAX_PACKET_SIZE) 0.

(** The EPOLLIN part of the reader. Unlike the server, the client gives the space for a
    read back only when the read returned data. *)
Definition on_data_readable (now : Z) (idx : nat) (r : readres) : M unit :=
  dc ← get_dc idx;
  match r with
  | RdData d =>
      upd (λ s, s{{last_wire_activity := now; heartbeating := false}}) ;;
      '(fs, rb, stop) ← of_option (on_readable Frame.Client (rbuf dc) d);
      upd_dc idx (λ dc, dc{{rbuf := rb}}) ;;
      each fs (handle_frame idx) ;;
      when stop request_stop
  | RdEof | RdAgain | RdErr =>
      upd_dc idx (λ dc, dc{{rbuf ::= λ rb, mkRBuf (read_buf rb ++ read_space) (read_offset rb)}})
  end.

Definition on_data_event (now : Z) (idx : nat) (events : Z) (r : readres) : M unit :=
  when (has events EPOLLIN) (on_data_readable now idx r) ;;
  when (has events (Z.lor EPOLLERR EPOLLHUP))
    (if (idx =? 0)%nat then request_stop else
     dc ← get_dc idx;
     del_fd (fd dc) ;; close (fd dc) ;;
     upd_dc idx (λ dc, dc{{fd := -1; reconnect_pending := true}})).

Definition on_data_out_event (idx : nat) (events : Z) : M unit :=
  dcs ← get_cli data_connections;
  match dcs !! idx with
  | None => mret tt
  | Some _ =>
      when (has events EPOLLOUT)
        (drained ← dc_flush idx;
         when (negb drained) (dc_flush idx ;; mret tt) ;;
         dc ← get_dc idx;
         when (WB.empty (writer dc))
           (upd_dc idx (λ dc, dc{{writer ::= WB.set_registered false}}) ;;
            mod_fd_events (fd dc) 0 EPOLLOUT)) ;;
      when (has events (Z.lor EPOLLERR EPOLLHUP)) (upd_dc idx (λ dc, dc{{writer ::= WB.clear}}))
  end.

(** ** The chain's exit *)

Definition push_io (l : list io) : M unit := upd (λ s, s{{pending_io ::= λ q, q ++ l}}).

Definition wire_write_ext (data : bytes) : M Z :=
  match data with
  | [] => mret 0
  | 255 :: rest =>
      match rest with
      | ct :: cid :: _ => when (ct =? CHAIN_CTRL_DISCONNECT) (push_io [IoDisconnect cid]) ;; mret 0
      | _ => mret 0
      end
  | cid :: payload =>
      c ← get_conn cid;
      match c with
      | None => mret 0
      | Some c =>
          if disconnecting c || (e_fd c <? 0) then mret 0 else
          '(ret, wb) ← wb_write (e_fd c) payload (e_writer c);
          upd_conn cid (λ c, c{{e_writer := wb}}) ;;
          when (0 <=? ret)
            (if 0 <? ret then push_io [IoRegisterExt cid (e_fd c); IoPauseExt cid]
             else push_io [IoResumeExt cid]) ;;
          wakeup ;; mret 0
      end
  end.

(** Unlike the server's, the client's [wire_write] never fails: without a connection the
    packet is dropped. *)
Definition wire_write (now dst : Z) (data : bytes) : M Z :=
  if dst =? 0 then wire_write_ext data else
  s ← get_cli id;
  let i := Z.to_nat (dst - 1) in
  match (if dst <? 1 then None else data_connections s !! i) with
  | None => mret 0
  | Some dc =>
      if fd dc <? 0 then mret 0 else
      let '(l, frame) := send_data now data (link dc) in
      ret ← dc_write i (fd dc) frame;
      upd_dc i (λ dc, dc{{link := l}}) ;;
      push_io (if 0 <? ret then [IoRegisterData i; IoTouchData i] else [IoTouchData i]) ;;
      wakeup ;; mret 0
  end.

Definition run_io (i : io) : M unit :=
  match i with
  | IoDisconnect cid => begin_disconnect cid
  | IoRegisterExt cid fd' => register_external_epollout cid fd'
  | IoPauseExt cid =>
      c ← get_conn cid;
      match c with
      | Some c => when ((WB.high_water (e_writer c) <? WB.size (e_writer c)) && negb (local_writer_sent c))
                    (upd_conn cid (λ c, c{{local_writer_sent := true}}) ;; send_writer_pause cid)
      | None => mret tt
      end
  | IoResumeExt cid =>
      c ← get_conn cid;
      match c with
      | Some c => when ((WB.size (e_writer c) <=? WB.low_water (e_writer c)) && local_writer_sent c)
                    (upd_conn cid (λ c, c{{local_writer_sent := false}}) ;; send_writer_resume cid)
      | None => mret tt
      end
  | IoRegisterData idx =>
      dcs ← get_cli data_connections;
      match dcs !! idx with
      | Some dc => when (0 <=? fd dc) (register_data_conn_epollout idx (fd dc))
      | None => mret tt
      end
  | IoTouchData idx => get_dc idx ;; mret tt
  end.

(** ** Authentication *)

Definition handle_auth1_challenge (pkt : Packet) : M unit :=
  s ← get_cli id;
  upd (λ s, s{{challenge1 := payload pkt}}) ;;
  send_packet (make_msg MSG_AUTH_RESPONSE (take 64 (hex_sha256 sha256 (payload pkt ++ password s)))) ;;
  set_state AWAIT_AUTH1_OK.

Definition handle_auth1_ok (pkt : Packet) : M unit :=
  match payload pkt with
  | 1 :: rest =>
      when (8 <=? length rest)%nat (upd (λ s, s{{session_id := take 8 rest}})) ;;
      upd (λ s, s{{client_challenge := new_challenge}}) ;;
      send_packet (make_msg MSG_AUTH_CHALLENGE new_challenge) ;;
      set_state AWAIT_AUTH2_OK
  | _ => set_state DISCONNECTED ;; request_stop
  end.

(** Two hexadecimal digits as [strtol(_, 16)] reads them; other characters end the number. *)
Definition hex_val (c : Z) : option Z :=
  if (48 <=? c) && (c <=? 57) then Some (c - 48)
  else if (97 <=? c) && (c <=? 102) then Some (c - 87)
  else if (65 <=? c) && (c <=? 70) then Some (c - 55)
  else None.

Definition hex_pair (a b : Z) : Z :=
  match hex_val a, hex_val b with
  | Some x, Some y => 16 * x + y
  | Some x, None => x
  | None, _ => 0
  end.

Fixpoint unhex (l : bytes) : bytes :=
  match l with a :: b :: rest => hex_pair a b :: unhex rest | _ => [] end.

(** The mids of the configured modules, or nothing when one is not loaded. *)
Fixpoint raw_mids (mods : list ModuleSpec) : option bytes :=
  match mods with
  | [] => Some []
  | m :: rest => mid ← find_mid (name m); more ← raw_mids rest; Some (unhex (take 64 mid) ++ more)
  end.

Definition send_module_list : M unit :=
  mods ← get_cli modules;
  match raw_mids mods with
  | None => set_state DISCONNECTED ;; request_stop
  | Some raw =>
      send_control (make_msg MSG_MODULE_LIST_REQ (u8 (Z.of_nat (length mods)) :: raw)) ;;
      set_state AWAIT_MODULE_LIST_RES
  end.

(** The connection becomes the first data connection; bytes that came with the last message
    are read in the wire format. *)
Definition switch_to_wire : M unit :=
  s ← get_cli id;
  send_packet (make_msg MSG_AUTH_OK [1]) ;;
  upd (λ s, s{{data_connections ::= λ l, take 1 l ++ replicate (1 - length l) new_dc}}) ;;
  upd_dc 0 (λ dc, dc{{fd := tcp_fd s}}) ;;
  register_data_connection_reader 0 ;;
  when (negb (bool_decide (recv_buf s = [])))
    (process_wire_buffer (recv_buf s) ;; upd (λ s, s{{recv_buf := [] }})).

(** The chain of the configured modules, then [next] unless it needs too many connections. *)
Definition create_chain (now : Z) (next : M unit) : M unit :=
  mods ← get_cli modules;
  let c := chain_new now mods in
  upd (λ s, s{{chain := Some c}}) ;;
  if MAX_WIRE_CONNECTIONS <? total_extra_outputs c
  then set_state DISCONNECTED ;; request_stop
  else next.

Definition handle_auth2_challenge (now : Z) (pkt : Packet) : M unit :=
  s ← get_cli id;
  if negb (bool_decide (payload pkt = hex_sha256 sha256 (client_challenge s ++ password s)))
  then set_state DISCONNECTED ;; request_stop
  else create_chain now (switch_to_wire ;; send_module_list).

Definition server_packet (now : Z) (pkt : Packet) : M unit :=
  st ← get_cli state;
  let ty := type pkt in
  let at_ x := state_eqb st x in
  if ty =? MSG_AUTH_CHALLENGE then when (at_ AWAIT_AUTH1_CHALLENGE) (handle_auth1_challenge pkt)
  else if ty =? MSG_AUTH_OK then when (at_ AWAIT_AUTH1_OK) (handle_auth1_ok pkt)
  else if ty =? MSG_AUTH_RESPONSE then when (at_ AWAIT_AUTH2_OK) (handle_auth2_challenge now pkt)
  else if ty =? MSG_CONNECT_OK then
    when (at_ AWAIT_CHAIN_READY || at_ RUNNING) (handle_connect_ok pkt)
  else if ty =? MSG_CONNECT_FAIL then
    when (at_ AWAIT_CHAIN_READY || at_ RUNNING) (handle_connect_fail pkt)
  else if ty =? MSG_DISCONNECT then when (negb (at_ DISCONNECTED)) (handle_disconnect pkt)
  else if ty =? MSG_WRITER_PAUSE then when (at_ RUNNING) (handle_writer_pause pkt)
  else if ty =? MSG_WRITER_RESUME then when (at_ RUNNING) (handle_writer_resume pkt)
  else if ty =? MSG_CHAIN_PAUSE then when (at_ RUNNING) handle_chain_pause
  else if ty =? MSG_CHAIN_RESUME then when (at_ RUNNING) handle_chain_resume
  else mret tt.

(** The loop of [on_server_data]: it stops for good once there is a chain. *)
Fixpoint server_loop (fuel : nat) (now : Z) : M unit :=
  match fuel with
  | O => mret tt
  | S k =>
      buf ← get_cli recv_buf;
      match try_parse buf with
      | ParseUndefined => fail
      | ParseNone => mret tt
      | ParseOk pkt total =>
          if total =? 0 then mret tt else
          upd (λ s, s{{recv_buf ::= drop (Z.to_nat total)}}) ;;
          server_packet now pkt ;;
          c ← get_cli chain;
          match c with Some _ => mret tt | None => server_loop k now end
      end
  end.

Definition on_server_data (now : Z) (data : bytes) : M unit :=
  s ← get_cli id;
  upd (λ s, s{{recv_buf ::= λ b, b ++ data}}) ;;
  server_loop (length (recv_buf s ++ data)) now.

(** The callback of the server connection before the wire format. *)
Definition on_server_event (now events : Z) (r : readres) : M unit :=
  when (has events EPOLLIN)
    (match r with
     | RdData d => on_server_data now d
     | RdEof | RdErr => set_state DISCONNECTED ;; request_stop
     | RdAgain => mret tt
     end).

(** ** The tick *)

(** Requests older than five seconds are cancelled, oldest first. *)
Fixpoint expire_pending (now : Z) (l : list PendingConn) : M unit :=
  match l with
  | [] => mret tt
  | p :: rest =>
      when (PENDING_TIMEOUT_MS <? now - created_at p)
        (send_control (make_msg MSG_CONNECT_CANCEL [p_req_id p]) ;;
         close (p_fd p) ;;
         upd (λ s, s{{pending_ext := rest}}) ;;
         expire_pending now rest)
  end.

Definition overflow_gate : M unit :=
  s ← get_cli id;
  let dc_size := foldr (λ dc acc, WB.size (writer dc) + acc) 0 (data_connections s) in
  if 1024 * 1024 <? dc_size then
    when (negb (dc_paused s))
      (upd (λ s, s{{dc_paused := true}}) ;;
       for_conns (λ cid c,
         upd_conn cid (λ c, c{{ext_overflow_paused := true}}) ;;
         when (0 <=? e_fd c) (mod_fd_events (e_fd c) 0 EPOLLIN)))
  else when ((dc_size <? 256 * 1024) && dc_paused s)
    (upd (λ s, s{{dc_paused := false}}) ;;
     for_conns (λ cid c,
       upd_conn cid (λ c, c{{ext_overflow_paused := false}}) ;;
       when ((0 <=? e_fd c) && negb (writer_paused c) && negb (chain_paused c))
            (mod_fd_events (e_fd c) EPOLLIN 0))).

(** A broken secondary connection is opened again and everything unacknowledged resent.
    The read buffer and its offset stay as they are. *)
Definition reconnect_secondary (now : Z) (i : nat) : M unit :=
  s ← get_cli id;
  dc ← get_dc i;
  when (reconnect_pending dc)
    (d ← next_dial;
     match d with
     | DialNoSocket => mret tt
     | DialRefused fd' => close fd'
     | DialShort fd' => emit (EHandshake fd' (handshake (session_id s) i)) ;; close fd'
     | DialUp fd' =>
         emit (EHandshake fd' (handshake (session_id s) i)) ;;
         upd_dc i (λ dc, dc{{reconnect_pending := false; fd := fd'; writer ::= WB.clear}}) ;;
         register_data_connection_reader i ;;
         (let '(l, frames) := resend_all now (link dc) in
          each frames (λ f, dc_write i fd' f ;; mret tt) ;;
          upd_dc i (λ dc, dc{{link := l}})) ;;
         dc' ← get_dc i;
         when (0 <? WB.size (writer dc')) (register_data_conn_epollout i fd')
     end).

Definition reconnect_secondaries (now : Z) : M unit :=
  n ← get_cli (λ s, length (data_connections s));
  each (seq 1 (n - 1)) (reconnect_secondary now).

Definition retransmit_all (now : Z) : M unit :=
  n ← get_cli (λ s, length (data_connections s));
  each (seq 0 n) (λ i,
    dc ← get_dc i;
    when (0 <=? fd dc)
      (let '(l, frames) := retransmit now (link dc) in
       upd_dc i (λ dc, dc{{link := l}}) ;;
       each frames (λ f, dc_write i (fd dc) f ;; mret tt))).

Definition run_pending_io : M unit :=
  batch ← get_cli pending_io;
  upd (λ s, s{{pending_io := [] }}) ;; each batch run_io.

Definition chain_debounce (now : Z) (bp1 : bool) : M unit :=
  s ← get_cli id;
  let local_sent := existsb (λ ic, local_chain_sent ic.2) (map_to_list (conns s)) in
  if bp1 then
    let since := default now (bp1_since s) in
    upd (λ s, s{{bp1_since := Some since}}) ;;
    when (negb local_sent && (50 <=? now - since))
      (upd (λ s, s{{conns ::= fmap (λ c, c{{local_chain_sent := true}})}}) ;; send_chain_pause)
  else
    upd (λ s, s{{bp1_since := None}}) ;;
    when local_sent
      (upd (λ s, s{{conns ::= fmap (λ c, c{{local_chain_sent := false}})}}) ;; send_chain_resume).

Definition should_pause (bp0 : bool) (c : ExternalConn) : bool :=
  writer_paused c || chain_paused c || ext_overflow_paused c || bp0.

Definition gate_conns (bp0 : bool) : M unit :=
  for_conns (λ cid c,
    if e_fd c <? 0 then mret tt else
    if should_pause bp0 c then
      when (negb (epollin_removed c))
        (upd_conn cid (λ c, c{{epollin_removed := true}}) ;; mod_fd_events (e_fd c) 0 EPOLLIN)
    else
      when (epollin_removed c)
        (upd_conn cid (λ c, c{{epollin_removed := false}}) ;; mod_fd_events (e_fd c) EPOLLIN 0)).

(** One disconnected connection: closed when its writer is empty, otherwise kept, with a
    handler that drains it. The result says whether its id stays in the list. *)
Definition finish_one (cid : Z) : M bool :=
  c ← get_conn cid;
  match c with
  | None => mret false
  | Some c =>
      conn_flush cid c ;;
      c' ← get_conn cid;
      match c' with
      | None => mret false
      | Some c' =>
          if WB.empty (e_writer c') then
            erase_conn cid ;;
            when (0 <=? e_fd c') (del_fd (e_fd c') ;; shutdown (e_fd c') ;; close (e_fd c')) ;;
            mret false
          else
            when (negb (WB.registered (e_writer c')))
              (upd_conn cid (λ c, c{{e_writer ::= WB.set_registered true}}) ;;
               add_fd_handler (e_fd c') (HExtDrain cid) EPOLLOUT) ;;
            mret true
      end
  end.

Fixpoint finish_disconnects (ids : list Z) : M (list Z) :=
  match ids with
  | [] => mret []
  | cid :: rest =>
      keep ← finish_one cid;
      kept ← finish_disconnects rest;
      mret (if (keep : bool) then cid :: kept else kept)
  end.

Definition on_ext_drain_event (cid events : Z) : M unit :=
  when (has events EPOLLOUT)
    (c ← get_conn cid;
     match c with
     | None => mret tt
     | Some c =>
         conn_flush cid c ;;
         c' ← get_conn cid;
         match c' with
         | Some c' => when (WB.empty (e_writer c'))
                        (upd_conn cid (λ c, c{{e_writer ::= WB.set_registered false}}) ;;
                         mod_fd_events (e_fd c') 0 EPOLLOUT)
         | None => mret tt
         end
     end) ;;
  when (has events (Z.lor EPOLLERR EPOLLHUP)) (erase_conn cid).

Definition chain_idle : M bool :=
  c ← get_cli chain; mret (match c with Some c => is_drained c | None => true end).

Definition process_pending_io (now : Z) : M unit :=
  s ← get_cli id;
  expire_pending now (pending_ext s) ;;
  overflow_gate ;;
  reconnect_secondaries now ;;
  retransmit_all now ;;
  run_pending_io ;;
  c ← get_cli chain;
  let bp d := match c with Some c => is_backpressure_paused d c | None => false end in
  chain_debounce now (bp 1) ;;
  gate_conns (bp 0) ;;
  s ← get_cli id;
  match pending_disconnect_ids s with
  | [] => mret tt
  | ids =>
      idle ← chain_idle;
      when idle (kept ← finish_disconnects ids; upd (λ s, s{{pending_disconnect_ids := kept}}))
  end.

Definition check_heartbeat (now : Z) : M unit :=
  s ← get_cli id;
  if negb (state_eqb (state s) RUNNING) then mret tt else
  let idle_ms := now - last_wire_activity s in
  if heartbeat_interval_ms s * 2 <? idle_ms then request_stop else
  when ((heartbeat_interval_ms s <? idle_ms) && negb (heartbeating s))
    (upd (λ s, s{{heartbeating := true}}) ;;
     each (seq 0 (length (data_connections s))) (λ i,
       dc ← get_dc i;
       when (0 <=? fd dc)
         (dc_write i (fd dc) ping_frame ;;
          dc ← get_dc i;
          when (negb (WB.registered (writer dc)) && (0 <? WB.size (writer dc)))
               (register_data_conn_epollout i (fd dc))))) ;;
  upd (λ s, s{{chain ::= fmap (check_module_heartbeats now (heartbeat_interval_ms s))}}).

(** The tick callback. *)
Definition tick (now : Z) : M unit := check_heartbeat now ;; process_pending_io now.

(** ** Start and stop *)

(** [socket] and [connect]; a socket whose connection is refused is closed. *)
Definition connect_to_server (r : connecting) : M bool :=
  match r with
  | NoSocket => upd (λ s, s{{tcp_fd := -1}}) ;; mret false
  | Refused fd =>
      upd (λ s, s{{tcp_fd := fd}}) ;; close fd ;; upd (λ s, s{{tcp_fd := -1}}) ;; mret false
  | Connected fd => upd (λ s, s{{tcp_fd := fd}}) ;; mret true
  end.

(** [start] up to [kernel_->start()], which runs the event loop; [false] when there is no
    connection and [start] returns at once. *)
Definition start (r : connecting) : M bool :=
  ok ← connect_to_server r;
  if (ok : bool) then
    set_state AWAIT_AUTH1_CHALLENGE ;;
    s ← get_cli id;
    add_fd_handler (tcp_fd s) HServer EPOLLIN ;;
    mret true
  else mret false.

(** [start] from where the event loop has returned: the chain is drained. *)
Definition after_loop (now : Z) : M bool :=
  upd (λ s, s{{chain ::= fmap (chain_cancel now)}}) ;; get_cli setup_ok.

Definition stop (now : Z) : M unit :=
  stop_listener ;;
  dcs ← get_cli data_connections;
  each (tail dcs) (λ dc, when (0 <=? fd dc) (del_fd (fd dc) ;; close (fd dc))) ;;
  upd (λ s, s{{data_connections := []; chain ::= fmap (chain_cancel now)}}) ;;
  emit EKernelStop ;;
  s ← get_cli id;
  when (0 <=? tcp_fd s) (close (tcp_fd s) ;; upd (λ s, s{{tcp_fd := -1}})).

(** The end of [main]: [start] with the event loop in it, and [stop], which the destructor
    calls once more; the result is the exit status. *)
Definition run_client (r : connecting) (event_loop : M unit) (now : Z) : M Z :=
  ok ← start r;
  setup ← (if (ok : bool) then event_loop ;; after_loop now else mret false);
  if (setup : bool) then stop now ;; stop now ;; mret 0 else stop now ;; mret 1.

End client.
End Client.
