(* ===== verification/ClientDelivery.v ===== *)
(** * From the chain to the application (client/client.cpp)

    The packets that a client's chain hands out reach the sockets of the external
    connections they are for, byte for byte, as long as the connection is not being
    disconnected. The other direction, at the server, is [Delivery]. *)

From coqutil Require Import Datatypes.RecordSetters.
From S2P Require Import Prelude Protocol WriteBuffer Frame Connection Ledger Control Reliable Kernel ChainApi Client.
Import DoubleBraceUpdate.
Local Open Scope Z_scope.

Module ClientDelivery.
Import Client.

(** What the writes have put on a socket. *)
Definition eout (e : effect) : option (Z * list WB.seg) :=
  match e with EOut f ss => Some (f, ss) | _ => None end.
Definition sent_to (fd' : Z) (l : list effect) : bytes := Ledger.sent_to fd' (omap eout l).

Section external.
Context {C : Type} `{ChainOps C}.
Abbreviation World := (@World C).
Abbreviation Client := (@Client C).

(** One external connection, and the socket that only it uses. *)
Context (cid efd : Z) (Hefd : 0 <= efd).

Definition conn_of (c : ExternalConn) : Z * WB.WriteBuffer := (e_fd c, e_writer c).
Definition ledger_of (s : Client) (l : list effect) : Ledger.t :=
  Ledger.mk (conn_of <$> conns s) (fd <$> data_connections s) (omap eout l).

(** All of [acc] is on the socket or waits in the writer, and the connection is not being
    disconnected. *)
Definition open_ (s : Client) : Prop := ∃ c, conns s !! cid = Some c ∧ disconnecting c = false.
Definition holds (acc : bytes) (s : Client) (l : list effect) : Prop :=
  Ledger.holds cid efd acc (ledger_of s l) ∧ open_ s.
Definition clean (w : World) : Prop := WB.WErr ∉ writes w.
Definition Inv (acc : bytes) (w : World) : Prop := holds acc (cli w) (log w) ∧ clean w.

(** ** Operations that do not write to the connection *)

Lemma ext_holds_dcs acc s l f :
  holds acc s l → (∀ dc, fd dc ≠ efd → fd (f dc) ≠ efd) → ∀ i,
  holds acc (s{{data_connections ::= alter f i}}) l.
Proof.
  intros ((Ht & Hu & Hdc) & Ho) Hf i. split; [|exact Ho]. split_and!; [exact Ht|exact Hu|].
  change (Forall (λ f, f ≠ efd) (fd <$> alter f i (data_connections s))).
  change (Forall (λ f, f ≠ efd) (fd <$> data_connections s)) in Hdc. rewrite Forall_fmap in Hdc |- *.
  apply Forall_alter; [exact Hdc|]. intros dc _. apply Hf.
Qed.

Lemma ext_holds_log acc s l e :
  holds acc s l → (∀ f ss, e = EOut f ss → f ≠ efd) → holds acc s (l ++ [e]).
Proof.
  intros [Hh Ho] He. split; [|done]. unfold ledger_of. rewrite omap_snoc_opt.
  destruct e; cbn [eout option_list]; rewrite ?app_nil_r; try done.
  apply Ledger.holds_out; [by eapply He|exact Hh].
Qed.

Lemma open_alter s c f : open_ s → (∀ x, disconnecting x = false → disconnecting (f x) = false) →
  open_ (s{{conns ::= alter f c}}).
Proof.
  intros (x & Hx & Hd) Hf. unfold open_. change (conns (s{{conns ::= alter f c}})) with (alter f c (conns s)).
  rewrite lookup_alter. case_decide; [subst c; rewrite Hx; cbn; eauto|eauto].
Qed.

Lemma inv_upd acc f : (∀ s l, holds acc s l → holds acc (f s) l) → keeps (Inv acc) (upd f : act World unit).
Proof. intros Hf. apply keeps_modify. intros w [Hw Hc]. split; [by apply Hf|done]. Qed.
Lemma inv_emit acc e : (∀ f ss, e = EOut f ss → f ≠ efd) → keeps (Inv acc) (emit e : act World unit).
Proof. intros He. apply keeps_modify. intros w [Hw Hc]. split; [by apply ext_holds_log|done]. Qed.
Lemma inv_kernel acc f : keeps (Inv acc) (kernel_do f : act World unit).
Proof. by apply keeps_modify. Qed.
Lemma inv_upd_dc acc i f :
  (∀ dc, fd dc ≠ efd → fd (f dc) ≠ efd) → keeps (Inv acc) (upd_dc i f : act World unit).
Proof. intros Hf. apply inv_upd. intros s l Hs. by apply ext_holds_dcs. Qed.
Lemma inv_upd_conn acc c f :
  (∀ x, e_fd (f x) = e_fd x ∧ (WB.wf (e_writer x) → WB.wf (e_writer (f x)))
        ∧ WB.data_pending (e_writer (f x)) = WB.data_pending (e_writer x)) →
  (∀ x, disconnecting (f x) = disconnecting x) ∨ c ≠ cid →
  keeps (Inv acc) (upd_conn c f : act World unit).
Proof.
  intros Hf Hd. apply inv_upd. intros s l [Hs Ho]. split.
  { apply Ledger.holds_alter; [exact Hs|]. intros x _. apply Hf. }
  destruct Hd as [Hd|Hne]; [apply open_alter; [done|]; intros x ?; by rewrite Hd|].
  destruct Ho as (x & Hx & Hdx). exists x. split; [|done].
  change (alter f c (conns s) !! cid = Some x). by rewrite lookup_alter_ne.
Qed.
Lemma inv_erase acc c : c ≠ cid → keeps (Inv acc) (erase_conn c : act World unit).
Proof.
  intros Hne. apply inv_upd. intros s l [Hs (x & Hx & Hd)]. split.
  - unfold ledger_of. change (conns (s{{conns ::= delete c}})) with (delete c (conns s)).
    rewrite fmap_delete. by apply Ledger.holds_erase.
  - exists x. split; [|done]. change (delete c (conns s) !! cid = Some x). by rewrite lookup_delete_ne.
Qed.

(** [tac] is tried first. *)
Ltac keeping_with tac :=
  repeat first
    [ tac
    | progress intros
    | apply keeps_bind
    | apply keeps_when
    | apply keeps_ret | apply keeps_gets | apply keeps_get | apply inv_kernel | apply keeps_of_option
    | apply inv_upd_dc; [intros [] ?; cbn in *; unfold constant; done || lia]
    | apply inv_upd_conn; [by intros []|left; by intros []]
    | apply inv_emit; done
    | apply inv_upd; by intros []
    | case_match ].
Ltac keeping := keeping_with fail.

Lemma inv_send_control acc pkt : keeps (Inv acc) (send_control pkt : act World unit).
Proof. unfold send_control, register_data_conn_epollout. keeping. Qed.

(** ** Operations that write *)

Definition used (w : World) (f : Z) (wb : WB.WriteBuffer) (ks : list WB.wres) (ss : list WB.seg)
    (c : Z) : World :=
  w{{writes := ks; log ::= λ l, l ++ [EOut f ss];
     cli ::= λ s, s{{conns ::= alter (λ x, x{{e_writer := wb}}) c}} }}.

Lemma used_holds acc acc' w wb ks u ss c x :
  Inv acc w → conns (cli w) !! c = Some x → writes w = u ++ ks →
  (Ledger.holds cid efd acc (ledger_of (cli w) (log w)) →
   Ledger.holds cid efd acc' (Ledger.mk (<[c := (e_fd x, wb)]> (conn_of <$> conns (cli w)))
     (fd <$> data_connections (cli w)) (omap eout (log w) ++ [(e_fd x, ss)]))) →
  Inv acc' (used w (e_fd x) wb ks ss c).
Proof.
  intros [[Hh Ho] Hc] Hx Hks Hnew. split; [split|].
  - specialize (Hnew Hh). unfold ledger_of.
    change (conn_of <$> conns (cli (used w (e_fd x) wb ks ss c)))
      with (conn_of <$> alter (λ x, x{{e_writer := wb}}) c (conns (cli w))).
    rewrite (Ledger.fmap_alter_writer conn_of _ _ _ x Hx).
    change (log (used w (e_fd x) wb ks ss c)) with (log w ++ [EOut (e_fd x) ss]). rewrite omap_snoc_opt. exact Hnew.
  - by apply open_alter; [|intros []].
  - unfold clean in *. change (WB.WErr ∉ ks). rewrite Hks in Hc. set_solver.
Qed.

Lemma conn_lookup (w : World) c x : conns (cli w) !! c = Some x →
  (conn_of <$> conns (cli w)) !! c = Some (e_fd x, e_writer x).
Proof. intros Hx. by rewrite lookup_fmap, Hx. Qed.

(** [wb_write] and [wb_flush] with the update of the writer that follows them. *)
Lemma write_Inv acc (w w1 w2 : World) c x d ret wb :
  Inv acc w → conns (cli w) !! c = Some x → d ≠ [] →
  wb_write (e_fd x) d (e_writer x) w = Some ((ret, wb), w1) →
  upd_conn c (λ x, x{{e_writer := wb}}) w1 = Some (tt, w2) →
  Inv (acc ++ if c =? cid then d else []) w2.
Proof.
  intros Hi Hx Hd E E2. unfold wb_write in E. apply bind_some in E as (w0 & w00 & [= <- <-] & E).
  destruct (WB.write (writes w) d (e_writer x)) as [[[[r|] wb'] ss] ks] eqn:Ew; [|done].
  injection E as -> -> <-. injection E2 as <-. destruct (Connection.write_used _ _ _ _ _ _ _ Ew) as [u Hu].
  eapply (used_holds _ _ w wb ks u ss c x Hi Hx Hu). intros Hh.
  eapply Ledger.holds_write; [exact Hh|by apply conn_lookup|done|apply Hi|exact Ew].
Qed.

Lemma conn_flush_Inv acc (w w' : World) c x b :
  Inv acc w → conns (cli w) !! c = Some x → conn_flush c x w = Some (b, w') →
  Inv acc w' ∧ ∃ wb, conns (cli w') !! c = Some (x{{e_writer := wb}}).
Proof.
  intros Hi Hx E. unfold conn_flush in E. apply bind_some in E as ([b' wb] & w1 & E & E2).
  unfold wb_flush in E. apply bind_some in E as (w0 & w00 & [= <- <-] & E).
  destruct (WB.flush (writes w) (e_writer x)) as [[[[r|] wb'] ss] ks] eqn:Ef; [|done].
  injection E as -> -> <-. injection E2 as <- <-. destruct (Connection.flush_used _ _ _ _ _ _ Ef) as [u Hu]. split.
  - eapply (used_holds _ _ w wb ks u ss c x Hi Hx Hu). intros Hh.
    eapply Ledger.holds_flush; [exact Hh|by apply conn_lookup|exact Ef].
  - exists wb. change (alter (λ x, x{{e_writer := wb}}) c (conns (cli w)) !! c = Some (x{{e_writer := wb}})).
    by rewrite lookup_alter_eq, Hx.
Qed.

Lemma flush_loop_Inv acc c k : ∀ (w w' : World) u,
  Inv acc w → ext_flush_loop k c w = Some (u, w') → Inv acc w'.
Proof.
  induction k as [|k IH]; intros w w' u Hi E; [done|]. cbn [ext_flush_loop] in E.
  apply bind_some in E as (o & w0 & [= <- <-] & E). destruct (conns (cli w) !! c) as [x|] eqn:Hx; [|by injection E as _ <-].
  apply bind_some in E as (b & w1 & E1 & E). destruct (conn_flush_Inv _ _ _ _ _ _ Hi Hx E1) as [Hi1 _].
  apply bind_some in E as (o & w0 & [= <- <-] & E). repeat case_match; [..|by eapply IH|]; by injection E as _ <-.
Qed.

Lemma on_ext_out_Inv acc c ev (w w' : World) u :
  Inv acc w → has ev (Z.lor EPOLLERR EPOLLHUP) = false → on_ext_out_event c ev w = Some (u, w') → Inv acc w'.
Proof.
  intros Hi Hev E. unfold on_ext_out_event in E. rewrite Hev in E.
  destruct (has ev EPOLLOUT); [|by injection E as _ <-]. cbn [when] in E.
  apply bind_some in E as (w0 & w00 & [= <- <-] & E). apply bind_some in E as ([] & w1 & E1 & E).
  apply (flush_loop_Inv acc) in E1; [|done]. clear Hi. apply bind_some in E as (o & w0 & [= <- <-] & E).
  destruct (conns (cli w1) !! c) as [x|] eqn:Hx; [|by injection E as _ <-].
  assert (disconnecting x = true → c ≠ cid) as Hne.
  { intros Hd ->. destruct E1 as [[_ (y & Hy & Hdy)] _]. congruence. }
  refine (_ E1). revert E. generalize w1 w' u. clear -Hne Hefd. intros w1 w' u E. revert w1 u w' E.
  change (keeps (Inv acc) (when (WB.empty (e_writer x))
    (upd_conn c (λ c, c{{e_writer ::= WB.set_registered false}}) ;;
     mod_fd_events (e_fd x) 0 EPOLLOUT ;;
     if disconnecting x then
       erase_conn c ;;
       when (0 <=? e_fd x) (del_fd (e_fd x) ;; shutdown (e_fd x) ;; close (e_fd x))
     else when (local_writer_sent x)
       (upd_conn c (λ c, c{{local_writer_sent := false}}) ;; send_writer_resume c)))).
  unfold send_writer_resume, shutdown, close, del_fd.
  keeping_with ltac:(first [apply inv_send_control | apply inv_erase; by apply Hne]).
Qed.

(** The cases of [wire_write] to the application's side. *)
Definition deliver (c : Z) (d : bytes) : act World Z :=
  x ← get_conn c;
  match x with
  | None => mret 0
  | Some x =>
      if disconnecting x || (e_fd x <? 0) then mret 0 else
      '(ret, wb) ← wb_write (e_fd x) d (e_writer x);
      upd_conn c (λ c, c{{e_writer := wb}}) ;;
      when (0 <=? ret)
        (if 0 <? ret then push_io [IoRegisterExt c (e_fd x); IoPauseExt c]
         else push_io [IoResumeExt c]) ;;
      wakeup ;; mret 0
  end.
Definition control_packet (rest : bytes) : act World Z :=
  match rest with
  | ct :: c :: _ => when (ct =? CHAIN_CTRL_DISCONNECT) (push_io [IoDisconnect c]) ;; mret 0
  | _ => mret 0
  end.

Lemma wire_write_ext_cases p :
  p = [] ∧ (wire_write_ext p : act World Z) = mret 0
  ∨ (∃ rest, p = 255 :: rest ∧ wire_write_ext p = control_packet rest)
  ∨ ∃ c d, p = c :: d ∧ wire_write_ext p = deliver c d ∧ Ledger.payload_of cid p = if c =? cid then d else [].
Proof.
  destruct p as [|c d]; [by left|]. destruct (decide (c = 255)) as [->|Hne]; [right; left; by exists d|].
  right. right. exists c, d. split; [done|].
  destruct c as [|c|c]; try done. repeat (destruct c as [c|c|]; try done).
Qed.

Lemma ext_deliver_Inv acc c d (w w' : World) r :
  Inv acc w → d ≠ [] → deliver c d w = Some (r, w') → Inv (acc ++ if c =? cid then d else []) w'.
Proof.
  intros Hi Hd E. unfold deliver in E. apply bind_some in E as (o & w0 & [= <- <-] & E).
  assert (c = cid → ∃ x, conns (cli w) !! c = Some x ∧ disconnecting x = false ∧ e_fd x = efd) as Hcid.
  { intros ->. destruct Hi as [[((wb & Hwb & _) & _) (x & Hx & Hdx)] _]. exists x. split_and!; [done|done|].
    cbn in Hwb. rewrite lookup_fmap, Hx in Hwb. by injection Hwb. }
  assert (c ≠ cid → Inv (acc ++ if c =? cid then d else []) w) as Hother.
  { intros Hne. by rewrite (proj2 (Z.eqb_neq _ _) Hne), app_nil_r. }
  destruct (conns (cli w) !! c) as [x|] eqn:Hx.
  - destruct (disconnecting x || (e_fd x <? 0)) eqn:Hs.
    { injection E as _ <-. apply Hother. intros ->. destruct (Hcid eq_refl) as (y & [= <-] & Hdx & Hf).
      rewrite Hdx in Hs. cbn in Hs. lia. }
    apply bind_some in E as ([ret wb] & w1 & E1 & E). apply bind_some in E as ([] & w2 & E2 & E).
    pose proof (write_Inv _ _ _ _ _ _ _ _ _ Hi Hx Hd E1 E2) as Hi2. refine (_ Hi2). revert E. clear.
    revert w2 r w'.
    assert (∀ a, keeps (Inv a) (when (0 <=? ret)
        (if 0 <? ret then push_io [IoRegisterExt c (e_fd x); IoPauseExt c] else push_io [IoResumeExt c]) ;;
        wakeup ;; mret 0 : act World Z)) as Hk; [|intros; by eapply Hk].
    intros a. unfold push_io, wakeup. keeping.
  - injection E as _ <-. apply Hother. intros ->. destruct (Hcid eq_refl) as (y & ? & _). done.
Qed.

Lemma inv_control_packet acc rest : keeps (Inv acc) (control_packet rest).
Proof. unfold control_packet, push_io. keeping. Qed.

Lemma wire_write_ext_Inv acc p (w w' : World) r :
  Inv acc w → Ledger.has_payload p → wire_write_ext p w = Some (r, w') → Inv (acc ++ Ledger.payload_of cid p) w'.
Proof.
  intros Hi Hp E. destruct (wire_write_ext_cases p) as [[-> Hw]|[(rest & -> & Hw)|(c & d & -> & Hw & ->)]];
    rewrite Hw in E.
  - injection E as <- <-. by rewrite app_nil_r.
  - change (Ledger.payload_of cid (255 :: rest)) with (@nil Z). rewrite app_nil_r. by eapply inv_control_packet.
  - by eapply ext_deliver_Inv.
Qed.

Lemma inv_wb_write acc f d wb : f ≠ efd → keeps (Inv acc) (wb_write f d wb : act World _).
Proof.
  intros Hf w a w' E [Hh Hc]. unfold wb_write in E. apply bind_some in E as (w0 & w00 & [= <- <-] & E).
  destruct (WB.write (writes w) d wb) as [[[[r|] wb'] ss] ks] eqn:Ew; [|done]. injection E as <- <-.
  destruct (Connection.write_used _ _ _ _ _ _ _ Ew) as [u Hu]. split.
  - apply ext_holds_log; [exact Hh|]. by intros ? ? [= <- _].
  - unfold clean in *. rewrite Hu in Hc. change (WB.WErr ∉ ks). set_solver.
Qed.

(** A packet for the wire. *)
Lemma ext_wire_write_Inv acc now dst d (w w' : World) r :
  Inv acc w → dst ≠ 0 → wire_write now dst d w = Some (r, w') → Inv acc w'.
Proof.
  intros Hi Hdst E. unfold wire_write in E. rewrite (proj2 (Z.eqb_neq _ _) Hdst) in E.
  apply bind_some in E as (s & w0 & [= <- <-] & E). unfold id in E.
  destruct (dst <? 1); [by injection E as _ <-|].
  destruct (data_connections (cli w) !! Z.to_nat (dst - 1)) as [dc|] eqn:Hdc; [|by injection E as _ <-].
  destruct (fd dc <? 0); [by injection E as _ <-|].
  assert (fd dc ≠ efd) as Hfd.
  { destruct Hi as [[(_ & _ & Hall) _] _]. apply (Forall_lookup_1 _ _ (Z.to_nat (dst - 1)) _ Hall).
    cbn. by rewrite list_lookup_fmap, Hdc. }
  destruct (Reliable.send_data now d (link dc)) as [l frame].
  refine (_ Hi). revert E. revert w r w' Hi Hdc. intros w r w' _ _. revert w r w'.
  match goal with |- ∀ w r w', ?m w = _ → _ => change (keeps (Inv acc) m) end.
  unfold dc_write, get_dc, push_io, wakeup. keeping_with ltac:(apply inv_wb_write; done).
Qed.

Lemma ext_run_io_Inv acc i (w w' : World) u :
  Inv acc w → i ≠ IoDisconnect cid → run_io i w = Some (u, w') → Inv acc w'.
Proof.
  intros Hi Hne E. refine (_ Hi). revert E. clear Hi. revert w u w'.
  change (keeps (Inv acc) (run_io i : act World unit)). destruct i as [c|c f|c|c|idx|idx]; cbn [run_io].
  - assert (c ≠ cid) by congruence. unfold begin_disconnect.
    keeping_with ltac:(apply inv_upd_conn; [by intros []|by right]).
  - unfold register_external_epollout. keeping.
  - unfold send_writer_pause. keeping_with ltac:(apply inv_send_control).
  - unfold send_writer_resume. keeping_with ltac:(apply inv_send_control).
  - unfold register_data_conn_epollout. keeping.
  - unfold get_dc. keeping.
Qed.

(** What happens to a client, from any thread, while the connection is not disconnected: its
    chain hands out a packet, a connection can be written to, deferred work is done. The
    packets for the application's side are listed. *)
Inductive step (w : World) : list bytes → World → Prop :=
| step_packet now p r w' :
    Ledger.has_payload p → wire_write now 0 p w = Some (r, w') → step w [p] w'
| step_wire now dst d r w' : dst ≠ 0 → wire_write now dst d w = Some (r, w') → step w [] w'
| step_writable c ev u w' :
    has ev (Z.lor EPOLLERR EPOLLHUP) = false → on_ext_out_event c ev w = Some (u, w') → step w [] w'
| step_io i u w' : i ≠ IoDisconnect cid → run_io i w = Some (u, w') → step w [] w'.

Inductive steps : World → list bytes → World → Prop :=
| steps_refl w : steps w [] w
| steps_cons w ps w1 ps' w2 : step w ps w1 → steps w1 ps' w2 → steps w (ps ++ ps') w2.

Lemma ext_step_Inv acc w ps w' :
  step w ps w' → Inv acc w → Inv (acc ++ concat (map (Ledger.payload_of cid) ps)) w'.
Proof.
  intros Hs Hi. destruct Hs as [now p r w' Hp E|now dst d r w' Hd E|c ev u w' Hev E|i u w' Hne E];
    cbn [map concat]; rewrite ?app_nil_r.
  - by eapply wire_write_ext_Inv.
  - by eapply ext_wire_write_Inv.
  - by eapply on_ext_out_Inv.
  - by eapply ext_run_io_Inv.
Qed.

Lemma ext_steps_Inv acc w ps w' :
  steps w ps w' → Inv acc w → Inv (acc ++ concat (map (Ledger.payload_of cid) ps)) w'.
Proof.
  intros Hs. revert acc. induction Hs as [w|w ps w1 ps' w2 H1 _ IH]; intros acc Hi; cbn; [by rewrite app_nil_r|].
  rewrite map_app, concat_app, app_assoc. apply IH. by eapply ext_step_Inv.
Qed.

End external.

(** A connection that was just accepted. *)
Lemma ext_fresh_Inv {C} (cid efd : Z) (w : @World C) :
  conns (cli w) !! cid = Some (new_ext efd) →
  (∀ c x, conns (cli w) !! c = Some x → e_fd x = efd → c = cid) →
  Forall (λ dc, fd dc ≠ efd) (data_connections (cli w)) →
  WB.WErr ∉ writes w → Inv cid efd (sent_to efd (log w)) w.
Proof.
  intros Hx Hu Hdc Herr. split; [split|done]; [|by eexists].
  apply Ledger.holds_new.
  - by rewrite lookup_fmap, Hx.
  - intros c wb E. rewrite lookup_fmap in E. destruct (conns (cli w) !! c) as [x|] eqn:Ex; [|done].
    injection E as E _. by eapply Hu.
  - by apply Forall_fmap.
Qed.

Lemma ext_Inv_bytes {C} (cid efd : Z) acc (w : @World C) : Inv cid efd acc w →
  ∃ x, conns (cli w) !! cid = Some x ∧ sent_to efd (log w) ++ WB.data_pending (e_writer x) = acc.
Proof.
  intros [[((wb & Hc & _ & Hacc) & _) _] _]. cbn in Hc. rewrite lookup_fmap in Hc.
  destruct (conns (cli w) !! cid) as [x|]; [|done]. injection Hc as _ <-. by exists x.
Qed.

End ClientDelivery.
