(* ===== verification/ClientFacts.v ===== *)
(** * Properties of the client

    What the client sends during set-up is what the session reads, the client accepts only
    a server that knows the password, how it ends, what a reconnected connection keeps, and
    the reader's handling of a failed read. *)

From coqutil Require Import Datatypes.RecordSetters.
From S2P Require Import Prelude Text Protocol WriteBuffer Frame Control Reliable Kernel ChainApi Chain Copy Session SessionFacts Client.
Import DoubleBraceUpdate.
Local Open Scope Z_scope.

Module ClientFacts.
Import Frame Control Reliable Client.

(** ** The messages of the set-up *)

(** A module specification whose lengths fit their fields. *)
Definition spec_fits (m : ModuleSpec) : Prop :=
  Z.of_nat (length (name m)) < 256 ∧ Z.of_nat (length (params m)) < 65536.

#[export] Instance spec_fits_dec m : Decision (spec_fits m).
Proof. unfold spec_fits. apply _. Defined.

Lemma encode_module_fits m l :
  spec_fits m →
  encode_module m ++ l =
    Z.of_nat (length (name m)) :: name m
      ++ Z.of_nat (length (params m)) mod 256 :: Z.of_nat (length (params m)) / 256 :: params m ++ l.
Proof.
  intros [Hn Hp]. unfold encode_module. cbn zeta.
  rewrite land_ff, Z.shiftr_div_pow2 by lia.
  replace (u16 (Z.of_nat (length (params m)))) with (Z.of_nat (length (params m))) by zlia.
  replace (u8 (Z.of_nat (length (name m)))) with (Z.of_nat (length (name m))) by zlia.
  change (2 ^ 8) with 256. cbn [app]. by rewrite <- (assoc_L (++)).
Qed.

Lemma decode_encode_modules mods l :
  Forall spec_fits mods →
  Session.decode_modules (length mods) (concat (map encode_module mods) ++ l) = mods.
Proof.
  induction 1 as [|m mods Hm _ IH]; [done|]. cbn [length map concat].
  rewrite <- (assoc_L (++)), encode_module_fits by done. cbn [Session.decode_modules].
  rewrite Nat2Z.id, length_app, (proj2 (Nat.ltb_ge _ _)) by lia.
  rewrite drop_app_length, take_app_length.
  rewrite (lor_shiftl_add _ _ 8) by (zlia). change (2 ^ 8) with 256.
  replace (Z.to_nat _) with (length (params m)) by zlia.
  rewrite length_app, (proj2 (Nat.ltb_ge _ _)) by lia.
  rewrite take_app_length, drop_app_length, IH. by destruct m.
Qed.

(** [C29] The two ends build the same chain: what the session decodes from the payload of the
    client's CHAIN_CREATE is the client's module list, names and parameters included, as
    long as the numbers fit their fields (fewer than 256 modules, names below 256 bytes,
    parameters below 65536). *)
Theorem chain_config_roundtrip (mods : list ModuleSpec) :
  Z.of_nat (length mods) < 256 → Forall spec_fits mods →
  ∃ count rest, chain_create mods = count :: rest
    ∧ Session.decode_modules (Z.to_nat count) rest = mods.
Proof.
  intros Hl Hm. eexists _, _. split; [reflexivity|].
  replace (Z.to_nat _) with (length mods) by zlia.
  rewrite <- (app_nil_r (concat _)). by apply decode_encode_modules.
Qed.

Lemma chain_config_roundtrip_witness :
  let mods := [mkSpec [115; 112] [51]; mkSpec [99] []] in
  ∃ count rest, chain_create mods = count :: rest
    ∧ Session.decode_modules (Z.to_nat count) rest = mods.
Proof.
  apply (chain_config_roundtrip [mkSpec [115; 112] [51]; mkSpec [99] []]); [cbn; lia|].
  apply (bool_decide_unpack _). by vm_compute.
Defined.

(** A [mid]: a SHA-256 value (of name, version and description) as 64 lower-case
    hexadecimal digits. *)
Definition is_hex (c : Z) : Prop := 48 <= c <= 57 ∨ 97 <= c <= 102.
Definition mid_ok (mid : bytes) : Prop := length mid = 64%nat ∧ Forall is_hex mid.

Lemma hex_digits a b :
  is_hex a → is_hex b →
  hex_digit (hex_pair a b / 16) = a ∧ hex_digit (hex_pair a b mod 16) = b.
Proof.
  assert (∀ c, is_hex c → ∃ x, hex_val c = Some x ∧ 0 <= x < 16 ∧ hex_digit x = c) as Hv.
  { intros c Hc. unfold is_hex in Hc. unfold hex_val, hex_digit.
    destruct (Z.leb_spec 48 c), (Z.leb_spec c 57); cbn [andb]; try lia.
    - eexists; split; [done|]. rewrite (proj2 (Z.ltb_lt _ _)) by lia. lia.
    - destruct (Z.leb_spec 97 c), (Z.leb_spec c 102); cbn [andb]; try lia.
      eexists; split; [done|]. rewrite (proj2 (Z.ltb_ge _ _)) by lia. lia. }
  intros (x & Hx & ? & <-)%Hv (y & Hy & ? & <-)%Hv. unfold hex_pair. rewrite Hx, Hy.
  replace ((16 * x + y) / 16) with x by zlia. replace ((16 * x + y) mod 16) with y by zlia. done.
Qed.
Lemma to_hex_unhex (n : nat) l :
  length l = (2 * n)%nat → Forall is_hex l → to_hex (unhex l) = l ∧ length (unhex l) = n.
Proof.
  revert l. induction n as [|n IH]; intros l Hl Hh; [by destruct l|].
  destruct l as [|a [|b l]]; cbn in Hl; try lia.
  apply Forall_cons in Hh as [Ha [Hb Hh]%Forall_cons].
  destruct (IH l) as [E1 E2]; [lia|done|]. destruct (hex_digits a b Ha Hb) as [D1 D2].
  unfold to_hex in *. cbn [unhex map concat app length]. by rewrite D1, D2, E1, E2.
Qed.

Section mids.
Context (find_mid : bytes → option bytes) (bases : list bytes).
Context (mids_ok : ∀ n mid, find_mid n = Some mid → mid_ok mid).

Lemma raw_mids_missing mods : ∀ raw,
  raw_mids find_mid mods = Some raw →
  ∃ mids, mapM (λ m, find_mid (name m)) mods = Some mids
    ∧ length raw = (32 * length mods)%nat
    ∧ Session.missing_mids bases (length mods) raw = filter (λ mid, mid ∉ bases) mids.
Proof.
  induction mods as [|m mods IH]; intros raw; cbn [raw_mids]; [intros [= <-]; by exists []|].
  destruct (find_mid (name m)) as [mid|] eqn:Em; cbn; [|done].
  destruct (raw_mids find_mid mods) as [more|]; cbn; [|done]. intros [= <-].
  destruct (IH more eq_refl) as (mids & Hmap & Hl & Hm). destruct (mids_ok _ _ Em) as [Hlen Hhex].
  rewrite (take_ge mid 64) by lia. destruct (to_hex_unhex 32 mid) as [E1 E2]; [lia|done|].
  exists (mid :: mids). split; [by cbn [mapM]; rewrite Em; cbn; rewrite Hmap|]. rewrite length_app, E2.
  cbn [length Session.missing_mids]. split; [lia|].
  rewrite take_app_length', drop_app_length' by done. rewrite E1, Hm.
  rewrite filter_cons. destruct (decide (mid ∉ bases)); [rewrite bool_decide_false by done|
    rewrite bool_decide_true by (by apply dec_stable)]; done.
Qed.

Lemma module_list_answer {C : Type} `{ChainOps C} mods raw mids :
  Z.of_nat (length mods) < 256 → raw_mids find_mid mods = Some raw →
  mapM (λ m, find_mid (name m)) mods = Some mids →
  Session.handle_module_list_req (C := C) bases
    (make_msg MSG_MODULE_LIST_REQ (u8 (Z.of_nat (length mods)) :: raw)) =
  match filter (λ mid, mid ∉ bases) mids with
  | [] => Session.send_control (make_msg MSG_MODULE_LIST_RES [1])
  | missing => Session.send_control (make_msg MSG_MODULE_LIST_RES (Session.module_list_fail missing)) ;;
               Session.set_state Session.DISCONNECTED
  end.
Proof.
  intros Hl Hr Hm. destruct (raw_mids_missing mods raw Hr) as (mids' & Hm' & Hlen & Hmiss).
  simplify_eq. unfold Session.handle_module_list_req. cbn [payload make_msg].
  replace (u8 (Z.of_nat (length mods))) with (Z.of_nat (length mods)) by zlia.
  rewrite (proj2 (Z.ltb_ge _ _)) by lia. by rewrite Nat2Z.id, Hmiss.
Qed.

(** The server checks exactly the client's modules: to the client's module list the
    session answers acceptance when the server has loaded a module with the same [mid] for
    every configured one, and otherwise it names precisely the missing ones and gives up. *)
Theorem module_check_exact {C : Type} `{ChainOps C} mods raw mids :
  Z.of_nat (length mods) < 256 → raw_mids find_mid mods = Some raw →
  mapM (λ m, find_mid (name m)) mods = Some mids →
  Session.handle_module_list_req (C := C) bases
    (make_msg MSG_MODULE_LIST_REQ (u8 (Z.of_nat (length mods)) :: raw)) =
  match filter (λ mid, mid ∉ bases) mids with
  | [] => Session.send_control (make_msg MSG_MODULE_LIST_RES [1])
  | missing => Session.send_control (make_msg MSG_MODULE_LIST_RES (Session.module_list_fail missing)) ;;
               Session.set_state Session.DISCONNECTED
  end.
Proof. apply module_list_answer. Qed.

End mids.

(** ** The server's proof of the password *)

(** Evaluate the monad's operations in a hypothesis. *)
Ltac run H :=
  unfold send_packet, set_state, request_stop, emit, upd, get_cli, when, id in H;
  unfold modify, gets, mret, act_ret, mbind, act_bind in H;
  cbn beta iota zeta in H.

Section facts.
Context {C : Type} `{ChainOps C}.
Context (sha256 : bytes → bytes) (new_challenge : bytes) (find_mid : bytes → option bytes).

Abbreviation World := (@World C).
Abbreviation server_packet := (server_packet sha256 new_challenge find_mid).
Abbreviation server_loop := (server_loop sha256 new_challenge find_mid).
Abbreviation on_server_event := (on_server_event sha256 new_challenge find_mid).

Lemma upd_cli_inv f (w w' : World) u :
  upd f w = Some (u, w') → cli w' = f (cli w) ∧ kern w' = kern w ∧ log w' = log w.
Proof. unfold upd, modify. intros [= _ <-]. done. Qed.

Section auth.
Context (pw : bytes).

Definition received (l : list (Z * readres)) : bytes :=
  concat (map (λ x, match x.2 with RdData d => d | _ => [] end) l).

Definition credential : bytes := hex_sha256 sha256 (new_challenge ++ pw).
Definition presented (rx : bytes) : Prop := ∃ pre post, rx = pre ++ credential ++ post.

(** Nothing of the tunnel exists yet. *)
Definition outside (s : @Client C) : Prop :=
  (state_rank (state s) <= 3)%nat ∧ chain s = None ∧ conns s = ∅ ∧ data_connections s = []
  ∧ listen_fd s = -1 ∧ password s = pw ∧ (state s = AWAIT_AUTH2_OK → client_challenge s = new_challenge).

Definition guarded (rx : bytes) (w : World) : Prop :=
  presented rx ∨ outside (cli w) ∧ ∃ p, rx = p ++ recv_buf (cli w).

Lemma credential_app rx d : presented rx → presented (rx ++ d).
Proof. intros (pre & post & ->). exists pre, (post ++ d). by rewrite <- !(assoc_L (++)). Qed.

Lemma server_packet_guarded now pkt rx w u w' :
  (∃ pre post, rx = pre ++ payload pkt ++ post) → outside (cli w) →
  server_packet now pkt w = Some (u, w') →
  presented rx ∨ outside (cli w') ∧ recv_buf (cli w') = recv_buf (cli w).
Proof.
  intros (pre & post & Hrx) (Hr & Hc & Hn & Hd & Hl & Hp & Hch) E. unfold Client.server_packet in E. run E.
  destruct (type pkt =? MSG_AUTH_CHALLENGE).
  { destruct (state_eqb _ _); run E; [|simplify_eq; right; by split_and!].
    unfold handle_auth1_challenge in E. run E. simplify_eq. right. split; [|done].
    unfold outside. cbn. split_and!; try done. lia. }
  destruct (type pkt =? MSG_AUTH_OK).
  { destruct (state_eqb _ _); run E; [|simplify_eq; right; by split_and!].
    unfold handle_auth1_ok in E. right. unfold outside.
    repeat (case_match; run E; simplify_eq; cbn; try (split_and!; done || lia)).
    destruct (8 <=? _)%nat; simplify_eq; cbn; split_and!; done || lia. }
  destruct (type pkt =? MSG_AUTH_RESPONSE).
  { destruct (state_eqb _ AWAIT_AUTH2_OK) eqn:Es; run E; [|simplify_eq; right; by split_and!].
    assert (state (cli w) = AWAIT_AUTH2_OK) as Es' by (by destruct (state (cli w))).
    unfold handle_auth2_challenge in E. run E. rewrite Hp, Hch in E by done.
    case_bool_decide as Hb.
    - left. exists pre, post. unfold credential. by rewrite <- Hb.
    - cbn [negb] in E. run E. simplify_eq. right. unfold outside. cbn. split_and!; try done. lia. }
  assert (∀ x, (4 <= state_rank x)%nat → state_eqb (state (cli w)) x = false) as Hno.
  { intros x Hx. unfold state_eqb. apply Nat.eqb_neq. lia. }
  rewrite !(Hno AWAIT_CHAIN_READY), !(Hno RUNNING) in E by (cbn; lia). cbn [orb] in E.
  destruct (type pkt =? MSG_CONNECT_OK); [simplify_eq; right; by split_and!|].
  destruct (type pkt =? MSG_CONNECT_FAIL); [simplify_eq; right; by split_and!|].
  destruct (type pkt =? MSG_DISCONNECT).
  { right. destruct (negb _); run E; [|simplify_eq; by split_and!].
    unfold handle_disconnect in E. destruct (payload pkt) as [|c l]; [run E; simplify_eq; by split_and!|].
    unfold begin_disconnect, get_conn in E. run E. rewrite Hn, lookup_empty in E.
    simplify_eq. by split_and!. }
  repeat (case_match; simplify_eq; try (right; split_and!; done)).
Qed.

Lemma server_loop_guarded fuel now rx : ∀ w u w',
  guarded rx w → server_loop fuel now w = Some (u, w') → guarded rx w'.
Proof.
  induction fuel as [|k IH]; intros w u w' Hg E; cbn [Client.server_loop] in E.
  { run E. by simplify_eq. }
  destruct Hg as [?|[Ho [p Hrx]]]; [by left|].
  apply bind_some in E as (buf & w1 & [= <- <-] & E).
  destruct (try_parse (recv_buf (cli w))) as [|pkt n|] eqn:Ep.
  { run E. simplify_eq. right. eauto. } 2: { done. }
  destruct (n =? 0); [run E; simplify_eq; right; eauto|].
  apply bind_some in E as ([] & w1 & (Hw1 & _)%upd_cli_inv & E).
  apply bind_some in E as ([] & w2 & E2 & E).
  apply bind_some in E as (c & w3 & [= <- <-] & E).
  apply try_parse_payload in Ep as (a & b & Ep).
  apply (server_packet_guarded _ _ rx) in E2 as [?|[Ho2 Hb2]]; [by left| | |].
  - destruct Ho2 as (H1 & H2 & H3). rewrite H2 in E. eapply IH; [|exact E]. right. split; [done|].
    exists (p ++ take (Z.to_nat n) (recv_buf (cli w))). rewrite Hb2, Hw1. cbn.
    by rewrite <- (assoc_L (++)), take_drop.
  - exists (p ++ a), b. by rewrite Hrx, Ep, <- !(assoc_L (++)).
  - by rewrite Hw1.
Qed.

Lemma on_server_event_guarded now r rx w u w' :
  guarded rx w → on_server_event now EPOLLIN r w = Some (u, w') →
  guarded (rx ++ received [(now, r)]) w'.
Proof.
  intros [?|[Ho [p Hrx]]] E; [left; by apply credential_app|].
  unfold Client.on_server_event in E. change (has EPOLLIN EPOLLIN) with true in E. cbn [when] in E.
  destruct r as [d| | |]; unfold received; cbn [map concat snd]; rewrite ?app_nil_r.
  - unfold on_server_data in E. apply bind_some in E as (s & w1 & [= <- <-] & E).
    apply bind_some in E as ([] & w1 & (Hw1 & _)%upd_cli_inv & E).
    eapply server_loop_guarded; [|exact E]. right. rewrite Hw1. cbn. split.
    + by destruct Ho as (? & ? & ? & ? & ? & ? & ?).
    + exists p. by rewrite Hrx, (assoc_L (++)).
  - run E. simplify_eq. right. split; [|exists p; by cbn]. destruct Ho as (? & ? & ? & ? & ? & ? & ?).
    unfold outside. cbn. split_and!; try done. lia.
  - run E. simplify_eq. right. split; [done|by exists p].
  - run E. simplify_eq. right. split; [|exists p; by cbn]. destruct Ho as (? & ? & ? & ? & ? & ? & ?).
    unfold outside. cbn. split_and!; try done. lia.
Qed.

(** What the [read]s of the server connection return, at the given times. *)
Fixpoint feed_client (l : list (Z * readres)) : act World unit :=
  match l with
  | [] => mret tt
  | (now, r) :: rest => on_server_event now EPOLLIN r ;; feed_client rest
  end.

Lemma feed_client_guarded l : ∀ rx w u w',
  guarded rx w → feed_client l w = Some (u, w') → guarded (rx ++ received l) w'.
Proof.
  induction l as [|[now r] l IH]; intros rx w u w' Hg E; cbn [feed_client] in E.
  - run E. simplify_eq. by rewrite app_nil_r.
  - apply bind_some in E as ([] & w1 & E1 & E). apply on_server_event_guarded with (1 := Hg) in E1.
    apply IH with (1 := E1) in E. unfold received in *. cbn [map concat snd] in *.
    by rewrite app_nil_r, <- (assoc_L (++)) in E.
Qed.

End auth.

(** A started client waits for the server's challenge. *)
Lemma start_connected fd (w w' : World) (b : bool) : start (Connected fd) w = Some (b, w') →
  cli w' = (cli w){{tcp_fd := fd; state := AWAIT_AUTH1_CHALLENGE}}.
Proof.
  intros E. unfold start, connect_to_server, set_state, add_fd_handler, kernel_do, upd, modify, get_cli, gets in E.
  by injection E as <- <-.
Qed.

(** The connection is refused: [start] gives up, and its socket is closed once, although the
    destructor closes what is left of the client. *)
Lemma failed_connect_closes_once fd now (w : World) pw addr port t0 interval mods :
  cli w = new_client pw addr port t0 interval mods → log w = [] →
  ∃ w', (ok ← start (Refused fd); stop now ;; mret ok) w = Some (false, w')
    ∧ log w' = [EClose fd; EKernelStop] ∧ tcp_fd (cli w') = -1.
Proof.
  intros Hw Hl. destruct w as [c k ws ds ls lg]. cbn in Hw, Hl. subst c lg.
  eexists. unfold start, connect_to_server, stop, stop_listener, for_conns, close, kernel_do, emit,
    upd, get_cli, gets, modify, mbind, act_bind. cbn. split; [reflexivity|done].
Qed.

(** [C27] No tunnel to a server without the password: whatever arrives on the server
    connection, in whatever reads, a client that was started builds no
    chain, has no data connection, listens on no port and has no external connection,
    unless the bytes received contain the hexadecimal SHA-256 of the challenge the client
    made followed by the password. *)
Theorem client_authenticates_server (w w' : World) (pw addr : bytes) (port t0 interval fd : Z)
    (mods : list ModuleSpec) (l : list (Z * readres)) (u : unit) :
  cli w = new_client pw addr port t0 interval mods →
  (start (Connected fd) ;; feed_client l) w = Some (u, w') →
  ((state_rank (state (cli w')) <= state_rank AWAIT_AUTH2_OK)%nat ∧ chain (cli w') = None
   ∧ conns (cli w') = ∅ ∧ data_connections (cli w') = [] ∧ listen_fd (cli w') = -1)
  ∨ ∃ pre post, received l = pre ++ hex_sha256 sha256 (new_challenge ++ pw) ++ post.
Proof.
  intros Hw E. apply bind_some in E as (b & w1 & E1 & E). apply start_connected in E1.
  apply (feed_client_guarded pw l []) in E.
  - destruct E as [?|[(? & ? & ? & ? & ? & _) _]]; [by right|left; by split_and!].
  - right. rewrite Hw in E1. destruct w1 as [c1 ?]. cbn in *. subst c1. split; [|by exists []].
    unfold outside. cbn. split_and!; try done. lia.
Qed.

(** ** The end *)

(** Operations on descriptors do not touch the client's own state. *)
Lemma for_conns_cli (f : Z → ExternalConn → act World unit) s :
  (∀ c x, keeps (λ w, cli w = s) (f c x)) → keeps (λ w, cli w = s) (for_conns f).
Proof.
  intros Hf. unfold for_conns. apply keeps_bind; [apply keeps_gets|]. intros ids. apply keeps_each. intros c _.
  apply keeps_bind; [apply keeps_gets|]. intros [x|]; [apply Hf|apply keeps_ret].
Qed.

Ltac cli_keeping :=
  repeat first
    [ progress intros
    | apply keeps_bind | apply keeps_when | apply keeps_each
    | apply keeps_ret | apply keeps_gets | apply keeps_get
    | apply keeps_modify; by intros []
    | case_match ].

(** What [stop] leaves. *)
Definition released (s : @Client.Client C) : Prop :=
  listen_fd s < 0 ∧ tcp_fd s < 0 ∧ conns s = ∅ ∧ data_connections s = [].

Lemma stop_listener_cli (w w' : World) u : stop_listener w = Some (u, w') →
  listen_fd (cli w') < 0 ∧ conns (cli w') = ∅.
Proof.
  intros E. unfold stop_listener in E. apply bind_some in E as (s & w0 & [= <- <-] & E). unfold id in E.
  apply bind_some in E as ([] & w1 & E1 & E). apply bind_some in E as ([] & w2 & E2 & E).
  injection E as _ <-. change (listen_fd (cli w2) < 0 ∧ ∅ = (∅ : gmap Z ExternalConn)). split; [|done].
  assert (listen_fd (cli w1) < 0) as H1.
  { destruct (Z.leb_spec 0 (listen_fd (cli w))); [|by injection E1 as <-]. cbn [when] in E1.
    apply bind_some in E1 as ([] & w0 & _ & E1). injection E1 as <-. by vm_compute. }
  assert (cli w2 = cli w1) as ->; [|done]. refine (for_conns_cli _ (cli w1) _ _ _ _ E2 eq_refl).
  intros c x. unfold del_fd, shutdown, close, kernel_do, emit. cli_keeping.
Qed.

Lemma stop_released now (w w' : World) u : stop now w = Some (u, w') → released (cli w').
Proof.
  intros E. unfold stop in E. apply bind_some in E as ([] & w1 & [H1 H2]%stop_listener_cli & E).
  apply bind_some in E as (dcs & w0 & [= <- <-] & E). apply bind_some in E as ([] & w2 & E2 & E).
  assert (cli w2 = cli w1) as Hc.
  { refine (keeps_each (λ w, cli w = cli w1) _ _ _ _ _ _ E2 eq_refl). intros dc _.
    unfold del_fd, close, kernel_do, emit. cli_keeping. }
  apply bind_some in E as ([] & w3 & E3 & E). apply bind_some in E as ([] & w4 & E4 & E).
  assert (listen_fd (cli w4) < 0 ∧ conns (cli w4) = ∅ ∧ data_connections (cli w4) = []) as (Hl & Hx & Hd).
  { injection E4 as <-. injection E3 as <-. rewrite <- Hc in H1, H2. by split_and!. }
  apply bind_some in E as (s & w0 & Es & E). unfold get_cli, gets, id in Es. injection Es as <- <-.
  destruct (Z.leb_spec 0 (tcp_fd (cli w4))) as [Ht|Ht]; cbn [when] in E; [|injection E as _ <-; by split_and!].
  apply bind_some in E as ([] & w5 & E5 & E). injection E5 as <-. injection E as _ <-. by split_and!.
Qed.

(** [stop] on a client that has been stopped closes nothing. *)
Lemma stop_again now (w w' : World) u : released (cli w) → stop now w = Some (u, w') →
  log w' = log w ++ [EKernelStop] ∧ kern w' = kern w.
Proof.
  intros (Hl & Ht & Hx & Hd) E. unfold stop in E. apply bind_some in E as ([] & w1 & E1 & E).
  assert (w1 = w{{cli ::= λ s, s{{conns := ∅}} }}) as ->.
  { unfold stop_listener in E1. apply bind_some in E1 as (s & w0 & [= <- <-] & E1). unfold id in E1.
    rewrite (proj2 (Z.leb_gt _ _) Hl) in E1. apply bind_some in E1 as ([] & w0 & [= <-] & E1).
    apply bind_some in E1 as ([] & w0 & E0 & E1). unfold for_conns in E0.
    apply bind_some in E0 as (ids & w00 & Ei & E0). unfold get_cli, gets in Ei. injection Ei as <- <-.
    rewrite Hx, map_to_list_empty in E0. injection E0 as <-. by injection E1 as <-. }
  apply bind_some in E as (dcs & w0 & Ed & E).
  assert (dcs = [] ∧ w0 = w{{cli ::= λ s, s{{conns := ∅}} }}) as [-> ->].
  { unfold get_cli, gets in Ed. injection Ed as <- <-. split; [exact Hd|done]. }
  apply bind_some in E as ([] & w2 & [= <-] & E).
  apply bind_some in E as ([] & w3 & [= <-] & E). apply bind_some in E as ([] & w4 & [= <-] & E).
  apply bind_some in E as (s & w0 & Es & E). unfold get_cli, gets, id in Es. injection Es as <- <-.
  change (when (0 <=? tcp_fd (cli w)) (close (tcp_fd (cli w)) ;; upd (λ s, s{{tcp_fd := -1}}))
            (w{{log ::= λ l, l ++ [EKernelStop];
                cli ::= λ s, s{{conns := ∅; data_connections := []; chain ::= fmap (chain_cancel now)}} }})
          = Some (u, w')) in E.
  rewrite (proj2 (Z.leb_gt _ _) Ht) in E. injection E as _ <-. done.
Qed.

(** The client's life, whatever its event loop does: at its end it listens on no port and has
    no connection, the exit status is 0 or 1, and a second [stop], by the destructor, closes no
    descriptor again. *)
Theorem client_releases_all (r : connecting) (event_loop : act World unit) (now : Z) (w w' : World) (status : Z) :
  run_client r event_loop now w = Some (status, w') →
  released (cli w') ∧ (status = 0 ∨ status = 1)
  ∧ (status = 0 → ∃ w1, released (cli w1) ∧ log w' = log w1 ++ [EKernelStop] ∧ kern w' = kern w1).
Proof.
  intros E. unfold run_client in E. apply bind_some in E as (ok & w1 & _ & E).
  apply bind_some in E as (setup & w2 & _ & E). destruct setup.
  - apply bind_some in E as ([] & w3 & E3%stop_released & E). apply bind_some in E as ([] & w4 & E4 & E).
    injection E as <- <-. split_and!; [by eapply stop_released|by left|]. intros _. exists w3.
    by split; [|eapply stop_again].
  - apply bind_some in E as ([] & w3 & E3%stop_released & E). injection E as <- <-. split_and!; [done|by right|done].
Qed.

(** ** A secondary connection that is opened again *)

Definition has_rbuf (i : nat) (rb : RBuf) (w : World) : Prop :=
  ∃ dc, data_connections (cli w) !! i = Some dc ∧ rbuf dc = rb.

Lemma rbuf_upd i rb f : (∀ s, data_connections (f s) = data_connections s) →
  keeps (has_rbuf i rb) (upd f : act World unit).
Proof. intros Hf. apply keeps_modify. intros w (dc & Hd & Hr). exists dc. split; [|done]. cbn. by rewrite Hf. Qed.
Lemma rbuf_upd_dc i rb j f : (∀ dc, rbuf (f dc) = rbuf dc) →
  keeps (has_rbuf i rb) (upd_dc j f : act World unit).
Proof.
  intros Hf. apply keeps_modify. intros w (dc & Hd & <-). exists (if decide (j = i) then f dc else dc).
  change (alter f j (data_connections (cli w)) !! i = Some (if decide (j = i) then f dc else dc)
          ∧ rbuf (if decide (j = i) then f dc else dc) = rbuf dc).
  rewrite list_lookup_alter. case_decide; [subst; rewrite Hd|done]. split; [done|apply Hf].
Qed.

Ltac rbuf_keeping :=
  repeat first
    [ progress intros
    | apply keeps_bind | apply keeps_when | apply keeps_each
    | apply keeps_ret | apply keeps_gets | apply keeps_get | apply keeps_fail | apply keeps_of_option
    | apply rbuf_upd_dc; by intros []
    | apply rbuf_upd; by intros []
    | apply keeps_modify; by intros []
    | case_match ].

(** What was left of a frame of the old connection stays in the read buffer, and the new
    stream is read as its continuation: with one byte of a frame of length 5 left, two
    heartbeats are swallowed. *)
Theorem reconnect_keeps_partial_frame (now : Z) (i : nat) (w w' : World) (u : unit) (rb : RBuf) :
  has_rbuf i rb w → reconnect_secondary now i w = Some (u, w') → has_rbuf i rb w'
  ∧ on_readable Frame.Client (mkRBuf [5] 0) [1; WIRE_HEARTBEAT_PING; 1; WIRE_HEARTBEAT_PING]
    = Some ([], mkRBuf [5; 1; WIRE_HEARTBEAT_PING; 1; WIRE_HEARTBEAT_PING] 0, false).
Proof.
  intros Hw E. split; [|reflexivity]. revert Hw. revert w u w' E. change (keeps (has_rbuf i rb) (reconnect_secondary now i)).
  unfold reconnect_secondary, next_dial, close, register_data_connection_reader, dc_write, wb_write, get_dc,
    register_data_conn_epollout, add_fd_handler, kernel_do, emit. rbuf_keeping.
Qed.

(** ** A read that returns nothing *)

Section stall.
Context (now : Z) (idx : nat).

(** What a read leaves in the buffer. *)
Definition added (r : readres) : bytes := match r with RdData d => d | _ => read_space end.

Lemma read_space_cons : ∃ z, read_space = 0 :: z.
Proof.
  assert (∀ n, 0 < n → ∃ z, replicate (Z.to_nat n) 0 = 0 :: z) as Hn.
  { intros n Hn. destruct (Z.to_nat n) eqn:E; [lia|]. by eexists. }
  by apply Hn.
Qed.

(** [w] with another read buffer of connection [idx], and other activity times. *)
Definition with_rbuf (t : Z) (hb : bool) (rb : RBuf) (w : World) : World :=
  w{{cli ::= λ s, s{{last_wire_activity := t; heartbeating := hb;
                     data_connections ::= alter (λ dc, dc{{rbuf := rb}}) idx}} }}.

Definition stalled (rest : bytes) (w : World) : Prop :=
  ∃ dc, data_connections (cli w) !! idx = Some dc ∧ unread (rbuf dc) = 0 :: rest
        ∧ (read_offset (rbuf dc) <= length (read_buf (rbuf dc)))%nat.

Lemma with_rbuf_twice t hb rb t' hb' rb' w :
  with_rbuf t' hb' rb' (with_rbuf t hb rb w) = with_rbuf t' hb' rb' w.
Proof.
  destruct w as [[] ?]. unfold with_rbuf. cbn. unfold constant. do 2 f_equal.
  rewrite list_alter_alter_eq. by apply list_alter_ext.
Qed.

Lemma append_space dc w :
  data_connections (cli w) !! idx = Some dc →
  upd_dc idx (λ dc, dc{{rbuf ::= λ rb, mkRBuf (read_buf rb ++ read_space) (read_offset rb)}}) w
  = Some (tt, with_rbuf (last_wire_activity (cli w)) (heartbeating (cli w))
                (mkRBuf (read_buf (rbuf dc) ++ read_space) (read_offset (rbuf dc))) w).
Proof.
  intros Hdc. destruct w as [[] ?]. unfold upd_dc, upd, modify, with_rbuf. cbn -[read_space] in *.
  unfold constant. do 4 f_equal. apply list_alter_ext; [|done]. intros dc'. rewrite Hdc. by intros [= <-].
Qed.

Lemma with_rbuf_lookup t hb rb dc w :
  data_connections (cli w) !! idx = Some dc →
  ∃ dc', data_connections (cli (with_rbuf t hb rb w)) !! idx = Some dc' ∧ rbuf dc' = rb.
Proof.
  intros Hdc. destruct w as [[] ?]. unfold with_rbuf. cbn in *.
  rewrite list_lookup_alter_eq, Hdc. by eexists.
Qed.

(** A read that returns nothing appends zeros. *)
Lemma stalled_space t hb dc rest w :
  data_connections (cli w) !! idx = Some dc → unread (rbuf dc) ++ read_space = 0 :: rest →
  (read_offset (rbuf dc) <= length (read_buf (rbuf dc)))%nat →
  let rb := mkRBuf (read_buf (rbuf dc) ++ read_space) (read_offset (rbuf dc)) in
  stalled rest (with_rbuf t hb rb w) ∧ unread rb = 0 :: rest.
Proof.
  intros Hdc Hu Ho rb. assert (unread rb = 0 :: rest) as Hu'
    by (unfold rb, unread in *; cbn [read_buf read_offset]; by rewrite drop_app_le).
  split; [|done]. destruct (with_rbuf_lookup t hb rb dc w Hdc) as (dc' & ? & Hrb).
  exists dc'. rewrite Hrb. split_and!; [done..|]. unfold rb. cbn [read_buf read_offset].
  rewrite length_app. lia.
Qed.

Lemma data_event_read r dc w :
  data_connections (cli w) !! idx = Some dc →
  on_data_event now idx EPOLLIN r w =
  match r with
  | RdData d => on_data_readable now idx r w
  | _ => Some (tt, with_rbuf (last_wire_activity (cli w)) (heartbeating (cli w))
                (mkRBuf (read_buf (rbuf dc) ++ read_space) (read_offset (rbuf dc))) w)
  end.
Proof.
  intros Hdc. unfold on_data_event. change (has EPOLLIN EPOLLIN) with true.
  change (has EPOLLIN _) with false. cbn [when].
  assert (∀ m : act World unit, (m ;; mret tt) w = m w)
    as Hret by (intros m; unfold mbind, act_bind; by destruct (m w) as [[[] ?]|]).
  rewrite Hret. destruct r; [done|..]; rewrite <- (append_space dc w Hdc);
    unfold on_data_readable, get_dc, mbind, act_bind, get, of_option; by rewrite Hdc.
Qed.

Lemma stalled_event rest r w :
  stalled rest w →
  ∃ t hb rb, on_data_event now idx EPOLLIN r w = Some (tt, with_rbuf t hb rb w)
    ∧ stalled (rest ++ added r) (with_rbuf t hb rb w) ∧ unread rb = 0 :: rest ++ added r.
Proof.
  intros (dc & Hdc & Hu & Ho). rewrite (data_event_read r dc w Hdc).
  destruct r as [d| | |]; cbn [added];
    [|eexists _, _, _; split; [reflexivity|]; apply stalled_space; [done|by rewrite Hu|done]..].
  destruct (stalled_read Frame.Client (rbuf dc) rest d Ho Hu) as (rb & E & Hu' & Ho').
  exists now, false, rb. split; [|split; [|done]].
  - unfold on_data_readable, get_dc, mbind, act_bind, get, upd_dc, upd, modify, of_option.
    rewrite Hdc. cbn [fmap option_fmap option_map]. rewrite E. cbn [fmap option_fmap option_map each when].
    destruct w as [[] ?]. reflexivity.
  - destruct (with_rbuf_lookup now false rb dc w Hdc) as (dc' & ? & <-). by exists dc'.
Qed.

Lemma stalled_events reads : ∀ rest w,
  stalled rest w → reads ≠ [] →
  ∃ t hb rb, each reads (on_data_event now idx EPOLLIN) w = Some (tt, with_rbuf t hb rb w)
    ∧ unread rb = 0 :: rest ++ concat (map added reads).
Proof.
  induction reads as [|r reads IH]; intros rest w Hs Hne; [done|]. cbn [each map concat].
  destruct (stalled_event rest r w Hs) as (t & hb & rb & E & Hs' & Hu).
  unfold mbind, act_bind. rewrite E. destruct reads as [|r' reads].
  { exists t, hb, rb. split; [done|]. cbn. by rewrite app_nil_r. }
  destruct (IH _ _ Hs') as (t' & hb' & rb' & -> & Hu'); [done|].
  exists t', hb', rb'. rewrite with_rbuf_twice, Hu', (assoc_L (++)). done.
Qed.

(** A client that reads nothing is deaf from then on: once a read of a data connection
    finds the end of the stream, nothing to read, or an error, 131072 zeros stay in the
    buffer. The client does not notice the end; whatever is read later, data or further
    ends, only adds to the buffer: no frame is handled, nothing is sent, closed or
    stopped, and each further end of stream adds another 131072 bytes. *)
Theorem failed_read_deafens (w : World) (dc : DataConnection) (r : readres) (reads : list readres) :
  data_connections (cli w) !! idx = Some dc →
  read_offset (rbuf dc) = length (read_buf (rbuf dc)) →
  (∀ d, r ≠ RdData d) →
  ∃ t hb rb, each (r :: reads) (on_data_event now idx EPOLLIN) w = Some (tt, with_rbuf t hb rb w)
    ∧ unread rb = read_space ++ concat (map added reads).
Proof.
  intros Hdc Ho Hr. assert (unread (rbuf dc) = []) as Hu
    by (unfold unread; rewrite Ho; apply drop_all).
  destruct read_space_cons as [z Hz]. cbn [each].
  pose (t := last_wire_activity (cli w)). pose (hb := heartbeating (cli w)).
  pose (rb := mkRBuf (read_buf (rbuf dc) ++ read_space) (read_offset (rbuf dc))).
  assert (on_data_event now idx EPOLLIN r w = Some (tt, with_rbuf t hb rb w)) as E
    by (rewrite (data_event_read r dc w Hdc); destruct r; [by destruct (Hr d)|done..]).
  destruct (stalled_space t hb dc z w Hdc) as [Hs Hu']; [by rewrite Hu, Hz|by rewrite Ho|].
  fold rb in Hs, Hu'. unfold mbind, act_bind. rewrite E. destruct reads as [|r' reads].
  { exists t, hb, rb. split; [done|]. by rewrite Hu', Hz, app_nil_r. }
  destruct (stalled_events (r' :: reads) _ _ Hs) as (t' & hb' & rb' & -> & Hu''); [done|].
  exists t', hb', rb'. by rewrite with_rbuf_twice, Hu'', Hz.
Qed.

End stall.
End facts.

#[local] Existing Instance SessionFacts.example_chain.

(** Two modules, of which the server has one. *)
Definition example_find (n : bytes) : option bytes :=
  match n with [1] => Some (replicate 64 97) | [2] => Some (replicate 64 48) | _ => None end.

Lemma module_check_exact_witness :
  Session.handle_module_list_req (C := @Chain.Chain Copy.ctx) [replicate 64 97]
    (make_msg MSG_MODULE_LIST_REQ (2 :: replicate 32 170 ++ replicate 32 0)) =
  (Session.send_control (make_msg MSG_MODULE_LIST_RES (0 :: 1 :: 64 :: replicate 64 48)) ;;
   Session.set_state Session.DISCONNECTED).
Proof.
  refine (module_check_exact example_find [replicate 64 97] _ [mkSpec [1] []; mkSpec [2] []]
            (replicate 32 170 ++ replicate 32 0) [replicate 64 97; replicate 64 48] _ _ _).
  - intros n mid. unfold example_find. repeat case_match; intros [= <-];
      (split; [done|]); repeat (constructor; [unfold is_hex; lia|]); constructor.
  - cbn; lia.
  - by vm_compute.
  - by vm_compute.
Defined.

(** A client with one copy module and the password [1; 2; 3]. *)
Definition example_client : @World (@Chain.Chain Copy.ctx) :=
  mkWorld (new_client [1; 2; 3] [104; 58; 49] 8000 0 1000 [mkSpec Copy.s_copy []])
          Kernel.new [] [] [Some 9] [].

(** A challenge, the acceptance, then a wrong answer to the client's challenge [7]. *)
Definition example_reads : list (Z * readres) :=
  [(0, RdData [MSG_AUTH_CHALLENGE; 2; 4]); (1, RdData [4; MSG_AUTH_OK; 1; 1]);
   (2, RdAgain); (3, RdData [MSG_AUTH_RESPONSE; 2; 7; 1])].

Lemma client_authenticates_server_witness :
  match (start (Connected 5) ;; feed_client (λ b, b) [7] (λ _, None) example_reads) example_client with
  | Some (u, w') =>
      ((state_rank (state (cli w')) <= state_rank AWAIT_AUTH2_OK)%nat ∧ chain (cli w') = None
       ∧ conns (cli w') = ∅ ∧ data_connections (cli w') = [] ∧ listen_fd (cli w') = -1)
      ∨ ∃ pre post, received example_reads = pre ++ hex_sha256 (λ b, b) [7; 1; 2; 3] ++ post
  | None => False
  end.
Proof.
  destruct ((start (Connected 5) ;; _) example_client) as [[u w']|] eqn:E.
  - by apply (client_authenticates_server (λ b, b) [7] (λ _, None) example_client w' [1; 2; 3]
             [104; 58; 49] 8000 0 1000 5 [mkSpec Copy.s_copy []] example_reads u).
  - vm_compute in E. discriminate.
Defined.

(** The end of the stream, then a ping. *)
Definition example_connected : @World (@Chain.Chain Copy.ctx) :=
  example_client{{cli ::= λ s, s{{data_connections := [new_dc{{fd := 5}}] }} }}.

Lemma failed_read_deafens_witness :
  ∃ t hb rb, each [RdEof; RdData [1; WIRE_HEARTBEAT_PING]] (on_data_event 0 0 EPOLLIN) example_connected
      = Some (tt, with_rbuf 0 t hb rb example_connected)
    ∧ unread rb = read_space ++ [1; WIRE_HEARTBEAT_PING].
Proof.
  apply (failed_read_deafens 0 0 example_connected (new_dc{{fd := 5}}) RdEof
           [RdData [1; WIRE_HEARTBEAT_PING]]); [reflexivity|reflexivity|done].
Defined.

End ClientFacts.
