(* ===== verification/ClientFlow.v ===== *)
(** * Flow control of the client's external connections

    The client as an endpoint of [Gate]: the messages of the server, the size of the data
    connections and the gate of the tick all stop and start the reading of external
    connections, which come with CONNECT_OK and go in three ways. *)

From coqutil Require Import Datatypes.RecordSetters.
From S2P Require Import Prelude Protocol WriteBuffer Frame Control Reliable Kernel Gate ChainApi Chain Copy SessionFacts Client.
Import DoubleBraceUpdate.
Local Open Scope Z_scope.

Module ClientFlow.
Import Frame Control Reliable Client.

Section flow.
Context {C : Type} `{ChainOps C}.

#[local] Abbreviation World := (@World C).
Implicit Types w : World.

#[global] Instance client_endpoint : Gate.Endpoint World ExternalConn handler := {|
  Gate.conns_of w := conns (cli w);
  Gate.kern_of w := kern w;
  Gate.set_conns f w := w{{cli ::= λ s, s{{conns ::= f}}}};
  Gate.set_kern f w := w{{kern ::= f}};
  Gate.fd_of := e_fd;
  Gate.asks_of c := writer_paused c || chain_paused c || ext_overflow_paused c;
  Gate.removed_of := epollin_removed;
  Gate.set_removed b c := c{{epollin_removed := b}}
|}.

#[global] Instance client_endpoint_laws : Gate.EndpointLaws World ExternalConn handler.
Proof. split; done || by intros; destruct t. Qed.

Abbreviation live := (Gate.live (W := World)).

Lemma ext_flagged c :
  writer_paused c = true ∨ chain_paused c = true ∨ ext_overflow_paused c = true → Gate.flagged c = true.
Proof. unfold Gate.flagged. cbn. intros [->|[->| ->]]; by rewrite ?orb_true_r. Qed.

(** ** The messages and the gates *)

(** One connection, found by the id of a message. *)
Lemma adjust_one cid g (go : ExternalConn → bool) a r w u w' :
  (∀ c, e_fd (g c) = e_fd c) →
  (∀ c, 0 <= e_fd c → Gate.flagged (g c) = true ∨ (go c = true ∧ a = EPOLLIN ∧ r = 0)) →
  live w →
  (c ← get_conn cid;
   match c with
   | None => mret tt
   | Some c => upd_conn cid g ;; when (go c) (mod_fd_events (e_fd c) a r)
   end) w = Some (u, w') → live w'.
Proof.
  intros Hfd Hg Hl E. apply bind_some in E as (o & w1 & E1 & E). injection E1 as <- <-.
  destruct (conns (cli w) !! cid) as [c|] eqn:Ec; [|by injection E as <- <-].
  destruct (Gate.adjust_live cid g (go c) a r c w Hl Ec) as (w2 & Hr & Hl2 & _); [apply Hfd|apply Hg|].
  assert (Some (tt, w2) = Some (u, w')) as Hw by (rewrite <- Hr; exact E). by injection Hw as <- <-.
Qed.

Lemma handle_writer_pause_live pkt w u w' :
  live w → handle_writer_pause pkt w = Some (u, w') → live w'.
Proof.
  intros Hl E. unfold handle_writer_pause in E.
  destruct (payload pkt) as [|cid ?]; [by injection E as <- <-|].
  eapply (adjust_one cid (λ c, c{{writer_paused := true}}) (λ c, 0 <=? e_fd c)); [| |exact Hl|exact E].
  - by intros [].
  - intros c _. left. apply ext_flagged. destruct c; auto.
Qed.

Lemma handle_writer_resume_live pkt w u w' :
  live w → handle_writer_resume pkt w = Some (u, w') → live w'.
Proof.
  intros Hl E. unfold handle_writer_resume in E.
  destruct (payload pkt) as [|cid ?]; [by injection E as <- <-|].
  eapply (adjust_one cid (λ c, c{{writer_paused := false}})
    (λ c, (0 <=? e_fd c) && negb (chain_paused c) && negb (ext_overflow_paused c))); [| |exact Hl|exact E].
  - by intros [].
  - intros c H0. destruct (Gate.resume_cases (c{{writer_paused := false}}) (e_fd c) (chain_paused c)
      (ext_overflow_paused c)) as [?|?]; [|done|by left|by right].
    intros Hb. apply ext_flagged. destruct c; cbn in *; tauto.
Qed.

Lemma handle_chain_pause_live w : live w → ∃ w', handle_chain_pause w = Some (tt, w') ∧ live w'.
Proof.
  intros Hl. refine (Gate.pause_all_live (λ c, c{{chain_paused := true}}) w _ Hl).
  intros c. split; [by destruct c|]. apply ext_flagged. destruct c; auto.
Qed.

Lemma handle_chain_resume_live w : live w → ∃ w', handle_chain_resume w = Some (tt, w') ∧ live w'.
Proof.
  intros Hl. refine (Gate.resume_all_live (λ c, c{{chain_paused := false}})
    (λ c, (0 <=? e_fd c) && negb (writer_paused c) && negb (ext_overflow_paused c)) w _ Hl).
  intros c. split; [by destruct c|]. apply Gate.resume_cases. intros Hb. apply ext_flagged.
  destruct c; cbn in *; tauto.
Qed.

Lemma ext_overflow_live w : live w → ∃ w', overflow_gate w = Some (tt, w') ∧ live w'.
Proof.
  intros Hl. unfold overflow_gate. unfold mbind, act_bind, get_cli, gets. cbn [id].
  destruct (1024 * 1024 <? _).
  - destruct (negb (dc_paused (cli w))); cbn [when]; [|by exists w].
    refine (Gate.pause_all_live (λ c, c{{ext_overflow_paused := true}})
              (w{{cli ::= λ s, s{{dc_paused := true}}}}) _ _); [|by apply (Gate.live_same w)].
    intros c. split; [by destruct c|]. apply ext_flagged. destruct c; auto.
  - destruct ((_ <? 256 * 1024) && dc_paused (cli w)); cbn [when]; [|by exists w].
    refine (Gate.resume_all_live (λ c, c{{ext_overflow_paused := false}})
              (λ c, (0 <=? e_fd c) && negb (writer_paused c) && negb (chain_paused c))
              (w{{cli ::= λ s, s{{dc_paused := false}}}}) _ _); [|by apply (Gate.live_same w)].
    intros c. split; [by destruct c|]. apply Gate.resume_cases. intros Hb. apply ext_flagged.
    destruct c; cbn in *; tauto.
Qed.

(** ** Connections come and go *)

(** Connections as they were, interest not smaller. *)
Definition grows (T : gmap Z ExternalConn) (k : Kernel.t handler) w : Prop :=
  conns (cli w) = T ∧ Gate.mono k (kern w).

Lemma keeps_upd T k f : (∀ s, conns (f s) = conns s) → keeps (grows T k) (upd f).
Proof. intros Hf. apply keeps_modify. intros w [HT Hk]. split; [|done]. cbn. by rewrite Hf. Qed.

Lemma client_control_grows pkt T k : keeps (grows T k) (send_control pkt).
Proof.
  apply keeps_bind; [apply keeps_gets|]. intros s.
  destruct (Control.send_control _ _ _) as [snd' choice].
  apply keeps_bind; [by apply keeps_upd|]. intros _.
  destruct choice as [[idx fr]|]; [|apply keeps_ret].
  apply keeps_bind; [by apply keeps_upd|]. intros _.
  apply keeps_bind; [apply keeps_bind; [apply keeps_get|intros; apply keeps_of_option]|]. intros dc.
  apply keeps_when. intros _. unfold register_data_conn_epollout.
  apply keeps_bind; [apply keeps_gets|]. intros dcs. destruct (dcs !! idx) as [dc'|]; [|apply keeps_ret].
  case_match; [apply keeps_ret|]. apply keeps_bind; [by apply keeps_upd|]. intros _.
  apply keeps_modify. intros w [HT Hk]. split; [exact HT|]. etransitivity; [exact Hk|]. apply Gate.add_mono.
Qed.

Lemma send_control_live pkt w u w' : live w → send_control pkt w = Some (u, w') → live w'.
Proof.
  intros Hl E. destruct (client_control_grows pkt (conns (cli w)) (kern w) _ _ _ E) as [HT Hm]; [done|].
  by eapply Gate.live_same.
Qed.

(** The descriptors [accept] returned are not those of connections. *)
Definition pending_fresh w : Prop :=
  ∀ p c x, p ∈ pending_ext (cli w) → conns (cli w) !! c = Some x → e_fd x ≠ p_fd p.

Lemma take_pending_elem req l p rest : take_pending req l = Some (p, rest) → p ∈ l.
Proof.
  revert rest. induction l as [|q l IH]; intros rest; cbn; [done|].
  case_match; [intros [= <- <-]; by left|].
  destruct (take_pending req l) as [[q' rest']|]; [|done]. intros [= <- <-]. right. by eapply IH.
Qed.

Lemma handle_connect_ok_live pkt w u w' :
  live w → pending_fresh w → handle_connect_ok pkt w = Some (u, w') → live w'.
Proof.
  intros Hl Hf E. unfold handle_connect_ok in E.
  destruct (payload pkt) as [|cid [|req ?]]; try by injection E as <- <-.
  apply bind_some in E as (s & w1 & E1 & E). injection E1 as <- <-. cbn in E.
  destruct (take_pending req (pending_ext (cli w))) as [[p rest]|] eqn:Ep;
    [|by eapply send_control_live].
  apply take_pending_elem in Ep. unfold mbind, act_bind, upd, modify in E. cbn beta iota in E.
  unfold add_fd_handler, kernel_do, modify in E.
  assert (conns (cli w') = match conns (cli w) !! cid with
                           | Some _ => conns (cli w)
                           | None => <[cid := new_ext (p_fd p)]> (conns (cli w))
                           end ∧ kern w' = Kernel.add_fd_handler (p_fd p) (HExt cid) EPOLLIN (kern w))
    as [HT Hk] by (injection E as _ E; by subst w').
  destruct (conns (cli w) !! cid) as [c|] eqn:Ec.
  - apply (Gate.live_same w); [done|done|]. cbn. rewrite Hk. apply Gate.add_mono.
  - destruct (Gate.add_wants (p_fd p) (HExt cid) (kern w)) as [H1 H2].
    rewrite <- Hk in H1, H2. apply (Gate.live_insert cid (new_ext (p_fd p)) w); [done|done| | |done|done].
    + intros c x Hx _. by eapply Hf.
    + cbn. rewrite Hk. apply Gate.add_mono.
Qed.

(** [erase], and the descriptor closed. *)
Lemma erase_close_live cid c (m : act World unit) w u w' :
  live w → conns (cli w) !! cid = Some c →
  (∀ w, ∃ w', m w = Some (tt, w') ∧ cli w' = cli w ∧ kern w' = kern w) →
  (erase_conn cid ;; when (0 <=? e_fd c) (del_fd (e_fd c) ;; m ;; close (e_fd c))) w = Some (u, w') →
  live w'.
Proof.
  intros Hl Hc Hm E. unfold erase_conn, upd, modify, mbind, act_bind in E. cbn beta iota in E.
  destruct (0 <=? e_fd c); cbn [when] in E.
  - unfold del_fd, close, kernel_do, emit, modify in E.
    match type of E with context [m ?x] => destruct (Hm x) as (w2 & Hr & Hc2 & Hk2) end.
    rewrite Hr in E. injection E as _ <-.
    apply (Gate.live_delete cid c w); [done|done| |].
    + transitivity (conns (cli w2)); [done|]. by rewrite Hc2.
    + intros fd Hne. etransitivity; [|by apply (Gate.del_other (e_fd c) (kern w))].
      transitivity (Kernel.handlers (Kernel.os_close (e_fd c) (kern w2)) !! fd); [done|]. by rewrite Hk2.
  - injection E as _ <-. by apply (Gate.live_delete cid c w).
Qed.

Lemma on_external_disconnect_live cid w u w' :
  live w → on_external_disconnect cid w = Some (u, w') → live w'.
Proof.
  intros Hl E. unfold on_external_disconnect in E. apply bind_some in E as (o & w1 & E1 & E).
  injection E1 as <- <-. destruct (conns (cli w) !! cid) as [c|] eqn:Ec; [|by injection E as <- <-].
  apply bind_some in E as ([] & w1 & E1 & E). apply bind_some in E as ([] & w2 & E2 & E).
  eapply send_control_live; [|exact E].
  eapply (erase_close_live cid c (mret tt)); [exact Hl|exact Ec|by eauto|].
  unfold mbind, act_bind. rewrite E1. exact E2.
Qed.

(** A flush changes the writer only. *)
Lemma conn_flush_inv cid c w b w' :
  conn_flush cid c w = Some (b, w') →
  kern w' = kern w ∧ ∃ wb, conns (cli w') = alter (λ c, c{{e_writer := wb}}) cid (conns (cli w)).
Proof.
  intros E. unfold conn_flush in E. apply bind_some in E as ([d wb] & w1 & E1 & E).
  assert (kern w1 = kern w ∧ cli w1 = cli w) as [Hk1 Hc1].
  { unfold wb_flush in E1. apply bind_some in E1 as (w0 & w2 & E0 & E1). injection E0 as <- <-.
    destruct (WB.flush _ _) as [[[[d'|] wb'] segs] ks]; [|done]. by injection E1 as _ _ <-. }
  unfold upd_conn, upd, modify, mbind, act_bind in E. injection E as _ <-.
  split; [done|]. exists wb. rewrite <- Hc1. done.
Qed.

Lemma conn_flush_live cid c w b w' : live w → conn_flush cid c w = Some (b, w') → live w'.
Proof.
  intros Hl (Hk & wb & HT)%conn_flush_inv. eapply Gate.live_kept; [done|]. intros c0 t' Ht'.
  cbn in Ht'. rewrite HT, lookup_alter_Some in Ht'. cbn. rewrite Hk.
  destruct Ht' as [(-> & t & Ht & ->)|[_ Ht]]; [exists t|exists t']; by (destruct t || destruct t').
Qed.

(** The deferred end of a connection. *)
Lemma finish_one_live cid w b w' : live w → finish_one cid w = Some (b, w') → live w'.
Proof.
  intros Hl E. unfold finish_one in E. apply bind_some in E as (o & w1 & E1 & E).
  injection E1 as <- <-. destruct (conns (cli w) !! cid) as [c|] eqn:Ec; [|by injection E as <- <-].
  apply bind_some in E as (d & w1 & E1 & E). apply conn_flush_live in E1; [|done]. clear Ec c Hl.
  apply bind_some in E as (o & w2 & E2 & E). injection E2 as <- <-.
  destruct (conns (cli w1) !! cid) as [c|] eqn:Ec; [|by injection E as <- <-].
  destruct (WB.empty (e_writer c)).
  - apply bind_some in E as ([] & w2 & E2 & E). apply bind_some in E as ([] & w3 & E3 & E).
    injection E as _ <-.
    eapply (erase_close_live cid c (shutdown (e_fd c))); [done|exact Ec|by eauto|].
    unfold mbind, act_bind in *. by rewrite E2.
  - apply bind_some in E as ([] & w2 & E2 & E). injection E as _ <-.
    destruct (negb _); cbn [when] in E2; [|by injection E2 as <-].
    unfold upd_conn, upd, add_fd_handler, kernel_do, modify, mbind, act_bind in E2. injection E2 as <-.
    eapply Gate.live_kept; [exact E1|]. intros c0 t' Ht'. cbn in Ht'. rewrite lookup_alter_Some in Ht'.
    destruct Ht' as [(-> & t & Ht & ->)|[_ Ht]]; [exists t|exists t'];
      (split; [done|]); (split; [by destruct t || destruct t'|]); (split; [by destruct t || destruct t'|]);
      intros Hk; by apply Gate.add_mono.
Qed.

(** ** Runs *)

Inductive flow_step : World → World → Prop :=
| fs_connected pkt w u w' : pending_fresh w → handle_connect_ok pkt w = Some (u, w') → flow_step w w'
| fs_disconnected cid w u w' : on_external_disconnect cid w = Some (u, w') → flow_step w w'
| fs_finished cid w b w' : finish_one cid w = Some (b, w') → flow_step w w'
| fs_writer_pause pkt w u w' : handle_writer_pause pkt w = Some (u, w') → flow_step w w'
| fs_writer_resume pkt w u w' : handle_writer_resume pkt w = Some (u, w') → flow_step w w'
| fs_chain_pause w u w' : handle_chain_pause w = Some (u, w') → flow_step w w'
| fs_chain_resume w u w' : handle_chain_resume w = Some (u, w') → flow_step w w'
| fs_overflow w u w' : overflow_gate w = Some (u, w') → flow_step w w'
| fs_gate bp0 w u w' : gate_conns bp0 w = Some (u, w') → flow_step w w'
(** anything that leaves the flags and the interest in the remaining connections alone *)
| fs_other w w' : Gate.kept w w' → flow_step w w'.

Lemma client_step_live w w' : flow_step w w' → live w → live w'.
Proof.
  intros Hs Hl. destruct Hs.
  - by eapply handle_connect_ok_live.
  - by eapply on_external_disconnect_live.
  - by eapply finish_one_live.
  - by eapply handle_writer_pause_live.
  - by eapply handle_writer_resume_live.
  - destruct (handle_chain_pause_live w Hl) as (? & ? & ?). by simplify_eq.
  - destruct (handle_chain_resume_live w Hl) as (? & ? & ?). by simplify_eq.
  - destruct (ext_overflow_live w Hl) as (? & ? & ?). by simplify_eq.
  - destruct (Gate.gate_run bp0 w Hl) as (w1 & Hg & ? & _).
    assert (Some (tt, w1) = Some (u, w')) as Hw by (rewrite <- Hg; done). by simplify_eq.
  - by eapply Gate.live_kept.
Qed.

(** [C28] The client's flow control never stalls. However external connections come with
    CONNECT_OK, end at once or after their last bytes, and the server's pause and resume
    messages, the overflow gate and earlier ticks interleave, the EPOLLIN gate of a tick
    always completes, and after it every open external connection that no mechanism asks
    to pause is watched for EPOLLIN. *)
Theorem client_never_stalls (w0 w : World) (bp0 : bool) :
  conns (cli w0) = ∅ → rtc flow_step w0 w →
  ∃ w', gate_conns bp0 w = Some (tt, w')
    ∧ ∀ cid c, conns (cli w') !! cid = Some c → 0 <= e_fd c →
        should_pause bp0 c = false → Gate.wants_in (kern w') (e_fd c) = true.
Proof.
  intros H0 Hr. assert (live w) as Hl.
  { assert (live w0) as Hl0 by (by apply Gate.live_empty).
    clear H0. induction Hr as [|? ? ? Hs _ IH]; [done|]. by apply IH, (client_step_live _ _ Hs). }
  exact (Gate.gate_effective bp0 w Hl).
Qed.

End flow.

#[local] Existing Instance SessionFacts.example_chain.

(** A running client with one pending request; its answer, then a pause, a resume and a gate
    under back-pressure. *)
Definition example_world : @World (@Chain.Chain Copy.ctx) :=
  mkWorld ((new_client [1; 2; 3] [104; 58; 49] 8000 0 1000 []){{
             state := RUNNING; data_connections := [new_dc{{fd := 5}}];
             pending_ext := [mkPend 7 0 0] }})
          Kernel.new [] [] [] [].

Definition after {S A} (m : act S A) (s : S) : S := match m s with Some (_, s') => s' | None => s end.

Lemma client_never_stalls_witness :
  let w1 := after (handle_connect_ok (make_msg MSG_CONNECT_OK [1; 0])) example_world in
  let w2 := after (gate_conns true) w1 in
  let w3 := after handle_chain_pause w2 in
  let w4 := after handle_chain_resume w3 in
  (∃ c, conns (cli w4) !! 1 = Some c ∧ e_fd c = 7) ∧
  ∃ w', gate_conns false w4 = Some (tt, w')
    ∧ ∀ cid c, conns (cli w') !! cid = Some c → 0 <= e_fd c →
        should_pause false c = false → Gate.wants_in (kern w') (e_fd c) = true.
Proof.
  intros w1 w2 w3 w4. split; [by vm_compute; eexists|].
  apply (client_never_stalls example_world w4 false).
  - reflexivity.
  - eapply rtc_l; [apply (fs_connected (make_msg MSG_CONNECT_OK [1; 0]) example_world tt w1)|].
    { intros p c x _. unfold example_world. cbn. by rewrite lookup_empty. }
    { vm_compute. reflexivity. }
    eapply rtc_l; [apply (fs_gate true w1 tt w2); vm_compute; reflexivity|].
    eapply rtc_l; [apply (fs_chain_pause w2 tt w3); vm_compute; reflexivity|].
    eapply rtc_l; [apply (fs_chain_resume w3 tt w4); vm_compute; reflexivity|].
    apply rtc_refl.
Defined.

End ClientFlow.
