(* ===== verification/Tunnel.v ===== *)
(** * End to end

    The application's connection at the client, the two chains, and the target at the server:
    what the client reads from a connection is what the target's socket is given. *)

From coqutil Require Import Datatypes.RecordSetters.
From S2P Require Import Prelude Text Protocol WriteBuffer Frame Connection Ledger Control Reliable Kernel ChainApi Config Chain Copy Split SplitConfig ChainFlow SplitChain Base64 Session Delivery Client.
Import DoubleBraceUpdate.
Local Open Scope Z_scope.

Module Tunnel.

(** ** Feeding a chain *)

(** Steps of an endpoint, each with the packets it made of what it read and with the uses of
    its chain that it consists of. *)
Section feed.
Context {W : Type} (R : W → list bytes → list Chain.op → W → Prop).

Inductive feeds : W → list bytes → list Chain.op → W → Prop :=
| feeds_refl w : feeds w [] [] w
| feeds_cons w rs os w1 rs' os' w2 :
    R w rs os w1 → feeds w1 rs' os' w2 → feeds w (rs ++ rs') (os ++ os') w2.

(** The endpoint's chain follows, and the packets are those pushed into direction 0. *)
Context {C : Type} (chain_of : W → option C) (run_op : C → Chain.op → C).
Definition follows : Prop := ∀ w rs os w' c,
  R w rs os w' → chain_of w = Some c →
  chain_of w' = Some (foldl run_op c os) ∧ ChainFlow.pushes 0 os = rs.

Lemma feeds_chain w rs os w' : follows → feeds w rs os w' → ∀ c, chain_of w = Some c →
  chain_of w' = Some (foldl run_op c os) ∧ ChainFlow.pushes 0 os = rs.
Proof.
  intros Hf. induction 1 as [w|w rs os w1 rs' os' w2 H1 _ IH]; intros c Hc; [done|].
  destruct (Hf _ _ _ _ _ H1 Hc) as [Hc1 Hp1]. destruct (IH _ Hc1) as [Hc2 Hp2].
  rewrite foldl_app, <- Hp1, <- Hp2. split; [done|]. unfold ChainFlow.pushes. apply omap_app.
Qed.
End feed.

Section tunnel.
Context {Y : Type} (tinit : ModuleSpec → option (Y * list Chain.init_ev)).
Context (tprocess : bytes → Y → Z → Z → option (bytes * Z) → Y * list Chain.mod_ev * Chain.mod_ret).
Context (f : ModuleSpec → Z → bytes → option bytes).
Context (pre : list ModuleSpec) (ps : bytes) (tail : list ModuleSpec).
Context (A : SplitChain.Endpoint).

#[local] Abbreviation cfg := (pre ++ mkSpec SplitChain.s_split ps :: tail).
#[local] Abbreviation run_op :=
  (Chain.run_op (SplitChain.process tprocess (SplitChain.e_env A)) (SplitChain.e_wire A) (SplitChain.e_malloc A)).

#[local] Instance client_chain : ChainOps (@Chain.Chain (Split.SplitContext + Y)) :=
  Chain.chain_ops (SplitChain.init tinit) (SplitChain.process tprocess (SplitChain.e_env A))
    (SplitChain.e_wire A) (SplitChain.e_malloc A).

#[local] Abbreviation CWorld := (@Client.World (@Chain.Chain (Split.SplitContext + Y))).

Definition no_push (o : Chain.op) : Prop :=
  match o with Chain.OpPush _ _ _ dir => dir = 1 | _ => True end.

(** What happens to a client's chain: a connection is read, is at its end, or is kept from
    being read by back-pressure or lack of memory; and everything else, as uses of the
    chain. The packets made of the blocks read are listed, and the uses of the chain. *)
Inductive cstep (w : CWorld) : list bytes → list Chain.op → CWorld → Prop :=
| c_read cid d w' :
    Client.ext_read cid (Client.RdData d) w = Some (true, w') →
    cstep w [cid :: d]
      [Chain.OpAlloc Frame.MAX_PACKET_SIZE; Chain.OpPush Frame.MAX_PACKET_SIZE (cid :: d) 0 0] w'
| c_eof cid w' :
    Client.ext_read cid Client.RdEof w = Some (true, w') →
    cstep w [[255; 82; cid]]
      [Chain.OpAlloc Frame.MAX_PACKET_SIZE; Chain.OpFree Frame.MAX_PACKET_SIZE;
       Chain.OpAlloc 3; Chain.OpPush 3 [255; 82; cid] 0 0] w'
| c_blocked cid r w' : Client.ext_read cid r w = Some (false, w') → cstep w [] [] w'
| c_chain o c :
    Client.chain (Client.cli w) = Some c → no_push o →
    cstep w [] [o] (w{{Client.cli ::= λ s, s{{Client.chain := Some (run_op c o)}} }}).

Definition csteps : CWorld → list bytes → list Chain.op → CWorld → Prop := feeds cstep.

(** An allocation by the client. *)
Lemma chain_alloc_inv size w b w' c :
  Client.chain_alloc size w = Some (b, w') → Client.chain (Client.cli w) = Some c →
  if b then ∃ c', Chain.alloc_buffer (SplitChain.e_malloc A) size c = Some c'
                  ∧ Client.chain (Client.cli w') = Some c'
  else w' = w.
Proof.
  intros E Hc. unfold Client.chain_alloc in E. apply bind_some in E as (c0 & w0 & [= <- <-] & E). rewrite Hc in E.
  destruct (alloc_buffer size c) as [c'|] eqn:Ea; injection E as <- <-; [|done]. by exists c'.
Qed.

Lemma chain_push_inv a d src dir w u w' c :
  Client.chain_push a d src dir w = Some (u, w') → Client.chain (Client.cli w) = Some c →
  Client.chain (Client.cli w') = Some (Chain.push_packet a d src dir c).
Proof.
  intros E Hc. injection E as _ <-.
  change (Chain.push_packet a d src dir <$> Client.chain (Client.cli w) = Some (Chain.push_packet a d src dir c)).
  by rewrite Hc.
Qed.

(** A read of an external connection, up to the allocation of its buffer. *)
Lemma ext_read_inv cid r w b w' c :
  Client.ext_read cid r w = Some (b, w') → Client.chain (Client.cli w) = Some c →
  b = false ∧ w' = w
  ∨ ∃ c1 w1, Chain.alloc_buffer (SplitChain.e_malloc A) Frame.MAX_PACKET_SIZE c = Some c1
      ∧ Client.chain (Client.cli w1) = Some c1 ∧ b = true
      ∧ match r with
        | Client.RdData d => Client.chain (Client.cli w') = Some (Chain.push_packet Frame.MAX_PACKET_SIZE (cid :: d) 0 0 c1)
        | Client.RdEof => ∃ c2, Chain.alloc_buffer (SplitChain.e_malloc A) 3 (Chain.free_buffer Frame.MAX_PACKET_SIZE c1) = Some c2
                         ∧ Client.chain (Client.cli w') = Some (Chain.push_packet 3 [255; 82; cid] 0 0 c2)
        | _ => True
        end.
Proof.
  intros E Hc. unfold Client.ext_read in E. apply bind_some in E as (c0 & w0 & [= <- <-] & E). rewrite Hc in E.
  destruct (is_backpressure_paused 0 c); [injection E as <- <-; by left|].
  apply bind_some in E as (ok & w1 & E1 & E). apply (chain_alloc_inv _ _ _ _ _ E1) in Hc as Ha.
  destruct ok; [|subst w1; injection E as <- <-; by left]. destruct Ha as (c1 & Ha & Hc1). cbn [negb] in E.
  right. exists c1, w1. split; [done|]. split; [done|]. destruct r as [d| | |].
  - apply bind_some in E as ([] & w2 & E2 & E). injection E as <- <-. split; [done|]. by eapply chain_push_inv.
  - apply bind_some in E as ([] & w2 & E2 & E). apply bind_some in E as ([] & w3 & E3 & E).
    assert (Client.chain (Client.cli w3) = Some (Chain.free_buffer Frame.MAX_PACKET_SIZE c1)) as Hc3.
    { injection E3 as <-. injection E2 as <-.
      change (Chain.free_buffer Frame.MAX_PACKET_SIZE <$> Client.chain (Client.cli w1)
              = Some (Chain.free_buffer Frame.MAX_PACKET_SIZE c1)). by rewrite Hc1. }
    apply bind_some in E as (ok & w4 & E4 & E). apply (chain_alloc_inv _ _ _ _ _ E4) in Hc3 as Ha3.
    destruct ok; [|done]. destruct Ha3 as (c2 & Ha2 & Hc2). 
    apply bind_some in E as ([] & w5 & E5 & E). injection E as <- <-. split; [done|].
    exists c2. split; [done|]. by eapply chain_push_inv.
  - injection E as <- <-. done.
  - injection E as <- <-. done.
Qed.

Lemma cstep_chain : follows cstep (λ w, Client.chain (Client.cli w)) run_op.
Proof.
  intros w rs os w' c Hs Hc. destruct Hs as [cid d w' E|cid w' E|cid r w' E|o c' Hc' Hno].
  - destruct (ext_read_inv _ _ _ _ _ _ E Hc) as [[? _]|(c1 & w1 & Ha & _ & _ & Hc')]; [done|].
    split; [|done]. cbn [foldl Chain.run_op]. by rewrite Ha.
  - destruct (ext_read_inv _ _ _ _ _ _ E Hc) as [[? _]|(c1 & w1 & Ha & _ & _ & c2 & Ha2 & Hc')]; [done|].
    split; [|done]. cbn [foldl Chain.run_op]. rewrite Ha. cbn [default from_option id]. by rewrite Ha2.
  - split; [|done]. destruct (ext_read_inv _ _ _ _ _ _ E Hc) as [[_ ->]|(? & ? & _ & _ & ? & _)]; done.
  - rewrite Hc in Hc'. injection Hc' as <-. split; [done|]. destruct o as [a d s dir| | | | |]; try done.
    cbn in Hno. by subst dir.
Qed.

(** [C11] End to end, for the first 16384 blocks. The client runs the newly built chain of a
    configuration text with one split module among invertible ones; its event loop reads
    external connections, in any order and interleaved with the chain's workers, heartbeats
    and the packets of the other direction, at most 16384 blocks over the life of the chain.
    Then its chain is the one the tunnel theorem speaks of. If the server's chain, newly
    built too, gets all the chunks it sent, in any order, on any connections, repeated, among
    packets that are refused, and the session handles what that chain hands out, interleaved
    with flushes, outgoing packets and deferred work, then for every target: the bytes
    written to its socket and those still in its writer are exactly the bytes read from the
    client's connection with that id, in order. This is for a target that is there from
    before the first block with an empty writer, and is not closed; for writes that do not
    fail for good; and while neither chain is cancelled, memory does not run out and
    [wire_write] takes every packet. (Beyond 16384 blocks: [Split.merge_window_exceeded].) *)
Theorem end_to_end {C} `{ChainOps C} (text : bytes) (x0 : Split.SplitContext) (ievs : list Chain.init_ev)
    (B : SplitChain.Endpoint) (now now' : Z) (w0 w1 : CWorld) (read : list bytes) (ops ops' : list Chain.op)
    (v0 v1 : @Session.World C) (cid tfd : Z) (t : Session.TargetConn)
    (sent := Chain.exits (SplitChain.settled tinit tprocess f pre ps tail A now ops))
    (HA : SplitChain.healthy A) (HB : SplitChain.healthy B)
    (Htext : Config.modules (Config.parse_chain text) = cfg)
    (Hstart : SplitConfig.chain_init ps = Some (x0, ievs))
    (Hinv : Forall (SplitChain.invertible tinit tprocess f) (pre ++ tail))
    (Hchain : Client.chain (Client.cli w0) = Some (chain_new now cfg))
    (Hclient : csteps w0 read ops w1)
    (Hread : Forall ChainFlow.packet read) (Hcount : Z.of_nat (length read) <= 16384)
    (Hops : Forall (SplitChain.valid_op f pre tail x0) ops)
    (Hops' : Forall (SplitChain.valid_op f pre tail x0) ops')
    (Hall : ∀ d, d ∈ SplitChain.on_wire sent → d ∈ ChainFlow.pushes 1 ops')
    (Honly : ∀ d, d ∈ ChainFlow.pushes 1 ops' →
               d ∈ SplitChain.on_wire sent ∨ ChainFlow.decode f tail d = None)
    (Ht : Session.targets (Session.ses v0) !! cid = Some t) (Hfd : Session.t_fd t = tfd) (Htfd : 0 <= tfd)
    (Hnew : Session.t_writer t = WB.new_buffer) (Hlog : Session.log v0 = [])
    (Huniq : ∀ c t', Session.targets (Session.ses v0) !! c = Some t' → Session.t_fd t' = tfd → c = cid)
    (Hdc : Forall (λ dc, Session.fd dc ≠ tfd) (Session.data_connections (Session.ses v0)))
    (Herr : WB.WErr ∉ Session.writes v0)
    (Hserver : Delivery.steps v0
       (SplitChain.to_user (Chain.exits (SplitChain.settled tinit tprocess f pre ps tail B now' ops'))) v1) :
  Client.chain (Client.cli w1) = Some (foldl run_op (chain_new now cfg) ops)
  ∧ ∃ t', Session.targets (Session.ses v1) !! cid = Some t'
      ∧ Delivery.sent_to tfd (Session.log v1) ++ WB.data_pending (Session.t_writer t')
        = concat (map (Ledger.payload_of cid) read).
Proof.
  destruct (feeds_chain _ _ _ _ _ _ _ cstep_chain Hclient _ Hchain) as [Hc1 Hpush]. split; [done|].
  rewrite <- Hpush in Hread, Hcount.
  destruct (SplitChain.tunnel_delivers tinit tprocess f pre ps tail text x0 ievs A B now now' ops ops'
              HA HB Htext Hstart Hinv Hops Hops' Hread Hcount Hall Honly) as (_ & _ & _ & _ & Hgot).
  rewrite Hgot, Hpush in Hserver.
  pose proof (Delivery.fresh_Inv cid tfd v0 t Ht Hfd Hnew Huniq Hdc Herr) as Hi. rewrite Hlog in Hi.
  exact (Delivery.Inv_bytes _ _ _ _ (Delivery.steps_Inv cid tfd Htfd _ _ _ _ Hserver Hi)).
Qed.

End tunnel.
(** ** An example: base64 on both sides of a split over three connections *)

Definition demo_params : bytes := lit "n:3,s:64".
Definition demo_modules : list ModuleSpec :=
  Base64.demo_pre ++ mkSpec SplitChain.s_split demo_params :: Base64.demo_tail.
Definition demo_process := Base64.chain_process Base64.rfc_encode Base64.rfc_decode.
Definition demo_chain := client_chain Base64.init demo_process SplitChain.demo_endpoint.
#[local] Existing Instance demo_chain.

Definition first_block : bytes := repeat 7 100.
Definition second_block : bytes := [1; 2; 3].

Abbreviation DWorld := (@Client.World (@Chain.Chain (Split.SplitContext + (Copy.ctx + Base64.b64_ctx)))).

Definition demo_w0 : DWorld :=
  Client.mkWorld ((Client.new_client [] [] 0 0 1000 []){{Client.state := Client.RUNNING;
                    Client.chain := Some (chain_new 0 demo_modules)}}) Kernel.new [] [] [] [].
Definition after_read (d : bytes) (w : DWorld) : DWorld :=
  match Client.ext_read 3 (Client.RdData d) w with Some (_, w') => w' | None => w end.
Definition after_work (w : DWorld) : DWorld :=
  match Client.chain (Client.cli w) with
  | Some c => w{{Client.cli ::= λ s, s{{Client.chain :=
      Some (Chain.run_op (SplitChain.process demo_process (SplitChain.e_env SplitChain.demo_endpoint))
              (SplitChain.e_wire SplitChain.demo_endpoint) (SplitChain.e_malloc SplitChain.demo_endpoint)
              c (Chain.OpWork 0))}} }}
  | None => w
  end.
Definition demo_w1 : DWorld := after_read second_block (after_work (after_read first_block demo_w0)).

Definition demo_ops : list Chain.op :=
  [Chain.OpAlloc Frame.MAX_PACKET_SIZE; Chain.OpPush Frame.MAX_PACKET_SIZE (3 :: first_block) 0 0;
   Chain.OpWork 0;
   Chain.OpAlloc Frame.MAX_PACKET_SIZE; Chain.OpPush Frame.MAX_PACKET_SIZE (3 :: second_block) 0 0].

Lemma demo_client :
  csteps Base64.init demo_process SplitChain.demo_endpoint demo_w0 [3 :: first_block; 3 :: second_block] demo_ops demo_w1.
Proof.
  apply (feeds_cons _ demo_w0 [3 :: first_block]
           [Chain.OpAlloc Frame.MAX_PACKET_SIZE; Chain.OpPush Frame.MAX_PACKET_SIZE (3 :: first_block) 0 0]
           (after_read first_block demo_w0)).
  { apply c_read. vm_compute. reflexivity. }
  apply (feeds_cons _ _ [] [Chain.OpWork 0] (after_work (after_read first_block demo_w0))).
  { destruct (Client.chain (Client.cli (after_read first_block demo_w0))) as [c|] eqn:E; [|vm_compute in E; discriminate].
    unfold after_work. rewrite E. by apply c_chain. }
  apply (feeds_cons _ _ [3 :: second_block]
           [Chain.OpAlloc Frame.MAX_PACKET_SIZE; Chain.OpPush Frame.MAX_PACKET_SIZE (3 :: second_block) 0 0] demo_w1).
  { apply c_read. vm_compute. reflexivity. }
  constructor.
Qed.

Abbreviation demo_settled now ops :=
  (SplitChain.settled Base64.init demo_process Base64.demo_effect Base64.demo_pre demo_params Base64.demo_tail
    SplitChain.demo_endpoint now ops).
Definition demo_got : list bytes := lit "?!" :: reverse (SplitChain.on_wire (Chain.exits (demo_settled 0 demo_ops))).
Definition demo_ops' : list Chain.op := map (λ d, Chain.OpPush 9 d 2 1) demo_got.

Lemma demo_got_good : forallb Base64.good_chunk demo_got = true.
Proof. vm_compute. reflexivity. Qed.
Lemma demo_delivered :
  SplitChain.to_user (Chain.exits (demo_settled 5 demo_ops')) = [3 :: first_block; 3 :: second_block].
Proof. vm_compute. reflexivity. Qed.

Definition server_chain : ChainOps (@Chain.Chain Copy.ctx) :=
  Chain.chain_ops Copy.init Copy.process (λ _ _, 0) (λ _ _, true).
#[local] Existing Instance server_chain.

(** The target's socket takes ten bytes, then nothing for a while. *)
Definition demo_v0 : @Session.World (@Chain.Chain Copy.ctx) :=
  Session.mkWorld ((Session.new_session 5 [] 77 0 1000){{Session.state := Session.RUNNING;
                     Session.targets := {[3 := Session.new_target 9 []]} }}) Kernel.new 0
    [WB.WWrote 10; WB.WAgain] [].
Definition after_packet (p : bytes) (v : @Session.World (@Chain.Chain Copy.ctx)) :=
  match Session.wire_write 0 0 p v with Some (_, v') => v' | None => v end.
Definition demo_v1 := after_packet (3 :: second_block) (after_packet (3 :: first_block) demo_v0).

Lemma demo_server : Delivery.steps demo_v0 [3 :: first_block; 3 :: second_block] demo_v1.
Proof.
  apply (Delivery.steps_cons demo_v0 [3 :: first_block] (after_packet (3 :: first_block) demo_v0)).
  { apply (Delivery.step_target _ 0 _ 0); [done|]. vm_compute. reflexivity. }
  apply (Delivery.steps_cons _ [3 :: second_block] demo_v1).
  { apply (Delivery.step_target _ 0 _ 0); [done|]. vm_compute. reflexivity. }
  constructor.
Qed.

Lemma demo_only c t' :
  Session.targets (Session.ses demo_v0) !! c = Some t' → Session.t_fd t' = 9 → c = 3.
Proof.
  change (Session.targets (Session.ses demo_v0)) with ({[3 := Session.new_target 9 []]} : gmap Z Session.TargetConn).
  intros H _. destruct (decide (c = 3)) as [|Hne]; [done|]. by rewrite lookup_singleton_ne in H.
Qed.

Lemma demo_text_ok : Config.modules (Config.parse_chain Base64.demo_text) = demo_modules.
Proof. vm_compute. reflexivity. Qed.
Lemma demo_read : Forall ChainFlow.packet [3 :: first_block; 3 :: second_block].
Proof.
  repeat apply Forall_cons_2; [..|done]; (split; [done|]).
  - apply Forall_cons_2; [unfold is_byte; lia|]. apply SplitChain.repeat_bytes. unfold is_byte. lia.
  - repeat constructor; unfold is_byte; lia.
Qed.
Lemma demo_ops_ok :
  Forall (SplitChain.valid_op Base64.demo_effect Base64.demo_pre Base64.demo_tail Base64.demo_x0) demo_ops.
Proof. repeat apply Forall_cons_2; try done; by split; [|left; split; [done|intros e [= <-]]]. Qed.
Lemma demo_ops_ok' :
  Forall (SplitChain.valid_op Base64.demo_effect Base64.demo_pre Base64.demo_tail Base64.demo_x0) demo_ops'.
Proof. apply Base64.b64_demo_valid, demo_got_good. Qed.
Lemma demo_all d :
  d ∈ SplitChain.on_wire (Chain.exits (demo_settled 0 demo_ops)) → d ∈ ChainFlow.pushes 1 demo_ops'.
Proof.
  unfold demo_ops', demo_got. rewrite SplitChain.demo_pushes. intros Hd. right. rewrite elem_of_reverse. exact Hd.
Qed.
Lemma demo_chunks_only d :
  d ∈ ChainFlow.pushes 1 demo_ops' →
  d ∈ SplitChain.on_wire (Chain.exits (demo_settled 0 demo_ops))
  ∨ ChainFlow.decode Base64.demo_effect Base64.demo_tail d = None.
Proof.
  unfold demo_ops', demo_got. rewrite SplitChain.demo_pushes, elem_of_cons, elem_of_reverse.
  intros [Hd|Hd]; [right; subst d; vm_compute; reflexivity|left; exact Hd].
Qed.
Lemma demo_steps :
  Delivery.steps demo_v0 (SplitChain.to_user (Chain.exits (demo_settled 5 demo_ops'))) demo_v1.
Proof. rewrite demo_delivered. exact demo_server. Qed.
Lemma demo_target :
  Session.targets (Session.ses demo_v0) !! 3 = Some (Session.new_target 9 []).
Proof. reflexivity. Qed.
Lemma demo_clean : WB.WErr ∉ Session.writes demo_v0.
Proof. change (WB.WErr ∉ [WB.WWrote 10; WB.WAgain]). set_solver. Qed.

Lemma end_to_end_witness :
  ∃ t', Session.targets (Session.ses demo_v1) !! 3 = Some t'
    ∧ Delivery.sent_to 9 (Session.log demo_v1) ++ WB.data_pending (Session.t_writer t')
      = concat (map (Ledger.payload_of 3) [3 :: first_block; 3 :: second_block]).
Proof.
  exact (proj2 (end_to_end Base64.init demo_process Base64.demo_effect Base64.demo_pre demo_params Base64.demo_tail
    SplitChain.demo_endpoint Base64.demo_text Base64.demo_x0 [Chain.IOutputs 2] SplitChain.demo_endpoint 0 5
    demo_w0 demo_w1 [3 :: first_block; 3 :: second_block] demo_ops demo_ops' demo_v0 demo_v1 3 9 (Session.new_target 9 [])
    SplitChain.demo_healthy SplitChain.demo_healthy demo_text_ok eq_refl Base64.demo_invertible eq_refl demo_client demo_read ltac:(done) demo_ops_ok demo_ops_ok'
    demo_all demo_chunks_only demo_target eq_refl ltac:(done) eq_refl eq_refl demo_only ltac:(constructor) demo_clean
    demo_steps)).
Defined.

End Tunnel.
