(* ===== verification/TunnelBack.v ===== *)
(** * End to end, the way back

    The target at the server, the two chains, and the application's connection at the
    client: what the session reads from a target is what the connection's socket is given. *)

From coqutil Require Import Datatypes.RecordSetters.
From S2P Require Import Prelude Text Protocol WriteBuffer Frame Connection Ledger Control Reliable Kernel ChainApi Config Chain Copy Split SplitConfig ChainFlow SplitChain Base64 Session Client ClientDelivery Tunnel.
Import DoubleBraceUpdate.
Local Open Scope Z_scope.

Module TunnelBack.

Section back.
Context {Y : Type} (tinit : ModuleSpec → option (Y * list Chain.init_ev)).
Context (tprocess : bytes → Y → Z → Z → option (bytes * Z) → Y * list Chain.mod_ev * Chain.mod_ret).
Context (f : ModuleSpec → Z → bytes → option bytes).
Context (pre : list ModuleSpec) (ps : bytes) (tail : list ModuleSpec).
Context (A : SplitChain.Endpoint).

#[local] Abbreviation cfg := (pre ++ mkSpec SplitChain.s_split ps :: tail).
#[local] Abbreviation run_op :=
  (Chain.run_op (SplitChain.process tprocess (SplitChain.e_env A)) (SplitChain.e_wire A) (SplitChain.e_malloc A)).

#[local] Instance back_chain : ChainOps (@Chain.Chain (Split.SplitContext + Y)) :=
  Tunnel.client_chain tinit tprocess A.

#[local] Abbreviation SWorld := (@Session.World (@Chain.Chain (Split.SplitContext + Y))).

(** What happens to a session's chain: a target is read while the tunnel runs, is found
    without data, or is kept from being read by back-pressure or lack of memory; and
    everything else, as uses of the chain. *)
Inductive sstep (w : SWorld) : list bytes → list Chain.op → SWorld → Prop :=
| s_read cid d w' :
    Session.state (Session.ses w) = Session.RUNNING →
    Session.target_read cid (Session.RdData d) w = Some (true, w') →
    sstep w [cid :: d]
      [Chain.OpAlloc Frame.MAX_PACKET_SIZE; Chain.OpPush Frame.MAX_PACKET_SIZE (cid :: d) 0 0] w'
| s_blocked cid d w' : Session.target_read cid (Session.RdData d) w = Some (false, w') → sstep w [] [] w'
| s_chain o c :
    Session.chain (Session.ses w) = Some c → Tunnel.no_push o →
    sstep w [] [o] (w{{Session.ses ::= λ s, s{{Session.chain := Some (run_op c o)}} }}).

Definition ssteps : SWorld → list bytes → list Chain.op → SWorld → Prop := Tunnel.feeds sstep.

(** A read of a target. *)
Lemma target_read_inv cid d w b w' c :
  Session.target_read cid (Session.RdData d) w = Some (b, w') → Session.chain (Session.ses w) = Some c →
  b = false ∧ w' = w
  ∨ b = true ∧ ∃ c1, Chain.alloc_buffer (SplitChain.e_malloc A) Frame.MAX_PACKET_SIZE c = Some c1
      ∧ Session.chain (Session.ses w')
        = Some (if Session.state_eqb (Session.state (Session.ses w)) Session.RUNNING
                then Chain.push_packet Frame.MAX_PACKET_SIZE (cid :: d) 0 0 c1
                else Chain.free_buffer Frame.MAX_PACKET_SIZE c1).
Proof.
  intros E Hc. unfold Session.target_read in E. apply bind_some in E as (c0 & w0 & [= <- <-] & E). rewrite Hc in E.
  destruct (is_backpressure_paused 0 c); [injection E as <- <-; by left|].
  apply bind_some in E as (ok & w1 & E1 & E). unfold Session.chain_alloc in E1.
  apply bind_some in E1 as (c0 & w0 & [= <- <-] & E1). rewrite Hc in E1.
  destruct (alloc_buffer Frame.MAX_PACKET_SIZE c) as [c1|] eqn:Ea; injection E1 as <- <-;
    [|injection E as <- <-; by left]. cbn [negb] in E.
  apply bind_some in E as (s & w0 & Es & E). unfold Session.get_ses, gets in Es. injection Es as <- <-.
  apply bind_some in E as ([] & w2 & E2 & E). injection E as <- <-. right. split; [done|]. exists c1. split; [exact Ea|].
  change (Session.state (Session.ses (w{{Session.ses ::= λ s, s{{Session.chain := Some c1}} }})))
    with (Session.state (Session.ses w)) in E2.
  by destruct (Session.state_eqb _ _); injection E2 as <-.
Qed.

Lemma sstep_chain : Tunnel.follows sstep (λ w, Session.chain (Session.ses w)) run_op.
Proof.
  intros w rs os w' c Hs Hc. destruct Hs as [cid d w' Hst E|cid d w' E|o c' Hc' Hno].
  - destruct (target_read_inv _ _ _ _ _ _ E Hc) as [[? _]|(_ & c1 & Ha & Hc')]; [done|].
    rewrite Hst in Hc'. split; [|done]. cbn [foldl Chain.run_op]. by rewrite Ha.
  - split; [|done]. destruct (target_read_inv _ _ _ _ _ _ E Hc) as [[_ ->]|[? _]]; done.
  - rewrite Hc in Hc'. injection Hc' as <-. split; [done|]. destruct o as [a d s dir| | | | |]; try done.
    cbn in Hno. by subst dir.
Qed.

(** [C12] End to end, the way back, for the first 16384 blocks. The session runs the newly
    built chain of the configuration text and its event loop reads targets, in any order and
    interleaved with the chain's workers, heartbeats and the packets of the other direction,
    at most 16384 blocks over the life of the chain. If the client's chain, newly built too,
    gets all the chunks the session's chain sent, in any order, on any connections, repeated,
    among packets that are refused, and the client handles what its chain hands out,
    interleaved with flushes, outgoing packets and deferred work, then for every external
    connection: the bytes written to its socket and those still in its writer are exactly the
    bytes read from the target with that id, in order. This is for a connection that is there
    from before the first block with an empty writer and is not being disconnected; for
    writes that do not fail for good; and while neither chain is cancelled, memory does not
    run out and [wire_write] takes every packet. (Beyond 16384 blocks:
    [Split.merge_window_exceeded].) *)
Theorem end_to_end_back {C} `{ChainOps C} (text : bytes) (x0 : Split.SplitContext) (ievs : list Chain.init_ev)
    (B : SplitChain.Endpoint) (now now' : Z) (w0 w1 : SWorld) (read : list bytes) (ops ops' : list Chain.op)
    (v0 v1 : @Client.World C) (cid efd : Z)
    (sent := Chain.exits (SplitChain.settled tinit tprocess f pre ps tail A now ops))
    (HA : SplitChain.healthy A) (HB : SplitChain.healthy B)
    (Htext : Config.modules (Config.parse_chain text) = cfg)
    (Hstart : SplitConfig.chain_init ps = Some (x0, ievs))
    (Hinv : Forall (SplitChain.invertible tinit tprocess f) (pre ++ tail))
    (Hchain : Session.chain (Session.ses w0) = Some (chain_new now cfg))
    (Hsession : ssteps w0 read ops w1)
    (Hread : Forall ChainFlow.packet read) (Hcount : Z.of_nat (length read) <= 16384)
    (Hops : Forall (SplitChain.valid_op f pre tail x0) ops)
    (Hops' : Forall (SplitChain.valid_op f pre tail x0) ops')
    (Hall : ∀ d, d ∈ SplitChain.on_wire sent → d ∈ ChainFlow.pushes 1 ops')
    (Honly : ∀ d, d ∈ ChainFlow.pushes 1 ops' →
               d ∈ SplitChain.on_wire sent ∨ ChainFlow.decode f tail d = None)
    (Hx : Client.conns (Client.cli v0) !! cid = Some (Client.new_ext efd)) (Hefd : 0 <= efd)
    (Hlog : Client.log v0 = [])
    (Huniq : ∀ c x, Client.conns (Client.cli v0) !! c = Some x → Client.e_fd x = efd → c = cid)
    (Hdc : Forall (λ dc, Client.fd dc ≠ efd) (Client.data_connections (Client.cli v0)))
    (Herr : WB.WErr ∉ Client.writes v0)
    (Hclient : ClientDelivery.steps cid v0
       (SplitChain.to_user (Chain.exits (SplitChain.settled tinit tprocess f pre ps tail B now' ops'))) v1) :
  Session.chain (Session.ses w1) = Some (foldl run_op (chain_new now cfg) ops)
  ∧ ∃ x, Client.conns (Client.cli v1) !! cid = Some x
      ∧ ClientDelivery.sent_to efd (Client.log v1) ++ WB.data_pending (Client.e_writer x)
        = concat (map (Ledger.payload_of cid) read).
Proof.
  destruct (Tunnel.feeds_chain _ _ _ _ _ _ _ sstep_chain Hsession _ Hchain) as [Hc1 Hpush]. split; [done|].
  rewrite <- Hpush in Hread, Hcount.
  destruct (SplitChain.tunnel_delivers tinit tprocess f pre ps tail text x0 ievs A B now now' ops ops'
              HA HB Htext Hstart Hinv Hops Hops' Hread Hcount Hall Honly) as (_ & _ & _ & _ & Hgot).
  rewrite Hgot, Hpush in Hclient.
  pose proof (ClientDelivery.ext_fresh_Inv cid efd v0 Hx Huniq Hdc Herr) as Hi. rewrite Hlog in Hi.
  exact (ClientDelivery.ext_Inv_bytes _ _ _ _ (ClientDelivery.ext_steps_Inv cid efd Hefd _ _ _ _ Hclient Hi)).
Qed.

End back.

(** ** The example of [Tunnel], read by the session *)

#[local] Existing Instance Tunnel.demo_chain.
Abbreviation DWorld := (@Session.World (@Chain.Chain (Split.SplitContext + (Copy.ctx + Base64.b64_ctx)))).

Definition back_w0 : DWorld :=
  Session.mkWorld ((Session.new_session 5 [] 77 0 1000){{Session.state := Session.RUNNING;
                     Session.chain := Some (chain_new 0 Tunnel.demo_modules)}}) Kernel.new 0 [] [].
Definition back_read (d : bytes) (w : DWorld) : DWorld :=
  match Session.target_read 3 (Session.RdData d) w with Some (_, w') => w' | None => w end.
Definition back_work (w : DWorld) : DWorld :=
  match Session.chain (Session.ses w) with
  | Some c => w{{Session.ses ::= λ s, s{{Session.chain :=
      Some (Chain.run_op (SplitChain.process Tunnel.demo_process (SplitChain.e_env SplitChain.demo_endpoint))
              (SplitChain.e_wire SplitChain.demo_endpoint) (SplitChain.e_malloc SplitChain.demo_endpoint)
              c (Chain.OpWork 0))}} }}
  | None => w
  end.
Definition back_w1 : DWorld := back_read Tunnel.second_block (back_work (back_read Tunnel.first_block back_w0)).

Lemma back_session :
  ssteps Base64.init Tunnel.demo_process SplitChain.demo_endpoint back_w0
    [3 :: Tunnel.first_block; 3 :: Tunnel.second_block] Tunnel.demo_ops back_w1.
Proof.
  apply (Tunnel.feeds_cons _ back_w0 [3 :: Tunnel.first_block]
           [Chain.OpAlloc Frame.MAX_PACKET_SIZE; Chain.OpPush Frame.MAX_PACKET_SIZE (3 :: Tunnel.first_block) 0 0]
           (back_read Tunnel.first_block back_w0)).
  { apply s_read; vm_compute; reflexivity. }
  apply (Tunnel.feeds_cons _ _ [] [Chain.OpWork 0] (back_work (back_read Tunnel.first_block back_w0))).
  { destruct (Session.chain (Session.ses (back_read Tunnel.first_block back_w0))) as [c|] eqn:E;
      [|vm_compute in E; discriminate].
    unfold back_work. rewrite E. by apply s_chain. }
  apply (Tunnel.feeds_cons _ _ [3 :: Tunnel.second_block]
           [Chain.OpAlloc Frame.MAX_PACKET_SIZE; Chain.OpPush Frame.MAX_PACKET_SIZE (3 :: Tunnel.second_block) 0 0] back_w1).
  { apply s_read; vm_compute; reflexivity. }
  constructor.
Qed.

#[local] Existing Instance Tunnel.server_chain.
Abbreviation CWorld := (@Client.World (@Chain.Chain Copy.ctx)).

(** The connection's socket takes ten bytes, then nothing for a while. *)
Definition back_v0 : CWorld :=
  Client.mkWorld ((Client.new_client [] [] 0 0 1000 []){{Client.state := Client.RUNNING;
                     Client.conns := {[3 := Client.new_ext 9]} }}) Kernel.new
    [WB.WWrote 10; WB.WAgain] [] [] [].
Definition back_packet (p : bytes) (v : CWorld) : CWorld :=
  match Client.wire_write 0 0 p v with Some (_, v') => v' | None => v end.
Definition back_v1 := back_packet (3 :: Tunnel.second_block) (back_packet (3 :: Tunnel.first_block) back_v0).

Lemma back_steps :
  ClientDelivery.steps 3 back_v0
    (SplitChain.to_user (Chain.exits (Tunnel.demo_settled 5 Tunnel.demo_ops'))) back_v1.
Proof.
  rewrite Tunnel.demo_delivered.
  apply (ClientDelivery.steps_cons 3 back_v0 [3 :: Tunnel.first_block] (back_packet (3 :: Tunnel.first_block) back_v0)).
  { apply (ClientDelivery.step_packet _ _ 0 _ 0); [done|]. vm_compute. reflexivity. }
  apply (ClientDelivery.steps_cons 3 _ [3 :: Tunnel.second_block] back_v1).
  { apply (ClientDelivery.step_packet _ _ 0 _ 0); [done|]. vm_compute. reflexivity. }
  constructor.
Qed.

Lemma back_only c x :
  Client.conns (Client.cli back_v0) !! c = Some x → Client.e_fd x = 9 → c = 3.
Proof.
  change (Client.conns (Client.cli back_v0)) with ({[3 := Client.new_ext 9]} : gmap Z Client.ExternalConn).
  intros H _. destruct (decide (c = 3)) as [|Hne]; [done|]. by rewrite lookup_singleton_ne in H.
Qed.

Lemma back_clean : WB.WErr ∉ Client.writes back_v0.
Proof. change (WB.WErr ∉ [WB.WWrote 10; WB.WAgain]). set_solver. Qed.

Lemma end_to_end_back_witness :
  ∃ x, Client.conns (Client.cli back_v1) !! 3 = Some x
    ∧ ClientDelivery.sent_to 9 (Client.log back_v1) ++ WB.data_pending (Client.e_writer x)
      = concat (map (Ledger.payload_of 3) [3 :: Tunnel.first_block; 3 :: Tunnel.second_block]).
Proof.
  exact (proj2 (end_to_end_back Base64.init Tunnel.demo_process Base64.demo_effect Base64.demo_pre Tunnel.demo_params
    Base64.demo_tail SplitChain.demo_endpoint Base64.demo_text Base64.demo_x0 [Chain.IOutputs 2]
    SplitChain.demo_endpoint 0 5 back_w0 back_w1 [3 :: Tunnel.first_block; 3 :: Tunnel.second_block]
    Tunnel.demo_ops Tunnel.demo_ops' back_v0 back_v1 3 9
    SplitChain.demo_healthy SplitChain.demo_healthy Tunnel.demo_text_ok eq_refl Base64.demo_invertible eq_refl back_session Tunnel.demo_read ltac:(done)
    Tunnel.demo_ops_ok Tunnel.demo_ops_ok' Tunnel.demo_all Tunnel.demo_chunks_only eq_refl ltac:(done) eq_refl
    back_only ltac:(constructor) back_clean back_steps)).
Defined.

End TunnelBack.
