(* ===== verification/Registry.v ===== *)
(** * The module registry (core/module_base.cpp, core/modules/modules.cpp)

    The table [ModuleBase::bases]: built-in modules, modules loaded from a directory, look-up
    by name, and the [mid] both endpoints compare. What [dlopen] and [dlsym] give for a path
    is a parameter, and so is SHA-256. *)

From S2P Require Import Prelude Text ChainApi Config Protocol Session Client SessionFacts ClientFacts Copy Chain.
Local Open Scope Z_scope.

Module Registry.

(** [std::exit(code)] ends the program. *)
Inductive outcome (A : Type) := Ok (a : A) | Exit (code : Z).
Arguments Ok {A} a.
Arguments Exit {A} code.

#[global] Instance outcome_bind : MBind outcome :=
  λ _ _ f m, match m with Ok a => f a | Exit c => Exit c end.

(** Function pointers are addresses; the four functions without arguments are what they
    return. [handle] is null for a built-in module. *)
Record ModuleBase := mkBase {
  name : bytes;
  version : bytes;
  mid : bytes;
  handle : option Z;
  init_fn : Z;
  process_fn : Z;
  desc_fn : bytes;
  help_fn : bytes
}.

(** A library that [dlopen] opened, and its symbols. *)
Record Library := mkLib {
  lib_handle : Z;
  modulename : option bytes;
  moduledesc : option bytes;
  modulehelp : option bytes;
  moduleversion : option bytes;
  lib_init : option Z;
  lib_process : option Z
}.

Abbreviation table := (gmap bytes ModuleBase).

Section registry.
Context (sha256 : bytes → bytes).
Context (dlopen : bytes → option Library).

Definition hex_sha256 (data : bytes) : bytes := to_hex (sha256 data).

Definition make_mid (name version desc : bytes) : bytes :=
  hex_sha256 (name ++ lit "|" ++ version ++ lit "|" ++ desc).

(** One round of the loop of [load]. *)
Definition load_one (path : bytes) (bases : table) : outcome table :=
  match dlopen path with
  | None => Ok bases
  | Some lib =>
      match lib_init lib, lib_process lib, modulename lib, moduledesc lib, modulehelp lib,
            moduleversion lib with
      | Some i, Some p, Some n, Some d, Some h, Some v =>
          match bases !! n with
          | Some b => if bool_decide (handle b = None) then Ok bases else Exit 1
          | None =>
              Ok (<[n := mkBase n v (make_mid n v d) (Some (lib_handle lib)) i p d h]> bases)
          end
      | _, _, _, _, _, _ => Ok bases
      end
  end.

Fixpoint load_paths (paths : list bytes) (bases : table) : outcome table :=
  match paths with
  | [] => Ok bases
  | p :: rest => b ← load_one p bases; load_paths rest b
  end.

(** [load(directory)], with what the directory contains. *)
Definition load (directory : bytes) (entries : option (list bytes)) (bases : table)
    : outcome table :=
  load_paths (Config.scan_modules directory entries) bases.

Definition find (n : bytes) (bases : table) : option ModuleBase := bases !! n.

Definition register_builtin (base : ModuleBase) (bases : table) : outcome table :=
  match bases !! name base with
  | Some b => if bool_decide (handle b = None) then Ok bases else Exit 1
  | None => Ok (<[name base := base]> bases)
  end.

(** The texts of core/modules/copy.cpp. *)
Definition copy_name : bytes := lit "copy".
Definition copy_version : bytes := lit "1.0.0".
Definition copy_desc : bytes := lit "copy data from input to output (move or copy)".

Definition builtin_copy (init_addr process_addr : Z) (help : bytes) : ModuleBase :=
  mkBase copy_name copy_version (make_mid copy_name copy_version copy_desc) None
         init_addr process_addr copy_desc help.

Definition register_builtin_modules (init_addr process_addr : Z) (help : bytes) (bases : table)
    : outcome table :=
  register_builtin (builtin_copy init_addr process_addr help) bases.

(** ** Lemmas *)

(** What a path contributes, if it is a complete module. *)
Definition module_at (path : bytes) : option ModuleBase :=
  lib ← dlopen path;
  i ← lib_init lib; p ← lib_process lib; n ← modulename lib; d ← moduledesc lib;
  h ← modulehelp lib; v ← moduleversion lib;
  Some (mkBase n v (make_mid n v d) (Some (lib_handle lib)) i p d h).

(** [load_one] is registration of what the path contributes. *)
Lemma load_one_spec path bases :
  load_one path bases =
    match module_at path with None => Ok bases | Some b => register_builtin b bases end.
Proof.
  unfold load_one, module_at, register_builtin. destruct (dlopen path) as [lib|]; [|done].
  cbn [mbind option_bind]. repeat (case_match; cbn [mbind option_bind]; simplify_eq; try done).
Qed.

Lemma module_at_external path b :
  module_at path = Some b → handle b ≠ None ∧ mid b = make_mid (name b) (version b) (desc_fn b).
Proof.
  unfold module_at. intros (lib & _ & H)%bind_Some.
  repeat (let x := fresh in apply bind_Some in H as (x & _ & H)). by injection H as <-.
Qed.

(** ** The invariant of the table *)

(** Every entry is stored under its own name, with the [mid] of its texts. *)
Definition table_ok (bases : table) : Prop :=
  ∀ n b, bases !! n = Some b → name b = n ∧ mid b = make_mid (name b) (version b) (desc_fn b).

Lemma table_ok_empty : table_ok ∅.
Proof. intros n b. by rewrite lookup_empty. Qed.

Lemma register_ok b bases bases' :
  mid b = make_mid (name b) (version b) (desc_fn b) →
  register_builtin b bases = Ok bases' → table_ok bases →
  table_ok bases' ∧ bases ⊆ bases'.
Proof.
  unfold register_builtin. intros Hm Hr Hok. destruct (bases !! name b) as [b0|] eqn:E.
  - case_bool_decide; [by injection Hr as <-|done].
  - injection Hr as <-. split; [|by apply insert_subseteq].
    intros n b'. destruct (decide (n = name b)) as [->|Hn].
    + rewrite lookup_insert_eq. by intros [= <-].
    + rewrite lookup_insert_ne by done. apply Hok.
Qed.

Lemma load_paths_ok paths : ∀ bases bases',
  load_paths paths bases = Ok bases' → table_ok bases → table_ok bases' ∧ bases ⊆ bases'.
Proof.
  induction paths as [|p paths IH]; intros bases bases'; cbn [load_paths]; [by intros [= <-]|].
  rewrite load_one_spec. destruct (module_at p) as [b|] eqn:Em; [|cbn; apply IH].
  destruct (register_builtin b bases) as [b1|] eqn:Er; [|done]. cbn. intros Hl Hok.
  destruct (register_ok _ _ _ (proj2 (module_at_external _ _ Em)) Er Hok) as [H1 H2].
  destruct (IH _ _ Hl H1) as [H3 H4]. split; [done|by etrans].
Qed.

(** Tables a program can have: after start-up and any number of calls of [load]. *)
Inductive reached : table → Prop :=
| reached_start i p h bases : register_builtin_modules i p h ∅ = Ok bases → reached bases
| reached_load dir entries bases bases' :
    reached bases → load dir entries bases = Ok bases' → reached bases'.

Lemma reached_ok bases : reached bases →
  table_ok bases ∧ ∃ i p h, bases !! copy_name = Some (builtin_copy i p h).
Proof.
  induction 1 as [i p h bases Hr|dir entries bases bases' _ [IH (i & p & h & IHc)] Hl].
  - destruct (register_ok _ _ _ (eq_refl : mid (builtin_copy i p h) = _) Hr table_ok_empty) as [H1 _].
    split; [done|]. exists i, p, h. revert Hr.
    unfold register_builtin_modules, register_builtin. rewrite lookup_empty.
    intros [= <-]. apply lookup_insert_eq.
  - destruct (load_paths_ok _ _ _ Hl IH) as [H1 H2]. split; [done|].
    exists i, p, h. by eapply lookup_weaken.
Qed.

(** The registry keeps its invariant: after start-up and any directories loaded, every
    module is found under its own name with the [mid] of its own texts, and [copy] is the
    built-in one, whatever files the directories hold. *)
Theorem registry_invariant bases n b :
  reached bases → find n bases = Some b →
  name b = n ∧ mid b = make_mid (name b) (version b) (desc_fn b)
  ∧ (n = copy_name → handle b = None).
Proof.
  intros [Hok (i & p & h & Hc)]%reached_ok Hf. destruct (Hok _ _ Hf) as [H1 H2].
  split_and!; [done..|]. intros ->. unfold find in Hf. rewrite Hc in Hf. by injection Hf as <-.
Qed.

(** ** The order of the directory *)

Lemma register_swap a b bases :
  handle a ≠ None → handle b ≠ None →
  (b1 ← register_builtin a bases; register_builtin b b1) =
  (b1 ← register_builtin b bases; register_builtin a b1).
Proof.
  intros Ha Hb. unfold register_builtin.
  destruct (decide (name a = name b)) as [E|Hne].
  - rewrite E. destruct (bases !! name b) as [c|] eqn:Ec.
    + case_bool_decide; cbn; [|done]. by rewrite Ec, !bool_decide_true by done.
    + cbn. rewrite !lookup_insert_eq, !bool_decide_false by done. done.
  - destruct (bases !! name a) as [ca|] eqn:Ea, (bases !! name b) as [cb|] eqn:Eb;
      repeat case_bool_decide; cbn;
      rewrite ?lookup_insert_ne by done; rewrite ?Ea, ?Eb, ?bool_decide_true, ?bool_decide_false by done;
      try done.
    by rewrite insert_insert_ne.
Qed.

Lemma load_swap p q bases :
  (b ← load_one p bases; load_one q b) = (b ← load_one q bases; load_one p b).
Proof.
  destruct (module_at p) as [a|] eqn:Ep, (module_at q) as [b|] eqn:Eq.
  - transitivity (b1 ← register_builtin a bases; register_builtin b b1);
      [|rewrite register_swap by (by eapply module_at_external)];
      rewrite load_one_spec, ?Ep, ?Eq;
      destruct (register_builtin _ bases); cbn; rewrite ?load_one_spec, ?Ep, ?Eq; done.
  - rewrite !load_one_spec, Ep, Eq. cbn. rewrite load_one_spec, Ep.
    destruct (register_builtin a bases); cbn; [by rewrite load_one_spec, Eq|done].
  - rewrite !load_one_spec, Ep, Eq. cbn. rewrite load_one_spec, Eq.
    destruct (register_builtin b bases); cbn; [by rewrite load_one_spec, Ep|done].
  - rewrite !load_one_spec, Ep, Eq. cbn. by rewrite !load_one_spec, Ep, Eq.
Qed.

(** Loading does not depend on the order in which [readdir] lists the directory: the
    same table results, or the program ends in both cases. *)
Theorem load_order_irrelevant dir entries entries' bases :
  Permutation entries entries' →
  load dir (Some entries) bases = load dir (Some entries') bases.
Proof.
  intros Hp. unfold load, Config.scan_modules.
  assert (H : Permutation (map (λ n, dir ++ lit "/" ++ n) (List.filter Config.is_so entries))
                (map (λ n, dir ++ lit "/" ++ n) (List.filter Config.is_so entries'))).
  { apply Permutation_map. clear -Hp. induction Hp; cbn; repeat case_match; eauto using Permutation. }
  revert bases. clear Hp. induction H as [|p l l' _ IH|p q l|l1 l2 l3 _ IH1 _ IH2]; intros bases; cbn.
  - done.
  - destruct (load_one p bases); cbn; auto.
  - pose proof (load_swap q p bases) as Hs.
    destruct (load_one q bases) as [b1|], (load_one p bases) as [b2|]; cbn in *;
      [by rewrite Hs|by rewrite Hs|by rewrite <- Hs|by simplify_eq].
  - by rewrite IH1.
Qed.

(** ** Duplicates *)

Lemma register_mono b bases bases' : register_builtin b bases = Ok bases' → bases ⊆ bases'.
Proof.
  unfold register_builtin. destruct (bases !! name b) eqn:En.
  - case_bool_decide; [by intros [= <-]|done].
  - intros [= <-]. by apply insert_subseteq.
Qed.

Lemma load_one_mono p bases bases' : load_one p bases = Ok bases' → bases ⊆ bases'.
Proof. rewrite load_one_spec. destruct (module_at p); [apply register_mono|by intros [= <-]]. Qed.

Lemma load_paths_mono paths : ∀ bases bases', load_paths paths bases = Ok bases' → bases ⊆ bases'.
Proof.
  induction paths as [|q paths IH]; intros bases bases'; cbn [load_paths]; [by intros [= <-]|].
  destruct (load_one q bases) as [b2|] eqn:E; [|done]. cbn. intros Hl%IH.
  etrans; [by eapply load_one_mono|done].
Qed.

Lemma load_one_exit p bases c : load_one p bases = Exit c → c = 1.
Proof.
  rewrite load_one_spec. destruct (module_at p) as [b|]; [|done]. unfold register_builtin.
  destruct (bases !! name b); [|done]. case_bool_decide; [done|by intros [= <-]].
Qed.

(** An entry that [load_one] added is not a built-in one. *)
Lemma load_one_external p bases bases' k c :
  load_one p bases = Ok bases' → bases' !! k = Some c → handle c = None → bases !! k = Some c.
Proof.
  rewrite load_one_spec. destruct (module_at p) as [b|] eqn:Em; [|by intros [= <-]].
  unfold register_builtin. destruct (bases !! name b) eqn:En.
  - case_bool_decide; [by intros [= <-]|done].
  - intros [= <-]. destruct (decide (k = name b)) as [->|Hk].
    + rewrite lookup_insert_eq. intros [= <-] Hh. by destruct (module_at_external _ _ Em).
    + by rewrite lookup_insert_ne by done.
Qed.

Lemma load_paths_dup p b c paths : p ∈ paths → module_at p = Some b → handle c ≠ None →
  ∀ bases, bases !! name b = Some c → load_paths paths bases = Exit 1.
Proof.
  intros Hp Hb Hc. induction paths as [|p' paths IH]; intros bases Hl; [by apply not_elem_of_nil in Hp|].
  cbn [load_paths]. apply elem_of_cons in Hp as [<-|Hp].
  - rewrite load_one_spec, Hb. unfold register_builtin. by rewrite Hl, bool_decide_false.
  - destruct (load_one p' bases) as [b1|e] eqn:E; cbn.
    + apply IH; [done|]. eapply lookup_weaken; [done|by eapply load_one_mono].
    + f_equal. by eapply load_one_exit.
Qed.

Lemma load_paths_present p b paths : p ∈ paths → module_at p = Some b →
  ∀ bases bases', (∀ c, bases !! name b = Some c → handle c ≠ None) →
  load_paths paths bases = Ok bases' → ∃ c, bases' !! name b = Some c ∧ handle c ≠ None.
Proof.
  intros Hp Hb. induction paths as [|p' paths IH]; intros bases bases' Hn; [by apply not_elem_of_nil in Hp|].
  cbn [load_paths]. apply elem_of_cons in Hp as [<-|Hp].
  - destruct (load_one p bases) as [b1|] eqn:E; [|done]. cbn. intros Hl.
    assert (Hk : ∃ c, b1 !! name b = Some c ∧ handle c ≠ None).
    { rewrite load_one_spec, Hb in E. unfold register_builtin in E.
      destruct (bases !! name b) as [c|] eqn:Ec.
      - rewrite bool_decide_false in E by (by apply Hn). done.
      - injection E as <-. exists b. rewrite lookup_insert_eq.
        split; [done|by eapply module_at_external]. }
    destruct Hk as (c & Hc & Hh). exists c. split; [|done].
    eapply lookup_weaken; [exact Hc|]. by eapply load_paths_mono.
  - destruct (load_one p' bases) as [b1|] eqn:E; [|done]. cbn. apply IH; [done|].
    intros c Hc Hh. by eapply Hn, Hh; eapply load_one_external.
Qed.

(** A directory with a module that was loaded once cannot be loaded again: the program
    ends with an error (unless the name is built in, which is skipped). *)
Theorem reload_exits dir entries n b bases bases' :
  n ∈ entries → Config.is_so n = true → module_at (dir ++ lit "/" ++ n) = Some b →
  (∀ c, bases !! name b = Some c → handle c ≠ None) →
  load dir (Some entries) bases = Ok bases' →
  load dir (Some entries) bases' = Exit 1.
Proof.
  intros Hin Hso Hb Hext Hl.
  assert (Hp : dir ++ lit "/" ++ n ∈ Config.scan_modules dir (Some entries)).
  { cbn. apply list_elem_of_In, in_map_iff. exists n. split; [done|].
    apply filter_In. split; [by apply list_elem_of_In|done]. }
  destruct (load_paths_present _ _ _ Hp Hb _ _ Hext Hl) as (c & Hc & Hh).
  by eapply load_paths_dup.
Qed.

End registry.

(** ** What the two endpoints agree on *)

Definition find_mid (bases : table) (n : bytes) : option bytes := mid <$> find n bases.
Definition mids (bases : table) : list bytes := map (mid ∘ snd) (map_to_list bases).

Section agree.
Context (sha256 : bytes → bytes).
Context (sha256_len : ∀ s, length (sha256 s) = 32%nat) (sha256_bytes : ∀ s, bytes_ok (sha256 s)).

Lemma hex_sha256_mid s : ClientFacts.mid_ok (hex_sha256 sha256 s).
Proof.
  assert (H : ∀ l, bytes_ok l → length (to_hex l) = (2 * length l)%nat
    ∧ Forall ClientFacts.is_hex (to_hex l)).
  { unfold to_hex. induction 1 as [|x l Hx _ [IH1 IH2]]; cbn; [done|].
    split; [rewrite IH1; lia|].
    assert (∀ d, 0 <= d < 16 → ClientFacts.is_hex (hex_digit d)).
    { intros d Hd. unfold ClientFacts.is_hex, hex_digit.
      destruct (Z.ltb_spec d 10); lia. }
    unfold is_byte in Hx. apply Forall_cons; split; [apply H; zlia|].
    apply Forall_cons; split; [apply H; zlia|done]. }
  destruct (H _ (sha256_bytes s)) as [H1 H2]. unfold ClientFacts.mid_ok, hex_sha256.
  by rewrite H1, sha256_len.
Qed.

Lemma find_mid_ok bases n m : table_ok sha256 bases → find_mid bases n = Some m → ClientFacts.mid_ok m.
Proof.
  intros Hok (b & Hb & Hm)%fmap_Some. destruct (Hok _ _ Hb) as [_ E].
  subst m. rewrite E. apply hex_sha256_mid.
Qed.

(** The text whose hash is the [mid]. *)
Definition mid_text (b : ModuleBase) : bytes :=
  name b ++ lit "|" ++ version b ++ lit "|" ++ desc_fn b.

(** The server has a module with the text of the client's module [m]. *)
Definition matched (cl sv : table) (m : ModuleSpec) : Prop :=
  ∃ b b' n, find (ChainApi.name m) cl = Some b ∧ find n sv = Some b' ∧ mid_text b' = mid_text b.

Definition no_collision (cl sv : table) : Prop :=
  ∀ n n' b b', find n cl = Some b → find n' sv = Some b' →
    hex_sha256 sha256 (mid_text b) = hex_sha256 sha256 (mid_text b') → mid_text b = mid_text b'.

Lemma elem_of_mids sv m : table_ok sha256 sv →
  m ∈ mids sv ↔ ∃ n b, find n sv = Some b ∧ m = hex_sha256 sha256 (mid_text b).
Proof.
  intros Hok. unfold mids, find. rewrite list_elem_of_In, in_map_iff. split.
  - intros ([n b] & <- & Hin). exists n, b. apply list_elem_of_In, elem_of_map_to_list in Hin.
    split; [done|]. by apply Hok in Hin as [_ ?].
  - intros (n & b & Hb & ->). exists (n, b). split; [cbn; by apply Hok in Hb as [_ ->]|].
    by apply list_elem_of_In, elem_of_map_to_list.
Qed.

Lemma matched_mid cl sv m mm : table_ok sha256 cl → table_ok sha256 sv → no_collision cl sv →
  find_mid cl (ChainApi.name m) = Some mm → matched cl sv m ↔ mm ∈ mids sv.
Proof.
  intros Hc Hs Hnc (b & Hb & Em)%fmap_Some. rewrite elem_of_mids by done.
  destruct (Hc _ _ Hb) as [_ E].
  unfold matched. split.
  - intros (b0 & b' & n & Hb0 & Hb' & Ht). simplify_eq. exists n, b'.
    split; [done|]. rewrite E. unfold make_mid, hex_sha256. by rewrite Ht.
  - intros (n & b' & Hb' & Eb'). exists b, b', n. split_and!; [done|done|].
    symmetry. eapply Hnc; [done|done|]. by rewrite <- Eb', Em, E.
Qed.

Lemma all_matched cl sv mods ms : table_ok sha256 cl → table_ok sha256 sv → no_collision cl sv →
  mapM (λ m, find_mid cl (ChainApi.name m)) mods = Some ms →
  Forall (matched cl sv) mods ↔ filter (λ m, m ∉ mids sv) ms = [].
Proof.
  intros Hc Hs Hnc. rewrite mapM_Some. induction 1 as [|m mm mods ms Hm _ IH]; [done|].
  rewrite Forall_cons, filter_cons, IH, (matched_mid cl sv m mm) by done.
  destruct (decide (mm ∉ mids sv)) as [Hd|Hd]; [naive_solver|].
  apply dec_stable in Hd. tauto.
Qed.

(** Two endpoints with the same modules agree: the server accepts the client's module
    list exactly when it has, for every configured module, one of the same name, version
    and description, whatever else either of them has loaded (SHA-256 taken not to collide
    on the modules involved). *)
Theorem endpoints_agree_on_modules {C : Type} `{ChainOps C} dl_client dl_server cl sv mods raw :
  reached sha256 dl_client cl → reached sha256 dl_server sv → no_collision cl sv → Z.of_nat (length mods) < 256 →
  Client.raw_mids (find_mid cl) mods = Some raw →
  let answer := Session.handle_module_list_req (C := C) (mids sv)
                  (make_msg MSG_MODULE_LIST_REQ (u8 (Z.of_nat (length mods)) :: raw)) in
  (Forall (matched cl sv) mods ∧ answer = Session.send_control (make_msg MSG_MODULE_LIST_RES [1]))
  ∨ (¬ Forall (matched cl sv) mods ∧ ∃ missing, missing ≠ [] ∧
     answer = (Session.send_control (make_msg MSG_MODULE_LIST_RES (Session.module_list_fail missing)) ;;
               Session.set_state Session.DISCONNECTED)).
Proof.
  intros [Hc _]%reached_ok [Hs _]%reached_ok Hnc Hl Hr.
  pose proof (λ n m, find_mid_ok cl n m Hc) as Hmid.
  destruct (ClientFacts.raw_mids_missing _ (mids sv) Hmid mods raw Hr) as (ms & Hm & _).
  pose proof (all_matched _ _ _ _ Hc Hs Hnc Hm) as Hall. cbv zeta.
  rewrite (ClientFacts.module_list_answer _ (mids sv) Hmid mods raw ms Hl Hr Hm).
  destruct (filter _ ms) as [|x l] eqn:E; [left; tauto|].
  right. split; [by rewrite Hall|]. by exists (x :: l).
Qed.

End agree.

(** ** Examples *)

(** A hash of 32 bytes that tells the example modules apart, a directory with two modules
    [a.so] and [b.so] and a module that lacks a symbol, and an endpoint without [b.so]. *)
Definition example_sha (s : bytes) : bytes :=
  map (λ i, u8 (default 0 (s !! i) + Z.of_nat (length s))) (seq 0 32).

Definition example_lib (n : bytes) : Library :=
  mkLib 77 (Some n) (Some (lit "d")) (Some (lit "h")) (Some (lit "1")) (Some 1) (Some 2).

Definition example_dlopen (p : bytes) : option Library :=
  if bool_decide (p = lit "m/a.so") then Some (example_lib (lit "alpha"))
  else if bool_decide (p = lit "m/b.so") then Some (example_lib (lit "beta"))
  else if bool_decide (p = lit "m/c.so") then Some (mkLib 78 None None None None None None)
  else None.

Definition example_entries : list bytes := [lit "a.so"; lit "readme"; lit "c.so"; lit "b.so"].

Definition example_table (entries : list bytes) : table :=
  match b ← register_builtin_modules example_sha 5 6 [] ∅;
        load example_sha example_dlopen (lit "m") (Some entries) b with
  | Ok t => t
  | Exit _ => ∅
  end.

Lemma example_reached entries :
  (∃ t, (b ← register_builtin_modules example_sha 5 6 [] ∅;
         load example_sha example_dlopen (lit "m") (Some entries) b) = Ok t) →
  reached example_sha example_dlopen (example_table entries).
Proof.
  intros [t Ht]. unfold example_table. rewrite Ht.
  destruct (register_builtin_modules example_sha 5 6 [] ∅) as [b|] eqn:E; [|done].
  eapply reached_load; [eapply reached_start, E|exact Ht].
Qed.

Lemma registry_invariant_witness :
  let t := example_table example_entries in
  ∃ b, find (lit "beta") t = Some b ∧ name b = lit "beta"
    ∧ mid b = make_mid example_sha (name b) (version b) (desc_fn b).
Proof.
  cbv zeta. eexists. split; [vm_compute; reflexivity|].
  edestruct (registry_invariant example_sha example_dlopen (example_table example_entries) (lit "beta"))
    as (H1 & H2 & _); [|vm_compute; reflexivity|split; [exact H1|exact H2]].
  apply example_reached. eexists. vm_compute. reflexivity.
Defined.

Lemma load_order_irrelevant_witness :
  load example_sha example_dlopen (lit "m") (Some example_entries) ∅ =
  load example_sha example_dlopen (lit "m") (Some (rev example_entries)) ∅.
Proof. apply load_order_irrelevant, Permutation_rev. Defined.

Lemma reload_exits_witness :
  load example_sha example_dlopen (lit "m") (Some example_entries)
    (example_table example_entries) = Exit 1.
Proof.
  eapply (reload_exits example_sha example_dlopen (lit "m") example_entries (lit "a.so")
            _ (match register_builtin_modules example_sha 5 6 [] ∅ with Ok t => t | Exit _ => ∅ end)).
  - by left.
  - reflexivity.
  - reflexivity.
  - intros c. vm_compute. discriminate.
  - vm_compute. reflexivity.
Defined.

#[local] Existing Instance SessionFacts.example_chain.

(** [no_collision] is decided by comparing the entries of the two tables. *)
Lemma no_collision_check sha cl sv :
  forallb (λ x, forallb (λ y,
    negb (bool_decide (hex_sha256 sha (mid_text x.2) = hex_sha256 sha (mid_text y.2)))
    || bool_decide (mid_text x.2 = mid_text y.2)) (map_to_list sv)) (map_to_list cl) = true →
  no_collision sha cl sv.
Proof.
  rewrite forallb_forall. intros H n n' b b' Hb Hb' E. unfold find in *.
  apply elem_of_map_to_list, list_elem_of_In in Hb, Hb'.
  specialize (H _ Hb). rewrite forallb_forall in H. specialize (H _ Hb'). cbn in H.
  rewrite (bool_decide_eq_true_2 _ E) in H. by apply bool_decide_eq_true in H.
Qed.

(** The server has only [beta] and the built-in module; that is enough. *)
Lemma endpoints_agree_on_modules_witness :
  ∃ raw, Client.raw_mids (find_mid (example_table example_entries))
           [mkSpec (lit "copy") []; mkSpec (lit "beta") []] = Some raw
  ∧ Session.handle_module_list_req (C := @Chain.Chain Copy.ctx) (mids (example_table [lit "b.so"]))
      (make_msg MSG_MODULE_LIST_REQ (2 :: raw)) =
    Session.send_control (make_msg MSG_MODULE_LIST_RES [1]).
Proof.
  eexists. split; [vm_compute; reflexivity|].
  refine (match endpoints_agree_on_modules example_sha _ _ example_dlopen example_dlopen
    (example_table example_entries) (example_table [lit "b.so"])
    [mkSpec (lit "copy") []; mkSpec (lit "beta") []] _ _ _ _ _ _ with
    | or_introl (conj _ H) => H
    | or_intror (conj N _) => False_ind _ (N _)
    end).
  - intros s. reflexivity.
  - intros s. unfold example_sha. apply Forall_map, Forall_true. intros i. unfold is_byte. zlia.
  - apply (example_reached example_entries). eexists. vm_compute. reflexivity.
  - apply (example_reached [lit "b.so"]). eexists. vm_compute. reflexivity.
  - apply no_collision_check. vm_compute. reflexivity.
  - reflexivity.
  - vm_compute. reflexivity.
  - constructor; [|constructor; [|constructor]]; unfold matched.
    + do 2 eexists. exists (lit "copy"). split_and!; vm_compute; reflexivity.
    + do 2 eexists. exists (lit "beta"). split_and!; vm_compute; reflexivity.
Defined.

End Registry.
