(* ===== verification/Handshake.v ===== *)
(** * The client and the session together: authentication

    [Client] and [Session] are two worlds; here the bytes one sends are handed to the
    other. The exchange alternates, as the protocol does: every message waits for the
    answer of the peer. *)

From coqutil Require Import Datatypes.RecordSetters.
From S2P Require Import Prelude Text Protocol WriteBuffer Frame Control Reliable Kernel ChainApi Chain Copy Session SessionFacts Client.
Import DoubleBraceUpdate.
Local Open Scope Z_scope.

Module Handshake.

Section handshake.
Context {C S : Type} `{!ChainOps C} `{!ChainOps S}.
Context (sha256 : bytes → bytes).
(** The client's parameters, and the session's. *)
Context (new_challenge : bytes) (find_mid : bytes → option bytes).
Context (bases : list bytes).
Context (getaddrinfo : bytes → bytes → option (list Session.attempt)).
Context (reconnect_old : Z → Z → option bool).

Abbreviation CWorld := (@Client.World C).
Abbreviation SWorld := (@Session.World S).
Abbreviation on_server_data := (Client.on_server_data sha256 new_challenge find_mid).
Abbreviation server_packet := (Client.server_packet sha256 new_challenge find_mid).
Abbreviation on_data := (Session.on_data sha256 bases getaddrinfo reconnect_old).
Abbreviation auth_packet := (Session.auth_packet sha256 bases getaddrinfo reconnect_old).

(** What an endpoint has written to the connection before the wire format. *)
Definition client_sent (w : CWorld) : bytes :=
  concat (map (λ e, match e with Client.ESend _ p => serialize p | _ => [] end) (Client.log w)).
Definition session_sent (w : SWorld) : bytes :=
  concat (map (λ e, match e with Session.ESend _ p => serialize p | _ => [] end) (Session.log w)).

(** An endpoint reads [rx]; the result is what it writes in answer. *)
Definition client_turn (now : Z) (rx : bytes) (w : CWorld) : option (bytes * CWorld) :=
  match on_server_data now rx (w{{Client.log := [] }}) with
  | Some (_, w') => Some (client_sent w', w')
  | None => None
  end.

Definition session_turn (now : Z) (rx : bytes) (w : SWorld) : option (bytes * SWorld) :=
  match on_data now rx (w{{Session.log := [] }}) with
  | Some (_, w') => Some (session_sent w', w')
  | None => None
  end.

(** [n] round trips, the first message being [rx] to the client. *)
Fixpoint exchange (n : nat) (now : Z) (rx : bytes) (cw : CWorld) (sw : SWorld)
    : option (bytes * CWorld * SWorld) :=
  match n with
  | O => Some (rx, cw, sw)
  | Datatypes.S k =>
      '(out, cw') ← client_turn now rx cw;
      '(back, sw') ← session_turn now out sw;
      exchange k now back cw' sw'
  end.

(** ** One message *)

Lemma parse_one pkt : packet_ok pkt → try_parse (serialize pkt) = ParseOk pkt (Z.of_nat (length (serialize pkt))).
Proof.
  intros Hok. rewrite (serialize_header pkt) at 1. rewrite try_parse_header by done.
  rewrite Nat.ltb_irrefl, firstn_all. by destruct pkt.
Qed.

Lemma serialize_two pkt : packet_ok pkt → ∃ k, length (serialize pkt) = Datatypes.S (Datatypes.S k).
Proof.
  intros Hok. pose proof (header_length pkt Hok). rewrite serialize_length.
  exists (length (header pkt) + length (payload pkt) - 2)%nat. lia.
Qed.

Lemma client_one now pkt (w w' : CWorld) :
  Client.recv_buf (Client.cli w) = [] → packet_ok pkt →
  server_packet now pkt w = Some (tt, w') → Client.recv_buf (Client.cli w') = [] →
  on_server_data now (serialize pkt) w = Some (tt, w').
Proof.
  intros Hb Hok E Hb'. destruct (serialize_two pkt Hok) as [k Hk].
  pose proof (parse_one pkt Hok) as Hp. generalize dependent (serialize pkt). intros rx Hk Hp.
  unfold Client.on_server_data, Client.get_cli, Client.upd, gets, modify, mbind, act_bind, id.
  rewrite Hb. cbn [app]. rewrite Hk. cbn [Client.server_loop].
  unfold Client.get_cli, Client.upd, gets, modify, mbind, act_bind.
  destruct w as [[] ?]; cbn in Hb; subst. cbn. rewrite Hp, (proj2 (Z.eqb_neq _ 0)) by lia.
  rewrite Nat2Z.id, drop_all, E.
  destruct (Client.chain _); [done|]. rewrite Hb'. by cbn.
Qed.

Lemma session_one now pkt (w w' : SWorld) :
  (Session.state_rank (Session.state (Session.ses w)) < 3)%nat →
  Session.recv_buf (Session.ses w) = [] → packet_ok pkt →
  auth_packet now pkt w = Some (tt, w') → Session.recv_buf (Session.ses w') = [] →
  on_data now (serialize pkt) w = Some (tt, w').
Proof.
  intros Hst Hb Hok E Hb'. destruct (serialize_two pkt Hok) as [k Hk].
  pose proof (parse_one pkt Hok) as Hp. generalize dependent (serialize pkt). intros rx Hk Hp.
  unfold Session.on_data, Session.get_ses, Session.upd, gets, modify, mbind, act_bind, id.
  rewrite (proj2 (Nat.ltb_lt _ _) Hst).
  rewrite Hb. cbn [app]. rewrite Hk. cbn [Session.packet_loop].
  unfold Session.get_ses, Session.upd, gets, modify, mbind, act_bind.
  destruct w as [[] ?]; cbn in Hb; subst. cbn. rewrite Hp, (proj2 (Z.eqb_neq _ 0)) by lia.
  rewrite Nat2Z.id, drop_all, E.
  match goal with |- (if ?b then _ else _) _ = _ => destruct b end; [done|]. by rewrite Hb'.
Qed.

(** ** The exchange *)

Section run.
Context (pw addr ch : bytes) (port t0 interval cfd now : Z) (mods : list ModuleSpec).
Context (sfd sid t1 interval' : Z).
Context (sha_32 : ∀ x, length (sha256 x) = 32%nat).
Lemma sha_64 x : length (Session.hex_sha256 sha256 x) = 64%nat.
Proof. unfold Session.hex_sha256. by rewrite length_to_hex, sha_32. Qed.
Context (ch_len : Z.of_nat (length ch) < 2 ^ 63).
Context (new_len : Z.of_nat (length new_challenge) < 2 ^ 63).

Definition client0 : @Client.Client C :=
  (Client.new_client pw addr port t0 interval mods){{
    Client.tcp_fd := cfd; Client.state := Client.AWAIT_AUTH1_CHALLENGE}}.
Definition client1 := client0{{Client.challenge1 := ch; Client.state := Client.AWAIT_AUTH1_OK}}.
Definition client2 := client1{{Client.session_id := Session.sid_bytes sid;
  Client.client_challenge := new_challenge; Client.state := Client.AWAIT_AUTH2_OK}}.

Definition session0 : @Session.Session S :=
  (Session.new_session sfd pw sid t1 interval'){{Session.challenge1 := ch}}.
Definition session1 := session0{{Session.state := Session.AWAIT_AUTH1_OK}}.
Definition session2 := session0{{Session.state := Session.AWAIT_AUTH2_RESPONSE}}.

Definition msg_challenge1 := serialize (make_msg MSG_AUTH_CHALLENGE ch).
Definition msg_response1 := serialize (make_msg MSG_AUTH_RESPONSE (Session.hex_sha256 sha256 (ch ++ pw))).
Definition msg_ok1 := serialize (make_msg MSG_AUTH_OK (1 :: Session.sid_bytes sid)).
Definition msg_challenge2 := serialize (make_msg MSG_AUTH_CHALLENGE new_challenge).
Definition msg_response2 := serialize (make_msg MSG_AUTH_RESPONSE (Session.hex_sha256 sha256 (new_challenge ++ pw))).
Definition msg_ok2 := serialize (make_msg MSG_AUTH_OK [1]).

(** A turn with one message; the log starts empty. *)
Lemma client_turn_one pkt w w' :
  packet_ok pkt → Client.recv_buf (Client.cli w) = [] →
  server_packet now pkt (w{{Client.log := [] }}) = Some (tt, w') →
  Client.recv_buf (Client.cli w') = [] →
  client_turn now (serialize pkt) w = Some (client_sent w', w').
Proof.
  intros Hok Hb E Hb'. unfold client_turn.
  rewrite (client_one now pkt _ w'); [done|by destruct w|done..].
Qed.

Lemma session_turn_one pkt w w' :
  packet_ok pkt → (Session.state_rank (Session.state (Session.ses w)) < 3)%nat →
  Session.recv_buf (Session.ses w) = [] →
  auth_packet now pkt (w{{Session.log := [] }}) = Some (tt, w') →
  Session.recv_buf (Session.ses w') = [] →
  session_turn now (serialize pkt) w = Some (session_sent w', w').
Proof.
  intros Hok Hr Hb E Hb'. unfold session_turn.
  rewrite (session_one now pkt _ w'); [done|by destruct w|by destruct w|done..].
Qed.

Lemma client_turn1 w :
  Client.cli w = client0 →
  ∃ w', client_turn now msg_challenge1 w = Some (msg_response1, w') ∧ Client.cli w' = client1
    ∧ Client.kern w' = Client.kern w.
Proof.
  destruct w as [c kern writes dials listens log]. cbn [Client.cli Client.kern]. intros ->.
  pose (w1 := Client.mkWorld client1 kern writes dials listens
    [Client.ESend cfd (make_msg MSG_AUTH_RESPONSE (take 64 (Session.hex_sha256 sha256 (ch ++ pw))))]).
  exists w1. split; [|done]. unfold msg_challenge1.
  rewrite (client_turn_one _ _ w1); [|split; [by cbn|exact ch_len]|reflexivity..].
  unfold client_sent, w1, msg_response1. cbn [map concat Client.log].
  by rewrite app_nil_r, take_ge by (by rewrite sha_64).
Qed.

Lemma session_turn1 w :
  Session.ses w = session0 →
  ∃ w', session_turn now msg_response1 w = Some (msg_ok1, w') ∧ Session.ses w' = session1.
Proof.
  destruct w as [s kern next writes log]. cbn [Session.ses]. intros ->.
  pose (w1 := Session.mkWorld session1 kern next writes
    [Session.ESend sfd (make_msg MSG_AUTH_OK (1 :: Session.sid_bytes sid))]).
  exists w1. split; [|done]. unfold msg_response1.
  rewrite (session_turn_one _ _ w1); [|split; cbn [type payload make_msg]; rewrite ?sha_64; by cbn|
    cbn; lia|reflexivity| |reflexivity].
  - unfold session_sent, w1, msg_ok1. cbn [map concat Session.log]. by rewrite app_nil_r.
  - unfold Session.auth_packet, Session.get_ses, gets, mbind, act_bind.
    cbn -[Session.handle_auth_challenge_response]. unfold Session.handle_auth_challenge_response.
    unfold Session.get_ses, gets, mbind, act_bind, id. by rewrite bool_decide_true.
Qed.

Lemma client_turn2 w :
  Client.cli w = client1 →
  ∃ w', client_turn now msg_ok1 w = Some (msg_challenge2, w') ∧ Client.cli w' = client2
    ∧ Client.kern w' = Client.kern w.
Proof.
  destruct w as [c kern writes dials listens log]. cbn [Client.cli Client.kern]. intros ->.
  pose (w1 := Client.mkWorld client2 kern writes dials listens
    [Client.ESend cfd (make_msg MSG_AUTH_CHALLENGE new_challenge)]).
  exists w1. split; [|done]. unfold msg_ok1.
  rewrite (client_turn_one _ _ w1); [|split; by cbn|reflexivity..].
  unfold client_sent, w1, msg_challenge2. cbn [map concat Client.log]. by rewrite app_nil_r.
Qed.

Lemma session_turn2 w :
  Session.ses w = session1 →
  ∃ w', session_turn now msg_challenge2 w = Some (msg_response2, w') ∧ Session.ses w' = session2.
Proof.
  destruct w as [s kern next writes log]. cbn [Session.ses]. intros ->.
  pose (w1 := Session.mkWorld session2 kern next writes
    [Session.ESend sfd (make_msg MSG_AUTH_RESPONSE (Session.hex_sha256 sha256 (new_challenge ++ pw)))]).
  exists w1. split; [|done]. unfold msg_challenge2.
  rewrite (session_turn_one _ _ w1); [|split; [by cbn|exact new_len]|cbn; lia|reflexivity..].
  unfold session_sent, w1, msg_response2. cbn [map concat Session.log]. by rewrite app_nil_r.
Qed.

Context (raw : bytes) (mods_loaded : Client.raw_mids find_mid mods = Some raw).
Context (few_wires : total_extra_outputs (chain_new (C := C) now mods) <= MAX_WIRE_CONNECTIONS).
Context (cfd_ok : 0 <= cfd).

(** The module list, queued on the first data connection as control message 0. *)
Definition module_list_frame : bytes :=
  Frame.control_frame 0 (make_msg MSG_MODULE_LIST_REQ (u8 (Z.of_nat (length mods)) :: raw)).

Definition client3 := client2{{Client.chain := Some (chain_new now mods);
  Client.data_connections := [Client.new_dc{{Client.fd := cfd;
    Client.writer := WB.set_registered true (WB.write_priority module_list_frame WB.new_buffer)}}];
  Client.control := Control.mkSender 1 1; Client.state := Client.AWAIT_MODULE_LIST_RES}}.

Definition session3 := session2{{
  Session.data_connections := [Session.new_dc{{Session.fd := sfd}}];
  Session.state := Session.AWAIT_CHAIN_CREATE}}.

Lemma client_turn3 w :
  Client.cli w = client2 →
  ∃ w', client_turn now msg_response2 w = Some (msg_ok2, w') ∧ Client.cli w' = client3
    ∧ Client.kern w' = Kernel.add_fd_handler cfd (Client.HDataOut 0) EPOLLOUT
                         (Kernel.add_fd_handler cfd (Client.HData 0) EPOLLIN (Client.kern w)).
Proof.
  destruct w as [c kern writes dials listens log]. cbn [Client.cli Client.kern]. intros ->.
  pose (k' := Kernel.add_fd_handler cfd (Client.HDataOut 0) EPOLLOUT
                (Kernel.add_fd_handler cfd (Client.HData 0) EPOLLIN kern)).
  pose (w1 := Client.mkWorld client3 k' writes dials listens
    [Client.ESend cfd (make_msg MSG_AUTH_OK [1])]).
  exists w1. split; [|done]. unfold msg_response2.
  rewrite (client_turn_one _ _ w1); [|split; cbn [type payload make_msg]; rewrite ?sha_64; by cbn|
    reflexivity| |reflexivity].
  - unfold client_sent, w1, msg_ok2. cbn [map concat Client.log]. by rewrite app_nil_r.
  - unfold Client.server_packet, Client.get_cli, gets, mbind, act_bind.
    cbn -[Client.handle_auth2_challenge]. unfold Client.handle_auth2_challenge, Client.create_chain, Client.switch_to_wire.
    unfold Client.get_cli, gets, mbind, act_bind, id.
    rewrite bool_decide_true by done. cbn [negb].
    unfold Client.upd, modify. rewrite (proj2 (Z.ltb_ge _ _)) by exact few_wires.
    assert (Hle : (0 <=? cfd) = true) by (by apply Z.leb_le).
    assert (Hlt : (cfd <? 0) = false) by (by apply Z.ltb_ge).
    unfold Client.send_packet, Client.emit, Client.upd_dc, Client.upd, Client.get_cli, gets, modify,
      mbind, act_bind.
    cbn -[Client.send_module_list Kernel.add_fd_handler]. unfold constant.
    unfold Client.register_data_connection_reader, Client.get_cli, gets, mbind, act_bind.
    cbn -[Client.send_module_list Kernel.add_fd_handler Z.leb]. rewrite Hle.
    cbn -[Client.send_module_list Kernel.add_fd_handler].
    unfold Client.send_module_list, Client.get_cli, gets, mbind, act_bind. cbn [Client.modules Client.cli].
    rewrite mods_loaded.
    unfold Client.send_control, Client.get_cli, gets, mbind, act_bind, id.
    cbn -[Kernel.add_fd_handler Z.ltb Frame.control_frame Control.pick_from].
    replace (Control.pick_from _ _ _) with (Some 0%nat)
      by (unfold Control.pick_from; change (Z.to_nat _) with 0%nat; cbn -[Z.ltb]; by rewrite Hlt).
    reflexivity.
Qed.

Context (sfd_ok : 0 <= sfd).

Lemma session_turn3 w :
  Session.ses w = session2 →
  ∃ w', session_turn now msg_ok2 w = Some ([], w') ∧ Session.ses w' = session3
    ∧ Session.kern w' = Kernel.add_fd_handler sfd (Session.HData 0) EPOLLIN (Session.kern w).
Proof.
  destruct w as [s kern next writes log]. cbn [Session.ses Session.kern]. intros ->.
  pose (w1 := Session.mkWorld session3 (Kernel.add_fd_handler sfd (Session.HData 0) EPOLLIN kern)
                next writes []).
  exists w1. split; [|done]. unfold msg_ok2.
  rewrite (session_turn_one _ _ w1); [done|split; by cbn|cbn; lia|reflexivity| |reflexivity].
  assert (Hle : (0 <=? sfd) = true) by (by apply Z.leb_le).
  unfold Session.auth_packet, Session.get_ses, gets, mbind, act_bind.
  cbn -[Session.handle_auth2_response]. unfold Session.handle_auth2_response, Session.switch_to_wire.
  unfold Session.upd_dc, Session.upd, Session.get_ses, modify, gets, mbind, act_bind, id.
  cbn -[Kernel.add_fd_handler Z.leb]. unfold constant.
  unfold Session.register_data_connection_reader, Session.get_ses, gets, mbind, act_bind.
  cbn -[Kernel.add_fd_handler Z.leb]. rewrite Hle. reflexivity.
Qed.

(** [C26] The two ends authenticate each other: a started client and the session the server
    made for it, with the same password, exchange three round trips after which nothing is
    in flight, each has accepted the other, the client knows the session's id, both read
    the connection in the wire format, and the client's module list is queued on it as
    the first control message. (The hash has 64 digits, the challenges are shorter than
    2^63, the client's modules are loaded and ask for at most 200 connections.) *)
Theorem handshake_completes (cw : CWorld) (sw : SWorld) :
  Client.cli cw = client0 → Session.ses sw = session0 →
  ∃ cw' sw', exchange 3 now msg_challenge1 cw sw = Some ([], cw', sw')
    ∧ Client.cli cw' = client3 ∧ Session.ses sw' = session3.
Proof.
  intros Hc Hs.
  destruct (client_turn1 cw Hc) as (cw1 & C1 & Hc1 & _).
  destruct (session_turn1 sw Hs) as (sw1 & S1 & Hs1).
  destruct (client_turn2 cw1 Hc1) as (cw2 & C2 & Hc2 & _).
  destruct (session_turn2 sw1 Hs1) as (sw2 & S2 & Hs2).
  destruct (client_turn3 cw2 Hc2) as (cw3 & C3 & Hc3 & _).
  destruct (session_turn3 sw2 Hs2) as (sw3 & S3 & Hs3 & _).
  exists cw3, sw3. split; [|done]. cbn [exchange].
  unfold mbind, option_bind. by rewrite C1, S1, C2, S2, C3, S3.
Qed.

End run.
End handshake.
#[local] Existing Instance SessionFacts.example_chain.
Abbreviation chain_t := (@Chain.Chain Copy.ctx).

(** A client with one copy module, and the session for it. *)
Definition example_hash (b : bytes) : bytes := replicate 32 (48 + Z.of_nat (length b) mod 10).
Definition example_mods : list ModuleSpec := [mkSpec Copy.s_copy []].
Definition example_mid (_ : bytes) : option bytes := Some (replicate 64 97).

Definition example_cw : @Client.World chain_t :=
  Client.mkWorld (client0 [1; 2; 3] [104; 58; 49] 8000 0 1000 5 example_mods)
    Kernel.new [] [] [Some 9] [].
Definition example_sw : @Session.World chain_t :=
  Session.mkWorld (session0 [1; 2; 3] [9; 9] 7 77 0 1000) Kernel.new 0 [] [].

Lemma handshake_completes_witness :
  ∃ cw' sw',
    exchange example_hash [8; 8; 8] example_mid [replicate 64 97] (λ _ _, None) (λ _ _, None)
      3 0 (msg_challenge1 [9; 9]) example_cw example_sw = Some ([], cw', sw')
    ∧ Client.cli cw' = client3 [8; 8; 8] [1; 2; 3] [104; 58; 49] [9; 9] 8000 0 1000 5 0 example_mods 77
                         (replicate 32 170)
    ∧ Session.ses sw' = session3 [1; 2; 3] [9; 9] 7 77 0 1000.
Proof.
  refine (handshake_completes example_hash [8; 8; 8] example_mid [replicate 64 97] (λ _ _, None)
    (λ _ _, None) [1; 2; 3] [104; 58; 49] [9; 9] 8000 0 1000 5 0 example_mods 7 77 0 1000
    _ _ _ (replicate 32 170) _ _ _ _ example_cw example_sw _ _); try done.
Defined.

(** ** From the handshake to a running tunnel, evaluated *)

Definition seg_bytes (l : list WB.seg) : bytes := concat (map WB.s_data l).

(** An endpoint reads [rx] from its first data connection, then is told that it can write. *)
Definition client_wire (now : Z) (rx : bytes) (w : @Client.World chain_t)
    : option (bytes * @Client.World chain_t) :=
  match (when (negb (bool_decide (rx = []))) (Client.on_data_event now 0 EPOLLIN (Client.RdData rx)) ;;
         Client.on_data_out_event 0 EPOLLOUT)
          (w{{Client.log := []; Client.writes := replicate 4 (WB.WWrote 4096)}}) with
  | Some (_, w') =>
      Some (concat (map (λ e, match e with Client.EOut _ l => seg_bytes l | _ => [] end) (Client.log w')), w')
  | None => None
  end.

Definition session_wire (now : Z) (rx : bytes) (w : @Session.World chain_t)
    : option (bytes * @Session.World chain_t) :=
  match (when (negb (bool_decide (rx = [])))
           (Session.on_data_event [replicate 64 97] (λ _ _, None) now 0 (Session.RdData rx)) ;;
         Session.on_data_out_event 0 EPOLLOUT)
          (w{{Session.log := []; Session.writes := replicate 4 (WB.WWrote 4096)}}) with
  | Some (_, w') =>
      Some (concat (map (λ e, match e with Session.EOut _ l => seg_bytes l | _ => [] end) (Session.log w')), w')
  | None => None
  end.

Fixpoint wire_exchange (n : nat) (now : Z) (rx : bytes) (cw : @Client.World chain_t)
    (sw : @Session.World chain_t) : option (bytes * @Client.World chain_t * @Session.World chain_t) :=
  match n with
  | O => Some (rx, cw, sw)
  | Datatypes.S k =>
      '(out, cw') ← client_wire now rx cw;
      '(back, sw') ← session_wire now out sw;
      wire_exchange k now back cw' sw'
  end.

(** The module list and its answer, the chain and its confirmation, each in one round
    trip; then the client runs and listens, the session runs with the same chain. *)
Example tunnel_opens :
  (match exchange example_hash [8; 8; 8] example_mid [replicate 64 97] (λ _ _, None) (λ _ _, None)
           3 0 (msg_challenge1 [9; 9]) example_cw example_sw with
   | Some (_, cw, sw) =>
       '(rest, cw', sw') ← wire_exchange 3 0 [] cw sw;
       Some (rest, Client.state (Client.cli cw'), Client.listen_fd (Client.cli cw'),
             Session.state (Session.ses sw'), Session.chain_config (Session.ses sw'))
   | None => None
   end)
  = Some ([], Client.RUNNING, 9, Session.RUNNING, example_mods).
Proof. vm_compute. reflexivity. Qed.

End Handshake.
