(* ===== verification/Server.v ===== *)
(** * The server's accept loop and handshake (server/server.h, server/server.cpp)

    A new connection is either the control connection of a new client, which sends nothing
    until it has a challenge, or a further data connection of a session, which opens with
    nine bytes: the session's id and an output number. The server reads what is there,
    collects the nine bytes as they come, and after 50 ms of silence takes the connection
    for a new client.

    What the server needs of a session is the class [SessionOps]; [Session] has the
    instance at the end. Calls on the kernel's table are entries of the log: nothing in
    server.cpp depends on their result. *)

From coqutil Require Import Datatypes.RecordSetters.
From S2P Require Import Prelude Text Protocol WriteBuffer Frame Control Kernel ChainApi Session Client.
Import DoubleBraceUpdate.
Local Open Scope Z_scope.

(** A session is a value of [S]; [G] is what all sessions share. *)
Class SessionOps (G S : Type) := {
  (** the constructor: descriptor, password, id, time, heartbeat interval *)
  session_new : Z → bytes → Z → Z → Z → S;
  client_fd : S → Z;
  (** [state() >= AUTH_DONE] *)
  auth_done : S → bool;
  set_challenge : bytes → S → S;
  send_packet : Packet → act (G * S) unit;
  on_data : Z → bytes → act (G * S) unit;
  add_data_connection : Z → Z → act (G * S) unit;
  on_disconnect : act (G * S) unit;
  process_pending_io : Z → act (G * S) unit;
  check_heartbeat : Z → act (G * S) unit
}.

Module Server.

Definition HANDSHAKE_TIMEOUT_MS : Z := 5000.
Definition HANDSHAKE_SHORT_TIMEOUT_MS : Z := 50.

(** [buf] holds the bytes received so far, [got] is their number. *)
Record PendingHandshake := mkPH { ph_fd : Z; buf : bytes; accepted_at : Z }.
Definition got (ph : PendingHandshake) : nat := length (buf ph).

(** The callbacks the server registers. *)
Inductive handler := HListen | HPending | HSession (sid : Z).

Inductive effect :=
| KAdd (fd : Z) (h : handler) (ev : Z)        (* kernel_->add_fd_handler *)
| KDel (fd : Z)                               (* kernel_->del_fd *)
| KStartWorkers (count : Z)                   (* kernel_->start_workers *)
| KStart | KStop                              (* kernel_->start, kernel_->stop *)
| SClose (fd : Z).

(** What [read] and [accept] return. *)
Inductive readres := RdData (d : bytes) | RdEof | RdAgain | RdErr.
Inductive accres := AccConn (cfd : Z) (r : readres) | AccAgain | AccIntr | AccErr.

Section server.
Context {G S : Type} `{!SessionOps G S}.
(** The k-th answer of [rand]. *)
Context (rand : nat → Z).

(** [sessions] is [g_session_registry] with the sessions behind its weak pointers (the
    destructor of a session removes its entry); [paused_sessions] the keys of
    [g_paused_sessions]; [counter] the static counter of [generate_id]. *)
Record World := mkWorld {
  password : bytes;
  thread_count : Z;
  heartbeat_interval_ms : Z;
  listen_fd : Z;
  kernel_up : bool;
  pending_handshakes : list PendingHandshake;
  sessions : gmap Z S;
  paused_sessions : gset Z;
  counter : Z;
  n_rand : nat;
  shared : G;
  log : list effect
}.

Notation "'M' A" := (act World A) (at level 10).

Definition emit (e : effect) : M unit := modify (λ w, w{{log ::= λ l, l ++ [e] }}).
Definition set_pending (f : list PendingHandshake → list PendingHandshake) : M unit :=
  modify (λ w, w{{pending_handshakes ::= f}}).

(** Run an operation of session [sid], which the caller holds a pointer to. *)
Definition on_session {A} (sid : Z) (m : act (G * S) A) : M A := λ w,
  s ← sessions w !! sid;
  '(a, (g, s')) ← m (shared w, s);
  Some (a, w{{shared := g; sessions ::= <[sid := s']>}}).

(** [generate_id] (session.cpp), with the value of [time(nullptr)]. *)
Definition generate_id (time : Z) : M Z :=
  modify (λ w, w{{counter ::= λ c, u64 (c + 1)}}) ;;
  c ← gets counter; mret (u64 (c + Z.shiftl time 32)).

(** [std::to_string(rand()) + std::to_string(time(nullptr))]. *)
Definition new_challenge (time : Z) : M bytes :=
  k ← gets n_rand;
  modify (λ w, w{{n_rand ::= Datatypes.S}}) ;;
  mret (dec (rand k) ++ dec time).

Definition new_session (now time fd : Z) (data : bytes) : M unit :=
  pw ← gets password; hb ← gets heartbeat_interval_ms;
  sid ← generate_id time;
  modify (λ w, w{{sessions ::= <[sid := session_new fd pw sid now hb]>}}) ;;
  ch ← new_challenge time;
  on_session sid (modify (λ '(g, s), (g, set_challenge ch s))) ;;
  on_session sid (send_packet (make_msg MSG_AUTH_CHALLENGE ch)) ;;
  when (negb (bool_decide (data = []))) (on_session sid (on_data now data)) ;;
  emit (KAdd fd (HSession sid) EPOLLIN).

(** [finish_handshake(fd, buf, len)], [data] being the first [len] bytes of [buf]. *)
Definition finish_handshake (now time fd : Z) (data : bytes) : M unit :=
  ss ← gets sessions;
  let sid := Session.le64 data in
  if (length data =? 9)%nat && bool_decide (is_Some (ss !! sid)) then
    on_session sid (add_data_connection (default 0 (data !! 8%nat)) fd)
  else new_session now time fd data.

(** The callback of a connection whose nine bytes are not complete. *)
Definition pending_index (fd : Z) (l : list PendingHandshake) : option (nat * PendingHandshake) :=
  list_find (λ ph, ph_fd ph = fd) l.

Definition pending_handler (now time ev_fd events : Z) (r : readres) : M unit :=
  if negb (has events EPOLLIN) then mret tt else
  l ← gets pending_handshakes;
  match pending_index ev_fd l with
  | None => mret tt
  | Some (idx, ph) =>
      match r with
      | RdData d =>
          let ph := mkPH (ph_fd ph) (buf ph ++ d) (accepted_at ph) in
          set_pending (<[idx := ph]>) ;;
          when (got ph =? 9)%nat
            (finish_handshake now time ev_fd (buf ph) ;; set_pending (delete idx))
      | RdAgain => mret tt
      | RdEof | RdErr =>
          emit (SClose ev_fd) ;; emit (KDel ev_fd) ;; set_pending (delete idx)
      end
  end.

(** A connection that [accept] returned, with the answer of its first [read] of at most
    nine bytes. *)
Definition accepted (now time cfd : Z) (r : readres) : M unit :=
  match r with
  | RdData d =>
      if (length d <? 9)%nat && (0 <? length d)%nat then
        set_pending (λ l, l ++ [mkPH cfd d now]) ;; emit (KAdd cfd HPending EPOLLIN)
      else finish_handshake now time cfd d
  | RdAgain => set_pending (λ l, l ++ [mkPH cfd [] now]) ;; emit (KAdd cfd HPending EPOLLIN)
  | RdEof | RdErr => emit (SClose cfd)
  end.

(** The callback of the listening socket: [accept] until it has nothing more. *)
Fixpoint accept_loop (now time : Z) (rs : list accres) : M unit :=
  match rs with
  | [] => mret tt
  | AccAgain :: _ | AccErr :: _ => mret tt
  | AccIntr :: rest => accept_loop now time rest
  | AccConn cfd r :: rest => accepted now time cfd r ;; accept_loop now time rest
  end.

Definition on_listen_event (now time events : Z) (rs : list accres) : M unit :=
  if negb (has events EPOLLIN) then mret tt else accept_loop now time rs.

(** The callback of a control connection before the wire format. *)
Fixpoint client_read_loop (now sid ev_fd : Z) (rs : list readres) : M unit :=
  match rs with
  | [] | RdAgain :: _ => mret tt
  | RdEof :: _ | RdErr :: _ =>
      emit (KDel ev_fd) ;; on_session sid on_disconnect ;;
      modify (λ w, w{{paused_sessions ::= λ p, {[sid]} ∪ p}})
  | RdData d :: rest =>
      on_session sid (on_data now d) ;;
      stop ← on_session sid (gets (λ '(_, s), (client_fd s <? 0) || auth_done s));
      if (stop : bool) then mret tt else client_read_loop now sid ev_fd rest
  end.

Definition on_client_event (now sid ev_fd : Z) (rs : list readres) : M unit :=
  fd ← on_session sid (gets (λ '(_, s), client_fd s));
  if fd <? 0 then mret tt else client_read_loop now sid ev_fd rs.

(** The loop of [check_handshake_timeout]; the result is what stays in the vector. *)
Fixpoint expire (now time : Z) (l : list PendingHandshake) : M (list PendingHandshake) :=
  match l with
  | [] => mret []
  | ph :: rest =>
      let elapsed := now - accepted_at ph in
      if (0 <? got ph)%nat && (HANDSHAKE_TIMEOUT_MS <? elapsed) then
        emit (SClose (ph_fd ph)) ;; emit (KDel (ph_fd ph)) ;; expire now time rest
      else if (got ph =? 0)%nat && (HANDSHAKE_SHORT_TIMEOUT_MS <? elapsed) then
        emit (KDel (ph_fd ph)) ;; finish_handshake now time (ph_fd ph) [] ;; expire now time rest
      else kept ← expire now time rest; mret (ph :: kept)
  end.

Definition check_handshake_timeout (now time : Z) : M unit :=
  l ← gets pending_handshakes;
  kept ← expire now time l;
  set_pending (λ _, kept).

(** The tick callback: the sessions alive are collected first. *)
Definition tick (now time : Z) : M unit :=
  check_handshake_timeout now time ;;
  alive ← gets (λ w, map fst (map_to_list (sessions w)));
  each alive (λ sid, on_session sid (process_pending_io now) ;; on_session sid (check_heartbeat now)).

(** [start], with the results of [socket], [bind] and [listen]; [kernel_->start()] runs the
    event loop, whose events are the operations above. *)
Definition start (sock : Z) (bind_ok listen_ok : bool) : M bool :=
  tc ← gets thread_count;
  modify (λ w, w{{kernel_up := true}}) ;; emit (KStartWorkers tc) ;;
  modify (λ w, w{{listen_fd := sock}}) ;;
  if sock <? 0 then mret false else
  if negb bind_ok || negb listen_ok then emit (SClose sock) ;; mret false else
  emit (KAdd sock HListen EPOLLIN) ;; emit KStart ;; mret true.

Definition stop : M unit :=
  fd ← gets listen_fd;
  when (0 <=? fd) (emit (SClose fd) ;; modify (λ w, w{{listen_fd := -1}})) ;;
  l ← gets pending_handshakes;
  each l (λ ph, emit (KDel (ph_fd ph)) ;; emit (SClose (ph_fd ph))) ;;
  set_pending (λ _, []) ;;
  up ← gets kernel_up;
  when up (emit KStop ;; modify (λ w, w{{kernel_up := false}})).

(** ** What the operations leave alone *)

(** A property of the vector of pending handshakes. *)
Definition of_pending (Q : list PendingHandshake → Prop) (w : World) : Prop :=
  Q (pending_handshakes w).

Lemma emit_pending Q e : keeps (of_pending Q) (emit e).
Proof. apply keeps_modify. by intros []. Qed.

Lemma modify_pending Q f :
  (∀ w, pending_handshakes (f w) = pending_handshakes w) → keeps (of_pending Q) (modify f).
Proof. intros H. apply keeps_modify. intros w. unfold of_pending. by rewrite H. Qed.

Lemma on_session_pending {A} Q sid (m : act (G * S) A) : keeps (of_pending Q) (on_session sid m).
Proof.
  intros w a w'. unfold on_session. intros (s & _ & ([a' [g s']] & _ & [= <- <-])%bind_Some)%bind_Some.
  by destruct w.
Qed.

#[local] Hint Resolve emit_pending on_session_pending : keeps.

Lemma generate_id_pending Q time : keeps (of_pending Q) (generate_id time).
Proof. unfold generate_id. eauto using modify_pending with keeps. Qed.

Lemma new_challenge_pending Q time : keeps (of_pending Q) (new_challenge time).
Proof. unfold new_challenge. eauto using modify_pending with keeps. Qed.

#[local] Hint Resolve generate_id_pending new_challenge_pending : keeps.

Lemma new_session_pending Q now time fd d : keeps (of_pending Q) (new_session now time fd d).
Proof. unfold new_session. eauto 20 using modify_pending with keeps. Qed.

#[local] Hint Resolve new_session_pending : keeps.

Lemma finish_pending Q now time fd d : keeps (of_pending Q) (finish_handshake now time fd d).
Proof.
  unfold finish_handshake. apply keeps_bind; [auto with keeps|]. intros ss.
  destruct (_ && _); auto with keeps.
Qed.

#[local] Hint Resolve finish_pending : keeps.

(** ** The data-connection handshake *)

Lemma sid_bytes_length sid : length (Session.sid_bytes sid) = 8%nat.
Proof. done. Qed.

Lemma le64_sid_bytes sid rest : 0 <= sid < 2 ^ 64 → Session.le64 (Session.sid_bytes sid ++ rest) = sid.
Proof.
  intros Hs. unfold Session.le64. rewrite take_app_length'; [|by rewrite sid_bytes_length].
  unfold Session.sid_bytes. cbn [map seq foldr]. rewrite !land_ff.
  rewrite !Z.shiftr_div_pow2 by lia.
  change (2 ^ (8 * Z.of_nat 0)) with 1. change (2 ^ (8 * Z.of_nat 1)) with 256.
  change (2 ^ (8 * Z.of_nat 2)) with (256 * 256). change (2 ^ (8 * Z.of_nat 3)) with (256 * 256 * 256).
  change (2 ^ (8 * Z.of_nat 4)) with (256 * 256 * 256 * 256).
  change (2 ^ (8 * Z.of_nat 5)) with (256 * 256 * 256 * 256 * 256).
  change (2 ^ (8 * Z.of_nat 6)) with (256 * 256 * 256 * 256 * 256 * 256).
  change (2 ^ (8 * Z.of_nat 7)) with (256 * 256 * 256 * 256 * 256 * 256 * 256).
  rewrite <- !Z.div_div by lia. rewrite Z.div_1_r.
  zlia.
Qed.

(** A connection on which the bytes arrive piece by piece: what [accept]'s read finds, then
    events with their times, the arrival of a piece or the check of the timeouts that every
    round of the event loop begins with. *)
Inductive event := Piece (now time : Z) (d : bytes) | Check (now time : Z).

Definition handle (fd : Z) (e : event) : M unit :=
  match e with
  | Piece now time d => pending_handler now time fd EPOLLIN (RdData d)
  | Check now time => check_handshake_timeout now time
  end.

Definition receive (fd : Z) (rest : list event) : M unit := each rest (handle fd).

Definition open_connection (now time fd : Z) (first : readres) (rest : list event) : M unit :=
  accepted now time fd first ;; receive fd rest.

Definition first_bytes (r : readres) : bytes := match r with RdData d => d | _ => [] end.
Definition piece (e : event) : bytes := match e with Piece _ _ d => d | Check _ _ => [] end.
Definition pieces (rest : list event) : bytes := concat (map piece rest).
Definition filled (e : event) : Prop := match e with Piece _ _ d => d ≠ [] | Check _ _ => True end.

(** A handshake that is still waited for at [now]: 50 ms while nothing has come, 5 s after
    that. *)
Definition waits (now : Z) (ph : PendingHandshake) : Prop :=
  now - accepted_at ph <= (if (got ph =? 0)%nat then HANDSHAKE_SHORT_TIMEOUT_MS else HANDSHAKE_TIMEOUT_MS).

(** No check finds a handshake too old: neither one of [l], nor the one of a connection
    that was accepted at [t] and has sent [b], not yet all nine bytes, before the events
    [rest]. *)
Fixpoint in_time (l : list PendingHandshake) (fd t : Z) (b : bytes) (rest : list event) : Prop :=
  match rest with
  | [] => True
  | Piece _ _ d :: rest => in_time l fd t (b ++ d) rest
  | Check now _ :: rest => Forall (waits now) l ∧ ((length b < 9)%nat → waits now (mkPH fd b t)) ∧ in_time l fd t b rest
  end.

Lemma expire_none now time l w : Forall (waits now) l → expire now time l w = Some (l, w).
Proof.
  intros H. revert w. induction H as [|ph l Hph _ IH]; intros w; [done|]. cbn [expire]. unfold waits in Hph.
  destruct (got ph) as [|k]; cbn [Nat.eqb Nat.ltb Nat.leb andb] in *; rewrite (proj2 (Z.ltb_ge _ _)) by lia;
    cbn [andb]; unfold mbind, act_bind; by rewrite IH.
Qed.

Lemma check_none now time w : Forall (waits now) (pending_handshakes w) → check_handshake_timeout now time w = Some (tt, w).
Proof.
  intros H. unfold check_handshake_timeout, gets, set_pending, modify, mbind, act_bind. rewrite expire_none by done. by destruct w.
Qed.

Lemma pending_index_last fd l b t :
  fd ∉ map ph_fd l → pending_index fd (l ++ [mkPH fd b t]) = Some (length l, mkPH fd b t).
Proof.
  intros Hn. unfold pending_index. apply list_find_Some. split_and!.
  - by rewrite lookup_app_r, Nat.sub_diag by lia.
  - done.
  - intros j y Hj Hlt <-. apply Hn. rewrite lookup_app_l in Hj by done.
    apply list_elem_of_In, in_map, list_elem_of_In. by eapply list_elem_of_lookup_2.
Qed.

(** What the world looks like apart from the vector and the log. *)
Definition same_but (w w' : World) : Prop :=
  ∃ l lg, w' = w{{pending_handshakes := l; log := lg}}.

(** A piece that does not complete the nine bytes is only kept. *)
Lemma pending_partial now time fd d w l b t :
  pending_handshakes w = l ++ [mkPH fd b t] → fd ∉ map ph_fd l → (length (b ++ d) < 9)%nat →
  pending_handler now time fd EPOLLIN (RdData d) w =
    Some (tt, w{{pending_handshakes := l ++ [mkPH fd (b ++ d) t] }}).
Proof.
  intros Hp Hn Hl. unfold pending_handler. change (has EPOLLIN EPOLLIN) with true. cbn [negb].
  unfold gets, set_pending, modify, when, mbind, act_bind. rewrite Hp, pending_index_last by done.
  cbn [ph_fd buf accepted_at]. unfold got. cbn [buf].
  rewrite (proj2 (Nat.eqb_neq _ _)) by lia. unfold mret, act_ret. do 2 f_equal.
  destruct w. cbn in *. subst. by rewrite insert_app_r_alt, Nat.sub_diag by lia.
Qed.

(** The piece that completes them hands them on. *)
Lemma pending_complete now time fd d w l b t :
  pending_handshakes w = l ++ [mkPH fd b t] → fd ∉ map ph_fd l → length (b ++ d) = 9%nat →
  pending_handler now time fd EPOLLIN (RdData d) w =
    match finish_handshake now time fd (b ++ d) (w{{pending_handshakes := l ++ [mkPH fd (b ++ d) t] }}) with
    | Some (_, w') => Some (tt, w'{{pending_handshakes ::= delete (length l)}})
    | None => None
    end.
Proof.
  intros Hp Hn Hl. unfold pending_handler. change (has EPOLLIN EPOLLIN) with true. cbn [negb].
  unfold gets, set_pending, modify, when, mbind, act_bind. rewrite Hp, pending_index_last by done.
  cbn [ph_fd buf accepted_at]. unfold got. cbn [buf]. rewrite (proj2 (Nat.eqb_eq _ _)) by lia.
  assert (w{{pending_handshakes ::= <[length l:={| ph_fd := fd; buf := b ++ d; accepted_at := t |}]> }}
    = w{{pending_handshakes := l ++ [mkPH fd (b ++ d) t] }}) as ->; [|done].
  destruct w. cbn in *. subst. by rewrite insert_app_r_alt, Nat.sub_diag by lia.
Qed.

Section data_connection.
Context (sid : Z) (i : nat) (fd : Z) (s s' : S) (g g' : G).
Context (sid_range : 0 <= sid < 2 ^ 64) (i_range : (i < 256)%nat).
Context (joins : add_data_connection (Z.of_nat i) fd (g, s) = Some (tt, (g', s'))).

(** The nine bytes the client opens a further connection with. *)
Abbreviation hello := (Client.handshake (Session.sid_bytes sid) i).

(** The session has taken the connection. *)
Definition joined (w : World) : World := w{{shared := g'; sessions ::= <[sid := s']>}}.

Lemma finish_joins now time w : sessions w !! sid = Some s → shared w = g →
  finish_handshake now time fd hello w = Some (tt, joined w).
Proof.
  intros Hs Hg. unfold finish_handshake, gets, mbind, act_bind.
  assert (Session.le64 hello = sid) as -> by (by apply le64_sid_bytes).
  rewrite bool_decide_true by (rewrite Hs; by eexists).
  change (length hello =? 9)%nat with true. cbn [andb].
  assert (default 0 (hello !! 8%nat) = Z.of_nat i) as ->.
  { unfold Client.handshake. rewrite lookup_app_r by (by rewrite sid_bytes_length). cbn. zlia. }
  unfold on_session. rewrite Hs. cbn [mbind option_bind]. rewrite Hg, joins. done.
Qed.

(** Once the bytes are complete only checks are left, and they find nothing. *)
Lemma receive_checks rest : ∀ b t w,
  Forall filled rest → pieces rest = [] → in_time (pending_handshakes w) fd t b rest → receive fd rest w = Some (tt, w).
Proof.
  induction rest as [|[now time d|now time] rest IH]; intros b t w Hne Hp Hin; [done|..];
    apply Forall_cons in Hne as [Hd Hne].
  - cbn in Hp. apply app_nil in Hp as [-> _]. done.
  - cbn [in_time] in Hin. destruct Hin as (Hl & _ & Hin). unfold receive. cbn [each handle]. unfold mbind, act_bind.
    rewrite check_none by done. by apply (IH b t).
Qed.

Lemma receive_joins rest : ∀ b t w l,
  pending_handshakes w = l ++ [mkPH fd b t] → fd ∉ map ph_fd l →
  sessions w !! sid = Some s → shared w = g → (length b < 9)%nat →
  Forall filled rest → in_time l fd t b rest → b ++ pieces rest = hello →
  receive fd rest w = Some (tt, (joined w){{pending_handshakes := l}}).
Proof.
  induction rest as [|[now time d|now time] rest IH]; intros b t w l Hp Hn Hs Hg Hb Hne Hin Hh.
  - exfalso. cbn in Hh. rewrite app_nil_r in Hh. rewrite Hh in Hb. cbn in Hb. lia.
  - apply Forall_cons in Hne as [Hd Hne]. change (pieces (Piece now time d :: rest)) with (d ++ pieces rest) in Hh. rewrite app_assoc in Hh.
    cbn [in_time] in Hin. unfold receive. cbn [each handle]. unfold mbind, act_bind.
    destruct (decide (length (b ++ d) < 9)%nat) as [Hlt|Hge].
    + rewrite (pending_partial now time fd d w l b t) by done.
      fold (receive fd rest). rewrite (IH (b ++ d) t _ l); try done; by destruct w.
    + assert (Hlen : (length (b ++ d) + length (pieces rest) = 9)%nat)
        by (rewrite <- length_app, Hh; done).
      assert (length (b ++ d) = 9%nat ∧ pieces rest = []) as [H9 Hr]
        by (split; [lia|]; destruct (pieces rest); [done|cbn in Hlen; lia]).
      rewrite Hr, app_nil_r in Hh.
      rewrite (pending_complete now time fd d w l b t), Hh, finish_joins by (by destruct w).
      rewrite Hh in Hin. fold (receive fd rest).
      match goal with |- receive fd rest ?w' = _ => assert (w' = (joined w){{pending_handshakes := l}}) as -> end.
      { destruct w. cbn. unfold constant. f_equal. rewrite delete_middle. apply app_nil_r. }
      apply (receive_checks rest hello t); [done|done|]. by destruct w.
  - apply Forall_cons in Hne as [_ Hne]. cbn [in_time] in Hin. destruct Hin as (Hl & Hph & Hin).
    unfold receive. cbn [each handle]. unfold mbind, act_bind.
    rewrite check_none by (rewrite Hp; apply Forall_app; split; [done|apply Forall_singleton; auto]).
    fold (receive fd rest). by apply (IH b t).
Qed.

(** [C34] A data connection reaches its session. If the nine bytes the client sends on it, in
    however many pieces, arrive before a check of the timeouts finds the connection too old
    (50 ms after it was accepted while nothing has come, 5 s once something has; with no
    other pending handshake too old at these checks, and nothing else happening), then they
    are handed to [add_data_connection] of the session they name, with the output number
    they name, and to nothing else: no session is created, no other session is touched, and
    no handshake stays pending. Later is too late: [late_handshake_lost]. *)
Theorem data_connection_joins now time first rest w :
  fd ∉ map ph_fd (pending_handshakes w) → sessions w !! sid = Some s → shared w = g →
  (first = RdAgain ∨ ∃ d, first = RdData d ∧ d ≠ []) → Forall filled rest →
  in_time (pending_handshakes w) fd now (first_bytes first) rest →
  first_bytes first ++ pieces rest = hello →
  ∃ lg, open_connection now time fd first rest w = Some (tt, (joined w){{log := lg}}).
Proof.
  intros Hn Hs Hg Hf Hne Hin Hh.
  assert (Hpend : ∀ b, (length b < 9)%nat → in_time (pending_handshakes w) fd now b rest → b ++ pieces rest = hello → ∃ lg,
    (set_pending (λ l, l ++ [mkPH fd b now]) ;; emit (KAdd fd HPending EPOLLIN) ;; receive fd rest) w
    = Some (tt, (joined w){{log := lg}})).
  { intros b Hb Hbi Hbh. exists (log w ++ [KAdd fd HPending EPOLLIN]).
    unfold set_pending, emit, modify, mbind, act_bind.
    rewrite (receive_joins rest b now _ (pending_handshakes w)); try done; by destruct w. }
  unfold open_connection, accepted. destruct Hf as [->|(d & -> & Hd)].
  - destruct (Hpend [] ltac:(cbn; lia) Hin Hh) as [lg Hlg]. exists lg. exact Hlg.
  - cbn [first_bytes] in Hh, Hin.
    assert (Hlen : (length d + length (pieces rest) = 9)%nat) by (rewrite <- length_app, Hh; done).
    destruct (decide (length d < 9)%nat) as [Hlt|Hge].
    + rewrite (proj2 (Nat.ltb_lt _ _)) by done.
      rewrite (proj2 (Nat.ltb_lt 0 _)) by (destruct d; [done|cbn; lia]). cbn [andb].
      destruct (Hpend d Hlt Hin Hh) as [lg Hlg]. exists lg. exact Hlg.
    + rewrite (proj2 (Nat.ltb_ge _ _)) by lia. cbn [andb].
      assert (pieces rest = []) as Hr by (destruct (pieces rest); [done|cbn in Hlen; lia]).
      rewrite Hr, app_nil_r in Hh. subst d. exists (log w).
      unfold mbind, act_bind. rewrite finish_joins by done.
      rewrite (receive_checks rest hello now); [by destruct w|done|done|by destruct w].
Qed.

End data_connection.

(** ** Invariant *)

(** Session ids are unique: every id given out so far, at times up to [T], is below the next
    one ([n_rand] counts the sessions created). *)
Definition ids_ok (T : Z) (w : World) : Prop :=
  Z.of_nat (n_rand w) < 2 ^ 32 → counter w = Z.of_nat (n_rand w)
    ∧ ∀ sid s, sessions w !! sid = Some s → sid <= Z.of_nat (n_rand w) + T * 2 ^ 32.

Record Inv (T : Z) (w : World) : Prop := {
  i_nodup : NoDup (map ph_fd (pending_handshakes w));
  i_short : Forall (λ ph, (got ph < 9)%nat) (pending_handshakes w);
  i_ids : ids_ok T w
}.

Lemma ids_ok_mono T T' w : T <= T' → ids_ok T w → ids_ok T' w.
Proof. intros HT H Hn. destruct (H Hn) as [Hc Hs]. split; [done|]. intros sid s Hsid%Hs. lia. Qed.

Lemma ids_modify T f :
  (∀ w, n_rand (f w) = n_rand w ∧ counter (f w) = counter w ∧ sessions (f w) = sessions w) →
  keeps (ids_ok T) (modify f).
Proof.
  intros Hf. apply keeps_modify. intros w H. unfold ids_ok.
  destruct (Hf w) as (-> & -> & ->). exact H.
Qed.

Lemma ids_emit T e : keeps (ids_ok T) (emit e).
Proof. apply ids_modify. by intros []. Qed.

Lemma ids_set_pending T f : keeps (ids_ok T) (set_pending f).
Proof. apply ids_modify. by intros []. Qed.

Lemma ids_on_session {A} T sid (m : act (G * S) A) : keeps (ids_ok T) (on_session sid m).
Proof.
  intros w a w'. unfold on_session. intros (s & Hs & ([a' [g s']] & _ & [= <- <-])%bind_Some)%bind_Some.
  intros H Hn. destruct w as [pw tc hb lf ku l ss ps cn nr sh lg]; cbn in *.
  destruct (H Hn) as [Hc Hids]. split; [done|].
  intros sid' s1. destruct (decide (sid' = sid)) as [->|]; [|by rewrite lookup_insert_ne by done; apply Hids].
  intros _. by eapply Hids.
Qed.

#[local] Hint Resolve ids_emit ids_set_pending ids_on_session : keeps.

Lemma ids_new_session T now time fd d : T <= time → 0 <= time < 2 ^ 31 →
  ∀ w u w', new_session now time fd d w = Some (u, w') → ids_ok T w → ids_ok time w'.
Proof.
  intros HT Ht w u w' E Hi.
  set (rest := λ sid ch, (on_session sid (modify (λ '(g, s), (g, set_challenge ch s))) ;;
    on_session sid (send_packet (make_msg MSG_AUTH_CHALLENGE ch)) ;;
    when (negb (bool_decide (d = []))) (on_session sid (on_data now d)) ;;
    emit (KAdd fd (HSession sid) EPOLLIN)) : M unit).
  assert (Hrest : ∀ sid ch, keeps (ids_ok time) (rest sid ch)) by (intros; unfold rest; eauto 10 with keeps).
  set (sid := u64 (u64 (counter w + 1) + Z.shiftl time 32)).
  assert (Hw : ∃ ch w1, rest sid ch w1 = Some (u, w')
    ∧ n_rand w1 = Datatypes.S (n_rand w) ∧ counter w1 = u64 (counter w + 1)
    ∧ ∃ s1, sessions w1 = <[sid := s1]> (sessions w)).
  { destruct w as [pw tc hb lf ku l ss ps cn nr sh lg]. do 2 eexists. split_and!; [exact E|done|done|by eexists]. }
  destruct Hw as (ch & w1 & Hr & Hn1 & Hc1 & s1 & Hs1).
  apply (Hrest _ _ _ _ _ Hr). intros Hn. rewrite Hn1, Hc1, Hs1 in *.
  destruct Hi as [Hc Hids]; [lia|]. split; [zlia|].
  assert (Hsid : sid = Z.of_nat (n_rand w) + 1 + time * 2 ^ 32).
  { unfold sid. rewrite Hc, Z.shiftl_mul_pow2 by lia. unfold u64. rewrite (Z.mod_small (Z.of_nat (n_rand w) + 1)) by lia.
    rewrite Z.mod_small; lia. }
  intros sid' s2. destruct (decide (sid' = sid)) as [->|Hne]; [rewrite lookup_insert_eq; intros _; lia|].
  rewrite lookup_insert_ne by done. intros H%Hids. lia.
Qed.

Lemma ids_finish T now time fd d : T <= time → 0 <= time < 2 ^ 31 →
  ∀ w u w', finish_handshake now time fd d w = Some (u, w') → ids_ok T w → ids_ok time w'.
Proof.
  intros HT Ht w u w'. unfold finish_handshake, gets, mbind, act_bind.
  destruct (_ && _).
  - intros E Hi. eapply ids_ok_mono; [done|]. by eapply ids_on_session.
  - intros E. by eapply ids_new_session.
Qed.

(** What the system may answer: [accept] returns descriptors that are not open, and [read]
    no more than was asked for. *)
Definition conn_fds (rs : list accres) : list Z :=
  omap (λ r, match r with AccConn fd _ => Some fd | _ => None end) rs.

Definition accepts_ok (rs : list accres) (l : list PendingHandshake) : Prop :=
  NoDup (conn_fds rs ++ map ph_fd l).

Definition read_ok (fd : Z) (r : readres) (l : list PendingHandshake) : Prop :=
  ∀ idx ph d, pending_index fd l = Some (idx, ph) → r = RdData d → (length d <= 9 - got ph)%nat.

Inductive step : Z → World → Z → World → Prop :=
| step_accept T now time events rs w w' :
    T <= time → 0 <= time < 2 ^ 31 → accepts_ok rs (pending_handshakes w) →
    on_listen_event now time events rs w = Some (tt, w') → step T w time w'
| step_pending T now time fd events r w w' :
    T <= time → 0 <= time < 2 ^ 31 → read_ok fd r (pending_handshakes w) →
    pending_handler now time fd events r w = Some (tt, w') → step T w time w'
| step_client T now sid fd rs w w' :
    on_client_event now sid fd rs w = Some (tt, w') → step T w T w'
| step_tick T now time w w' :
    T <= time → 0 <= time < 2 ^ 31 → tick now time w = Some (tt, w') → step T w time w'
| step_gone T sid w :          (* the last pointer to a session is dropped *)
    step T w T (w{{sessions ::= delete sid}}).

Inductive reachable (w0 : World) : Z → World → Prop :=
| reach_refl : reachable w0 0 w0
| reach_next T w T' w' : reachable w0 T w → step T w T' w' → reachable w0 T' w'.

Definition pend_ok (l : list PendingHandshake) : Prop :=
  NoDup (map ph_fd l) ∧ Forall (λ ph, (got ph < 9)%nat) l.

Lemma ids_accept_loop T time now rs : T <= time → 0 <= time < 2 ^ 31 →
  keeps (ids_ok time) (accept_loop now time rs).
Proof.
  intros HT Ht. assert (Hf : ∀ fd d, keeps (ids_ok time) (finish_handshake now time fd d)).
  { intros fd d w u w' E. by eapply ids_finish; [reflexivity|..]. }
  induction rs as [|[fd r| | |] rs IH]; cbn [accept_loop]; auto with keeps.
  apply keeps_bind; [|auto]. unfold accepted. destruct r; auto with keeps.
  destruct (_ && _); auto with keeps.
Qed.

Lemma accepted_pending now time fd r w u w' :
  accepted now time fd r w = Some (u, w') →
  pending_handshakes w' = pending_handshakes w
  ∨ ∃ b, (length b < 9)%nat ∧ pending_handshakes w' = pending_handshakes w ++ [mkPH fd b now].
Proof.
  unfold accepted. destruct r as [d| | |].
  - destruct (Nat.ltb_spec (length d) 9); cbn [andb]; [destruct (0 <? length d)%nat|].
    + intros [= _ <-]. right. exists d. split; [done|]. by destruct w.
    + intros E. left. by eapply (finish_pending (λ l, l = pending_handshakes w)).
    + intros E. left. by eapply (finish_pending (λ l, l = pending_handshakes w)).
  - intros [= _ <-]. left. by destruct w.
  - intros [= _ <-]. right. exists []. split; [cbn; lia|]. by destruct w.
  - intros [= _ <-]. left. by destruct w.
Qed.

Lemma accept_loop_pending now time rs : ∀ w u w',
  accept_loop now time rs w = Some (u, w') → accepts_ok rs (pending_handshakes w) →
  pend_ok (pending_handshakes w) → pend_ok (pending_handshakes w').
Proof.
  induction rs as [|[fd r| | |] rs IH]; intros w u w'; cbn [accept_loop]; try (by intros [= _ <-]).
  - intros (? & w1 & E1 & E2)%bind_some Ha Hp. unfold accepts_ok in Ha. cbn in Ha.
    apply NoDup_cons in Ha as [Hfd Ha].
    apply accepted_pending in E1 as [E|(b & Hb & E)]; (eapply IH; [done| |]); rewrite E; [done..| |].
    + unfold accepts_ok. rewrite map_app. cbn.
      rewrite app_assoc, NoDup_app. split_and!; [done| |apply NoDup_singleton].
      intros y Hy ->%list_elem_of_singleton. done.
    + destruct Hp as [Hn Hs]. split; [|apply Forall_app; split; [done|by apply Forall_singleton]].
      rewrite map_app. cbn. apply NoDup_app. split_and!; [done| |apply NoDup_singleton].
      intros y Hy ->%list_elem_of_singleton. apply Hfd, elem_of_app. by right.
  - apply IH.
Qed.

Lemma map_fd_insert l idx ph b t :
  l !! idx = Some ph → map ph_fd (<[idx := mkPH (ph_fd ph) b t]> l) = map ph_fd l.
Proof.
  intros H. change (ph_fd <$> <[idx := mkPH (ph_fd ph) b t]> l = ph_fd <$> l).
  rewrite list_fmap_insert. apply list_insert_id. by rewrite list_lookup_fmap, H.
Qed.

Lemma pend_ok_delete l idx : pend_ok l → pend_ok (delete idx l).
Proof.
  intros [Hn Hs]. split; [|by apply Forall_delete].
  eapply sublist_NoDup; [exact Hn|]. apply fmap_sublist, sublist_delete.
Qed.

Lemma pending_handler_pending now time fd events r w u w' :
  pending_handler now time fd events r w = Some (u, w') → read_ok fd r (pending_handshakes w) →
  pend_ok (pending_handshakes w) → pend_ok (pending_handshakes w').
Proof.
  unfold pending_handler. destruct (negb _); [by intros [= _ <-]|].
  unfold gets, mbind, act_bind. destruct (pending_index fd (pending_handshakes w)) as [[idx ph]|] eqn:Ei;
    [|by intros [= _ <-]].
  intros E Hr Hp. apply list_find_Some in Ei as Hi. destruct Hi as (Hi & <- & _).
  destruct r as [d| | |].
  - set (ph' := mkPH (ph_fd ph) (buf ph ++ d) (accepted_at ph)) in *.
    unfold set_pending, modify in E.
    set (w1 := w{{pending_handshakes ::= <[idx := ph']>}}) in *.
    assert (Hw1 : pending_handshakes w1 = <[idx := ph']> (pending_handshakes w)) by (by destruct w).
    destruct (Nat.eqb_spec (got ph') 9) as [H9|H9]; cbn [when] in E.
    + unfold mbind, act_bind in E.
      destruct (finish_handshake now time (ph_fd ph) (buf ph') w1) as [[u2 w2]|] eqn:E2; [|done].
      assert (Hw' : pending_handshakes w' = delete idx (pending_handshakes w2))
        by (injection E as _ <-; by destruct w2).
      assert (pending_handshakes w2 = <[idx := ph']> (pending_handshakes w)) as Hw2.
      { by eapply (finish_pending (λ l, l = <[idx := ph']> (pending_handshakes w))). }
      rewrite Hw', Hw2.
      replace (delete idx (<[idx := ph']> (pending_handshakes w))) with (delete idx (pending_handshakes w)).
      { by apply pend_ok_delete. }
      rewrite !delete_take_drop. by rewrite take_insert_ge, drop_insert_lt by lia.
    + assert (w' = w1) as -> by (by injection E as _ <-). rewrite Hw1. destruct Hp as [Hn Hs]. split.
      * by rewrite (map_fd_insert _ _ ph (buf ph ++ d) (accepted_at ph)).
      * apply Forall_insert; [done|]. specialize (Hr idx ph d Ei eq_refl).
        rewrite Forall_lookup in Hs. specialize (Hs _ _ Hi).
        unfold got, ph' in *. cbn [buf] in *. rewrite length_app in *. lia.
  - replace (pending_handshakes w') with (delete idx (pending_handshakes w))
      by (injection E as _ <-; by destruct w). by apply pend_ok_delete.
  - by injection E as _ <-.
  - replace (pending_handshakes w') with (delete idx (pending_handshakes w))
      by (injection E as _ <-; by destruct w). by apply pend_ok_delete.
Qed.

(** ** Time-outs *)

Definition stalled (now : Z) (ph : PendingHandshake) : bool :=
  (0 <? got ph)%nat && (HANDSHAKE_TIMEOUT_MS <? now - accepted_at ph).
Definition silent (now : Z) (ph : PendingHandshake) : bool :=
  (got ph =? 0)%nat && (HANDSHAKE_SHORT_TIMEOUT_MS <? now - accepted_at ph).

Lemma ids_expire time now l : 0 <= time < 2 ^ 31 → keeps (ids_ok time) (expire now time l).
Proof.
  intros Ht. induction l as [|ph l IH]; cbn [expire]; [auto with keeps|].
  destruct (_ && _); [auto with keeps|]. destruct (_ && _); [|auto with keeps].
  apply keeps_bind; [auto with keeps|]. intros _. apply keeps_bind; [|auto].
  intros w u w' E. by eapply ids_finish; [reflexivity|..].
Qed.

(** The log only grows. *)
Definition logged (lg : list effect) (w : World) : Prop := lg `prefix_of` log w.

Lemma logged_modify lg f : (∀ w, log (f w) = log w) → keeps (logged lg) (modify f).
Proof. intros H. apply keeps_modify. intros w. unfold logged. by rewrite H. Qed.

Lemma logged_emit lg e : keeps (logged lg) (emit e).
Proof. apply keeps_modify. intros w H. unfold logged in *. destruct w; cbn in *. by apply prefix_app_r. Qed.

Lemma logged_on_session {A} lg sid (m : act (G * S) A) : keeps (logged lg) (on_session sid m).
Proof.
  intros w a w'. unfold on_session. intros (s & _ & ([a' [g s']] & _ & [= <- <-])%bind_Some)%bind_Some.
  by destruct w.
Qed.

#[local] Hint Resolve logged_emit logged_on_session : keeps.

Lemma finish_log now time fd d w u w' :
  finish_handshake now time fd d w = Some (u, w') → log w `prefix_of` log w'.
Proof.
  intros E. cut (keeps (logged (log w)) (finish_handshake now time fd d)); [intros H; exact (H _ _ _ E ltac:(unfold logged; reflexivity))|].
  unfold finish_handshake, new_session, generate_id, new_challenge.
  apply keeps_bind; [auto with keeps|]. intros ss. destruct (_ && _); [auto with keeps|].
  eauto 30 using logged_modify with keeps.
Qed.

(** The loop keeps what is neither stalled nor silent, and closes what is stalled. *)
Lemma expire_spec now time l : ∀ w kept w', expire now time l w = Some (kept, w') →
  kept = List.filter (λ ph, negb (stalled now ph) && negb (silent now ph)) l
  ∧ pending_handshakes w' = pending_handshakes w ∧ log w `prefix_of` log w'
  ∧ ∀ ph, ph ∈ l → stalled now ph = true → SClose (ph_fd ph) ∈ log w'.
Proof.
  induction l as [|ph l IH]; intros w kept w'; cbn [expire]; [intros [= <- <-]; split_and!; try done; set_solver|].
  cbn [List.filter]. fold (stalled now ph) (silent now ph).
  destruct (stalled now ph) eqn:Est; cbn [negb andb].
  - intros (? & w1 & E1 & (? & w2 & E2 & E3)%bind_some)%bind_some.
    destruct (IH _ _ _ E3) as (-> & -> & Hp & Hc). clear IH E3.
    injection E1 as _ <-. injection E2 as _ <-. split_and!; [done|by destruct w| |].
    + etrans; [|exact Hp]. destruct w; cbn. rewrite <- app_assoc. by apply prefix_app_r.
    + intros ph' [->|Hin]%elem_of_cons Hs; [|by apply Hc].
      eapply elem_of_prefix; [|exact Hp]. destruct w; cbn. set_solver.
  - destruct (silent now ph) eqn:Esi; cbn [negb andb].
    + intros (? & w1 & E1 & (? & w2 & E2 & E3)%bind_some)%bind_some.
      destruct (IH _ _ _ E3) as (-> & -> & Hp & Hc). apply finish_log in E2 as Hl2.
      pose proof (finish_pending (λ l, l = pending_handshakes w1) _ _ _ _ _ _ _ E2 eq_refl) as Hpe.
      unfold of_pending in Hpe. rewrite Hpe.
      injection E1 as _ <-. split_and!; [done|by destruct w| |].
      * etrans; [|exact Hp]. etrans; [|exact Hl2]. destruct w; cbn. by apply prefix_app_r.
      * intros ph' [->|Hin]%elem_of_cons Hs; [congruence|by apply Hc].
    + intros (k2 & w1 & E1 & [= <- <-])%bind_some. destruct (IH _ _ _ E1) as (-> & Hp & Hl & Hc).
      split_and!; [done..|]. intros ph' [->|Hin]%elem_of_cons Hs; [congruence|by apply Hc].
Qed.

(** ** The invariant of every run *)

Lemma check_timeout_spec now time w u w' : check_handshake_timeout now time w = Some (u, w') →
  pending_handshakes w' =
    List.filter (λ ph, negb (stalled now ph) && negb (silent now ph)) (pending_handshakes w)
  ∧ (∀ ph, ph ∈ pending_handshakes w → stalled now ph = true → SClose (ph_fd ph) ∈ log w').
Proof.
  unfold check_handshake_timeout. intros (l & w0 & [= <- <-] & (kept & w1 & E & Hs)%bind_some)%bind_some.
  apply expire_spec in E as (-> & _ & _ & Hc). injection Hs as _ <-. by destruct w1.
Qed.

Lemma each_sessions_pending Q l now :
  keeps (of_pending Q) (each l (λ sid, on_session sid (process_pending_io now) ;; on_session sid (check_heartbeat now))).
Proof. auto with keeps. Qed.

Lemma filter_pend_ok f l : pend_ok l → pend_ok (List.filter f l).
Proof.
  intros [Hn Hs]. induction l as [|ph l IH]; cbn; [done|].
  apply NoDup_cons in Hn as [Hnin Hn]. apply Forall_cons in Hs as [Hph Hs].
  destruct (IH Hn Hs) as [IHn IHs]. destruct (f ph); [|done]. split; [|by constructor].
  cbn. apply NoDup_cons. split; [|done]. intros Hin. apply Hnin.
  apply list_elem_of_In, in_map_iff in Hin as (x & Hx & [Hin _]%filter_In).
  rewrite <- Hx. apply list_elem_of_In. by apply in_map.
Qed.

Lemma tick_inv T now time w u w' : T <= time → 0 <= time < 2 ^ 31 →
  tick now time w = Some (u, w') → Inv T w → Inv time w'.
Proof.
  intros HT Ht. unfold tick. intros (? & w1 & E1 & (al & w2 & [= <- <-] & E2)%bind_some)%bind_some [Hn Hs Hi].
  pose proof (each_sessions_pending (λ l, l = pending_handshakes w1) _ _ _ _ _ E2 eq_refl) as Hp.
  unfold of_pending in Hp. destruct (check_timeout_spec _ _ _ _ _ E1) as [Hf _].
  destruct (filter_pend_ok (λ ph, negb (stalled now ph) && negb (silent now ph)) (pending_handshakes w))
    as [Hn' Hs']; [done|].
  constructor; [by rewrite Hp, Hf..|].
  assert (Hk : keeps (ids_ok time) (each (map fst (map_to_list (sessions w1)))
    (λ sid, on_session sid (process_pending_io now) ;; on_session sid (check_heartbeat now)))) by auto with keeps.
  apply (Hk _ _ _ E2). revert E1. unfold check_handshake_timeout.
  intros (l & w0 & [= <- <-] & (kept & w3 & E & Hset)%bind_some)%bind_some.
  eapply ids_set_pending; [exact Hset|]. eapply ids_expire; [done|exact E|]. by eapply ids_ok_mono.
Qed.

Lemma client_loop_keeps P now sid fd rs :
  (∀ A (m : act (G * S) A), keeps P (on_session sid m)) → (∀ e, keeps P (emit e)) →
  keeps P (modify (λ w, w{{paused_sessions ::= λ p, {[sid]} ∪ p}})) →
  keeps P (client_read_loop now sid fd rs).
Proof.
  intros H1 H2 H3. induction rs as [|[d| | |] rs IH]; cbn [client_read_loop]; auto with keeps.
  apply keeps_bind; [auto|]. intros _. apply keeps_bind; [auto|]. intros []; auto with keeps.
Qed.

Lemma client_event_keeps P now sid fd rs :
  (∀ A (m : act (G * S) A), keeps P (on_session sid m)) → (∀ e, keeps P (emit e)) →
  keeps P (modify (λ w, w{{paused_sessions ::= λ p, {[sid]} ∪ p}})) →
  keeps P (on_client_event now sid fd rs).
Proof.
  intros H1 H2 H3. unfold on_client_event. apply keeps_bind; [auto|]. intros f.
  destruct (f <? 0); [auto with keeps|]. by apply client_loop_keeps.
Qed.

Lemma ids_pending_handler time now fd events r : 0 <= time < 2 ^ 31 →
  keeps (ids_ok time) (pending_handler now time fd events r).
Proof.
  intros Ht. unfold pending_handler. destruct (negb _); [auto with keeps|].
  apply keeps_bind; [auto with keeps|]. intros l. destruct (pending_index fd l) as [[idx ph]|]; [|auto with keeps].
  destruct r; auto with keeps. apply keeps_bind; [auto with keeps|]. intros _. apply keeps_when. intros _.
  apply keeps_bind; [|auto with keeps]. intros w u w' E. by eapply ids_finish; [reflexivity|..].
Qed.

Lemma step_inv T w T' w' : step T w T' w' → Inv T w → Inv T' w'.
Proof.
  intros Hst HI. pose proof HI as [Hn Hs Hi]. destruct Hst as
    [T now time events rs w w' HT Ht Ha E|T now time fd events r w w' HT Ht Hr E
    |T now sid fd rs w w' E|T now time w w' HT Ht E|T sid w].
  - unfold on_listen_event in E.
    destruct (negb _); [injection E as <-; constructor; [done..|by eapply ids_ok_mono]|].
    destruct (accept_loop_pending _ _ _ _ _ _ E Ha) as [Hn' Hs']; [done|].
    constructor; [done..|]. eapply ids_accept_loop; [done|done|exact E|]. by eapply ids_ok_mono.
  - destruct (pending_handler_pending _ _ _ _ _ _ _ _ E Hr) as [Hn' Hs']; [done|].
    constructor; [done..|]. eapply ids_pending_handler; [done|exact E|]. by eapply ids_ok_mono.
  - assert (Hp : pending_handshakes w' = pending_handshakes w).
    { eapply (client_event_keeps (of_pending (λ l, l = pending_handshakes w))); [..|exact E|done];
        auto with keeps. apply modify_pending. by intros []. }
    constructor; [by rewrite Hp..|].
    eapply (client_event_keeps (ids_ok T)); [..|exact E|done]; auto with keeps.
    apply ids_modify. by intros [].
  - by eapply tick_inv.
  - destruct w as [pw tc hb lf ku l ss ps cn nr sh lg]; constructor; cbn in *; [done..|].
    intros H. destruct (Hi H) as [Hc Hids]. split; [done|]. cbn. intros sid' s' [_ H']%lookup_delete_Some.
    by eapply Hids.
Qed.

(** [C35] In every run of the server (accepting, completing and timing out handshakes, data
    from clients, ticks, sessions that end) the pending handshakes have distinct
    descriptors and fewer than nine bytes each, so every read stays inside [buf]; and while
    fewer than 2^32 sessions have been created and the clock does not go back, the next
    session's id is not in use: a new client never takes over another session. *)
Theorem server_invariant w0 T w :
  pending_handshakes w0 = [] → sessions w0 = ∅ → counter w0 = 0 → n_rand w0 = 0%nat →
  reachable w0 T w →
  NoDup (map ph_fd (pending_handshakes w)) ∧ Forall (λ ph, (got ph < 9)%nat) (pending_handshakes w)
  ∧ ∀ time, T <= time → 0 <= time < 2 ^ 31 → Z.of_nat (n_rand w) + 1 < 2 ^ 32 →
    ∀ sid w', generate_id time w = Some (sid, w') → sessions w !! sid = None.
Proof.
  intros Hp0 Hs0 Hc0 Hn0 Hr.
  assert (HI : Inv T w).
  { induction Hr; [|by eapply step_inv]. constructor; rewrite ?Hp0; [constructor..|].
    intros _. rewrite Hc0, Hn0, Hs0. split; [done|]. intros sid s Hsid. by rewrite lookup_empty in Hsid. }
  destruct HI as [Hn Hs Hi]. split_and!; [done..|].
  intros time HT Ht Hlt sid w' E. destruct Hi as [Hc Hids]; [lia|].
  apply eq_None_not_Some. intros [s Hsid%Hids].
  assert (sid = Z.of_nat (n_rand w) + 1 + time * 2 ^ 32); [|lia].
  destruct w as [pw tc hb lf ku l ss ps cn nr sh lg]. cbn in *. injection E as <- _.
  rewrite Hc, Z.shiftl_mul_pow2 by lia. unfold u64.
  rewrite (Z.mod_small (Z.of_nat nr + 1)) by lia. rewrite Z.mod_small; lia.
Qed.

(** A new session for a connection that has sent nothing, step by step. *)
Lemma new_session_silent now time fd w sid ch s1 g1 :
  sid = u64 (u64 (counter w + 1) + Z.shiftl time 32) → ch = dec (rand (n_rand w)) ++ dec time →
  send_packet (make_msg MSG_AUTH_CHALLENGE ch)
    (shared w, set_challenge ch (session_new fd (password w) sid now (heartbeat_interval_ms w)))
    = Some (tt, (g1, s1)) →
  new_session now time fd [] w = Some (tt,
    w{{counter := u64 (counter w + 1); n_rand ::= Datatypes.S; sessions ::= <[sid := s1]>;
       shared := g1; log ::= λ l, l ++ [KAdd fd (HSession sid) EPOLLIN] }}).
Proof.
  intros Hsid Hch Hsend. destruct w as [pw tc hb lf ku l ss ps cn nr sh lg]. cbn in Hsid, Hch, Hsend.
  unfold new_session, generate_id, new_challenge, gets, modify, mbind, act_bind, mret, act_ret.
  cbn -[u64 Z.shiftl dec]. rewrite <- Hsid, <- Hch.
  unfold on_session, mbind, option_bind. cbn -[u64 Z.shiftl dec make_msg].
  rewrite lookup_insert_eq. cbn -[u64 Z.shiftl dec make_msg]. unfold constant.
  rewrite lookup_insert_eq, Hsend. cbn -[u64 Z.shiftl dec make_msg].
  unfold constant. by rewrite !insert_insert_eq.
Qed.

(** ** Where the code falls short *)

Lemma on_session_other {A} sid sid' x (m : act (G * S) A) : sid' ≠ sid →
  keeps (λ w, sessions w !! sid = x) (on_session sid' m).
Proof.
  intros Hne w a w'. unfold on_session. intros (s & _ & ([a' [g s']] & _ & [= <- <-])%bind_Some)%bind_Some.
  destruct w; cbn. by rewrite lookup_insert_ne.
Qed.

Lemma modify_sessions sid x f : (∀ w, sessions (f w) = sessions w) →
  keeps (λ w, sessions w !! sid = x) (modify f).
Proof. intros Hf. apply keeps_modify. intros w. by rewrite Hf. Qed.

Lemma emit_sessions sid x e : keeps (λ w, sessions w !! sid = x) (emit e).
Proof. apply modify_sessions. by intros []. Qed.

Lemma new_session_other sid now time fd d w u w' sid' w1 :
  generate_id time w = Some (sid', w1) → sid' ≠ sid →
  new_session now time fd d w = Some (u, w') → sessions w' !! sid = sessions w !! sid.
Proof.
  intros Hg Hne E.
  set (rest := λ ch, (on_session sid' (modify (λ '(g, s), (g, set_challenge ch s))) ;;
    on_session sid' (send_packet (make_msg MSG_AUTH_CHALLENGE ch)) ;;
    when (negb (bool_decide (d = []))) (on_session sid' (on_data now d)) ;;
    emit (KAdd fd (HSession sid') EPOLLIN)) : M unit).
  assert (Hw : ∃ ch w2 s1, rest ch w2 = Some (u, w') ∧ sessions w2 = <[sid' := s1]> (sessions w)).
  { destruct w as [pw tc hb lf ku l ss ps cn nr sh lg]. cbn in Hg. injection Hg as <- _.
    do 3 eexists. split; [exact E|done]. }
  destruct Hw as (ch & w2 & s1 & Hr & Hs).
  assert (Hk : keeps (λ w, sessions w !! sid = sessions w2 !! sid) (rest ch)).
  { unfold rest. repeat (apply keeps_bind; [|intros _]); auto using on_session_other, emit_sessions.
    apply keeps_when. auto using on_session_other. }
  rewrite (Hk _ _ _ Hr eq_refl), Hs. by rewrite lookup_insert_ne.
Qed.

(** A data connection whose nine bytes come more than 50 ms after it was accepted (a
    lost packet is enough) is lost: by then the server has taken it for a new client, and
    the bytes go to that session as authentication messages; the session they name does not
    get the connection. *)
Theorem late_handshake_lost now time later sid sid' fd t0 w w' w1 u :
  pending_handshakes w = [mkPH fd [] t0] → HANDSHAKE_SHORT_TIMEOUT_MS < now - t0 →
  generate_id time w = Some (sid', w1) → sid' ≠ sid →
  (check_handshake_timeout now time ;;
   on_client_event later sid' fd [RdData (Client.handshake (Session.sid_bytes sid) 1); RdAgain]) w
  = Some (u, w') →
  sessions w' !! sid = sessions w !! sid.
Proof.
  intros Hp Hlate Hg Hne (? & w2 & E1 & E2)%bind_some.
  transitivity (sessions w2 !! sid).
  - eapply (client_event_keeps (λ w, sessions w !! sid = sessions w2 !! sid)); [..|exact E2|done];
      auto using on_session_other, emit_sessions. apply modify_sessions. by intros [].
  - revert E1. unfold check_handshake_timeout, gets, mbind, act_bind. rewrite Hp. cbn [expire].
    unfold got. cbn [buf length ph_fd accepted_at]. change (0 <? 0)%nat with false. cbn [andb].
    change (0 =? 0)%nat with true. rewrite (proj2 (Z.ltb_lt _ _) Hlate). cbn [andb].
    unfold emit, modify, mbind, act_bind. set (w3 := w{{log ::= _}}).
    destruct (finish_handshake now time fd [] w3) as [[u2 w4]|] eqn:Ef; [|done].
    intros [= _ <-]. transitivity (sessions w4 !! sid); [by destruct w4|].
    transitivity (sessions w3 !! sid); [|by destruct w].
    assert (Hg3 : ∃ w5, generate_id time w3 = Some (sid', w5)).
    { unfold w3. destruct w. cbn in Hg |- *. injection Hg as <- _. by eexists. }
    destruct Hg3 as [w5 Hg3]. exact (new_session_other sid now time fd [] w3 u2 w4 sid' w5 Hg3 Hne Ef).
Qed.

(** A start that fails at [bind] closes the socket but keeps its number; the destructor
    calls [stop], which closes that number again, whoever owns it by then. *)
Theorem failed_start_closes_twice sock w : 0 <= sock → pending_handshakes w = [] → log w = [] →
  ∃ w', (start sock false true ;; stop) w = Some (tt, w')
    ∧ List.filter (λ e, match e with SClose _ => true | _ => false end) (log w') = [SClose sock; SClose sock].
Proof.
  intros Hs Hp Hl. destruct w as [pw tc hb lf ku l ss ps cn nr sh lg]. cbn in Hp, Hl. subst.
  eexists. unfold start, stop, gets, modify, emit, mbind, act_bind. cbn.
  rewrite (proj2 (Z.ltb_ge _ _) Hs). cbn. unfold constant. rewrite (proj2 (Z.leb_le _ _) Hs). cbn. by split.
Qed.

End server.
End Server.
