(* ===== verification/ServerSession.v ===== *)
(** * The server with its sessions

    [Session] as an instance of what the server needs, and what the server does from an
    accepted connection to the session that [Handshake] starts from. *)

From coqutil Require Import Datatypes.RecordSetters.
From S2P Require Import Prelude Text Protocol WriteBuffer Frame Control Kernel ChainApi Chain Copy Session SessionFacts Client Handshake Server.
Import DoubleBraceUpdate.
Local Open Scope Z_scope.

Module ServerSession.

(** What the sessions share: the static counter of connection ids, the answers of the
    system to writes, and the log of what the outside sees. *)
Record Shared := mkShared {
  next_id : Z;
  answers : list WB.wres;
  events : list Session.effect
}.

Section instance.
Context {C : Type} `{!ChainOps C}.
Context (sha256 : bytes → bytes) (bases : list bytes).
Context (getaddrinfo : bytes → bytes → option (list Session.attempt)).
Context (reconnect_old : Z → Z → option bool).

(** A session and its callbacks in the kernel's table. *)
Definition Ses : Type := @Session.Session C * Kernel.t Session.handler.

Definition lift {A} (m : act (@Session.World C) A) : act (Shared * Ses) A := λ '(g, (s, k)),
  '(a, w) ← m (Session.mkWorld s k (next_id g) (answers g) (events g));
  Some (a, (mkShared (Session.next_conn_id w) (Session.writes w) (Session.log w),
            (Session.ses w, Session.kern w))).

#[global] Instance session_ops : SessionOps Shared Ses := {|
  session_new fd pw sid now hb := (Session.new_session fd pw sid now hb, Kernel.new);
  client_fd s := Session.client_fd s.1;
  auth_done s := (3 <=? Session.state_rank (Session.state s.1))%nat;
  set_challenge ch s := (s.1{{Session.challenge1 := ch}}, s.2);
  send_packet pkt := lift (Session.send_packet pkt);
  on_data now d := lift (Session.on_data sha256 bases getaddrinfo reconnect_old now d);
  add_data_connection i fd := lift (Session.add_data_connection getaddrinfo i fd);
  on_disconnect := lift Session.on_disconnect;
  process_pending_io now := lift (Session.process_pending_io now);
  check_heartbeat now := lift (Session.check_heartbeat now)
|}.

Context (rand : nat → Z).
Abbreviation World := (@Server.World Shared Ses).

(** A silent connection becomes a session: accepted at [t0] with nothing to read, it is
    left alone by ticks up to 50 ms later; the first tick after that makes a session of it,
    in exactly the state from which the authentication theorem starts, with a challenge of
    the random number and the time, and sends the challenge. *)
Theorem silent_client_gets_session t0 now time time0 fd (w : World) :
  Server.pending_handshakes w = [] → Server.sessions w = ∅ → 0 <= Server.counter w < 2 ^ 32 →
  0 <= time < 2 ^ 31 →
  let ch := dec (rand (Server.n_rand w)) ++ dec time in
  let sid := Server.counter w + 1 + time * 2 ^ 32 in
  ∃ w', (Server.accepted rand t0 time0 fd Server.RdAgain ;; Server.check_handshake_timeout rand now time) w
          = Some (tt, w')
    ∧ if 50 <? now - t0 then
        Server.pending_handshakes w' = []
        ∧ Server.sessions w' = {[sid := (Handshake.session0 (Server.password w) ch fd sid now
                                           (Server.heartbeat_interval_ms w), Kernel.new)]}
        ∧ events (Server.shared w') = events (Server.shared w) ++ [Session.ESend fd (make_msg MSG_AUTH_CHALLENGE ch)]
      else
        Server.pending_handshakes w' = [Server.mkPH fd [] t0] ∧ Server.sessions w' = ∅
        ∧ Server.shared w' = Server.shared w.
Proof.
  intros Hp Hs Hc Ht ch sid. destruct w as [pw tc hb lf ku l ss ps cn nr sh lg]. cbn in Hp, Hs, Hc, ch, sid. subst l ss.
  assert (Hsid : u64 (u64 (cn + 1) + Z.shiftl time 32) = sid).
  { unfold u64, sid. rewrite Z.shiftl_mul_pow2 by lia. rewrite (Z.mod_small (cn + 1)) by lia.
    rewrite Z.mod_small; lia. }
  unfold Server.accepted, Server.check_handshake_timeout, Server.set_pending, Server.emit,
    gets, modify, mbind, act_bind, mret, act_ret. cbn -[Z.ltb u64 dec Server.finish_handshake]. unfold constant.
  change Server.HANDSHAKE_SHORT_TIMEOUT_MS with 50.
  destruct (Z.ltb_spec 50 (now - t0)) as [Hlt|Hge]; cbn -[u64 dec Server.finish_handshake]; [|eexists; by split].
  unfold Server.emit, modify, mbind, act_bind, mret, act_ret. cbn -[u64 dec Server.finish_handshake].
  set (w1 := Server.mkWorld _ _ _ _ _ _ _ _ _ _ _ _).
  change (Server.finish_handshake rand now time fd [] w1) with (Server.new_session rand now time fd [] w1).
  erewrite (Server.new_session_silent rand now time fd w1 sid ch); [|by symmetry|done|reflexivity].
  cbn -[u64 dec]. unfold constant.
  eexists. split; [reflexivity|]. cbn. split_and!; [done| |done]. done.
Qed.

End instance.

(** ** Examples *)

#[local] Existing Instance SessionFacts.example_chain.
Abbreviation chain_t := (@Chain.Chain Copy.ctx).

Definition example_ops : SessionOps Shared (@Ses chain_t) :=
  session_ops Handshake.example_hash [] (λ _ _, None) (λ _ _, None).
#[local] Existing Instance example_ops.
#[local] Remove Hints session_ops : typeclass_instances.

Definition example_rand (k : nat) : Z := 12 + Z.of_nat k.

(** A server that listens on descriptor 3, and the same with one session, number 5. *)
Definition example_server : @Server.World Shared (@Ses chain_t) :=
  Server.mkWorld (lit "pw") 1 1000 3 true [] ∅ ∅ 0 0 (mkShared 0 [] []) [].

Definition example_session : @Ses chain_t :=
  (Session.new_session 7 (lit "pw") 5 0 1000, Kernel.new).

Definition example_serving : @Server.World Shared (@Ses chain_t) :=
  Server.mkWorld (lit "pw") 1 1000 3 true [] {[5 := example_session]} ∅ 5 5 (mkShared 0 [] []) [].

Lemma silent_client_gets_session_witness :
  ∃ w', (Server.accepted example_rand 0 0 8 Server.RdAgain ;;
         Server.check_handshake_timeout example_rand 51 9) example_server = Some (tt, w')
    ∧ events (Server.shared w') = [Session.ESend 8 (make_msg MSG_AUTH_CHALLENGE (lit "129"))].
Proof.
  destruct (silent_client_gets_session Handshake.example_hash [] (λ _ _, None) (λ _ _, None) example_rand
    0 51 9 0 8 example_server) as (w' & E & _ & _ & Hev); [done|done|cbn; lia|lia|].
  exists w'. split; [exact E|]. rewrite Hev. reflexivity.
Defined.

(** The nine bytes for output 1 of session 5 in two pieces, the first 50 ms after [accept],
    with checks before, between and after them. *)
Lemma data_connection_joins_witness :
  ∃ lg s', Server.open_connection example_rand 0 9 8 Server.RdAgain
             [Server.Check 50 9; Server.Piece 50 9 [5; 0; 0; 0]; Server.Check 4000 9;
              Server.Piece 4001 9 [0; 0; 0; 0; 1]; Server.Check 9000 9] example_serving
    = Some (tt, (Server.joined 5 s' (mkShared 0 [] []) example_serving){{Server.log := lg}})
    ∧ Session.pending_data_conns (fst s') = [(1, 8)].
Proof.
  edestruct (Server.data_connection_joins example_rand 5 1 8 example_session
    ((fst example_session){{Session.pending_data_conns := [(1, 8)] }}, Kernel.new)
    (mkShared 0 [] []) (mkShared 0 [] [])) as [lg Hlg]; cycle -1.
  - exists lg, ((fst example_session){{Session.pending_data_conns := [(1, 8)] }}, Kernel.new).
    split; [exact Hlg|reflexivity].
  - lia.
  - lia.
  - reflexivity.
  - apply not_elem_of_nil.
  - reflexivity.
  - reflexivity.
  - by left.
  - repeat constructor; done.
  - repeat split; try constructor; intros H; vm_compute in H |- *; lia || done.
  - reflexivity.
Defined.

Lemma server_invariant_witness :
  ∃ w, Server.reachable example_rand example_server 9 w
    ∧ NoDup (map Server.ph_fd (Server.pending_handshakes w)) ∧ length (Server.pending_handshakes w) = 2%nat.
Proof.
  eexists. split.
  - eapply Server.reach_next; [apply Server.reach_refl|].
    eapply (Server.step_accept _ 0 0 9 EPOLLIN [Server.AccConn 8 Server.RdAgain; Server.AccConn 9 (Server.RdData [1; 2])]);
      [lia|lia| |reflexivity].
    unfold Server.accepts_ok. apply (bool_decide_unpack _). by vm_compute.
  - split; [|reflexivity].
    eapply (Server.server_invariant example_rand example_server 9); [done..|].
    eapply Server.reach_next; [apply Server.reach_refl|].
    eapply (Server.step_accept _ 0 0 9 EPOLLIN [Server.AccConn 8 Server.RdAgain; Server.AccConn 9 (Server.RdData [1; 2])]);
      [lia|lia| |reflexivity].
    unfold Server.accepts_ok. apply (bool_decide_unpack _). by vm_compute.
Defined.

(** The same connection, but its bytes come after the tick at 51 ms. *)
Definition example_silent : @Server.World Shared (@Ses chain_t) :=
  example_serving{{Server.pending_handshakes := [Server.mkPH 8 [] 0] }}.

Lemma late_handshake_lost_witness :
  ∃ w', (Server.check_handshake_timeout example_rand 51 9 ;;
         Server.on_client_event 60 (6 + 9 * 2 ^ 32) 8
           [Server.RdData (Client.handshake (Session.sid_bytes 5) 1); Server.RdAgain]) example_silent
        = Some (tt, w')
    ∧ Server.sessions w' !! 5 = Server.sessions example_silent !! 5.
Proof.
  eexists. split; [vm_compute; reflexivity|].
  eapply (Server.late_handshake_lost example_rand 51 9 60 5 (6 + 9 * 2 ^ 32) 8 0 example_silent);
    [reflexivity|done|reflexivity|done|vm_compute; reflexivity].
Defined.

End ServerSession.
