(* ===== verification/Tester.v ===== *)
(** * The module tester (module_tester/main.cpp)

    A command that sends test data through one chain and back through a second one, and
    compares. The chains are those of [Chain]; what the modules do is a parameter. *)

From S2P Require Import Prelude Text ChainApi Config Chain Copy ChainFlow.
Local Open Scope Z_scope.

Module Tester.

(** ** The command line *)

Record Args := mkArgs { mod_dir : bytes; data_size : Z; chain_str : bytes; show_help : bool }.

Definition default_args : Args := mkArgs [] 4096 [] false.

Fixpoint parse_args (fuel : nat) (argv : list bytes) (a : Args) : Args :=
  match fuel, argv with
  | S f, (45 :: 77 :: rest) :: more =>                                      (* -M *)
      let '(v, more) := option_value rest more in
      parse_args f more (mkArgs v (data_size a) (chain_str a) (show_help a))
  | S f, (45 :: 115 :: rest) :: more =>                                     (* -s *)
      let '(v, more) := option_value rest more in
      let n := match v with [] => data_size a | _ => u64 (atol v) end in
      parse_args f more (mkArgs (mod_dir a) n (chain_str a) (show_help a))
  | S f, (45 :: 104 :: _) :: more =>                                        (* -h *)
      parse_args f more (mkArgs (mod_dir a) (data_size a) (chain_str a) true)
  | S f, (45 :: _) :: more => parse_args f more a
  | S f, s :: more => parse_args f more (mkArgs (mod_dir a) (data_size a) s (show_help a))
  | _, _ => a
  end.

(** ** The chain text

    The first block is skipped when it looks like an address; unlike in [parse_chain]
    empty blocks stay, as modules without a name. *)
Definition looks_like_address (b : bytes) : bool :=
  bool_decide (index_of Config.PIPE b = None)
  && negb (bool_decide (index_of Config.COMMA b = None) && bool_decide (index_of Config.COLON b = None)).

Definition parse_modules (text : bytes) : list ModuleSpec :=
  let blocks := Config.split_blocks (S (length text)) text 0 in
  let blocks := match blocks with
                | b :: rest => if looks_like_address b then rest else blocks
                | [] => []
                end in
  map Config.parse_module blocks.

(** ** The test *)

Inductive verdict := Pass | Fail.

Section test.
Context {X : Type}.
Context (init : ModuleSpec → option (X * list Chain.init_ev)).
Context (process : bytes → X → Z → Z → option (bytes * Z) → X * list Chain.mod_ev * Chain.mod_ret).

(** The tester's [wire_write] keeps what it is given, whatever the port, and accepts it. *)
Definition wire_ret (dst : Z) (data : bytes) : Z := Z.of_nat (length data).
Definition captured (c : @Chain.Chain X) : bytes := concat (map snd (Chain.exits c)).
Definition malloc_ok (_ _ : Z) : bool := true.

(** [pump_drain] after a packet was pushed: heartbeats of the main thread and tasks of the
    worker in some order ([pump]), then [wait_drain]. *)
Definition is_pump (o : Chain.op) : Prop :=
  match o with Chain.OpWork _ | Chain.OpTick _ _ => True | _ => False end.

Definition through (cfg : list ModuleSpec) (data : bytes) (src dir now : Z) (pump : list Chain.op)
    : @Chain.Chain X :=
  let n := Z.of_nat (length data) in
  ChainFlow.settled init process wire_ret malloc_ok now cfg
    (Chain.OpAlloc n :: Chain.OpPush n data src dir :: pump).

(** Chain B has the modules in reverse order. *)
Definition run_test (cfg : list ModuleSpec) (original : bytes) (now : Z) (pump_a pump_b : list Chain.op)
    : verdict :=
  match captured (through cfg original 0 0 now pump_a) with
  | [] => Fail
  | encoded =>
      if bool_decide (captured (through (rev cfg) encoded 1 1 now pump_b) = original) then Pass else Fail
  end.

(** The whole program: [None] when it ends before the test; the exit status. *)
Definition main (argv : list bytes) (original : Z → bytes) (now : Z) (pump_a pump_b : list Chain.op)
    : option verdict * Z :=
  let a := parse_args (length argv) argv default_args in
  if show_help a || bool_decide (mod_dir a = []) then
    (None, if bool_decide (mod_dir a = []) then 1 else 0)
  else if bool_decide (chain_str a = []) then (None, 0)
  else match parse_modules (chain_str a) with
       | [] => (None, 1)
       | cfg => match run_test cfg (original (data_size a)) now pump_a pump_b with
                | Pass => (Some Pass, 0)
                | Fail => (Some Fail, 1)
                end
       end.

(** ** What a verdict means *)

(** When everything left through one port, what was captured is what left there. *)
Lemma captured_one_port p (c : @Chain.Chain X) :
  (∀ q, q ≠ p → ChainFlow.exits_at q c = []) → captured c = concat (ChainFlow.exits_at p c).
Proof.
  unfold captured, ChainFlow.exits_at. intros H. f_equal.
  induction (Chain.exits c) as [|[q d] l IH]; [done|].
  assert (q = p) as ->.
  { destruct (decide (q = p)) as [|Hne]; [done|]. specialize (H q Hne). by rewrite filter_cons_True in H. }
  rewrite filter_cons_True by done. cbn. f_equal. apply IH.
  intros q Hq. specialize (H q Hq). by rewrite filter_cons_False in H by (cbn; congruence).
Qed.

Context (f : ModuleSpec → Z → bytes → option bytes).

Lemma through_captured cfg d src dir now pump :
  cfg ≠ [] → Forall (ChainFlow.relays init process f) cfg → d ≠ [] → dir = 0 ∨ dir = 1 ∧ src = 1 →
  Forall is_pump pump →
  captured (through cfg d src dir now pump) = default [] (ChainFlow.whole f cfg dir d).
Proof.
  intros Hcfg Hr Hd Hdir Hp.
  set (ops := Chain.OpAlloc (Z.of_nat (length d)) :: Chain.OpPush (Z.of_nat (length d)) d src dir :: pump).
  assert (Ho : Forall ChainFlow.valid_op ops).
  { apply Forall_cons; split; [done|]. apply Forall_cons; split; [by split|]. eapply Forall_impl; [exact Hp|]. by intros []. }
  assert (Hpush : ∀ dir', ChainFlow.pushes dir' ops = if dir =? dir' then [d] else []).
  { intros dir'. unfold ChainFlow.pushes, ops. cbn. replace (omap _ pump) with (@nil bytes).
    - by destruct (dir =? dir').
    - clear -Hp. induction Hp as [|o l Ho _ IH]; [done|]. cbn. by destruct o. }
  pose proof (λ dir', ChainFlow.chain_output init process wire_ret malloc_ok f cfg Hr Hcfg now now ops dir' Ho) as Hout.
  change (ChainFlow.settled init process wire_ret malloc_ok now cfg ops) with (through cfg d src dir now pump) in Hout.
  assert (Hex : ∀ dir', ChainFlow.exits_at (1 - dir') (through cfg d src dir now pump)
    = if dir =? dir' then option_list (ChainFlow.whole f cfg dir' d) else []).
  { intros dir'. destruct (Hout dir') as [_ Hx]. etransitivity; [exact Hx|]. rewrite Hpush. destruct (dir =? dir'); [|done]. rewrite omap_cons_opt. apply app_nil_r. }
  rewrite (captured_one_port (1 - dir)).
  - rewrite Hex, Z.eqb_refl. destruct (ChainFlow.whole f cfg dir d); [apply app_nil_r|done].
  - intros q Hq. specialize (Hex (1 - q)). replace (1 - (1 - q)) with q in Hex by lia.
    rewrite Hex. by rewrite (proj2 (Z.eqb_neq _ _)) by lia.
Qed.

Lemma relays_nonempty spec dir d : ChainFlow.relays init process f spec → dir = 0 ∨ dir = 1 → d ≠ [] →
  f spec dir d ≠ Some [].
Proof.
  intros (x & ? & _ & _ & Hp & _) Hdir Hd E. specialize (Hp dir 0 d 0 Hdir Hd). rewrite E in Hp.
  by destruct Hp.
Qed.

Lemma encode_nonempty cfg d : Forall (ChainFlow.relays init process f) cfg → d ≠ [] →
  ChainFlow.encode f cfg d ≠ Some [].
Proof.
  intros Hr. revert d. induction Hr as [|spec cfg Hs _ IH]; intros d Hd.
  - cbn. by intros [= ->].
  - pose proof (relays_nonempty spec 0 d Hs ltac:(by left) Hd) as Hne. cbn.
    destruct (f spec 0 d) as [d'|]; [|done]. apply IH. by intros ->.
Qed.

(** The verdict is about the modules undone in the order in which they were applied. *)
Lemma run_test_exact cfg d now pump_a pump_b :
  cfg ≠ [] → Forall (ChainFlow.relays init process f) cfg → d ≠ [] →
  Forall is_pump pump_a → Forall is_pump pump_b →
  run_test cfg d now pump_a pump_b =
    if bool_decide (ChainFlow.encode f cfg d ≫= ChainFlow.decode f (rev cfg) = Some d) then Pass else Fail.
Proof.
  intros Hcfg Hr Hd Ha Hb. unfold run_test.
  rewrite (through_captured cfg d 0 0 now pump_a) by (done || by left). change (ChainFlow.whole f cfg 0 d) with (ChainFlow.encode f cfg d).
  pose proof (encode_nonempty cfg d Hr Hd) as Hne.
  destruct (ChainFlow.encode f cfg d) as [[|b e]|] eqn:E; [done| |done]. cbn [from_option id mbind option_bind].
  rewrite (through_captured (rev cfg) (b :: e) 1 1 now pump_b); [| |by apply Forall_rev|done|by right|done].
  - change (ChainFlow.whole f (rev cfg) 1 (b :: e)) with (ChainFlow.decode f (rev cfg) (b :: e)).
    destruct (ChainFlow.decode f (rev cfg) (b :: e)) as [o|]; cbn [from_option id].
    + do 2 case_bool_decide; congruence.
    + do 2 case_bool_decide; congruence.
  - intros H. apply Hcfg. by rewrite <- (rev_involutive cfg), H.
Qed.

(** The tester's verdict on one module is right: whatever the interleaving of its
    worker and its heartbeats, it reports a pass exactly when the module's second direction
    undoes the first on the test data. *)
Theorem tester_exact_on_one_module spec d now pump_a pump_b :
  ChainFlow.relays init process f spec → d ≠ [] → Forall is_pump pump_a → Forall is_pump pump_b →
  run_test [spec] d now pump_a pump_b = Pass ↔ f spec 0 d ≫= f spec 1 = Some d.
Proof.
  intros Hr Hd Ha Hb. rewrite run_test_exact by (done || by apply Forall_singleton).
  replace (ChainFlow.encode f [spec] d ≫= ChainFlow.decode f (rev [spec])) with (f spec 0 d ≫= f spec 1)
    by (cbn; by destruct (f spec 0 d)).
  case_bool_decide; split; done.
Qed.

End test.

(** ** Where the tester falls short *)

(** A module that is not found, or whose [init] fails, makes both chains empty; an empty
    chain hands every packet straight to the wire, and the comparison succeeds. *)
Theorem tester_passes_missing_module {X} (init : ModuleSpec → option (X * list Chain.init_ev)) process spec d now pump_a pump_b :
  init spec = None → d ≠ [] → Forall is_pump pump_a → Forall is_pump pump_b →
  run_test init process [spec] d now pump_a pump_b = Pass.
Proof.
  intros Hi Hd Ha Hb.
  assert (Hnew : Chain.chain_new init now [spec] = Chain.fresh [] false []).
  { unfold Chain.chain_new. cbn. unfold Chain.create_one. by rewrite Hi. }
  assert (Hcap : ∀ d src dir pump, Forall is_pump pump → captured (through init process [spec] d src dir now pump) = d).
  { clear d Hd Ha Hb. intros d src dir pump Hp. unfold captured, through, ChainFlow.settled. cbn [foldl].
    rewrite Hnew. set (c0 := Chain.run_op _ _ _ (Chain.run_op _ _ _ _ _) _).
    assert (Hc0 : Chain.exits c0 = [(if dir =? 0 then 1 else 0, d)] ∧ Chain.queue c0 = [] ∧ Chain.modules c0 = [])
      by done.
    assert (Hk : ∀ c, Chain.queue c = [] → Chain.modules c = [] →
      let c' := foldl (Chain.run_op process wire_ret malloc_ok) c pump in c' = c).
    { clear -Hp. induction Hp as [|o l Ho _ IH]; intros c Hq Hm; [done|]. cbn [foldl].
      assert (Chain.run_op process wire_ret malloc_ok c o = c) as ->; [|by apply IH].
      destruct o; try done; cbn; [unfold Chain.work; by rewrite Hq|].
      unfold Chain.check_module_heartbeats. by rewrite Hm. }
    assert (Hdrain : ∀ k c, Chain.queue c = [] → Chain.drain process wire_ret malloc_ok k now c = c)
      by (intros [|k] c Hq; cbn; by rewrite ?Hq).
    destruct Hc0 as (He & Hq & Hm). clearbody c0. rewrite (Hk c0 Hq Hm), Hdrain, He by done.
    apply app_nil_r. }
  unfold run_test. rewrite Hcap by done. destruct d as [|b d]; [done|].
  change (rev [spec]) with [spec]. rewrite Hcap by done. by rewrite bool_decide_true.
Qed.

(** Two modules, each of which undoes itself: one appends its name on the way out and drops
    it on the way back, the other does the same with another name. *)
Definition tag_process (nm : bytes) (x : unit) (dir src : Z) (data : option (bytes * Z))
    : unit * list Chain.mod_ev * Chain.mod_ret :=
  match data with
  | Some (d, a) => (tt, [Chain.MWrite (1 - dir) (if dir =? 0 then d ++ nm else
                     if bool_decide (drop (length d - length nm) d = nm) then take (length d - length nm) d else [0]) a],
                    Chain.RetLastWrite)
  | None => (tt, [], Chain.RetConst 0)
  end.
Definition tag_init (spec : ModuleSpec) : option (unit * list Chain.init_ev) := Some (tt, []).

(** The two-chain test reports a failure for two such modules although the chains of the two
    endpoints, which have the same order, undo each other: chain B of the tester is the
    mirror image. *)
Theorem tester_fails_good_modules :
  let cfg := [mkSpec [1] []; mkSpec [2] []] in
  run_test tag_init tag_process cfg [7] 0 [] [] = Fail
  ∧ captured (through tag_init tag_process cfg (captured (through tag_init tag_process cfg [7] 0 0 0 [])) 1 1 0 [])
    = [7].
Proof. split; vm_compute; reflexivity. Qed.

Lemma tester_exact_on_one_module_witness :
  run_test Copy.init Copy.process [mkSpec Copy.s_copy []] [1; 2; 3] 0 [Chain.OpTick 0 50; Chain.OpWork 0] []
  = Pass.
Proof.
  apply (tester_exact_on_one_module Copy.init Copy.process (λ _ _ d, Some d) (mkSpec Copy.s_copy [])).
  - by apply ChainFlow.copy_relays.
  - done.
  - repeat constructor.
  - constructor.
  - reflexivity.
Defined.

(** The tester as a command: the modules are looked up by name. *)
Example tester_main_ex :
  main Copy.init Copy.process [lit "-M"; lit "mods"; lit "-s3"; lit "h:1,p;copy|m:c"] (λ n, replicate (Z.to_nat n) 9)
    0 [] [] = (Some Pass, 0)
  ∧ main Copy.init Copy.process [lit "-Mmods"; lit "nosuch"] (λ n, [1]) 0 [] [] = (Some Pass, 0)
  ∧ main Copy.init Copy.process [lit "copy"] (λ n, [1]) 0 [] [] = (None, 1).
Proof. split_and!; vm_compute; reflexivity. Qed.

End Tester.
