(* ===== verification/CommandLine.v ===== *)
(** * The command lines of the two programs (client/main.cpp, server/main.cpp)

    From [argv] to what [main] does: exit, print, or start an endpoint with its settings. *)

From coqutil Require Import Datatypes.RecordSetters.
From S2P Require Import Prelude Text ChainApi Config.
Import DoubleBraceUpdate.
Local Open Scope Z_scope.

Module CommandLine.

(** An option is a dash and a letter. *)
Definition DASH : Z := 45.

(** [-t], [-tN] and [-t N], with [std::thread::hardware_concurrency()]. *)
Definition thread_option (cores : Z) (rest : bytes) (more : list bytes) : Z * list bytes :=
  let '(n, more) := match rest, more with
                    | _ :: _, _ => (atoi rest, more)
                    | [], (d :: v) :: more' => if isdigit d then (atoi (d :: v), more') else (int32 cores, more)
                    | [], _ => (int32 cores, more)
                    end in
  (if n <? 1 then 1 else n, more).

(** [-H], [--heartbeat]: an empty value leaves the setting. *)
Definition heartbeat_option (old : Z) (v : bytes) : Z :=
  let n := match v with [] => old | _ => atoi v end in
  if n <? 1 then 1 else n.

(** [heartbeat_sec * 1000], which leaves [int] above 2147483 seconds. *)
Definition heartbeat_ms (sec : Z) : option Z :=
  if sec * 1000 <? 2 ^ 31 then Some (sec * 1000) else None.

(** [-v], [-vv], ...: [verbosity = strlen(argv[i]) - 1]. *)
Definition verbosity_of (arg : bytes) : Z := Z.of_nat (length arg) - 1.

(** ** The client *)

Record ClientArgs := mkClientArgs {
  listen_addr : bytes; listen_port : Z; target_addr : bytes;
  verbosity : Z; thread_count : Z;
  show_help : bool; show_module_list : bool; module_help_name : bytes;
  mod_dir : bytes; chain_str : bytes; heartbeat_sec : Z
}.

Definition client_defaults : ClientArgs :=
  mkClientArgs (lit "0.0.0.0") 0 [] 0 1 false false [] [] [] 30.

(** [-L [bind_addr:]port:target_host:target_port]: the address to listen on (when given),
    the port, the target. *)
Definition parse_L (s : bytes) : option (option bytes * Z * bytes) :=
  let colon := Config.COLON in
  match find colon s 0, rfind colon s with
  | Some first, Some last =>
      if (first =? last)%nat then None else
      match find colon s (S first) with
      | None => None
      | Some second =>
          match find colon s (S second) with
          | None => Some (None, u16 (atoi (c_str (substr s 0 first))), drop (S first) s)
          | Some third =>
              Some (Some (substr s 0 first),
                    u16 (atoi (c_str (substr s (S first) (second - first - 1)))),
                    substr s (S second) (third - second - 1) ++ [colon] ++ drop (S third) s)
          end
      end
  | _, _ => None
  end.

(** The loop over [argv]; no result when [-L] is malformed and [main] returns 1. An
    argument that starts with a dash is never the chain. *)
Fixpoint client_args (fuel : nat) (cores : Z) (argv : list bytes) (a : ClientArgs)
    : option ClientArgs :=
  match fuel with
  | O => Some a
  | S f =>
      match argv with
      | [] => Some a
      | arg :: more =>
          if bool_decide (arg = lit "--module-help") then
            match more with
            | v :: more' => client_args f cores more' (a{{module_help_name := v}})
            | [] => Some a
            end
          else if bool_decide (arg = lit "--module-list") then
            client_args f cores more (a{{show_module_list := true}})
          else
            match arg with
            | 45 :: 76 :: rest =>                                            (* -L *)
                let '(v, more) := option_value rest more in
                match parse_L v with
                | None => None
                | Some (addr, port, target) =>
                    client_args f cores more
                      (a{{listen_addr ::= λ old, default old addr; listen_port := port;
                          target_addr := target}})
                end
            | 45 :: 118 :: _ => client_args f cores more (a{{verbosity := verbosity_of arg}})  (* -v *)
            | 45 :: 77 :: rest =>                                            (* -M *)
                let '(v, more) := option_value rest more in
                client_args f cores more (a{{mod_dir := v}})
            | 45 :: 116 :: rest =>                                           (* -t *)
                let '(n, more) := thread_option cores rest more in
                client_args f cores more (a{{thread_count := n}})
            | 45 :: 72 :: rest =>                                            (* -H *)
                let '(v, more) := option_value rest more in
                client_args f cores more (a{{heartbeat_sec ::= λ old, heartbeat_option old v}})
            | 45 :: 104 :: _ => client_args f cores more (a{{show_help := true}})  (* -h *)
            | 45 :: _ => client_args f cores more a
            | _ => client_args f cores more (a{{chain_str := arg}})
            end
      end
  end.

(** What [main] does. *)
Inductive action (C : Type) :=
| Usage (code : Z)
| ModuleHelp (name dir : bytes)
| ModuleList (dir : bytes)
| BadConfig                       (* returns 1 *)
| Overflow                        (* the product of the heartbeat leaves [int] *)
| Run (settings : C).
Arguments Usage {C} code.
Arguments ModuleHelp {C} name dir.
Arguments ModuleList {C} dir.
Arguments BadConfig {C}.
Arguments Overflow {C}.
Arguments Run {C} settings.

Record ClientSettings := mkClientSettings {
  c_config : Config.ChainConfig; c_listen : bytes * Z; c_target : bytes;
  c_mod_dir : bytes; c_threads : Z; c_heartbeat_ms : Z
}.

Definition client_main (cores : Z) (argv : list bytes) : action ClientSettings :=
  match client_args (length argv) cores argv client_defaults with
  | None => Usage 1
  | Some a =>
      if show_help a then Usage 0
      else if negb (bool_decide (module_help_name a = [])) then ModuleHelp (module_help_name a) (mod_dir a)
      else if show_module_list a then ModuleList (mod_dir a)
      else if bool_decide (chain_str a = []) then Usage 1
      else
        let cfg := Config.parse_chain (chain_str a) in
        if negb (Config.valid cfg) then BadConfig
        else match heartbeat_ms (heartbeat_sec a) with
             | None => Overflow
             | Some ms => Run (mkClientSettings cfg (listen_addr a, listen_port a) (target_addr a)
                                 (mod_dir a) (thread_count a) ms)
             end
  end.

(** ** The server *)

Record ServerArgs := mkServerArgs {
  s_listen_addr : bytes; s_listen_port : Z; s_password : bytes; s_mod_dir : bytes;
  s_show_help : bool; s_show_module_list : bool; s_module_help_name : bytes;
  s_thread_count : Z; s_verbosity : Z; s_heartbeat_sec : Z
}.

Definition server_defaults : ServerArgs :=
  mkServerArgs (lit "0.0.0.0") 0 [] [] false false [] 1 0 30.

(** [-l host:port], at the first colon; without one nothing is set. *)
Definition parse_l (v : bytes) (a : ServerArgs) : ServerArgs :=
  match index_of Config.COLON v with
  | Some colon => a{{s_listen_addr := take colon v; s_listen_port := u16 (atoi (drop (S colon) v))}}
  | None => a
  end.

Fixpoint server_args (fuel : nat) (cores : Z) (argv : list bytes) (a : ServerArgs) : ServerArgs :=
  match fuel with
  | O => a
  | S f =>
      match argv with
      | [] => a
      | arg :: more =>
          if bool_decide (arg = lit "--module-help") then
            match more with
            | v :: more' => server_args f cores more' (a{{s_module_help_name := v}})
            | [] => a
            end
          else if bool_decide (arg = lit "--module-list") then
            server_args f cores more (a{{s_show_module_list := true}})
          else if bool_decide (arg = lit "--heartbeat") then
            let '(v, more) := option_value [] more in
            server_args f cores more (a{{s_heartbeat_sec ::= λ old, heartbeat_option old v}})
          else
            match arg with
            | 45 :: 108 :: rest =>                                           (* -l *)
                let '(v, more) := option_value rest more in server_args f cores more (parse_l v a)
            | 45 :: 65 :: rest =>                                            (* -A *)
                let '(v, more) := option_value rest more in
                server_args f cores more (a{{s_password := v}})
            | 45 :: 77 :: rest =>                                            (* -M *)
                let '(v, more) := option_value rest more in
                server_args f cores more (a{{s_mod_dir := v}})
            | 45 :: 118 :: _ => server_args f cores more (a{{s_verbosity := verbosity_of arg}})
            | 45 :: 72 :: rest =>                                            (* -H *)
                let '(v, more) := option_value rest more in
                server_args f cores more (a{{s_heartbeat_sec ::= λ old, heartbeat_option old v}})
            | 45 :: 104 :: _ => server_args f cores more (a{{s_show_help := true}})
            | 45 :: 116 :: rest =>                                           (* -t *)
                let '(n, more) := thread_option cores rest more in
                server_args f cores more (a{{s_thread_count := n}})
            | _ => server_args f cores more a
            end
      end
  end.

Record ServerSettings := mkServerSettings {
  s_listen : bytes * Z; s_pw : bytes; s_dir : bytes; s_threads : Z; s_heartbeat_ms : Z
}.

Definition server_main (cores : Z) (argv : list bytes) : action ServerSettings :=
  let a := server_args (length argv) cores argv server_defaults in
  if s_show_help a then Usage 0
  else if negb (bool_decide (s_module_help_name a = [])) then ModuleHelp (s_module_help_name a) (s_mod_dir a)
  else if s_show_module_list a then ModuleList (s_mod_dir a)
  else if (s_listen_port a =? 0) || bool_decide (s_password a = []) then Usage 1
  else match heartbeat_ms (s_heartbeat_sec a) with
       | None => Overflow
       | Some ms => Run (mkServerSettings (s_listen_addr a, s_listen_port a) (s_password a)
                           (s_mod_dir a) (s_thread_count a) ms)
       end.

(** ** What the settings satisfy *)

Lemma thread_option_pos cores rest more : 1 <= (thread_option cores rest more).1.
Proof.
  unfold thread_option. destruct (match rest, more with _ :: _, _ => _ | [], _ => _ end) as [n m].
  cbn. destruct (Z.ltb_spec n 1); lia.
Qed.

Lemma heartbeat_option_pos old v : 1 <= heartbeat_option old v.
Proof. unfold heartbeat_option. destruct (Z.ltb_spec (match v with [] => old | _ => atoi v end) 1); lia. Qed.

Lemma u16_range z : 0 <= u16 z < 65536.
Proof. unfold u16. apply Z.mod_pos_bound. lia. Qed.

Lemma parse_L_port s addr port target : parse_L s = Some (addr, port, target) → 0 <= port < 65536.
Proof.
  unfold parse_L. repeat case_match; try done; intros [= _ <- _]; apply u16_range.
Qed.

(** What the loop over [argv] maintains. *)
Definition client_ok (a : ClientArgs) : Prop :=
  1 <= thread_count a ∧ 1 <= heartbeat_sec a ∧ 0 <= listen_port a < 65536.

Lemma client_args_ok fuel cores : ∀ argv a a',
  client_args fuel cores argv a = Some a' → client_ok a → client_ok a'.
Proof.
  unfold client_ok.
  induction fuel as [|f IH]; intros argv a a' E Ha; cbn [client_args] in E; [by injection E as <-|].
  destruct argv as [|arg more]; [by injection E as <-|].
  destruct (bool_decide (arg = lit "--module-help")).
  { destruct more; [by injection E as <-|]. eapply IH; [exact E|]. by destruct a. }
  destruct (bool_decide (arg = lit "--module-list")); [eapply IH; [exact E|]; by destruct a|].
  repeat case_match; try done; (eapply IH; [exact E|]); destruct a; cbn in *; unfold constant;
    split_and!; try lia; try apply heartbeat_option_pos;
    try match goal with H : parse_L _ = _ |- _ => apply parse_L_port in H; lia end;
    match goal with H : thread_option ?c ?r ?m = _ |- _ =>
      pose proof (thread_option_pos c r m) as Hp; rewrite H in Hp; exact Hp end.
Qed.

(** A client that starts has settings within bounds, whatever its command line: a
    well-formed chain configuration, at least one worker, a heartbeat interval of at least a
    second that fits [int], a port that fits 16 bits. *)
Theorem client_settings_ok cores argv st :
  client_main cores argv = Run st →
  Config.wf (c_config st) ∧ 1 <= c_threads st ∧ 1000 <= c_heartbeat_ms st < 2 ^ 31
  ∧ 0 <= (c_listen st).2 < 65536.
Proof.
  unfold client_main. destruct (client_args (length argv) cores argv client_defaults) as [a|] eqn:E; [|done].
  apply client_args_ok in E; [|done]. destruct E as (Ht & Hh & Hp).
  destruct (show_help a); [done|]. destruct (negb _); [done|]. destruct (show_module_list a); [done|].
  destruct (bool_decide _); [done|].
  destruct (Config.valid (Config.parse_chain (chain_str a))) eqn:Ev; [|done]. cbn [negb].
  unfold heartbeat_ms. destruct (Z.ltb_spec (heartbeat_sec a * 1000) (2 ^ 31)); [|done].
  intros [= <-]. cbn. split_and!; [by apply Config.parse_chain_accepts|lia..].
Qed.

Lemma client_settings_ok_witness :
  ∃ st, client_main 8 [lit "-L8080:h:80"; lit "-t-3"; lit "-H0"; lit "s:1,pw"] = Run st
    ∧ 1 <= c_threads st ∧ 1000 <= c_heartbeat_ms st < 2 ^ 31.
Proof.
  eexists. split; [vm_compute; reflexivity|].
  destruct (client_settings_ok 8 [lit "-L8080:h:80"; lit "-t-3"; lit "-H0"; lit "s:1,pw"] _
    ltac:(vm_compute; reflexivity)) as (_ & H1 & H2 & _). done.
Defined.

(** ** The listen specification *)

(** Look-ups in a string given as [pre ++ mid ++ rest]. *)
Lemma find_at (c : Z) (s pre mid t : bytes) n :
  s = pre ++ mid ++ c :: t → n = length pre → c ∉ mid → find c s n = Some (length pre + length mid)%nat.
Proof. intros -> -> Hs. unfold find. by rewrite drop_app_length, index_of_app_r. Qed.

Lemma find_none_at (c : Z) (s pre mid : bytes) n :
  s = pre ++ mid → n = length pre → c ∉ mid → find c s n = None.
Proof. intros -> -> Hs. unfold find. rewrite drop_app_length. by rewrite (proj2 (index_of_none _ _) Hs). Qed.

Lemma rfind_at (c : Z) (s pre t : bytes) : s = pre ++ c :: t → c ∉ t → rfind c s = Some (length pre).
Proof. intros ->. apply rfind_app. Qed.

Lemma substr_at (s pre mid t : bytes) n k :
  s = pre ++ mid ++ t → n = length pre → k = length mid → substr s n k = mid.
Proof. intros -> -> ->. unfold substr. by rewrite drop_app_length, take_app_length. Qed.

Lemma drop_at (s pre t : bytes) n : s = pre ++ t → n = length pre → drop n s = t.
Proof. intros -> ->. apply drop_app_length. Qed.

(** Equations between concatenations and between their lengths. *)
Ltac apps := cbn; repeat (rewrite <- app_assoc; cbn); reflexivity.
Ltac lens := repeat (rewrite length_app || cbn [length]); lia.

Lemma c_str_dec n : 0 <= n < 2 ^ 63 → c_str (dec n) = dec n.
Proof.
  intros Hn. pose proof (dec_no 0 n Hn eq_refl) as H0. induction (dec n) as [|b l IH]; [done|].
  apply not_elem_of_cons in H0 as [Hb Hl]. cbn. rewrite (proj2 (Z.eqb_neq b 0)) by done. by rewrite IH.
Qed.

Lemma atoi_c_str_dec n : 0 <= n < 65536 → u16 (atoi (c_str (dec n))) = n.
Proof.
  intros Hn. rewrite c_str_dec by lia. pose proof (atoi_dec n [] ltac:(lia) I) as E.
  rewrite app_nil_r in E. rewrite E. unfold u16. by rewrite Z.mod_small.
Qed.

Section listen.
Context (addr host tport : bytes) (port : Z).
Abbreviation c := Config.COLON.
Context (Ha : c ∉ addr) (Hh : c ∉ host) (Ht : c ∉ tport) (Hp : 0 <= port < 65536).

Lemma listen_full :
  parse_L (addr ++ c :: dec port ++ c :: host ++ c :: tport) = Some (Some addr, port, host ++ [c] ++ tport).
Proof.
  assert (Hd : c ∉ dec port) by (apply dec_no; [lia|done]).
  unfold parse_L. set (s := addr ++ _).
  rewrite (find_at c s [] addr (dec port ++ c :: host ++ c :: tport) 0) by done.
  rewrite (rfind_at c s (addr ++ c :: dec port ++ c :: host) tport) by (done || (unfold s; apps)).
  rewrite (proj2 (Nat.eqb_neq _ _)) by lens.
  rewrite (find_at c s (addr ++ [c]) (dec port) (host ++ c :: tport)) by (done || lens || (unfold s; apps)).
  rewrite (find_at c s (addr ++ c :: dec port ++ [c]) host tport) by (done || lens || (unfold s; apps)).
  rewrite (substr_at s [] addr (c :: dec port ++ c :: host ++ c :: tport)) by done.
  rewrite (substr_at s (addr ++ [c]) (dec port) (c :: host ++ c :: tport)) by (lens || (unfold s; apps)).
  rewrite (substr_at s (addr ++ c :: dec port ++ [c]) host (c :: tport)) by (lens || (unfold s; apps)).
  rewrite (drop_at s (addr ++ c :: dec port ++ c :: host ++ [c]) tport) by (lens || (unfold s; apps)).
  by rewrite atoi_c_str_dec.
Qed.

Lemma listen_short :
  parse_L (dec port ++ c :: host ++ c :: tport) = Some (None, port, host ++ [c] ++ tport).
Proof.
  assert (Hd : c ∉ dec port) by (apply dec_no; [lia|done]).
  unfold parse_L. set (s := dec port ++ _).
  rewrite (find_at c s [] (dec port) (host ++ c :: tport) 0) by done.
  rewrite (rfind_at c s (dec port ++ c :: host) tport) by (done || (unfold s; apps)).
  rewrite (proj2 (Nat.eqb_neq _ _)) by lens.
  rewrite (find_at c s (dec port ++ [c]) host tport) by (done || lens || (unfold s; apps)).
  rewrite (find_none_at c s (dec port ++ c :: host ++ [c]) tport) by (done || lens || (unfold s; apps)).
  rewrite (substr_at s [] (dec port) (c :: host ++ c :: tport)) by done.
  rewrite (drop_at s (dec port ++ [c]) (host ++ c :: tport)) by (lens || (unfold s; apps)).
  by rewrite atoi_c_str_dec.
Qed.

End listen.

(** The listen specification round trips: [bind:port:host:hostport] and
    [port:host:hostport] are read back as the address, the port and the target they were
    written from, for names without colons. *)
Theorem listen_spec_roundtrip addr port host tport :
  Config.COLON ∉ addr → Config.COLON ∉ host → Config.COLON ∉ tport → 0 <= port < 65536 →
  parse_L (addr ++ Config.COLON :: dec port ++ Config.COLON :: host ++ Config.COLON :: tport)
    = Some (Some addr, port, host ++ [Config.COLON] ++ tport)
  ∧ parse_L (dec port ++ Config.COLON :: host ++ Config.COLON :: tport)
    = Some (None, port, host ++ [Config.COLON] ++ tport).
Proof. intros. split; [by apply listen_full|by apply listen_short]. Qed.

Lemma listen_spec_roundtrip_witness :
  parse_L (lit "127.0.0.1:8080:h:80") = Some (Some (lit "127.0.0.1"), 8080, lit "h:80").
Proof.
  apply (listen_spec_roundtrip (lit "127.0.0.1") 8080 (lit "h") (lit "80"));
    [apply index_of_none; reflexivity..|lia].
Defined.

(** ** Where the client falls short *)

(** The client's [--heartbeat] option does not exist: its test follows one that already
    takes every argument with a dash. The option is skipped, and its value becomes the
    chain configuration, in place of one given before. *)
Theorem long_heartbeat_ignored fuel cores v more a :
  (∀ rest, v ≠ DASH :: rest) → v ≠ lit "--module-help" → v ≠ lit "--module-list" →
  client_args (S (S fuel)) cores (lit "--heartbeat" :: v :: more) a =
  client_args fuel cores more (a{{chain_str := v}}).
Proof.
  intros Hv H1 H2.
  change (client_args (S (S fuel)) cores (lit "--heartbeat" :: v :: more) a)
    with (client_args (S fuel) cores (v :: more) a).
  cbn [client_args]. rewrite (bool_decide_false _ H1), (bool_decide_false _ H2).
  destruct v as [|b rest]; [done|]. destruct (decide (b = DASH)) as [->|Hb]; [by destruct (Hv rest)|].
  unfold DASH in Hb. destruct b as [|p|p]; [done| |done].
  do 6 (destruct p as [p|p|]; try done).
Qed.

Lemma long_heartbeat_ignored_witness :
  client_main 1 [lit "-L80:h:90"; lit "s:1,pw"; lit "--heartbeat"; lit "5"] = BadConfig
  ∧ client_args 2 1 [lit "--heartbeat"; lit "5"] client_defaults = Some (client_defaults{{chain_str := lit "5"}}).
Proof.
  split; [vm_compute; reflexivity|].
  apply (long_heartbeat_ignored 0 1 (lit "5") [] client_defaults); done.
Defined.

(** Without [-L] the client starts all the same, with port 0 and an empty target; and a port
    above 65535 is taken modulo 65536. *)
Example listen_not_checked :
  client_main 1 [lit "s:1,pw"] =
    Run (mkClientSettings (Config.parse_chain (lit "s:1,pw")) (lit "0.0.0.0", 0) [] [] 1 30000)
  ∧ parse_L (lit "65616:h:90") = Some (None, 80, lit "h:90").
Proof. split; vm_compute; reflexivity. Qed.

(** A heartbeat above 2147483 seconds overflows [int] when it is turned into milliseconds. *)
Example heartbeat_overflow :
  server_main 1 [lit "-l:80"; lit "-Apw"; lit "-H"; lit "2147484"] = Overflow.
Proof. vm_compute. reflexivity. Qed.

(** Both programs at work. *)
Example mains_ex :
  server_main 8 [lit "-l:8080"; lit "-A"; lit "pw"; lit "-t"; lit "-vv"] =
    Run (mkServerSettings ([], 8080) (lit "pw") [] 8 30000)
  ∧ client_main 8 [lit "-L"; lit "127.0.0.1:80:h:90"; lit "-t4"; lit "-H0"; lit "s:1,pw;split|n:2"] =
    Run (mkClientSettings (Config.parse_chain (lit "s:1,pw;split|n:2")) (lit "127.0.0.1", 80) (lit "h:90") [] 4 1000).
Proof. split; vm_compute; reflexivity. Qed.

End CommandLine.
